(* ===== verification/_CoqProject ===== *)
-Q . S2P
Prelude.v
F64.v
Method.v
Routing.v
RouteCache.v
JsonCache.v
Reload.v
Multipart.v
Request.v
Chain.v
PyContext.v
Builtin.v
RateLimit.v
BasicAuth.v
Circuit.v
Concurrent.v
Channel.v
Broadcast.v
Subscribers.v
Heartbeat.v
Presence.v
Sse.v
Response.v
Log.v
Worker.v
Guarded.v
PyReload.v
DbContext.v
Executor.v
Tasks.v
Text.v
Crypto.v
Paginate.v
StaticFiles.v
Metrics.v
PyValue.v
Json.v
RowConv.v
Context.v
PgPool.v
DbOps.v
Supervisor.v
WorkerLife.v
Members.v
Application.v
AccessLog.v
Pools.v
WebSocket.v
Client.v
Startup.v
Runtime.v
Streams.v
Uploads.v
Services.v
PyRequest.v
