(* ===== verification/Prelude.v ===== *)
(** * Hypern: a verified model of the native core

    Hypern is a Python web framework whose server, router, middleware, caches, realtime, database
    and utility parts are written in Rust (src/src/).  This library models that Rust code as
    executable functions and step relations and proves what its components promise, or, where the
    code does something else, what it does instead.

    ** How the program runs

    [Supervisor.start] (core/server.rs, multiprocess.rs) forks the workers, reloads them on signals
    and waits for them at the end; a worker serves connections with the Axum router, which answers
    the health probes and hands every other request to the handler ([Worker.dispatch]).
    [Worker.handle_request] (core/worker.rs) refuses a request while the server drains
    ([Reload.is_draining], core/reload.rs), counts it, and converts it
    ([Request.from_axum], http/request.rs).  [Chain.execute_before] (middleware/chain.rs) runs the
    middleware that applies (Builtin.v, RateLimit.v, BasicAuth.v and the circuit breaker and cache of
    Circuit.v, all from middleware/builtin.rs, configured by the Python constructors of
    middleware/mod.rs).  [Routing.find_matching_route] (routing/router.rs) selects the handler,
    whose coroutine is driven by Runtime.v and which writes to a [Response.ResponseSlot]
    (http/response.rs); the after middleware runs and the response goes out
    ([Response.into_response]).  A handler may parse a form (Multipart.v) and save its files
    (Uploads.v), read and write JSON (Json.v), use a cache (RouteCache.v, JsonCache.v), send events
    (Sse.v, Streams.v) or websocket messages (WebSocket.v), talk to the realtime parts (Channel.v,
    Broadcast.v, Subscribers.v, Heartbeat.v, Presence.v), hand work to threads (Executor.v,
    Tasks.v), take services from a context (Context.v), call other servers (Client.v), and open
    database contexts (DbContext.v) or transactions (DbOps.v) on the pools of PgPool.v, which the
    end of the request finalizes.  Log.v and Metrics.v observe all of it.

    ** Files

    Foundations:
    - Prelude.v (this file): tactics, Rust's [Result], machine words, [str] as its bytes with the
      operations the code uses, decimals, and hash maps with an arbitrary iteration order.
    - F64.v: binary64 arithmetic through the Standard Library's [SpecFloat].
    - PyValue.v: Python values and the conversions of PyO3's [extract].

    Requests and routing:
    - Method.v: http/method.rs.  [from_str_spec]: the parser accepts exactly the nine names in any case.
    - Routing.v: routing/route.rs and router.rs.  Path conversion to the matcher's syntax
      ([convert_segments]), pattern matching ([matches_spec]), the outcome of adding and removing
      routes ([add_route_outcome], [remove_route_keeps_dispatch]) and the dispatch of a registered
      static route ([static_route_dispatch]).
    - RouteCache.v: routing/cache.rs.  The size bound and which entry eviction removes.
    - JsonCache.v: fast_path/json_cache.rs.  [json_cache_get_spec] against the history of the
      operations; the size bound.
    - Multipart.v: http/multipart.rs.  [multipart_roundtrip]: the parser inverts an RFC 7578
      encoder.  Uploads.v: saving an uploaded file, and how a client's file name escapes.
    - Request.v: http/request.rs and headers.rs.  [cookies_roundtrip].  PyRequest.v: what Python
      sees of headers and body.
    - Worker.v: core/worker.rs and [http_execute] of core/interpreter.rs.  Authentication guards
      the handlers, and where middleware headers end up.  Guarded.v: the rate limiter guards them
      over every run of requests ([limiter_guards_handlers]).
    - StaticFiles.v: fast_path/static_files.rs.  Nothing outside the root is served
      ([static_confined]) and the cache is invisible while files do not change.

    Middleware:
    - Chain.v: middleware/chain.rs.  What a run of the chain executes ([execute_before_spec],
      [execute_error_spec]) and the lazily parsed query ([query_params_lazy]).  PyContext.v: its
      Python methods; what a script of calls does to a context ([context_scripts]).
    - Builtin.v: the stateless middleware.  [cors_outcome].
    - RateLimit.v: the three limiters over the state of all clients.  The bound of the fixed
      window; the sliding window has none.  Concurrent.v: the limiter and the circuit breaker under
      the runtime's threads: the bound holds in every interleaving ([fixed_window_concurrent]) and
      the breaker is linearizable to its machine ([circuit_linearizable]).
    - BasicAuth.v: base64 and the decision ([basic_auth_decision]), with the round trip
      against an RFC 4648 encoder.
    - Circuit.v: the circuit breaker refines a three-state machine ([circuit_refines],
      [circuit_trips]); the response cache never answers ([cache_never_hits]).
    - Members.v: the Python classes as members of a chain and the registration; what any chain that
      a Python program registers can do to a request ([registered_chain_tame]).

    The whole:
    - Application.v: routes and middleware as a Python program registers them, the handlers that a
      worker gets from them, and the specification of a request ([serves]) that the worker's handler
      meets exactly ([application_serves]).  AccessLog.v: over a run of requests the log queue takes the
      arrival and the status of each ([access_log]).

    Responses, streams and realtime:
    - Sse.v: http/streaming.rs.  [sse_roundtrip]: events survive the wire to a client of the
      HTML standard; streams made from Python never send.  Streams.v: the raw stream as a bounded
      queue ([stream_fifo]), generators of events ([sse_collect_outcome]), [send_file].
    - Response.v: http/response.rs.  [wire_safe]: the headers, status and framing of what is sent.
    - WebSocket.v: http/websocket.rs.  Order, loss and the close frame of a connection.
    - Channel.v: realtime/channel.rs.  The meaning of topic patterns and the refinement of the
      topic matcher to a relation; Broadcast.v: realtime/broadcast.rs, deduplication;
      Subscribers.v: both subscriber types, who account for every message; Heartbeat.v:
      realtime/heartbeat.rs, eviction; Presence.v: realtime/presence.rs, the index agrees with the
      channels and what a diff says.

    Processes, threads and services:
    - Startup.v: core/socket.rs and global.rs, the listening socket and the process-wide cells.
    - Supervisor.v: core/server.rs, multiprocess.rs and what a worker does on a signal.  [start]
      ends after a signal and leaves no child; what a reload does to the new workers.
    - WorkerLife.v: [run_worker] of core/worker.rs, from the first request to the end of the process:
      every request gets the grace of its signal unless the process is cut short by SIGKILL, by a signal
      before its handlers are installed, or by an abort ([shutdown_grace]).
    - Reload.v: core/reload.rs.  Requests, the drain, the startup task and a waiter as an
      interleaving ([step]): the in-flight count is the number of requests being handled and of
      those whose client left, a drained server stays drained, and why a drain may not complete
      ([drain_wakeup_lost], [disconnect_blocks_drain]).  PyReload.v: the Python objects over it,
      which reload nothing ([python_reload_inert]).
    - Runtime.v: core/runtime.rs, blocking.rs and the coroutine driver.  A handler completes
      exactly when its coroutine ends; the thread pool runs every task once, and drains if its tasks
      end ([runner_drains]; which tasks end is a parameter).
    - Executor.v: core/blocking_executor.rs.  The parallel map is the sequential one; shutdown
      strands the queue, and callers can deadlock with the workers.
    - Tasks.v: core/tasks.rs.  The life cycle of a background task (a worker marks it before it waits
      for the interpreter lock to call its handler) and what cancelling does.
    - Pools.v: the object pools of memory/.  Context.v: core/context.rs, which values survive
      injection and what a created context holds.
    - Log.v: logging/mod.rs.  Every accepted entry is printed once and in order, or is lost with the
      channel when it came after the consumer's last flush, and the consumer ends ([log_delivery]).  Metrics.v: telemetry/mod.rs.  The registry is one independent metric per name and label.
    - Client.v: client/mod.rs, the request a client sends.  Services.v: redis/mod.rs and grpc/mod.rs.

    Data:
    - Json.v: utils/json.rs, the conversion of JSON to Python and back.  RowConv.v:
      database/row_converter.rs, parameters and columns.
    - PgPool.v: database/pool.rs, connection URLs ([parse_url_spec]) and the named pools.
    - DbOps.v: database/operation.rs, transaction.rs, connection.rs, any_pool.rs.  A transaction ends
      once, with the driver's own ROLLBACK after an end it refused; bulk changes are sequential, and a stream yields every row.
    - DbContext.v: database/request_context.rs.  Connections are used and returned cleanly in
      every run that uses sessions only while their context is registered and leaves transactions to them
      ([connections_clean]; [reopened_leaks] and [sql_begin_leaks] are what happens otherwise), and how a
      transaction ends ([finalize_outcome]).
    - Text.v, Crypto.v, Paginate.v: utils/str_utils.rs, crypto.rs, pagination.rs and time_utils.rs:
      slugs and case conversion, tokens and signatures, pages and cursors.

    ** How state and operations correspond to the code

    A struct is a record with the source's fields; a method is a function from the state
    to the new state and the result, with every branch and early return; several locks of one
    object are one record, since the operations modelled hold them one after another and run to
    completion: Python calls hold the interpreter lock.  (The module declares [gil_used = false];
    that on a free-threaded interpreter two calls on one object may overlap is not modelled.)  Where
    threads do interleave (Reload.v, WorkerLife.v, Concurrent.v, Executor.v, Tasks.v, Log.v,
    Runtime.v, WebSocket.v) the model is a step relation at the atomic accesses, lock sections and
    channel operations, and the theorems hold in every reachable state or for every order of steps.  Objects with identity that the code shares (database contexts, pools)
    live in a heap.  The middleware objects' mutable state, the log queue and the rest of the world are one type
    [W] that the chain threads ([Holds] names its parts).  Clock readings, random ids, the answers of the database, of the
    operating system and of Python callables are arguments; in Supervisor.v and WorkerLife.v time
    passes at clock readings and sleeps.  Integers are [Z] with the wrap of the release profile written out ([w64],
    [w32], [sat_sub]; overflow checks are off).  A panic aborts the process (the release profile says
    so): the operations that can panic return an [option] or an [outcome], the chain and the worker pass it
    on ([Chain.run_chain], [Worker.dispatch]), and the theorems say when it happens.  Strings are the bytes of the
    [str] (Text.v: its chars).  Maps are [gmap]; where the code iterates over a [HashMap] or
    [DashMap] the order is an arbitrary enumeration ([HashIter]), so that theorems hold for every
    order.

    ** Third-party code

    Crates and the world are classes whose laws are their documented behaviour: the Unicode tables
    ([RustStr], [Unicode]), UTF-8 validation ([Utf8]), [XXH3], the matchit tree ([MatchIt]),
    [FormUrlencoded], [PercentDecode], tokio's [Notify], broadcast ([Bcast], [RingBcast]), bounded
    ([Mpsc], [FifoMpsc]) and unbounded ([Unbounded]) channels, the http crate's header validation
    ([Http]), axum's matching of the probe paths ([AxumRoutes]), base64 engines ([Base64]), signature schemes ([Scheme]), digests ([Hashes]),
    PostgreSQL's wire formats ([PgFormat], [FromSql], [SqlxRow]), chrono's texts ([Chrono]), Python's
    [asyncio] ([Asyncio]) and the operating system's processes ([Kernel]) and sockets ([Net]).  Each class that a
    theorem with a witness uses has an executable instance, with which the witness evaluates.

    ** Fuel

    [Routing.convert_loop] and [Multipart.split_loop] consume at least one byte per round and
    [Channel.drain] one item of the receiver's backlog; [convert_loop_fuel], [split_loop_fuel] and
    [drain_fuel] show that more fuel than the length of the text, or than the backlog, changes
    nothing.  [Executor.chunks] and [DbOps.slice_chunks] take the length of the list, of which each
    round consumes at least one item ([chunks_concat], [concat_chunks]); [lower_hex]
    thirty-two digits, enough for 128 bits ([unhex_lower_hex]).  [Supervisor.poll] takes [poll_fuel], enough by
    [poll_fuel_enough] since every round sleeps; the rounds of [Supervisor.signal_loop] and the
    steps of [Runtime.step_coroutine] are unbounded in the code, and the theorems say for which
    inputs some fuel is enough ([start_leaves_no_child], [completes_iff_ends]).  All other
    recursion is structural.

    ** What is not modelled

    The accept loop, TLS and HTTP framing that core/server.rs and worker.rs leave to Tokio and hyper;
    the thread-based workers of
    other systems than Unix, whose code does not type check; the registration of the Python module
    (lib.rs and the [register] functions); random numbers and hashes that are calls of a crate.
    In the files modelled: log lines about the server's own progress, [__repr__] methods that only
    print fields, getters of one field, and operations that only move Python objects.  The Python
    handlers and every other Python callable are parameters.  Symbolic links (StaticFiles.v, Uploads.v),
    a failing standard error and a log queue of size zero (Log.v), instances of subclasses of Python's
    built-in types (PyValue.v), and calls of one database context from several threads at once (DbContext.v) are
    left out where they are named. *)
From Stdlib Require Import ZArith Lia.
From Stdlib Require Export Ascii.
From stdpp Require Import base gmap strings list fin_maps pretty sorting relations.

#[global] Open Scope Z_scope.
#[global] Set Default Proof Using "Type".

(** * Tactics *)

(** Case analysis on every [match] and [if] of the goal, keeping equations. *)
Ltac split_matches :=
  repeat (case_match; simplify_eq/=); try done.

(** Decide boolean tests of integers into (in)equalities for [lia]. *)
Ltac bool_to_prop :=
  repeat match goal with
  | H : _ && _ = true |- _ => apply andb_true_iff in H as [? ?]
  | H : _ || _ = false |- _ => apply orb_false_iff in H as [? ?]
  | H : negb _ = true |- _ => apply negb_true_iff in H
  | H : negb _ = false |- _ => apply negb_false_iff in H
  | H : (_ <? _) = true |- _ => apply Z.ltb_lt in H
  | H : (_ <? _) = false |- _ => apply Z.ltb_ge in H
  | H : (_ <=? _) = true |- _ => apply Z.leb_le in H
  | H : (_ <=? _) = false |- _ => apply Z.leb_gt in H
  | H : (_ =? _) = true |- _ => apply Z.eqb_eq in H
  | H : (_ =? _) = false |- _ => apply Z.eqb_neq in H
  end.

(** * Fallible code: Rust's [Result] *)

Inductive result (E A : Type) : Type :=
| Ok (a : A)
| Err (e : E).
Arguments Ok {E A} _.
Arguments Err {E A} _.

(** The [?] operator is the bind of the result monad: [x ← r; k]. *)
#[export] Instance result_ret E : MRet (result E) := @Ok E.
#[export] Instance result_bind E : MBind (result E) :=
  λ A B f r, match r with Ok a => f a | Err e => Err e end.
#[export] Instance result_fmap E : FMap (result E) :=
  λ A B f r, match r with Ok a => Ok (f a) | Err e => Err e end.

(** [Option::ok_or]. *)
Definition ok_or {E A} (o : option A) (e : E) : result E A :=
  match o with Some a => Ok a | None => Err e end.

Definition is_ok {E A} (r : result E A) : bool :=
  match r with Ok _ => true | Err _ => false end.

(** * Machine integers *)

Definition u64_max : Z := 2 ^ 64 - 1.
Definition u32_max : Z := 2 ^ 32 - 1.

(** Two's complement wrap-around of release-mode [u64] arithmetic. *)
Definition w64 (z : Z) : Z := z mod 2 ^ 64.
Definition w32 (z : Z) : Z := z mod 2 ^ 32.
(** The [as i64] cast. *)
Definition i64 (z : Z) : Z := (z + 2 ^ 63) mod 2 ^ 64 - 2 ^ 63.

(** [u64::saturating_sub]. *)
Definition sat_sub (a b : Z) : Z := Z.max 0 (a - b).

Definition is_u64 (z : Z) : Prop := 0 <= z <= u64_max.
Definition is_u32 (z : Z) : Prop := 0 <= z <= u32_max.

Lemma w64_range z : is_u64 (w64 z).
Proof.
  unfold is_u64, w64, u64_max. pose proof (Z.mod_pos_bound z (2 ^ 64) eq_refl). lia.
Qed.

Lemma w64_id z : is_u64 z → w64 z = z.
Proof. unfold is_u64, w64, u64_max. intros. apply Z.mod_small. lia. Qed.

Lemma u32_u64 z : is_u32 z → is_u64 z.
Proof. unfold is_u32, is_u64, u32_max, u64_max. lia. Qed.

Create HintDb rust discriminated.
#[local] Set Warnings "-implicit-create-rewrite-hint-db".
#[export] Hint Resolve w64_range u32_u64 : rust.


(** * Strings: Rust's [str] as its UTF-8 bytes *)

Bind Scope char_scope with ascii.

Definition starts_with (p s : string) : bool := String.prefix p s.

Fixpoint str_strip_prefix (p s : string) : option string :=
  match p, s with
  | EmptyString, _ => Some s
  | String a p', String b s' => if Ascii.eqb a b then str_strip_prefix p' s' else None
  | _, _ => None
  end.

(** [str::contains] for a string pattern. *)
Fixpoint str_contains (sub s : string) : bool :=
  starts_with sub s ||
  match s with EmptyString => false | String _ s' => str_contains sub s' end.

(** [str::contains] for a [char] pattern. *)
Fixpoint str_contains_char (c : ascii) (s : string) : bool :=
  match s with
  | EmptyString => false
  | String a s' => Ascii.eqb a c || str_contains_char c s'
  end.

(** [str::trim_start_matches] and [str::trim_end_matches] for an ASCII char. *)
Fixpoint trim_start_char (c : ascii) (s : string) : string :=
  match s with
  | EmptyString => EmptyString
  | String a s' => if Ascii.eqb a c then trim_start_char c s' else s
  end.

Fixpoint trim_end_char (c : ascii) (s : string) : string :=
  match s with
  | EmptyString => EmptyString
  | String a s' =>
      match trim_end_char c s' with
      | EmptyString => if Ascii.eqb a c then EmptyString else String a EmptyString
      | t => String a t
      end
  end.

(** [str::split] on an ASCII char: always at least one piece. *)
Fixpoint str_split (c : ascii) (s : string) : list string :=
  match s with
  | EmptyString => [EmptyString]
  | String a s' =>
      if Ascii.eqb a c then EmptyString :: str_split c s'
      else match str_split c s' with
           | p :: ps => String a p :: ps
           | [] => [String a EmptyString]
           end
  end.

(** [str::split_once] on an ASCII char. *)
Fixpoint str_split_once (c : ascii) (s : string) : option (string * string) :=
  match s with
  | EmptyString => None
  | String a s' =>
      if Ascii.eqb a c then Some (EmptyString, s')
      else match str_split_once c s' with
           | Some (l, r) => Some (String a l, r)
           | None => None
           end
  end.

(** [slice::join] on strings. *)
Definition str_join (sep : string) (l : list string) : string := String.concat sep l.

Definition str_is_empty (s : string) : bool :=
  match s with EmptyString => true | _ => false end.

Definition str_len (s : string) : Z := Z.of_nat (String.length s).

(** [to_string] of an unsigned integer. *)
Definition dec (z : Z) : string := pretty z.

(** [{:x}] of an unsigned integer, and [{:0n x}], which pads it with zeros. *)
Definition hex_char (n : Z) : ascii := default "0"%char (String.get (Z.to_nat n) "0123456789abcdef").
Fixpoint hex_go (fuel : nat) (z : Z) (acc : string) : string :=
  match fuel with
  | O => acc
  | S fuel' =>
      let acc := String (hex_char (z mod 16)) acc in
      if z / 16 =? 0 then acc else hex_go fuel' (z / 16) acc
  end.
Definition lower_hex (z : Z) : string := hex_go 32 z "".
Definition pad_zero (n : nat) (s : string) : string :=
  String.concat "" (replicate (n - String.length s) "0") +:+ s.

(** [str::parse::<u64>]: an optional plus sign, then decimal digits that fit. *)
Definition digit_of (c : ascii) : option Z :=
  let b := Z.of_N (N_of_ascii c) in
  if (48 <=? b) && (b <=? 57) then Some (b - 48) else None.

Fixpoint parse_digits (acc : Z) (s : string) : option Z :=
  match s with
  | EmptyString => Some acc
  | String c s' =>
      d ← digit_of c;
      let acc' := acc * 10 + d in
      if acc' <=? u64_max then parse_digits acc' s' else None
  end.

Definition parse_u64 (s : string) : option Z :=
  match s with
  | EmptyString => None
  | String c s' =>
      if Ascii.eqb c "+"%char then
        match s' with EmptyString => None | _ => parse_digits 0 s' end
      else parse_digits 0 s
  end.

Definition byte_of_ascii (c : ascii) : Z := Z.of_N (N_of_ascii c).

Definition is_ascii_upper (c : ascii) : bool :=
  (65 <=? byte_of_ascii c) && (byte_of_ascii c <=? 90).
Definition is_ascii_lower (c : ascii) : bool :=
  (97 <=? byte_of_ascii c) && (byte_of_ascii c <=? 122).

Definition char_to_upper (c : ascii) : ascii :=
  if is_ascii_lower c then ascii_of_N (N_of_ascii c - 32) else c.
Definition char_to_lower (c : ascii) : ascii :=
  if is_ascii_upper c then ascii_of_N (N_of_ascii c + 32) else c.

Fixpoint str_map (f : ascii → ascii) (s : string) : string :=
  match s with
  | EmptyString => EmptyString
  | String a s' => String (f a) (str_map f s')
  end.

(** [str::to_ascii_uppercase] and [str::to_ascii_lowercase]. *)
Definition to_ascii_uppercase : string → string := str_map char_to_upper.
Definition to_ascii_lowercase : string → string := str_map char_to_lower.

Fixpoint str_forall (P : ascii → bool) (s : string) : bool :=
  match s with
  | EmptyString => true
  | String a s' => P a && str_forall P s'
  end.

(** [str::is_ascii]. *)
Definition is_ascii (s : string) : bool := str_forall (fun c => byte_of_ascii c <? 128) s.

(** ASCII part of [char::is_whitespace]. *)
Definition is_ascii_space (c : ascii) : bool :=
  let b := byte_of_ascii c in ((9 <=? b) && (b <=? 13)) || (b =? 32).

Fixpoint trim_start_by (P : ascii → bool) (s : string) : string :=
  match s with
  | EmptyString => EmptyString
  | String a s' => if P a then trim_start_by P s' else s
  end.

Fixpoint trim_end_by (P : ascii → bool) (s : string) : string :=
  match s with
  | EmptyString => EmptyString
  | String a s' =>
      match trim_end_by P s' with
      | EmptyString => if P a then EmptyString else String a EmptyString
      | t => String a t
      end
  end.

Definition trim_ascii (s : string) : string :=
  trim_end_by is_ascii_space (trim_start_by is_ascii_space s).

(** The Unicode tables behind [str::to_uppercase], [str::to_lowercase] and
    [str::trim].  Their values outside ASCII are data of Rust's standard library
    (the Unicode character database); the laws are the documented ones that the
    code relies on. *)
Class RustStr := {
  to_uppercase : string → string;
  to_lowercase : string → string;
  trim : string → string;
  to_uppercase_ascii s : is_ascii s = true → to_uppercase s = to_ascii_uppercase s;
  to_lowercase_ascii s : is_ascii s = true → to_lowercase s = to_ascii_lowercase s;
  trim_is_ascii s : is_ascii s = true → trim s = trim_ascii s
}.

(** The instance that leaves every non-ASCII byte alone, for evaluation. *)
#[refine] Instance ascii_RustStr : RustStr := {
  to_uppercase := to_ascii_uppercase;
  to_lowercase := to_ascii_lowercase;
  trim := trim_ascii
}.
Proof. all: done. Defined.

(** [String::from_utf8_lossy]: the identity on valid UTF-8. *)
Class Utf8 := {
  valid_utf8 : string → bool;
  from_utf8_lossy : string → string;
  valid_utf8_ascii s : is_ascii s = true → valid_utf8 s = true;
  from_utf8_lossy_valid s : valid_utf8 s = true → from_utf8_lossy s = s
}.

(** The instance for ASCII text: every other byte is replaced. *)
#[refine] Instance ascii_Utf8 : Utf8 := {
  valid_utf8 := is_ascii;
  from_utf8_lossy := str_map (fun c => if byte_of_ascii c <? 128 then c else "?"%char)
}.
Proof.
  - done.
  - unfold is_ascii. induction s as [|a s IH]; simpl; [done|]. intros H.
    bool_to_prop. rewrite (proj2 (Z.ltb_lt _ _)) by done. by rewrite IH.
Defined.

(** Slices: [&s[n..]] and [&s[..n]]. *)
Fixpoint str_drop (n : nat) (s : string) : string :=
  match n, s with
  | O, _ => s
  | S n', String _ s' => str_drop n' s'
  | S _, EmptyString => EmptyString
  end.

Fixpoint str_take (n : nat) (s : string) : string :=
  match n, s with
  | S n', String a s' => String a (str_take n' s')
  | _, _ => EmptyString
  end.

(** The first index at which a (non-empty) needle occurs. *)
Fixpoint str_find (needle s : string) : option nat :=
  if starts_with needle s then Some O
  else match s with
       | EmptyString => None
       | String _ s' => match str_find needle s' with Some i => Some (S i) | None => None end
       end.

(** [str::trim_matches] for an ASCII char. *)
Definition trim_matches_char (c : ascii) (s : string) : string :=
  trim_end_char c (trim_start_char c s).

Definition chr (n : Z) : ascii := ascii_of_N (Z.to_N n).
Definition cr : ascii := chr 13.
Definition lf : ascii := chr 10.
Definition dquote : ascii := chr 34.
Definition crlf : string := String cr (String lf EmptyString).
#[global] Arguments cr : simpl never.
#[global] Arguments lf : simpl never.
#[global] Arguments dquote : simpl never.

(** ** String lemmas *)

Lemma str_app_cons a s t : String a s +:+ t = String a (s +:+ t).
Proof. done. Qed.

Lemma str_app_nil_l s : "" +:+ s = s.
Proof. done. Qed.

#[export] Instance str_app_assoc : Assoc (=) String.append.
Proof.
  intros s t u. induction s as [|a s IH]; [done|].
  rewrite !str_app_cons. by f_equal.
Qed.

Lemma str_app_nil_r s : s +:+ "" = s.
Proof. induction s as [|a s IH]; [done|]. rewrite str_app_cons. by f_equal. Qed.

Lemma str_length_app s t : String.length (s +:+ t) = (String.length s + String.length t)%nat.
Proof. induction s as [|a s IH]; [done|]. rewrite str_app_cons. simpl. by f_equal. Qed.

#[export] Hint Rewrite str_app_nil_l str_app_nil_r str_length_app str_app_cons : rust_rw.

(** ** Slices, prefixes and searches *)

Lemma str_drop_app s t : str_drop (String.length s) (s +:+ t) = t.
Proof. induction s as [|a s IH]; [done|]. by rewrite str_app_cons. Qed.

Lemma str_take_app s t : str_take (String.length s) (s +:+ t) = s.
Proof. induction s as [|a s IH]; [by destruct t|]. rewrite str_app_cons. simpl. by rewrite IH. Qed.

Lemma starts_with_app p t : starts_with p (p +:+ t) = true.
Proof.
  unfold starts_with. induction p as [|a p IH]; [by destruct t|].
  rewrite str_app_cons. simpl. by destruct (ascii_dec a a).
Qed.

(** A needle without the char [c] that occurs across [c] already occurs before it. *)
Lemma starts_with_stop p s c t :
  str_contains_char c p = false → starts_with p (s +:+ String c t) = true →
  starts_with p s = true.
Proof.
  unfold starts_with. revert p. induction s as [|a s IH]; intros [|b p] Hc H; simpl in *;
    try done.
  - destruct (ascii_dec b c) as [->|]; [|done]. by rewrite Ascii.eqb_refl in Hc.
  - apply orb_false_iff in Hc as [_ Hc].
    destruct (ascii_dec b a); [|done]. by eapply IH.
Qed.

Lemma str_find_app needle s c t k :
  str_contains_char c needle = false → str_contains needle s = false →
  str_find needle (String c t) = Some k →
  str_find needle (s +:+ String c t) = Some (String.length s + k)%nat.
Proof.
  intros Hc. induction s as [|a s IH]; intros Hs Hf; [done|].
  cbn [str_contains] in Hs. apply orb_false_iff in Hs as [Hp Hs].
  assert (starts_with needle (String a s +:+ String c t) = false) as Hn.
  { destruct (starts_with needle (String a s +:+ String c t)) eqn:E; [|done].
    apply starts_with_stop in E; [congruence|done]. }
  rewrite str_app_cons in *. cbn [str_find String.length].
  by rewrite Hn, IH.
Qed.

Lemma str_contains_char_app c s t :
  str_contains_char c (s +:+ t) = str_contains_char c s || str_contains_char c t.
Proof.
  induction s as [|a s IH]; [done|]. rewrite str_app_cons. simpl. by rewrite IH, orb_assoc.
Qed.

Lemma str_forall_app P s t : str_forall P (s +:+ t) = str_forall P s && str_forall P t.
Proof.
  induction s as [|a s IH]; [done|]. rewrite str_app_cons. simpl. by rewrite IH, andb_assoc.
Qed.

Lemma str_forall_impl (P Q : ascii → bool) s :
  (∀ a, P a = true → Q a = true) → str_forall P s = true → str_forall Q s = true.
Proof. intros H. induction s; simpl; [done|]. rewrite !andb_true_iff. naive_solver. Qed.

Lemma str_forall_not_contains (P : ascii → bool) c s :
  P c = false → str_forall P s = true → str_contains_char c s = false.
Proof.
  intros Hc. induction s as [|a s IH]; simpl; [done|]. rewrite andb_true_iff. intros [Ha Hs].
  rewrite IH by done. destruct (Ascii.eqb_spec a c); naive_solver congruence.
Qed.

(** Splitting at the first separator. *)
Lemma str_split_app c s t :
  str_contains_char c s = false → str_split c (s +:+ String c t) = s :: str_split c t.
Proof.
  induction s as [|a s IH]; intros H; simpl in *.
  - by rewrite Ascii.eqb_refl.
  - apply orb_false_iff in H as [Ha H]. rewrite ?str_app_cons. simpl. by rewrite Ha, IH.
Qed.

Lemma str_split_none c s : str_contains_char c s = false → str_split c s = [s].
Proof.
  induction s as [|a s IH]; intros H; simpl in *; [done|].
  apply orb_false_iff in H as [Ha H]. by rewrite Ha, IH.
Qed.

Lemma str_split_once_app c s t :
  str_contains_char c s = false → str_split_once c (s +:+ String c t) = Some (s, t).
Proof.
  induction s as [|a s IH]; intros H; simpl in *.
  - by rewrite Ascii.eqb_refl.
  - apply orb_false_iff in H as [Ha H]. rewrite ?str_app_cons. simpl. by rewrite Ha, IH.
Qed.

Lemma split_once_spec c s a b :
  str_split_once c s = Some (a, b) ↔ s = a +:+ String c b ∧ str_contains_char c a = false.
Proof.
  split.
  - revert a b. induction s as [|x s IH]; intros a b; simpl; [done|].
    destruct (Ascii.eqb_spec x c) as [->|Hn]; [by intros [= <- <-]|].
    destruct (str_split_once c s) as [[l r]|] eqn:E; [|done]. intros [= <- <-].
    destruct (IH l r eq_refl) as [-> Hl]. split; [done|]. simpl. rewrite Hl.
    by rewrite (proj2 (Ascii.eqb_neq _ _)).
  - intros [-> Ha]. by apply str_split_once_app.
Qed.

Lemma split_once_none c s : str_split_once c s = None ↔ str_contains_char c s = false.
Proof.
  induction s as [|a s IH]; simpl; [done|]. destruct (Ascii.eqb a c); simpl; [done|].
  rewrite <- IH. destruct (str_split_once c s) as [[l r]|]; done.
Qed.

Lemma strip_prefix_app p s : str_strip_prefix p (p +:+ s) = Some s.
Proof.
  induction p as [|a p IH]; [done|]. rewrite str_app_cons. cbn [str_strip_prefix].
  by rewrite Ascii.eqb_refl.
Qed.

Lemma strip_prefix_spec p s t : str_strip_prefix p s = Some t ↔ s = p +:+ t.
Proof.
  split; [|intros ->; apply strip_prefix_app].
  revert s. induction p as [|a p IH]; intros [|b s]; simpl; [by intros [= <-]|by intros [= <-]|done|].
  destruct (Ascii.eqb_spec a b) as [->|]; [|done]. intros ->%IH. by rewrite str_app_cons.
Qed.

(** Trimming. *)
Lemma trim_end_by_snoc P s a :
  P a = false → trim_end_by P (s +:+ String a "") = s +:+ String a "".
Proof.
  intros Ha. induction s as [|b s IH]; simpl.
  - rewrite ?str_app_nil_l. simpl. by rewrite Ha.
  - rewrite ?str_app_cons. simpl. rewrite IH. by destruct s.
Qed.

Lemma trim_end_by_none P s : str_forall (λ a, negb (P a)) s = true → trim_end_by P s = s.
Proof.
  induction s as [|b s IH]; simpl; [done|]. rewrite andb_true_iff. intros [Hb Hs].
  rewrite IH by done. apply negb_true_iff in Hb. rewrite Hb. by destruct s.
Qed.

Lemma trim_start_by_none P s : str_forall (λ a, negb (P a)) s = true → trim_start_by P s = s.
Proof.
  destruct s as [|b s]; simpl; [done|]. rewrite andb_true_iff. intros [Hb Hs].
  apply negb_true_iff in Hb. by rewrite Hb.
Qed.

Lemma trim_end_char_by c s : trim_end_char c s = trim_end_by (λ a, Ascii.eqb a c) s.
Proof. induction s as [|a s IH]; simpl; [done|]. by rewrite IH. Qed.

Lemma trim_start_char_by c s : trim_start_char c s = trim_start_by (λ a, Ascii.eqb a c) s.
Proof. induction s as [|a s IH]; simpl; [done|]. by rewrite IH. Qed.

(** Unquoting a text that contains no quote. *)
Lemma trim_matches_quoted c s :
  str_contains_char c s = false → trim_matches_char c (String c (s +:+ String c "")) = s.
Proof.
  intros H. unfold trim_matches_char. simpl. rewrite Ascii.eqb_refl.
  assert (str_forall (λ a, negb (Ascii.eqb a c)) s = true) as Hf.
  { induction s as [|a s IH]; simpl in *; [done|]. apply orb_false_iff in H as [-> H].
    simpl. auto. }
  destruct s as [|a s].
  - rewrite ?str_app_nil_l. simpl. by rewrite Ascii.eqb_refl.
  - rewrite ?str_app_cons. simpl in *. apply orb_false_iff in H as [Ha H].
    rewrite Ha. apply andb_true_iff in Hf as [_ Hf]. rewrite trim_end_char_by. simpl.
    assert (trim_end_by (λ a, Ascii.eqb a c) (s +:+ String c "") = s) as ->.
    { clear H. induction s as [|b s IH].
      - rewrite ?str_app_nil_l. simpl. by rewrite Ascii.eqb_refl.
      - rewrite ?str_app_cons. simpl in *. apply andb_true_iff in Hf as [Hb Hf].
        rewrite IH by done. apply negb_true_iff in Hb. rewrite Hb. by destruct s. }
    destruct s; [by rewrite Ha|done].
Qed.

Lemma str_find_here n t : str_find n (n +:+ t) = Some O.
Proof.
  destruct (n +:+ t) as [|a u] eqn:E; cbn [str_find]; rewrite <- E, starts_with_app; done.
Qed.

(** A needle whose first char does not occur in [s] is not found inside [s]. *)
Lemma str_find_skip c n s t k :
  str_contains_char c s = false → str_find (String c n) t = Some k →
  str_find (String c n) (s +:+ t) = Some (String.length s + k)%nat.
Proof.
  induction s as [|a s IH]; intros Hs Hf; [done|].
  simpl in Hs. apply orb_false_iff in Hs as [Ha Hs].
  rewrite str_app_cons. cbn [str_find String.length].
  assert (starts_with (String c n) (String a (s +:+ t)) = false) as ->.
  { unfold starts_with. simpl. destruct (ascii_dec c a) as [->|]; [|done].
    by rewrite Ascii.eqb_refl in Ha. }
  by rewrite IH.
Qed.

(** Trimming one leading space of an ASCII text that starts and ends with non-spaces. *)
Lemma trim_ascii_lead a s b :
  is_ascii_space a = false → is_ascii_space b = false →
  trim_ascii (String " " (String a (s +:+ String b ""))) = String a (s +:+ String b "").
Proof.
  intros Ha Hb. unfold trim_ascii. simpl. rewrite Ha.
  by apply (trim_end_by_snoc is_ascii_space (String a s) b).
Qed.

Lemma str_length_drop n s : String.length (str_drop n s) = (String.length s - n)%nat.
Proof. revert s. induction n as [|n IH]; intros [|a s]; simpl; auto. Qed.

Lemma starts_with_length p s : starts_with p s = true → (String.length p <= String.length s)%nat.
Proof.
  unfold starts_with. revert s. induction p as [|a p IH]; intros [|b s]; simpl; try lia; try done.
  destruct (ascii_dec a b); [|done]. intros H%IH. lia.
Qed.

(** An occurrence lies inside the text. *)
Lemma str_find_bound n s k : str_find n s = Some k → (k + String.length n <= String.length s)%nat.
Proof.
  revert k. induction s as [|a s IH]; intros k; cbn [str_find].
  - destruct (starts_with n "") eqn:E; [|done]. intros [= <-]. by apply starts_with_length in E.
  - destruct (starts_with n (String a s)) eqn:E.
    + intros [= <-]. by apply starts_with_length in E.
    + destruct (str_find n s) as [i|]; [|done]. intros [= <-]. specialize (IH i eq_refl). simpl. lia.
Qed.

(** * Decimal numbers *)

Definition is_digits (s : string) : bool := str_forall (λ c, bool_decide (is_Some (digit_of c))) s.

(** Decimal texts parse back. *)
Lemma digit_of_char x : (x < 10)%N → digit_of (pretty_N_char x) = Some (Z.of_N x).
Proof.
  intros H.
  assert (x = 0 ∨ x = 1 ∨ x = 2 ∨ x = 3 ∨ x = 4 ∨ x = 5 ∨ x = 6 ∨ x = 7 ∨ x = 8 ∨ x = 9)%N
    as Hx by lia. repeat (destruct Hx as [->|Hx]; [reflexivity|]). by subst.
Qed.

Lemma parse_pretty_go n s :
  Z.of_N n <= u64_max → parse_digits 0 (pretty_N_go n s) = parse_digits (Z.of_N n) s.
Proof.
  revert s. induction (N.lt_wf_0 n) as [n _ IH]; intros s Hn.
  destruct (decide (n = 0)%N) as [->|Hz]; [by rewrite pretty_N_go_0|].
  rewrite pretty_N_go_step by lia.
  assert (n `div` 10 < n)%N by (apply N.div_lt; lia).
  rewrite IH by lia. cbn [parse_digits].
  rewrite digit_of_char by (apply N.mod_lt; lia). cbn [mbind option_bind].
  assert (Z.of_N (n `div` 10) * 10 + Z.of_N (n `mod` 10) = Z.of_N n) as ->.
  { pose proof (N.div_mod n 10). lia. }
  by rewrite (proj2 (Z.leb_le _ _)).
Qed.

Lemma digits_pretty_go n s : is_digits s = true → is_digits (pretty_N_go n s) = true.
Proof.
  revert s. induction (N.lt_wf_0 n) as [n _ IH]; intros s Hs.
  destruct (decide (n = 0)%N) as [->|Hz]; [by rewrite pretty_N_go_0|].
  rewrite pretty_N_go_step by lia. apply IH; [apply N.div_lt; lia|].
  unfold is_digits in *. cbn [str_forall].
  rewrite digit_of_char by (apply N.mod_lt; lia). by rewrite bool_decide_true by eauto.
Qed.

Lemma dec_digits n : 0 <= n → is_digits (dec n) = true.
Proof.
  intros Hn. destruct n as [|p|p]; [reflexivity| |lia].
  change (dec (Zpos p)) with (pretty_N_go (Npos p) ""). by apply digits_pretty_go.
Qed.

Lemma parse_digits_nosign s : is_digits s = true → s ≠ "" → parse_u64 s = parse_digits 0 s.
Proof.
  destruct s as [|c s]; [done|]. intros [Hc _]%andb_true_iff _.
  unfold parse_u64. destruct (Ascii.eqb_spec c "+"%char) as [->|]; [|done].
  by apply bool_decide_eq_true in Hc as [? ?].
Qed.

Lemma parse_u64_dec n : is_u64 n → parse_u64 (dec n) = Some n.
Proof.
  intros [H0 H1]. destruct n as [|p|p]; [reflexivity| |lia].
  rewrite parse_digits_nosign; [|by apply dec_digits|].
  - change (dec (Zpos p)) with (pretty_N_go (Npos p) ""). by rewrite parse_pretty_go.
  - intros He. assert (parse_digits 0 (dec (Zpos p)) = Some 0) by (by rewrite He).
    change (dec (Zpos p)) with (pretty_N_go (Npos p) "") in *.
    rewrite parse_pretty_go in * by done. done.
Qed.

(** * Hexadecimal numbers *)

(** Case analysis on a small number, by enumeration. *)
Definition range (n : Z) : list Z := Z.of_nat <$> seq 0 (Z.to_nat n).

Lemma forallb_range (P : Z → bool) n z :
  forallb P (range n) = true → 0 <= z < n → P z = true.
Proof.
  rewrite forallb_forall. intros H Hz. apply H, list_elem_of_In, list_elem_of_fmap.
  exists (Z.to_nat z). split; [lia|]. apply elem_of_seq. lia.
Qed.

(** The reader of hexadecimal texts, starting from what is read already. *)
Definition hex_value_of (c : ascii) : Z :=
  let b := Z.of_N (N_of_ascii c) in if b <=? 57 then b - 48 else b - 87.
Fixpoint unhex (v : Z) (s : string) : Z :=
  match s with String c s' => unhex (v * 16 + hex_value_of c) s' | EmptyString => v end.

Lemma hex_value_char n : 0 <= n < 16 → hex_value_of (hex_char n) = n.
Proof.
  intros Hn. apply (forallb_range (λ v, hex_value_of (hex_char v) =? v)) in Hn; [by apply Z.eqb_eq|reflexivity].
Qed.

Lemma hex_go_step f z acc :
  hex_go (S f) z acc = let acc := String (hex_char (z mod 16)) acc in if z / 16 =? 0 then acc else hex_go f (z / 16) acc.
Proof. done. Qed.

Lemma unhex_hex_go f z acc : 0 <= z < 16 ^ Z.of_nat (S f) → unhex 0 (hex_go (S f) z acc) = unhex z acc.
Proof.
  revert z acc. induction f as [|f IH]; intros z acc Hz; rewrite hex_go_step; cbv zeta;
    pose proof (Z.mod_pos_bound z 16 ltac:(lia)); pose proof (Z.div_mod z 16 ltac:(lia));
    destruct (Z.eqb_spec (z / 16) 0) as [Hq|Hq].
  1,3: cbn [unhex]; rewrite hex_value_char by lia; f_equal; lia.
  - change (16 ^ Z.of_nat 1) with 16 in Hz. destruct Hq. by apply Z.div_small.
  - rewrite IH; [cbn [unhex]; rewrite hex_value_char by lia; f_equal; lia|].
    split; [apply Z.div_pos; lia|]. apply Z.div_lt_upper_bound; [lia|].
    rewrite <- Z.pow_succ_r, <- Nat2Z.inj_succ by lia. apply Hz.
Qed.

Lemma unhex_app v s t : unhex v (s +:+ t) = unhex (unhex v s) t.
Proof. revert v. induction s as [|c s IH]; intros v; [done|]. apply IH. Qed.

(** Neither the digits nor the zeros before them are lost. *)
Lemma unhex_pad_zero n s : unhex 0 (pad_zero n s) = unhex 0 s.
Proof.
  unfold pad_zero. rewrite unhex_app. f_equal. generalize (n - String.length s)%nat as k. intros k.
  induction k as [|[|k] IH]; [done..|]. exact IH.
Qed.

Lemma unhex_lower_hex z : 0 <= z < 2 ^ 128 → unhex 0 (lower_hex z) = z.
Proof. intros Hz. unfold lower_hex. by rewrite unhex_hex_go. Qed.

Definition is_hex (c : ascii) : bool := str_contains_char c "0123456789abcdef".

Lemma hex_go_digits f z acc : 0 <= z → str_forall is_hex acc = true → str_forall is_hex (hex_go f z acc) = true.
Proof.
  revert z acc. induction f as [|f IH]; intros z acc Hz Ha; [done|]. rewrite hex_go_step; cbv zeta.
  pose proof (Z.mod_pos_bound z 16 ltac:(lia)) as Hm.
  apply (forallb_range (λ v, is_hex (hex_char v))) in Hm; [|reflexivity].
  assert (str_forall is_hex (String (hex_char (z mod 16)) acc) = true) by (simpl; by rewrite Hm).
  case_match; [done|]. apply IH; [apply Z.div_pos; lia|done].
Qed.

Lemma pad_zero_digits n z : 0 <= z → str_forall is_hex (pad_zero n (lower_hex z)) = true.
Proof.
  intros Hz. unfold pad_zero. rewrite str_forall_app. apply andb_true_iff. split; [|by apply hex_go_digits].
  generalize (n - String.length (lower_hex z))%nat as k. intros k. induction k as [|[|k] IH]; [done..|]. exact IH.
Qed.

(** * Hash maps: iteration order *)

(** [HashMap] and [DashMap] iterate in an unspecified order: the model takes the
    order as a parameter that enumerates the entries of the map. *)
Class HashIter (K V : Type) `{Countable K} := {
  hiter : gmap K V → list (K * V);
  hiter_perm m : hiter m ≡ₚ map_to_list m
}.

#[refine] Instance map_to_list_iter K V `{Countable K} : HashIter K V := {
  hiter := map_to_list
}.
Proof. done. Defined.

Lemma NoDup_fst_filter {K V} (f : K * V → bool) (l : list (K * V)) :
  NoDup l.*1 → NoDup (List.filter f l).*1.
Proof.
  induction l as [|kv l IH]; simpl; [done|]. intros [Hk Hnd]%NoDup_cons.
  case_match; [|by apply IH]. apply NoDup_cons. split; [|by apply IH].
  intros ([k v] & Hkv & Hin)%list_elem_of_fmap. apply Hk. apply list_elem_of_fmap.
  exists (k, v). split; [done|]. apply list_elem_of_In, filter_In in Hin as [Hin _].
  by apply list_elem_of_In.
Qed.

Section hiter.
Context {K V : Type} `{HK : HashIter K V}.

Lemma elem_of_hiter (m : gmap K V) k v : (k, v) ∈ hiter m ↔ m !! k = Some v.
Proof. rewrite hiter_perm. apply elem_of_map_to_list. Qed.

Lemma NoDup_fst_hiter (m : gmap K V) : NoDup (hiter m).*1.
Proof. rewrite hiter_perm. apply NoDup_fst_map_to_list. Qed.

Lemma length_hiter (m : gmap K V) : length (hiter m) = size m.
Proof. rewrite hiter_perm. apply length_map_to_list. Qed.

Lemma hiter_nil (m : gmap K V) : hiter m = [] ↔ m = ∅.
Proof.
  rewrite <- length_zero_iff_nil, length_hiter. split.
  - apply map_size_empty_inv.
  - intros ->. apply map_size_empty.
Qed.
End hiter.

(** The shared shape of the eviction loops: scan the entries, keep the first key
    whose score is strictly below every score seen so far, starting at [u64::MAX]. *)
Definition scan_min {K V} (score : V → Z) (l : list (K * V)) : Z * option K :=
  foldl (λ best kv, if score kv.2 <? best.1 then (score kv.2, Some kv.1) else best)
    (u64_max, None) l.

(** Deleting the scanned minimum, as the loops do. *)
Definition evict_min {K V} `{HashIter K V} (score : V → Z) (m : gmap K V) : gmap K V :=
  match (scan_min score (hiter m)).2 with Some k => delete k m | None => m end.

Lemma scan_min_snoc {K V} (score : V → Z) (l : list (K * V)) kv :
  scan_min score (l ++ [kv]) =
    if score kv.2 <? (scan_min score l).1 then (score kv.2, Some kv.1) else scan_min score l.
Proof. unfold scan_min. by rewrite foldl_app. Qed.

(** The scan returns a minimum: its score bounds every score, and a missing key
    means that every score is [u64::MAX] or more. *)
Lemma scan_min_spec {K V} (score : V → Z) (l : list (K * V)) :
  (∀ k v, (k, v) ∈ l → (scan_min score l).1 <= score v ∨ u64_max <= score v) ∧
  match (scan_min score l).2 with
  | Some k => ∃ v, (k, v) ∈ l ∧ score v = (scan_min score l).1 ∧ score v < u64_max
  | None => (scan_min score l).1 = u64_max
  end.
Proof.
  induction l as [|[k v] l [IH1 IH2]] using rev_ind; [set_solver|].
  rewrite scan_min_snoc. simpl. destruct (Z.ltb_spec (score v) (scan_min score l).1) as [Hlt|Hge].
  - simpl. split.
    + intros k' v' [Hin|Heq]%elem_of_app; [destruct (IH1 _ _ Hin); lia|set_solver by lia].
    + exists v. split; [set_solver|]. split; [done|].
      destruct (scan_min score l) as [b [k'|]]; simpl in *; [|lia].
      destruct IH2 as (v' & _ & ? & ?). lia.
  - split.
    + intros k' v' [Hin|Heq]%elem_of_app; [by eapply IH1|set_solver by lia].
    + destruct (scan_min score l) as [b [k'|]]; simpl in *; [|done].
      destruct IH2 as (v' & Hin & ? & ?). exists v'. set_solver.
Qed.

Section evict_min.
Context {K V : Type} `{HK : HashIter K V}.

Lemma evict_min_subseteq (score : V → Z) (m : gmap K V) : evict_min score m ⊆ m.
Proof. unfold evict_min. case_match; [apply delete_subseteq|done]. Qed.

(** On a map with a score below [u64::MAX] exactly one entry leaves, and it has the
    least score. *)
Lemma evict_min_spec (score : V → Z) (m : gmap K V) k0 v0 :
  m !! k0 = Some v0 → score v0 < u64_max →
  ∃ k v, m !! k = Some v ∧ evict_min score m = delete k m ∧
    ∀ k' v', m !! k' = Some v' → score v <= score v'.
Proof.
  intros H0 Hlt. destruct (scan_min_spec score (hiter m)) as [H1 H2].
  unfold evict_min. destruct (scan_min score (hiter m)) as [b [k|]]; simpl in *.
  - destruct H2 as (v & Hin%elem_of_hiter & Hb & Hv). exists k, v. split_and!; [done..|].
    intros k' v' Hin'%elem_of_hiter. destruct (H1 _ _ Hin'); lia.
  - apply elem_of_hiter in H0. destruct (H1 _ _ H0); lia.
Qed.

Lemma evict_min_size (score : V → Z) (m : gmap K V) :
  map_Forall (λ _ v, score v < u64_max) m →
  Z.of_nat (size (evict_min score m)) = Z.max 0 (Z.of_nat (size m) - 1).
Proof.
  intros Hall. destruct (map_choose_or_empty m) as [(k0 & v0 & H0)| ->].
  - destruct (evict_min_spec score m k0 v0 H0 (Hall _ _ H0)) as (k & v & Hk & -> & _).
    rewrite map_size_delete_Some by eauto.
    assert (size m ≠ 0%nat) by (rewrite map_size_ne_0_lookup; eauto). lia.
  - unfold evict_min. assert (hiter (∅ : gmap K V) = []) as -> by by apply hiter_nil.
    simpl. rewrite map_size_empty. lia.
Qed.
End evict_min.

(** Size after an insertion. *)
Lemma size_insert_le {K V} `{Countable K} (m : gmap K V) k v :
  (size (<[k:=v]> m) ≤ S (size m))%nat.
Proof. rewrite map_size_insert. case_match; simpl; lia. Qed.

(** * Transition systems *)

(** Invariance by rule induction on the reachability relation. *)
Lemma rtc_invariant {S} (R : relation S) (P : S → Prop) :
  (∀ s s', R s s' → P s → P s') → ∀ s s', rtc R s s' → P s → P s'.
Proof. intros Hstep s s'. induction 1; eauto. Qed.

(** One more step, to a state that is evaluated. *)
Lemma rtc_advance {A} (R : A → A → Prop) a s t t' : rtc R a s → R s t → t = t' → rtc R a t'.
Proof. intros Hr Hs <-. by eapply rtc_r. Qed.

Tactic Notation "advance" hyp(Hr) uconstr(c) :=
  let H := fresh in
  eassert (rtc _ _ _) as H;
  [eapply (rtc_advance _ _ _ _ _ Hr); [eapply c; [> (vm_compute; first [reflexivity|discriminate])..]|vm_compute; reflexivity]|];
  clear Hr; rename H into Hr.

(** * State within a world *)

(** A world in which a component keeps a value of its own. *)
Class Holds (A W : Type) := {
  held : W → A;
  hold : A → W → W;
  held_hold a w : held (hold a w) = a
}.

#[export, refine] Instance holds_pair A B : Holds A (A * B) := {
  held w := w.1;
  hold a w := (a, w.2)
}.
Proof. done. Defined.
