(* ===== verification/F64.v ===== *)
(** IEEE binary64 arithmetic as the Rust code uses it, executable through the Standard
    Library's [SpecFloat]: conversions, the four operations, comparisons, [min], the
    saturating cast to [u64], and durations in seconds. *)
From S2P Require Import Prelude.
From Stdlib Require Import ZArith SpecFloat.
From stdpp Require Import base.
Open Scope Z_scope.

Definition f64 := spec_float.
Definition f64_of_Z (n : Z) : f64 := binary_normalize 53 1024 n 0 false.
Definition f64_add : f64 → f64 → f64 := SFadd 53 1024.
Definition f64_sub : f64 → f64 → f64 := SFsub 53 1024.
Definition f64_mul : f64 → f64 → f64 := SFmul 53 1024.
Definition f64_div : f64 → f64 → f64 := SFdiv 53 1024.

(** [f64::min] ignores a NaN argument. *)
Definition f64_min (a b : f64) : f64 :=
  match a, b with
  | S754_nan, _ => b
  | _, S754_nan => a
  | _, _ => if SFltb a b then a else b
  end.

(** The [as u64] cast truncates and saturates. *)
Definition f64_to_u64 (x : f64) : Z :=
  match x with
  | S754_finite false m e =>
      Z.min u64_max (if 0 <=? e then Z.pos m * 2 ^ e else Z.pos m / 2 ^ (- e))
  | S754_infinity false => u64_max
  | _ => 0
  end.

(** The magnitude that a cast to an integer keeps. *)
Definition f64_magnitude (m : positive) (e : Z) : Z := if 0 <=? e then Z.pos m * 2 ^ e else Z.pos m / 2 ^ (- e).
(** The [as i64] and [as u32] casts truncate toward zero and saturate. *)
Definition f64_to_i64 (x : f64) : Z :=
  match x with
  | S754_finite false m e => Z.min (2 ^ 63 - 1) (f64_magnitude m e)
  | S754_finite true m e => Z.max (- 2 ^ 63) (- f64_magnitude m e)
  | S754_infinity false => 2 ^ 63 - 1
  | S754_infinity true => - 2 ^ 63
  | _ => 0
  end.
Definition f64_to_u32 (x : f64) : Z :=
  match x with
  | S754_finite false m e => Z.min (2 ^ 32 - 1) (f64_magnitude m e)
  | S754_infinity false => 2 ^ 32 - 1
  | _ => 0
  end.

(** [Duration::as_secs_f64] and [as_secs]. *)
Definition as_secs_f64 (d : Z) : f64 :=
  f64_add (f64_of_Z (d / 1000000000)) (f64_div (f64_of_Z (d mod 1000000000)) (f64_of_Z 1000000000)).
Definition as_secs (d : Z) : Z := d / 1000000000.

(** [a > b] and [a < b]; false on NaN. *)
Definition f64_gt (a b : f64) : bool := SFltb b a.
Definition f64_lt (a b : f64) : bool := SFltb a b.
