(* ===== verification/Method.v ===== *)
(** HTTP methods (src/src/http/method.rs): the [HttpMethod] enumeration, its
    parsers from strings and bytes and from axum's method token. *)
From S2P Require Import Prelude.
From stdpp Require Import base strings list.

Inductive HttpMethod :=
| GET | POST | PUT | DELETE | PATCH | HEAD | OPTIONS | CONNECT | TRACE.

#[export] Instance HttpMethod_eq_dec : EqDecision HttpMethod.
Proof. solve_decision. Defined.

Definition as_str (m : HttpMethod) : string :=
  match m with
  | GET => "GET" | POST => "POST" | PUT => "PUT" | DELETE => "DELETE"
  | PATCH => "PATCH" | HEAD => "HEAD" | OPTIONS => "OPTIONS"
  | CONNECT => "CONNECT" | TRACE => "TRACE"
  end.

(** The exact-match table shared by the parsers of the source. *)
Definition exact_method (s : string) : option HttpMethod :=
  if String.eqb s "GET" then Some GET
  else if String.eqb s "POST" then Some POST
  else if String.eqb s "PUT" then Some PUT
  else if String.eqb s "DELETE" then Some DELETE
  else if String.eqb s "PATCH" then Some PATCH
  else if String.eqb s "HEAD" then Some HEAD
  else if String.eqb s "OPTIONS" then Some OPTIONS
  else if String.eqb s "CONNECT" then Some CONNECT
  else if String.eqb s "TRACE" then Some TRACE
  else None.

Definition from_str (s : string) : option HttpMethod :=
  match exact_method s with
  | Some m => Some m
  | None => exact_method (to_ascii_uppercase s)
  end.

(** [b"GET"] patterns compare the bytes exactly. *)
Definition from_bytes (s : string) : option HttpMethod := exact_method s.

(** axum's [http::Method] is compared by its token; other tokens fall back. *)
Definition from_axum (token : string) : HttpMethod :=
  match exact_method token with Some m => m | None => GET end.

Lemma exact_method_Some s m : exact_method s = Some m ↔ s = as_str m.
Proof.
  split.
  - unfold exact_method. intros H. repeat case_match; simplify_eq;
      match goal with E : String.eqb _ _ = true |- _ => by apply String.eqb_eq in E end.
  - intros ->. by destruct m.
Qed.

Lemma upper_as_str m : to_ascii_uppercase (as_str m) = as_str m.
Proof. by destruct m. Qed.

#[export] Hint Rewrite upper_as_str : rust_rw.

(** the two-phase parser (exact match, then ASCII-uppercased match) recognises
    exactly the nine method names, in any ASCII case, and is inverted by [as_str]. *)
Theorem from_str_spec (s : string) (m : HttpMethod) :
  (from_str s = Some m ↔ to_ascii_uppercase s = as_str m) ∧ from_str (as_str m) = Some m.
Proof.
  assert (exact_method (as_str m) = Some m) as Hm by (by apply exact_method_Some).
  split; [|by unfold from_str; rewrite Hm].
  unfold from_str. destruct (exact_method s) as [m'|] eqn:E.
  - apply exact_method_Some in E as ->. autorewrite with rust_rw. split.
    + by intros [= ->].
    + intros Heq. destruct m', m; done.
  - apply exact_method_Some.
Qed.
