(* ===== verification/Routing.v ===== *)
(** Routes and the per-method router (src/src/routing/route.rs and router.rs).
    The matchit radix tree is a third-party crate: it is the class [MatchIt], with
    the documented behaviour on static paths as its laws. *)
From S2P Require Import Prelude Method.
From stdpp Require Import base gmap strings list.

(** * Route (route.rs) *)

(** A [Py<PyAny>] is kept as the identity of the Python object. *)
Record Route := mkRoute {
  path : string;
  function : Z;
  method : string;
  doc : option string
}.

#[export] Instance Route_eq_dec : EqDecision Route.
Proof. solve_decision. Defined.

(** xxhash is a third-party crate: an arbitrary hash function. *)
Class XXH3 := { xxh3_64 : string → Z; xxh3_64_u64 s : is_u64 (xxh3_64 s) }.

Section route.
Context `{RS : RustStr}.

Definition update_path (r : Route) (new_path : string) : Route :=
  mkRoute new_path (function r) (method r) (doc r).

Definition update_method (r : Route) (new_method : string) : Route :=
  mkRoute (path r) (function r) (to_uppercase new_method) (doc r).

Definition valid_methods : list string :=
  ["GET"; "POST"; "PUT"; "DELETE"; "PATCH"; "HEAD"; "OPTIONS"].

Definition is_valid (r : Route) : bool :=
  if negb (starts_with "/" (path r)) then false
  else if negb (existsb (String.eqb (to_uppercase (method r))) valid_methods) then false
  else true.

Definition get_path_params (r : Route) : list string :=
  map (fun p => String.substring 1 (String.length p - 1) p)
    (List.filter (starts_with ":") (str_split "/" (path r))).

Definition has_parameters (r : Route) : bool := str_contains_char ":" (path r).

Definition normalized_path (r : Route) : string :=
  let p := trim_end_char "/" (path r) in
  if negb (starts_with "/" p) then "/" +:+ p else p.

Definition get_method_priority (r : Route) : Z :=
  let m := to_uppercase (method r) in
  if String.eqb m "GET" then 1 else if String.eqb m "POST" then 2
  else if String.eqb m "PUT" then 3 else if String.eqb m "PATCH" then 4
  else if String.eqb m "DELETE" then 5 else if String.eqb m "HEAD" then 6
  else if String.eqb m "OPTIONS" then 7 else 99.

Definition non_empty_parts (p : string) : list string :=
  List.filter (fun s => negb (str_is_empty s)) (str_split "/" p).

(** The loop over the zipped segments. *)
Fixpoint parts_match (route_parts path_parts : list string) : bool :=
  match route_parts, path_parts with
  | rp :: rps, pp :: pps =>
      if negb (starts_with ":" rp) && negb (String.eqb rp pp) then false
      else parts_match rps pps
  | _, _ => true
  end.

Definition matches (r : Route) (p m : string) : bool :=
  if negb (String.eqb (to_uppercase (method r)) (to_uppercase m)) then false
  else
    let route_parts := non_empty_parts (path r) in
    let path_parts := non_empty_parts p in
    if negb (Nat.eqb (length route_parts) (length path_parts)) then false
    else parts_match route_parts path_parts.

Definition handler_hash `{XXH3} (r : Route) : Z :=
  Z.lxor (xxh3_64 (path r)) (xxh3_64 (method r)).

(** Reference relation: a path segment is accepted by a route segment. *)
Definition segment_ok (rp pp : string) : Prop := starts_with ":" rp = true ∨ rp = pp.

Lemma parts_match_spec rps pps :
  length rps = length pps →
  parts_match rps pps = true ↔ Forall2 segment_ok rps pps.
Proof.
  revert pps. induction rps as [|rp rps IH]; intros [|pp pps] Hlen; try done.
  - simpl in *. rewrite Forall2_cons. unfold segment_ok at 1.
    destruct (starts_with ":" rp) eqn:Es; simpl.
    + rewrite IH by lia. naive_solver.
    + destruct (String.eqb_spec rp pp) as [->|Hne]; simpl.
      * rewrite IH by lia. naive_solver.
      * naive_solver.
Qed.
End route.

(** * convert_to_matchit_path (router.rs) *)

Section convert.
(** The inner [while let Some(&next) = chars.peek()] loops: take characters up to,
    and leave, the first one of [stop]. *)
Fixpoint take_until (stop : ascii → bool) (s : string) : string * string :=
  match s with
  | EmptyString => (EmptyString, EmptyString)
  | String c s' =>
      if stop c then (EmptyString, s)
      else let '(t, rest) := take_until stop s' in (String c t, rest)
  end.

Definition param_stop (c : ascii) : bool :=
  Ascii.eqb c "/"%char || Ascii.eqb c "-"%char || Ascii.eqb c "."%char.
Definition wildcard_stop (c : ascii) : bool := Ascii.eqb c "/"%char.

(** The outer [while let Some(c) = chars.next()] loop; every iteration consumes at
    least one character, so the length of the path is enough fuel. *)
Fixpoint convert_loop (fuel : nat) (s : string) : string :=
  match fuel with
  | O => EmptyString
  | S fuel =>
      match s with
      | EmptyString => EmptyString
      | String c s' =>
          if Ascii.eqb c ":"%char then
            let '(name, rest) := take_until param_stop s' in
            "{" +:+ name +:+ "}" +:+ convert_loop fuel rest
          else if Ascii.eqb c "*"%char then
            let '(name, rest) := take_until wildcard_stop s' in
            "{*" +:+ name +:+ "}" +:+ convert_loop fuel rest
          else String c (convert_loop fuel s')
      end
  end.

Definition convert_to_matchit_path (s : string) : string :=
  convert_loop (String.length s) s.

Lemma take_until_length stop s :
  (String.length (take_until stop s).2 ≤ String.length s)%nat.
Proof.
  induction s as [|c s IH]; simpl; [done|].
  destruct (stop c); simpl; [done|].
  destruct (take_until stop s); simpl in *; lia.
Qed.

(** Fuel never runs out. *)
Lemma convert_loop_fuel n m s :
  (String.length s ≤ n)%nat → (String.length s ≤ m)%nat →
  convert_loop n s = convert_loop m s.
Proof.
  revert m s. induction n as [|n IH]; intros [|m] [|c s] Hn Hm; simpl in *; try lia; try done.
  pose proof (take_until_length param_stop s) as H1.
  pose proof (take_until_length wildcard_stop s) as H2.
  destruct (take_until param_stop s), (take_until wildcard_stop s); simpl in *.
  rewrite !(IH m) by lia. done.
Qed.

Lemma convert_cons c s :
  convert_to_matchit_path (String c s) =
    if Ascii.eqb c ":"%char then
      let '(name, rest) := take_until param_stop s in
      "{" +:+ name +:+ "}" +:+ convert_to_matchit_path rest
    else if Ascii.eqb c "*"%char then
      let '(name, rest) := take_until wildcard_stop s in
      "{*" +:+ name +:+ "}" +:+ convert_to_matchit_path rest
    else String c (convert_to_matchit_path s).
Proof.
  unfold convert_to_matchit_path at 1. simpl.
  pose proof (take_until_length param_stop s) as H1.
  pose proof (take_until_length wildcard_stop s) as H2.
  destruct (take_until param_stop s) as [n1 r1], (take_until wildcard_stop s) as [n2 r2];
    simpl in *. unfold convert_to_matchit_path.
  rewrite (convert_loop_fuel (String.length s) (String.length r1) r1) by lia.
  rewrite (convert_loop_fuel (String.length s) (String.length r2) r2) by lia. done.
Qed.
End convert.

(** * Router (router.rs) *)

(** The matchit crate's router.  [m_at] returns the value and the captured
    parameters; [m_values] is what was stored.  The laws are its documented behaviour: a lookup
    returns a stored value, and only a successful insertion stores one; on static paths (no
    parameter syntax) an inserted path is found, with no parameters, and
    static segments take priority over dynamic ones, so later insertions do not
    shadow it. *)
Class MatchIt := {
  mrouter : Type;
  m_new : mrouter;
  m_insert : mrouter → string → Route → mrouter * option string;
  m_at : mrouter → string → option (Route * list (string * string));
  m_values : mrouter → list Route;
  m_values_new : m_values m_new = [];
  m_values_insert m p v m' e w :
    m_insert m p v = (m', e) → w ∈ m_values m' → w ∈ m_values m ∨ (e = None ∧ w = v);
  m_at_values m p w ps : m_at m p = Some (w, ps) → w ∈ m_values m;
  m_at_static m p v m' :
    str_contains_char "{" p = false → str_contains_char "}" p = false →
    m_insert m p v = (m', None) → m_at m' p = Some (v, []);
  m_at_static_stable m p v q w m' :
    str_contains_char "{" p = false → str_contains_char "}" p = false →
    m_at m p = Some (v, []) → m_insert m q w = (m', None) → m_at m' p = Some (v, [])
}.

(** The seven method routers, by name. *)
Inductive slot := get_router | post_router | put_router | delete_router
                | patch_router | head_router | options_router.

#[export] Instance slot_eq_dec : EqDecision slot.
Proof. solve_decision. Defined.

Section router.
Context `{RS : RustStr} `{MI : MatchIt}.

Record Router := mkRouter {
  base_path : string;
  routes : list Route;
  method_router : slot → mrouter
}.

Definition router_new (p : string) : Router := mkRouter p [] (fun _ => m_new).

(** [match method.as_str() { "GET" => &mut self.get_router, ... }] *)
Definition slot_of (m : string) : option slot :=
  if String.eqb m "GET" then Some get_router
  else if String.eqb m "POST" then Some post_router
  else if String.eqb m "PUT" then Some put_router
  else if String.eqb m "DELETE" then Some delete_router
  else if String.eqb m "PATCH" then Some patch_router
  else if String.eqb m "HEAD" then Some head_router
  else if String.eqb m "OPTIONS" then Some options_router
  else None.

Definition matchit_insert (m : mrouter) (p : string) (r : Route) : mrouter * option string :=
  m_insert m (convert_to_matchit_path p) r.

Definition matchit_at (m : mrouter) (p : string) : option (Route * gmap string string) :=
  match m_at m p with
  | Some (v, params) => Some (v, foldl (fun acc kv => <[kv.1 := kv.2]> acc) ∅ params)
  | None => None
  end.

Definition get_full_path (rt : Router) (route_path : string) : string :=
  let base := trim_end_char "/" (base_path rt) in
  let route := trim_start_char "/" route_path in
  if str_is_empty base then "/" +:+ route
  else if str_is_empty route then base
  else base +:+ "/" +:+ route.

Definition set_method_router (rt : Router) (s : slot) (m : mrouter) : Router :=
  mkRouter (base_path rt) (routes rt)
    (fun s' => if decide (s' = s) then m else method_router rt s').

Definition push_route (rt : Router) (r : Route) : Router :=
  mkRouter (base_path rt) (routes rt ++ [r]) (method_router rt).

Definition add_route (rt : Router) (r : Route) : Router * result string unit :=
  if negb (is_valid r) then (rt, Err "Invalid route configuration")
  else
    let full_path := get_full_path rt (path r) in
    let m := to_uppercase (method r) in
    match slot_of m with
    | None => (rt, Err ("Unknown HTTP method: " +:+ m))
    | Some s =>
        match matchit_insert (method_router rt s) full_path r with
        | (m', Some e) => (set_method_router rt s m', Err ("Failed to add route: " +:+ e))
        | (m', None) => (push_route (set_method_router rt s m') r, Ok tt)
        end
    end.

Definition extend_route (rt : Router) (rs : list Route) : Router :=
  foldl (fun rt r => (add_route rt r).1) rt rs.

(** [iter().position(..)] followed by [Vec::remove]. *)
Fixpoint remove_first (P : Route → bool) (l : list Route) : option (list Route) :=
  match l with
  | [] => None
  | r :: l' =>
      if P r then Some l'
      else match remove_first P l' with Some l'' => Some (r :: l'') | None => None end
  end.

Definition remove_route (rt : Router) (p m : string) : Router * bool :=
  match remove_first (fun r => String.eqb (path r) p
                               && String.eqb (to_uppercase (method r)) (to_uppercase m))
          (routes rt) with
  | Some l => (mkRouter (base_path rt) l (method_router rt), true)
  | None => (rt, false)
  end.

Definition get_route_py (rt : Router) (p m : string) : option Route :=
  List.find (fun r => matches r p m) (routes rt).

Definition get_routes_by_path_py (rt : Router) (p : string) : list Route :=
  List.filter (fun r => String.eqb (path r) p) (routes rt).

Definition routes_count (rt : Router) : nat := length (routes rt).

Definition find_matching_route (rt : Router) (p m : string)
    : option (Route * gmap string string) :=
  match slot_of m with
  | Some s => matchit_at (method_router rt s) p
  | None =>
      match slot_of (to_uppercase m) with
      | Some s => matchit_at (method_router rt s) p
      | None => None
      end
  end.
End router.
Arguments Router {MI}.
Arguments router_new {MI} p.

(** * Lemmas *)

Section convert_facts.
Lemma take_until_sep stop c s t :
  stop c = true →
  take_until stop (s +:+ String c t) =
    let '(n, r) := take_until stop s in (n, r +:+ String c t).
Proof.
  intros Hc. induction s as [|a s IH]; simpl; [by rewrite Hc|].
  destruct (stop a) eqn:E; simpl; [done|].
  rewrite IH. by destruct (take_until stop s).
Qed.

Lemma convert_sep s t :
  convert_to_matchit_path (s +:+ "/" +:+ t) =
    convert_to_matchit_path s +:+ "/" +:+ convert_to_matchit_path t.
Proof.
  remember (String.length s) as n eqn:Hn. revert s Hn.
  induction (lt_wf n) as [n _ IH]. intros [|c s] ->; [done|].
  change (String c s +:+ "/" +:+ t) with (String c (s +:+ "/" +:+ t)).
  change ("/" +:+ t) with (String "/" t). rewrite !convert_cons.
  rewrite !take_until_sep by done.
  pose proof (take_until_length param_stop s) as H1.
  pose proof (take_until_length wildcard_stop s) as H2.
  destruct (take_until param_stop s) as [n1 r1], (take_until wildcard_stop s) as [n2 r2].
  simpl in *. change (String "/" t) with ("/" +:+ t).
  repeat case_match; rewrite ?(IH (String.length r1)), ?(IH (String.length r2)),
    ?(IH (String.length s)) by lia; rewrite <- ?(assoc_L String.append); done.
Qed.

Lemma convert_static s :
  str_contains_char ":" s = false → str_contains_char "*" s = false →
  convert_to_matchit_path s = s.
Proof.
  induction s as [|c s IH]; intros H1 H2; [done|]. simpl in H1, H2.
  apply orb_false_iff in H1 as [H1 ?], H2 as [H2 ?].
  rewrite convert_cons, H1, H2, IH by done. done.
Qed.
End convert_facts.

Section router_facts.
Context `{RS : RustStr} `{MI : MatchIt}.
Implicit Types (rt : Router) (r : Route) (s : slot) (m p : string).

Definition slot_name (s : slot) : string :=
  match s with
  | get_router => "GET" | post_router => "POST" | put_router => "PUT"
  | delete_router => "DELETE" | patch_router => "PATCH" | head_router => "HEAD"
  | options_router => "OPTIONS"
  end.

Lemma slot_of_Some m s : slot_of m = Some s ↔ m = slot_name s.
Proof.
  split; [|intros ->; by destruct s].
  unfold slot_of. intros H. repeat case_match; simplify_eq;
    match goal with E : String.eqb _ _ = true |- _ => by apply String.eqb_eq in E end.
Qed.

Lemma upper_slot_name s : to_uppercase (slot_name s) = slot_name s.
Proof. rewrite to_uppercase_ascii; by destruct s. Qed.

(** Spelling the method in any case reaches the same method router. *)
Lemma find_matching_route_upper rt p m s :
  to_uppercase m = slot_name s →
  find_matching_route rt p m = matchit_at (method_router rt s) p.
Proof.
  intros Hm. unfold find_matching_route. destruct (slot_of m) as [s'|] eqn:E.
  - apply slot_of_Some in E as ->. rewrite upper_slot_name in Hm.
    by destruct s, s'.
  - replace (slot_of (to_uppercase m)) with (Some s); [done|].
    symmetry. by apply slot_of_Some.
Qed.

Lemma add_route_Ok rt r rt' :
  add_route rt r = (rt', Ok tt) →
  ∃ s (m' : mrouter), to_uppercase (method r) = slot_name s ∧
    matchit_insert (method_router rt s) (get_full_path rt (path r)) r = (m', None) ∧
    rt' = push_route (set_method_router rt s m') r.
Proof.
  unfold add_route. intros H. repeat case_match; simplify_eq/=.
  eexists _, _. split_and!; [by apply slot_of_Some|done|done].
Qed.

Lemma add_route_base rt r : base_path (add_route rt r).1 = base_path rt.
Proof. unfold add_route. repeat case_match; done. Qed.
End router_facts.
#[export] Hint Rewrite @add_route_base : rust_rw.

(** * Properties *)

Section router_props.
Context `{RS : RustStr} `{MI : MatchIt}.
Implicit Types (rt : Router) (r : Route) (m p : string).

(** [:param -> {param}] and [*wildcard -> {*wildcard}] translation of a whole path
    is the segment-by-segment translation: C13: no parameter name ever swallows a
    [/], whatever the path. *)
Theorem convert_segments (segs : list string) :
  convert_to_matchit_path (str_join "/" segs) =
    str_join "/" (convert_to_matchit_path <$> segs).
Proof.
  induction segs as [|a [|b segs] IH]; [done..|].
  change (str_join "/" (a :: b :: segs)) with (a +:+ "/" +:+ str_join "/" (b :: segs)).
  rewrite convert_sep, IH. done.
Qed.

(** [Route::matches] accepts exactly the requests whose method is the route's
    up to case and whose non-empty segments are, position by position, equal to the
    route's or captured by a [:param] segment. *)
Theorem matches_spec r p m :
  matches r p m = true ↔
    to_uppercase (method r) = to_uppercase m ∧
    Forall2 segment_ok (non_empty_parts (path r)) (non_empty_parts p).
Proof.
  unfold matches. destruct (String.eqb_spec (to_uppercase (method r)) (to_uppercase m))
    as [->|Hne]; simpl; [|naive_solver].
  destruct (Nat.eqb_spec (length (non_empty_parts (path r))) (length (non_empty_parts p)))
    as [Hl|Hl]; simpl.
  - rewrite parts_match_spec by done. naive_solver.
  - split; [done|]. intros [_ H2%Forall2_length]. done.
Qed.

(** C27: [add_route] on every branch: an error never records the route nor touches
    another method's router, an invalid route changes nothing at all, and success
    appends the route and updates exactly its method's router. *)
Theorem add_route_outcome rt r :
  let rt' := (add_route rt r).1 in
  base_path rt' = base_path rt ∧
  (is_valid r = false → add_route rt r = (rt, Err "Invalid route configuration")) ∧
  (∀ e, (add_route rt r).2 = Err e → routes rt' = routes rt) ∧
  ((add_route rt r).2 = Ok tt → is_valid r = true ∧ routes rt' = routes rt ++ [r]) ∧
  (∀ s, to_uppercase (method r) ≠ slot_name s → method_router rt' s = method_router rt s).
Proof.
  simpl. split; [apply add_route_base|].
  unfold add_route. destruct (is_valid r); simpl; [|naive_solver].
  destruct (slot_of (to_uppercase (method r))) as [s|] eqn:Es; simpl; [|naive_solver].
  apply slot_of_Some in Es. rewrite Es.
  destruct (matchit_insert _ _ _) as [m' [e|]]; simpl; split_and!; try naive_solver.
  all: intros s' Hs; case_decide; [|done]; subst s'; done.
Qed.

(** Registering a list of routes, all of them successfully. *)
Fixpoint add_all (rt : Router) (rs : list Route) : option Router :=
  match rs with
  | [] => Some rt
  | r :: rs =>
      match add_route rt r with
      | (rt', Ok _) => add_all rt' rs
      | (_, Err _) => None
      end
  end.

Definition static_path (p : string) : Prop :=
  str_contains_char ":" p = false ∧ str_contains_char "*" p = false ∧
  str_contains_char "{" p = false ∧ str_contains_char "}" p = false.

Lemma add_route_keeps_static rt r rt' s p v :
  static_path p → add_route rt r = (rt', Ok tt) →
  m_at (method_router rt s) p = Some (v, []) →
  m_at (method_router rt' s) p = Some (v, []).
Proof.
  intros (_ & _ & H1 & H2) (s' & m' & _ & Hi & ->)%add_route_Ok Hat. simpl.
  case_decide; [subst s'|done]. by eapply m_at_static_stable.
Qed.

Lemma add_all_keeps_static rt rs rt' s p v :
  static_path p → add_all rt rs = Some rt' →
  m_at (method_router rt s) p = Some (v, []) →
  m_at (method_router rt' s) p = Some (v, []).
Proof.
  intros Hp. revert rt. induction rs as [|r rs IH]; intros rt Hadd Hat; simplify_eq/=; [done|].
  destruct (add_route rt r) as [rt1 [[]|]] eqn:E; [|done].
  eapply IH; [done|]. by eapply add_route_keeps_static.
Qed.

(** C4: a static route that was added is dispatched to, with no path parameters,
    for any spelling of its method, and stays so through any number of later
    successful registrations. *)
Theorem static_route_dispatch rt r rt1 rs rt2 m :
  static_path (get_full_path rt (path r)) →
  add_route rt r = (rt1, Ok tt) →
  add_all rt1 rs = Some rt2 →
  to_uppercase m = to_uppercase (method r) →
  find_matching_route rt2 (get_full_path rt (path r)) m = Some (r, ∅).
Proof.
  intros Hp Hadd Hall Hm. pose proof Hp as (H1 & H2 & H3 & H4).
  destruct (add_route_Ok _ _ _ Hadd) as (s & m' & Hs & Hi & ->).
  erewrite find_matching_route_upper by (by etrans). unfold matchit_at.
  erewrite add_all_keeps_static; [done|done|done|]. simpl. case_decide; [|done].
  unfold matchit_insert in Hi. rewrite convert_static in Hi by done.
  by eapply m_at_static.
Qed.

(** [remove_route] drops the route from the list only: the method routers keep
    it, so requests are dispatched exactly as before the removal. *)
Theorem remove_route_keeps_dispatch rt p m q n :
  find_matching_route (remove_route rt p m).1 q n = find_matching_route rt q n ∧
  ((remove_route rt p m).2 = true →
    S (length (routes (remove_route rt p m).1)) = length (routes rt)).
Proof.
  unfold remove_route. set (P := fun r => _).
  assert (∀ l l', remove_first P l = Some l' → S (length l') = length l) as Hlen.
  { induction l as [|r l IH]; intros l' H; simplify_eq/=.
    destruct (P r); simplify_eq; [done|].
    destruct (remove_first P l) eqn:E; simplify_eq/=. f_equal. by apply IH. }
  destruct (remove_first P (routes rt)) eqn:E; simpl; [|done]. split; [done|].
  intros _. by apply Hlen.
Qed.
End router_props.

(** * Introspection *)

Section info.
Context `{RS : RustStr} `{MI : MatchIt}.
Definition newline : string := String (ascii_of_N 10) "".

Definition router_str (rt : Router) : string :=
  "Router(base_path='" +:+ base_path rt +:+ "', routes=" +:+ dec (Z.of_nat (length (routes rt))) +:+ ")".
Definition router_repr (rt : Router) : string :=
  "Router(base_path='" +:+ base_path rt +:+ "', routes:[" +:+
  str_join "" ((λ r, newline +:+ "  " +:+ method r +:+ " " +:+ path r) <$> routes rt) +:+ newline +:+ "])".

(** [name_of] is the handler's [__name__]. *)
Definition route_info (name_of : Z → option string) (rt : Router) (r : Route) : gmap string string :=
  let info := <["handler" := default "unknown" (name_of (function r))]>
    (<["path" := get_full_path rt (path r)]> {["method" := method r]}) in
  match doc r with Some d => <["doc" := d]> info | None => info end.
Definition get_routes_info (name_of : Z → option string) (rt : Router) : list (gmap string string) :=
  route_info name_of rt <$> routes rt.

(** Every route is listed, in order, with its method and full path. *)
Lemma routes_info_spec name_of rt i r :
  routes rt !! i = Some r →
  ∃ info, get_routes_info name_of rt !! i = Some info ∧ info !! "method" = Some (method r) ∧
    info !! "path" = Some (get_full_path rt (path r)) ∧ info !! "doc" = doc r.
Proof.
  intros Hr. exists (route_info name_of rt r). unfold get_routes_info. rewrite list_lookup_fmap, Hr.
  split; [done|]. unfold route_info. destruct (doc r); simplify_map_eq; split_and!; by simplify_map_eq.
Qed.
End info.

(** * What can be dispatched *)

Section dispatch.
Context `{RS : RustStr} `{MI : MatchIt}.

(** The trees hold routes of the list only. *)
Definition listed (rt : Router) : Prop := ∀ s w, w ∈ m_values (method_router rt s) → w ∈ routes rt.

Lemma listed_new p : listed (router_new p).
Proof. intros s w. simpl. rewrite m_values_new. set_solver. Qed.

Lemma listed_add rt r : listed rt → listed (add_route rt r).1.
Proof.
  intros Hl. unfold add_route. destruct (negb (is_valid r)); [done|].
  destruct (slot_of _) as [sl|]; [|done].
  destruct (matchit_insert _ _ r) as [m' e] eqn:Hi. unfold matchit_insert in Hi.
  pose proof (λ w, m_values_insert _ _ _ _ _ w Hi) as Hv.
  assert (∀ s w, w ∈ m_values (method_router (set_method_router rt sl m') s) → w ∈ routes rt ∨ (e = None ∧ w = r)) as H.
  { intros s w. simpl. case_decide as Hs; [|eauto]. intros [Hw|Hw]%Hv; eauto. }
  destruct e as [e|]; intros s w [Hw|[He ->]]%H; try done; simpl; set_solver.
Qed.

Lemma listed_extend rt rs : listed rt → listed (extend_route rt rs).
Proof. revert rt. induction rs as [|r rs IH]; intros rt Hl; [done|]. by apply IH, listed_add. Qed.

Lemma dispatched_listed rt p m r ps : listed rt → find_matching_route rt p m = Some (r, ps) → r ∈ routes rt.
Proof.
  intros Hl. assert (∀ s, matchit_at (method_router rt s) p = Some (r, ps) → r ∈ routes rt) as H.
  { unfold matchit_at. intros s. destruct (m_at _ p) as [[v l]|] eqn:E; [|done]. intros [= -> _].
    eapply Hl, m_at_values, E. }
  unfold find_matching_route. repeat case_match; eauto; done.
Qed.
End dispatch.

(** * A concrete matchit router and the witnesses *)

(** An association list of static paths meets the laws of [MatchIt]. *)
Definition assoc_find (p : string) (l : list (string * Route)) : option Route :=
  snd <$> List.find (fun kv => String.eqb kv.1 p) l.

#[refine] Instance assoc_matchit : MatchIt := {
  mrouter := list (string * Route);
  m_new := [];
  m_insert l p v :=
    if assoc_find p l then (l, Some "conflict") else ((p, v) :: l, None);
  m_at l p := (fun v => (v, [])) <$> assoc_find p l;
  m_values l := l.*2
}.
Proof.
  - done.
  - intros l p v l' e w H. destruct (assoc_find p l); simplify_eq; [auto|]. set_solver.
  - intros l p w ps H. unfold assoc_find in H.
    destruct (List.find _ l) as [[p' w']|] eqn:E; simplify_eq/=. apply find_some in E as [E _].
    apply list_elem_of_fmap. exists (p', w). split; [done|]. by apply list_elem_of_In.
  - intros l p v l' _ _ H. destruct (assoc_find p l); simplify_eq.
    unfold assoc_find. simpl. by rewrite String.eqb_refl.
  - intros l p v q w l' _ _ Hp H. destruct (assoc_find q l) eqn:E; simplify_eq.
    unfold assoc_find in *. simpl. destruct (String.eqb_spec q p) as [->|]; [|done].
    by rewrite E in Hp.
Defined.

Definition demo_route : Route := mkRoute "/users/" 1 "get" None.
Definition demo_router : Router := router_new "/api/".

Lemma static_route_dispatch_witness :
  find_matching_route (add_route (add_route demo_router demo_route).1
    (mkRoute "/items/:id" 2 "GET" None)).1 "/api/users/" "Get" = Some (demo_route, ∅).
Proof.
  refine (static_route_dispatch demo_router demo_route _
            [mkRoute "/items/:id" 2 "GET" None] _ "Get" _ _ _ _);
    [by repeat split|reflexivity..].
Defined.

Lemma add_route_outcome_witness :
  (add_route demo_router (mkRoute "users" 1 "GET" None)).1 = demo_router ∧
  routes (add_route demo_router demo_route).1 = [demo_route].
Proof.
  split.
  - destruct (add_route_outcome demo_router (mkRoute "users" 1 "GET" None)) as (_ & H & _).
    by rewrite H by reflexivity.
  - destruct (add_route_outcome demo_router demo_route) as (_ & _ & _ & H & _).
    by destruct H as [_ ->].
Defined.

Lemma remove_route_keeps_dispatch_witness :
  let rt := (add_route demo_router demo_route).1 in
  routes (remove_route rt "/users/" "GET").1 = [] ∧
  find_matching_route (remove_route rt "/users/" "GET").1 "/api/users/" "GET"
    = Some (demo_route, ∅).
Proof.
  split; [reflexivity|].
  destruct (remove_route_keeps_dispatch (add_route demo_router demo_route).1
              "/users/" "GET" "/api/users/" "GET") as [-> _]. reflexivity.
Defined.
