(* ===== verification/RouteCache.v ===== *)
(** The route cache (src/src/routing/cache.rs): a hash-keyed map of matched routes
    with an access clock and eviction of the entry with the oldest access. *)
From S2P Require Import Prelude Routing.
From stdpp Require Import base gmap strings list.
Open Scope Z_scope.

Record CachedRoute := mkCachedRoute {
  route : Route;
  path_params : gmap string string;
  hits : Z;
  last_access : Z
}.

Definition cached_route_new (r : Route) (params : gmap string string) : CachedRoute :=
  mkCachedRoute r params 1 0.

(** [DashMap<u64, CachedRoute>], the limit and the atomic access counter. *)
Record RouteCache := mkRouteCache {
  cache : gmap Z CachedRoute;
  max_size : Z;
  access_counter : Z
}.

Definition new (max : Z) : RouteCache := mkRouteCache ∅ max 0.

Definition get (c : RouteCache) (path_hash : Z) : RouteCache * option CachedRoute :=
  match cache c !! path_hash with
  | Some e =>
      let access_time := access_counter c in
      let e' := mkCachedRoute (route e) (path_params e) (w64 (hits e + 1)) access_time in
      (mkRouteCache (<[path_hash := e']> (cache c)) (max_size c) (w64 (access_counter c + 1)),
       Some e')
  | None => (c, None)
  end.

Section cache.
Context `{HI : !HashIter Z CachedRoute}.

Definition evict_lru (m : gmap Z CachedRoute) : gmap Z CachedRoute :=
  evict_min last_access m.

Definition insert (c : RouteCache) (path_hash : Z) (r : Route) (params : gmap string string)
    : RouteCache :=
  let m := if max_size c <=? Z.of_nat (size (cache c)) then evict_lru (cache c) else cache c in
  mkRouteCache (<[path_hash := cached_route_new r params]> m) (max_size c) (access_counter c).

Definition clear (c : RouteCache) : RouteCache :=
  mkRouteCache ∅ (max_size c) (access_counter c).

Definition len (c : RouteCache) : Z := Z.of_nat (size (cache c)).
Definition is_empty (c : RouteCache) : bool := len c =? 0.

(** [RouteMatcher]: the key is the hash of "method:path". *)
Definition compute_hash `{XXH3} (p m : string) : Z := xxh3_64 (m +:+ ":" +:+ p).

Definition get_cached `{XXH3} (c : RouteCache) (p m : string) : RouteCache * option CachedRoute :=
  get c (compute_hash p m).

Definition cache_route `{XXH3} (c : RouteCache) (p m : string) (r : Route)
    (params : gmap string string) : RouteCache :=
  insert c (compute_hash p m) r params.

(** The operations as events, and runs of them. *)
Inductive op :=
| OpGet (k : Z)
| OpInsert (k : Z) (r : Route) (params : gmap string string)
| OpClear.

Definition step (c : RouteCache) (o : op) : RouteCache :=
  match o with
  | OpGet k => (get c k).1
  | OpInsert k r params => insert c k r params
  | OpClear => clear c
  end.

Definition run (max : Z) (ops : list op) : RouteCache := foldl step (new max) ops.

(** Invariant: the clock counts at most one tick per operation, no access time is
    ahead of it, and the size stays within the limit (an empty limit still holds the
    entry just inserted). *)
Definition inv (n : Z) (c : RouteCache) : Prop :=
  0 <= access_counter c <= n ∧
  map_Forall (λ _ e, 0 <= last_access e <= n) (cache c) ∧
  Z.of_nat (size (cache c)) <= Z.max 1 (max_size c).

Lemma insert_cases c :
  (if max_size c <=? Z.of_nat (size (cache c)) then evict_lru (cache c) else cache c)
    ⊆ cache c.
Proof. case_match; [apply evict_min_subseteq|done]. Qed.

Lemma inv_step n c o : 0 <= n < u64_max → inv n c → inv (n + 1) (step c o).
Proof.
  intros Hn (Hc & Hm & Hs).
  assert (map_Forall (λ _ e, 0 <= last_access e <= n + 1) (cache c)) as Hm'
    by (eapply map_Forall_impl; [exact Hm|]; simpl; lia).
  destruct o as [k|k r params|]; unfold inv; simpl.
  - unfold get. destruct (cache c !! k) as [e|] eqn:E; simpl; [|split_and!; [lia..|done|done]].
    rewrite w64_id by (unfold is_u64, u64_max in *; lia).
    split_and!; [lia..| |].
    + apply map_Forall_insert_2; [simpl; lia|done].
    + rewrite map_size_insert_Some by eauto. done.
  - split_and!; [lia..| |].
    + apply map_Forall_insert_2; [simpl; lia|].
      intros k' e' He. eapply Hm', lookup_weaken; [exact He|apply insert_cases].
    + pose proof (size_insert_le (if max_size c <=? Z.of_nat (size (cache c))
        then evict_lru (cache c) else cache c) k (cached_route_new r params)) as Hle.
      destruct (Z.leb_spec (max_size c) (Z.of_nat (size (cache c)))); [|lia].
      unfold evict_lru in *. rewrite (inj_le_iff _ _) in Hle. rewrite Nat2Z.inj_succ in Hle.
      rewrite evict_min_size in Hle; [lia|].
      eapply map_Forall_impl; [exact Hm|]. simpl. lia.
  - split_and!; [lia..|apply map_Forall_empty|]. rewrite map_size_empty. lia.
Qed.

Lemma inv_run max ops :
  Z.of_nat (length ops) < u64_max → inv (Z.of_nat (length ops)) (run max ops).
Proof.
  unfold run. induction ops as [|o ops IH] using rev_ind; intros Hlen; simpl.
  - unfold inv, new; simpl. split_and!; [lia..|apply map_Forall_empty|].
    rewrite map_size_empty. lia.
  - rewrite foldl_app. simpl. rewrite length_app in *. simpl in *.
    rewrite Nat2Z.inj_add in *. apply inv_step; [lia|]. apply IH. lia.
Qed.

Lemma max_size_run max ops : max_size (run max ops) = max.
Proof.
  unfold run. induction ops as [|o ops IH] using rev_ind; [done|].
  rewrite foldl_app. simpl. destruct o; simpl; try done.
  unfold get. case_match; done.
Qed.

(** whatever sequence of lookups, insertions and clears is performed (fewer than
    [u64::MAX] of them, in any iteration order), the cache never holds more entries than
    its limit, or one entry when the limit is zero. *)
Theorem cache_size_bounded max ops :
  Z.of_nat (length ops) < u64_max → len (run max ops) <= Z.max 1 max.
Proof.
  intros H. destruct (inv_run max ops H) as (_ & _ & Hs). by rewrite max_size_run in Hs.
Qed.

(** inserting into a full cache evicts exactly one entry, of least access time;
    everything else is kept. *)
Theorem insert_evicts_oldest max ops k r params :
  let c := run max ops in
  Z.of_nat (length ops) < u64_max → 0 < len c → max <= len c →
  ∃ k0 e0, cache c !! k0 = Some e0 ∧
    (∀ k' e', cache c !! k' = Some e' → last_access e0 <= last_access e') ∧
    cache (insert c k r params) = <[k := cached_route_new r params]> (delete k0 (cache c)).
Proof.
  simpl. intros Hlen Hpos Hfull. destruct (inv_run max ops Hlen) as (_ & Hm & _).
  unfold len in *. destruct (map_choose_or_empty (cache (run max ops))) as [(k1 & e1 & H1)|He];
    [|rewrite He, map_size_empty in Hpos; lia].
  unfold insert, evict_lru. rewrite max_size_run. rewrite (proj2 (Z.leb_le _ _) Hfull). simpl.
  destruct (evict_min_spec last_access _ _ _ H1) as (k0 & e0 & H0 & -> & Hmin).
  { pose proof (Hm _ _ H1). simpl in *. lia. }
  eauto.
Qed.

(** a route that was just inserted and not yet looked up has access time zero, so
    when every other entry has been looked up after the first tick, the next insertion
    of another key evicts the newest entry, not the least recently used one. *)
Theorem fresh_entry_evicted_first c k1 r1 p1 k2 r2 p2 :
  let c1 := insert c k1 r1 p1 in
  k1 ≠ k2 → max_size c <= len c1 →
  (∀ k e, k ≠ k1 → cache c !! k = Some e → 0 < last_access e) →
  cache (insert c1 k2 r2 p2) !! k1 = None.
Proof.
  intros c1 Hne Hfull Hold.
  assert (cache c1 !! k1 = Some (cached_route_new r1 p1)) as H1 by apply lookup_insert_eq.
  assert (∀ k e, k ≠ k1 → cache c1 !! k = Some e → 0 < last_access e) as Hold1.
  { intros k e Hk. unfold c1, insert. simpl. rewrite lookup_insert_ne by done. intros He.
    eapply Hold; [done|]. eapply lookup_weaken; [done|apply insert_cases]. }
  change (cache (insert c1 k2 r2 p2)) with (<[k2 := cached_route_new r2 p2]>
    (if max_size c <=? len c1 then evict_lru (cache c1) else cache c1)).
  rewrite (proj2 (Z.leb_le _ _) Hfull). rewrite lookup_insert_ne by done.
  destruct (evict_min_spec last_access _ _ _ H1) as (k0 & e0 & H0 & Heq & Hmin); [done|].
  unfold evict_lru. rewrite Heq.
  destruct (decide (k0 = k1)) as [->|Hk0]; [by rewrite lookup_delete_eq|].
  pose proof (Hmin _ _ H1). pose proof (Hold1 _ _ Hk0 H0). simpl in *. lia.
Qed.
End cache.

(** * Witnesses *)

Definition demo_ops : list op :=
  [OpInsert 1 demo_route ∅; OpInsert 2 demo_route ∅; OpGet 1; OpGet 2; OpGet 1;
   OpInsert 3 demo_route ∅].

Lemma cache_size_bounded_witness : len (run 2 demo_ops) <= 2.
Proof. refine (cache_size_bounded 2 demo_ops _). vm_compute. reflexivity. Defined.

Lemma insert_evicts_oldest_witness :
  ∃ k0, cache (insert (run 2 demo_ops) 4 demo_route ∅)
          = <[4 := cached_route_new demo_route ∅]> (delete k0 (cache (run 2 demo_ops))).
Proof.
  destruct (insert_evicts_oldest 2 demo_ops 4 demo_route ∅) as (k0 & _ & _ & _ & H);
    [vm_compute; (reflexivity || discriminate)..|]. exists k0. exact H.
Defined.

Lemma fresh_entry_evicted_first_witness :
  cache (insert (insert (run 2 [OpInsert 1 demo_route ∅; OpGet 1; OpGet 1]) 7 demo_route ∅)
           8 demo_route ∅) !! 7 = None.
Proof.
  refine (fresh_entry_evicted_first _ 7 demo_route ∅ 8 demo_route ∅ _ _ _).
  - done.
  - vm_compute. discriminate.
  - intros k e _ H.
    assert (cache (run 2 [OpInsert 1 demo_route ∅; OpGet 1; OpGet 1])
            = {[1 := mkCachedRoute demo_route ∅ 3 1]}) as Hc by (vm_compute; reflexivity).
    rewrite Hc in H. apply lookup_singleton_Some in H as [_ <-]. reflexivity.
Defined.
