(* ===== verification/JsonCache.v ===== *)
(** The JSON response cache (src/src/fast_path/json_cache.rs): response bodies by key
    hash, with a time to live, a hit counter and eviction of the least hit entry.
    Instants and durations are in nanoseconds; the clock reading of each call is an
    argument. *)
From S2P Require Import Prelude Routing.
From stdpp Require Import base gmap strings list sorting.
Open Scope Z_scope.

Record CachedJson := mkCachedJson {
  data : list Byte.byte;
  created_at : Z;
  ttl : Z;
  hits : Z
}.

Definition cached_json_new (now : Z) (d : list Byte.byte) (t : Z) : CachedJson :=
  mkCachedJson d now t 0.

(** [Instant::elapsed] saturates at zero. *)
Definition is_expired (now : Z) (e : CachedJson) : bool := ttl e <? sat_sub now (created_at e).

Record JsonResponseCache := mkJsonResponseCache {
  cache : gmap Z CachedJson;
  max_size : Z;
  default_ttl : Z
}.

Definition new (max dttl : Z) : JsonResponseCache := mkJsonResponseCache ∅ max dttl.

Definition set_cache (m : gmap Z CachedJson) (c : JsonResponseCache) : JsonResponseCache :=
  mkJsonResponseCache m (max_size c) (default_ttl c).

Definition get (now : Z) (c : JsonResponseCache) (key_hash : Z)
    : JsonResponseCache * option (list Byte.byte) :=
  match cache c !! key_hash with
  | Some e =>
      if is_expired now e then (set_cache (delete key_hash (cache c)) c, None)
      else
        let e' := mkCachedJson (data e) (created_at e) (ttl e) (w64 (hits e + 1)) in
        (set_cache (<[key_hash := e']> (cache c)) c, Some (data e))
  | None => (c, None)
  end.

Definition evict_expired (now : Z) (m : gmap Z CachedJson) : gmap Z CachedJson :=
  filter (λ kv, is_expired now kv.2 = false) m.

Definition invalidate (c : JsonResponseCache) (key_hash : Z) : JsonResponseCache :=
  set_cache (delete key_hash (cache c)) c.

Definition clear (c : JsonResponseCache) : JsonResponseCache := set_cache ∅ c.

Definition compute_key_hash `{XXH3} (r params : string) : Z := xxh3_64 (r +:+ ":" +:+ params).

(** What a caller may rely on: the last insertion for each key, unless it was
    invalidated since. *)
Notation Spec := (gmap Z (list Byte.byte * Z * Z)).

Definition proj (e : CachedJson) : list Byte.byte * Z * Z := (data e, created_at e, ttl e).

Definition spec_fresh (now : Z) (v : list Byte.byte * Z * Z) : Prop :=
  sat_sub now v.1.2 <= v.2.

Inductive op :=
| OpGet (now k : Z)
| OpInsert (now k : Z) (d : list Byte.byte) (t : Z)
| OpInvalidate (now k : Z)
| OpClear (now : Z).

Definition op_time (o : op) : Z :=
  match o with OpGet n _ | OpInsert n _ _ _ | OpInvalidate n _ | OpClear n => n end.

Definition spec_step (s : Spec) (o : op) : Spec :=
  match o with
  | OpGet _ _ => s
  | OpInsert now k d t => <[k := (d, now, t)]> s
  | OpInvalidate _ k => delete k s
  | OpClear _ => ∅
  end.

Definition spec_run (ops : list op) : Spec := foldl spec_step ∅ ops.

Definition is_insert (o : op) : bool := match o with OpInsert _ _ _ _ => true | _ => false end.
Definition inserts (ops : list op) : Z := Z.of_nat (length (List.filter is_insert ops)).

Section cache.
Context `{HI : !HashIter Z CachedJson}.

Definition evict_lru (m : gmap Z CachedJson) : gmap Z CachedJson := evict_min hits m.

(** The eviction passes that precede an insertion. *)
Definition make_room (now : Z) (c : JsonResponseCache) : gmap Z CachedJson :=
  let full m := max_size c <=? Z.of_nat (size (m : gmap Z CachedJson)) in
  let m1 := if full (cache c) then evict_expired now (cache c) else cache c in
  if full m1 then evict_lru m1 else m1.

Definition insert_with_ttl (now : Z) (c : JsonResponseCache) (key_hash : Z)
    (d : list Byte.byte) (t : Z) : JsonResponseCache :=
  set_cache (<[key_hash := cached_json_new now d t]> (make_room now c)) c.

Definition insert (now : Z) (c : JsonResponseCache) (key_hash : Z) (d : list Byte.byte)
    : JsonResponseCache :=
  insert_with_ttl now c key_hash d (default_ttl c).

Definition step (c : JsonResponseCache) (o : op) : JsonResponseCache :=
  match o with
  | OpGet now k => (get now c k).1
  | OpInsert now k d t => insert_with_ttl now c k d t
  | OpInvalidate _ k => invalidate c k
  | OpClear _ => clear c
  end.

Definition run (max dttl : Z) (ops : list op) : JsonResponseCache :=
  foldl step (new max dttl) ops.

Lemma run_snoc max dttl ops o : run max dttl (ops ++ [o]) = step (run max dttl ops) o.
Proof. unfold run. by rewrite foldl_app. Qed.

Lemma spec_run_snoc ops o : spec_run (ops ++ [o]) = spec_step (spec_run ops) o.
Proof. unfold spec_run. by rewrite foldl_app. Qed.

Lemma inserts_snoc ops o : inserts (ops ++ [o]) = inserts ops + if is_insert o then 1 else 0.
Proof.
  unfold inserts. rewrite List.filter_app, length_app. simpl.
  destruct (is_insert o); simpl; lia.
Qed.

Lemma json_max_size_run max dttl ops : max_size (run max dttl ops) = max.
Proof.
  induction ops as [|o ops IH] using rev_ind; [done|]. rewrite run_snoc.
  destruct o; simpl; try done. unfold get. split_matches.
Qed.

Lemma evict_expired_subseteq now m : evict_expired now m ⊆ m.
Proof. apply map_filter_subseteq. Qed.

Lemma make_room_subseteq now c : make_room now c ⊆ cache c.
Proof.
  unfold make_room. repeat case_match; try done.
  - etrans; [apply evict_min_subseteq|apply evict_expired_subseteq].
  - apply evict_min_subseteq.
  - apply evict_expired_subseteq.
Qed.

Lemma make_room_not_full now c :
  Z.of_nat (size (cache c)) < max_size c → make_room now c = cache c.
Proof. intros H%Z.leb_gt. unfold make_room. cbv zeta. by rewrite H, H. Qed.

(** Every stored entry is the last insertion for its key. *)
Definition sound (s : Spec) (m : gmap Z CachedJson) : Prop :=
  ∀ k e, m !! k = Some e → s !! k = Some (proj e).

(** Every last insertion that is still fresh is stored. *)
Definition complete (now : Z) (s : Spec) (m : gmap Z CachedJson) : Prop :=
  ∀ k v, s !! k = Some v → spec_fresh now v → ∃ e, m !! k = Some e ∧ proj e = v.

Lemma is_expired_fresh now e : is_expired now e = false ↔ spec_fresh now (proj e).
Proof. unfold is_expired, spec_fresh. simpl. apply Z.ltb_ge. Qed.

Lemma spec_fresh_mono now now' v : now <= now' → spec_fresh now' v → spec_fresh now v.
Proof. unfold spec_fresh, sat_sub. lia. Qed.

Lemma sound_step s c o : sound s (cache c) → sound (spec_step s o) (cache (step c o)).
Proof.
  intros Hs k e. destruct o as [now k0|now k0 d t|now k0|now]; simpl.
  - unfold get. destruct (cache c !! k0) as [e0|] eqn:E; [|apply Hs].
    case_match; simpl.
    + rewrite lookup_delete_Some. intros [_ ?]. by apply Hs.
    + rewrite lookup_insert_Some. intros [[<- <-]|[_ ?]]; [by apply Hs in E|by apply Hs].
  - intros [[<- <-]|[Hne He]]%lookup_insert_Some; [by rewrite lookup_insert_eq|].
    rewrite lookup_insert_ne by done. eapply Hs, lookup_weaken; [done|apply make_room_subseteq].
  - rewrite !lookup_delete_Some. intros [? ?]. auto.
  - rewrite lookup_empty. done.
Qed.

Lemma complete_step now s c o :
  now <= op_time o → (is_insert o = true → Z.of_nat (size (cache c)) < max_size c) →
  complete now s (cache c) → complete (op_time o) (spec_step s o) (cache (step c o)).
Proof.
  intros Hle Hroom Hc k v Hk Hf.
  destruct o as [now' k0|now' k0 d t|now' k0|now']; simpl in *.
  - destruct (Hc k v Hk) as (e & He & <-); [by eapply spec_fresh_mono|].
    unfold get. destruct (cache c !! k0) as [e0|] eqn:E; [|by eauto].
    destruct (is_expired now' e0) eqn:X; simpl.
    + destruct (decide (k = k0)) as [->|]; [|rewrite lookup_delete_ne by done; eauto].
      rewrite He in E. simplify_eq. apply is_expired_fresh in Hf. congruence.
    + destruct (decide (k = k0)) as [->|]; [|rewrite lookup_insert_ne by done; eauto].
      rewrite He in E. simplify_eq. rewrite lookup_insert_eq. eauto.
  - rewrite make_room_not_full by auto.
    apply lookup_insert_Some in Hk as [[<- <-]|[Hne Hk]].
    + rewrite lookup_insert_eq. eauto.
    + rewrite lookup_insert_ne by done. eapply Hc; [done|by eapply spec_fresh_mono].
  - apply lookup_delete_Some in Hk as [Hne Hk]. rewrite lookup_delete_ne by done.
    eapply Hc; [done|by eapply spec_fresh_mono].
  - by rewrite lookup_empty in Hk.
Qed.

Lemma size_step c o :
  Z.of_nat (size (cache (step c o)))
  <= Z.of_nat (size (cache c)) + if is_insert o then 1 else 0.
Proof.
  destruct o as [now k|now k d t|now k|now]; simpl.
  - unfold get. destruct (cache c !! k) eqn:E; [|simpl; lia]. case_match; simpl.
    + pose proof (map_subseteq_size _ _ (delete_subseteq (cache c) k)). lia.
    + rewrite map_size_insert_Some by eauto. lia.
  - pose proof (size_insert_le (make_room now c) k (cached_json_new now d t)).
    pose proof (map_subseteq_size _ _ (make_room_subseteq now c)). lia.
  - pose proof (map_subseteq_size _ _ (delete_subseteq (cache c) k)). lia.
  - rewrite map_size_empty. lia.
Qed.

Lemma size_run max dttl ops : Z.of_nat (size (cache (run max dttl ops))) <= inserts ops.
Proof.
  induction ops as [|o ops IH] using rev_ind; [done|].
  rewrite run_snoc, inserts_snoc. pose proof (size_step (run max dttl ops) o). lia.
Qed.

Lemma sound_run max dttl ops : sound (spec_run ops) (cache (run max dttl ops)).
Proof.
  induction ops as [|o ops IH] using rev_ind; [by intros k e ?|].
  rewrite run_snoc, spec_run_snoc. by apply sound_step.
Qed.

Lemma complete_run max dttl ops now :
  StronglySorted Z.le (op_time <$> ops) → Forall (λ o, op_time o <= now) ops →
  inserts ops <= max → complete now (spec_run ops) (cache (run max dttl ops)).
Proof.
  revert now. induction ops as [|o ops IH] using rev_ind; intros now Hs Hall Hi;
    [by intros k v ?|].
  rewrite run_snoc, spec_run_snoc. rewrite fmap_app in Hs.
  apply StronglySorted_app in Hs as (Hbd & Hs & _).
  apply Forall_app in Hall as [_ Hall]. rewrite Forall_singleton in Hall.
  rewrite inserts_snoc in Hi.
  intros k v Hk Hf. eapply complete_step; [reflexivity| |apply IH| |]; try done.
  - intros Ho. rewrite Ho in Hi. rewrite json_max_size_run. pose proof (size_run max dttl ops). lia.
  - apply Forall_forall. intros o' Ho'. apply Hbd; [by apply list_elem_of_fmap_2|set_solver].
  - destruct (is_insert o); lia.
  - by eapply spec_fresh_mono.
Qed.

Lemma get_hits n now c k :
  n < u64_max →
  map_Forall (λ _ e, 0 <= hits e < n) (cache c) →
  map_Forall (λ _ e, 0 <= hits e < n + 1) (cache (get now c k).1).
Proof.
  intros Hn Hm k' e'. unfold get. destruct (cache c !! k) as [e|] eqn:E.
  - pose proof (Hm _ _ E). simpl in *. case_match; simpl.
    + rewrite lookup_delete_Some. intros [_ He]. specialize (Hm _ _ He). simpl in Hm. lia.
    + rewrite lookup_insert_Some. intros [[_ <-]|[_ He]]; simpl.
      * rewrite w64_id; unfold is_u64; lia.
      * specialize (Hm _ _ He). simpl in Hm. lia.
  - intros He. specialize (Hm _ _ He). simpl in *. lia.
Qed.

Lemma insert_hits n now c k d t :
  0 < n → map_Forall (λ _ e, 0 <= hits e < n) (cache c) →
  map_Forall (λ _ e, 0 <= hits e < n) (cache (insert_with_ttl now c k d t)).
Proof.
  intros Hn Hm. apply map_Forall_insert_2; [simpl; lia|].
  intros k' e' He. eapply Hm, lookup_weaken; [done|apply make_room_subseteq].
Qed.

Lemma make_room_size n now c :
  n <= u64_max → map_Forall (λ _ e, 0 <= hits e < n) (cache c) →
  Z.of_nat (size (cache c)) <= Z.max 1 (max_size c) →
  Z.of_nat (size (make_room now c)) < Z.max 1 (max_size c).
Proof.
  intros Hn Hm Hs. unfold make_room.
  assert (∀ m, m ⊆ cache c → Z.of_nat (size (evict_lru m)) = Z.max 0 (Z.of_nat (size m) - 1)) as Hev.
  { intros m Hsub. apply evict_min_size. intros k e He.
    eapply lookup_weaken in He; [|done]. specialize (Hm _ _ He). simpl in Hm. lia. }
  pose proof (map_subseteq_size _ _ (evict_expired_subseteq now (cache c))).
  destruct (Z.leb_spec (max_size c) (Z.of_nat (size (cache c))));
    case_match; bool_to_prop; rewrite ?Hev by (done || apply evict_expired_subseteq); lia.
Qed.

Lemma hits_run max dttl ops :
  Z.of_nat (length ops) < u64_max →
  map_Forall (λ _ e, 0 <= hits e < Z.of_nat (length ops) + 1) (cache (run max dttl ops)).
Proof.
  induction ops as [|o ops IH] using rev_ind; intros Hl; [apply map_Forall_empty|].
  rewrite run_snoc. rewrite length_app in *. simpl in *. rewrite Nat2Z.inj_add in *.
  specialize (IH ltac:(lia)).
  assert (∀ m, m ⊆ cache (run max dttl ops) →
    map_Forall (λ _ e, 0 <= hits e < Z.of_nat (length ops) + 1 + 1) m) as Hsub.
  { intros m Hm k e He. eapply lookup_weaken in He; [|done]. specialize (IH _ _ He).
    simpl in IH. lia. }
  destruct o as [now k|now k d t|now k|now]; simpl.
  - apply get_hits; [lia|done].
  - apply insert_hits; [lia|]. by apply Hsub.
  - apply Hsub, delete_subseteq.
  - apply map_Forall_empty.
Qed.

(** the JSON cache never holds more entries than its limit (one when the limit is
    zero), after any sequence of fewer than [u64::MAX] operations at any clock
    readings. *)
Theorem json_cache_size_bounded max dttl ops :
  Z.of_nat (length ops) < u64_max →
  Z.of_nat (size (cache (run max dttl ops))) <= Z.max 1 max.
Proof.
  induction ops as [|o ops IH] using rev_ind; intros Hl; [unfold run, new; simpl; rewrite map_size_empty; lia|].
  rewrite run_snoc. rewrite length_app in Hl. simpl in Hl.
  rewrite Nat2Z.inj_add in Hl. specialize (IH ltac:(lia)).
  pose proof (size_step (run max dttl ops) o) as Hst.
  destruct (is_insert o) eqn:Ho; [|lia]. destruct o as [|now k d t| |]; try done. simpl.
  pose proof (make_room_size (Z.of_nat (length ops) + 1) now (run max dttl ops)
    ltac:(lia) (hits_run max dttl ops ltac:(lia))) as Hr.
  rewrite json_max_size_run in Hr. specialize (Hr IH).
  pose proof (size_insert_le (make_room now (run max dttl ops)) k (cached_json_new now d t)).
  lia.
Qed.

(** the cache refines its specification.  A hit returns the data last inserted
    under the key, not invalidated since and not past its time to live; and, as long as
    no more insertions than the limit were made and the clock is monotone, a lookup of
    fresh data is a hit. *)
Theorem json_cache_get_spec max dttl ops now k :
  (∀ d, (get now (run max dttl ops) k).2 = Some d →
     ∃ t0 t, spec_run ops !! k = Some (d, t0, t) ∧ spec_fresh now (d, t0, t)) ∧
  (∀ d t0 t, StronglySorted Z.le (op_time <$> ops) → Forall (λ o, op_time o <= now) ops →
     inserts ops <= max → spec_run ops !! k = Some (d, t0, t) → spec_fresh now (d, t0, t) →
     (get now (run max dttl ops) k).2 = Some d).
Proof.
  unfold get. split.
  - intros d. destruct (cache _ !! k) as [e|] eqn:E; [|done].
    destruct (is_expired now e) eqn:X; [done|]. intros [= <-].
    apply sound_run in E. apply is_expired_fresh in X. exists (created_at e), (ttl e). done.
  - intros d t0 t Hs Hall Hi Hk Hf.
    destruct (complete_run max dttl ops now Hs Hall Hi k _ Hk Hf) as (e & He & Hp).
    rewrite He. rewrite <- Hp in Hf. apply is_expired_fresh in Hf. rewrite Hf.
    by injection Hp as <-.
Qed.
End cache.

(** * Witnesses *)

Definition demo_ops : list op :=
  [OpInsert 0 1 [Byte.x41] 100; OpInsert 5 2 [Byte.x42] 3; OpGet 7 1; OpGet 9 2;
   OpInsert 10 3 [Byte.x43] 50; OpInvalidate 11 1].

Lemma json_cache_size_bounded_witness : Z.of_nat (size (cache (run 1 60 demo_ops))) <= 1.
Proof. refine (json_cache_size_bounded 1 60 demo_ops _). vm_compute. reflexivity. Defined.

Lemma json_cache_get_spec_witness : (get 20 (run 3 60 demo_ops) 3).2 = Some [Byte.x43].
Proof.
  refine (proj2 (json_cache_get_spec 3 60 demo_ops 20 3) [Byte.x43] 10 50 _ _ _ _ _).
  - repeat constructor; simpl; lia.
  - repeat constructor; simpl; lia.
  - vm_compute. discriminate.
  - vm_compute. reflexivity.
  - vm_compute. discriminate.
Defined.
