(* ===== verification/Reload.v ===== *)
(** Health probes and zero-downtime reload (src/src/core/reload.rs): the health status,
    the in-flight counter, the drain protocol and, as a step relation, the interleaving
    of requests, the drain trigger, the startup task and a drain waiter. *)
From S2P Require Import Prelude.
From stdpp Require Import base gmap strings list relations.
Open Scope Z_scope.

Inductive HealthStatus := Starting | Healthy | Draining | Unhealthy.

#[export] Instance HealthStatus_eq_dec : EqDecision HealthStatus.
Proof. solve_decision. Defined.

Definition status_u8 (s : HealthStatus) : Z :=
  match s with Starting => 0 | Healthy => 1 | Draining => 2 | Unhealthy => 3 end.

Definition from_u8 (v : Z) : HealthStatus :=
  if v =? 0 then Starting else if v =? 1 then Healthy else if v =? 2 then Draining
  else if v =? 3 then Unhealthy else Unhealthy.

Definition as_str (s : HealthStatus) : string :=
  match s with
  | Starting => "starting" | Healthy => "healthy"
  | Draining => "draining" | Unhealthy => "unhealthy"
  end.

Definition is_live (s : HealthStatus) : bool :=
  match s with Starting | Healthy | Draining => true | Unhealthy => false end.

Definition is_ready (s : HealthStatus) : bool :=
  match s with Healthy => true | _ => false end.

(** [HealthCheckInner]: atomics, start instant and the named custom checks. *)
Record HealthCheck := mkHealthCheck {
  status_cell : Z;
  in_flight : Z;
  started_at : Z;
  custom_checks : list string
}.

Definition health_new (now : Z) : HealthCheck := mkHealthCheck (status_u8 Starting) 0 now [].

Definition status (h : HealthCheck) : HealthStatus := from_u8 (status_cell h).

Definition set_status (s : HealthStatus) (h : HealthCheck) : HealthCheck :=
  mkHealthCheck (status_u8 s) (in_flight h) (started_at h) (custom_checks h).

Definition mark_healthy : HealthCheck → HealthCheck := set_status Healthy.
Definition mark_draining : HealthCheck → HealthCheck := set_status Draining.
Definition mark_unhealthy : HealthCheck → HealthCheck := set_status Unhealthy.

(** [fetch_add] wraps; the returned sum is computed separately and wraps as well. *)
Definition increment_in_flight (h : HealthCheck) : HealthCheck * Z :=
  (mkHealthCheck (status_cell h) (w64 (in_flight h + 1)) (started_at h) (custom_checks h),
   w64 (in_flight h + 1)).

(** [fetch_sub] wraps the counter, the returned value saturates. *)
Definition decrement_in_flight (h : HealthCheck) : HealthCheck * Z :=
  let prev := in_flight h in
  (mkHealthCheck (status_cell h) (w64 (prev - 1)) (started_at h) (custom_checks h),
   sat_sub prev 1).

Definition add_custom_check (name : string) (h : HealthCheck) : HealthCheck :=
  mkHealthCheck (status_cell h) (in_flight h) (started_at h) (custom_checks h ++ [name]).

Definition uptime (now : Z) (h : HealthCheck) : Z := sat_sub now (started_at h).

Definition bool_str (b : bool) : string := if b then "true" else "false".
Definition quote : string := String (ascii_of_N 34) EmptyString.

(** The health body; [secs] is the [{:.2}] rendering of the uptime. *)
Definition to_json (secs : string) (h : HealthCheck) : string :=
  "{" +:+ quote +:+ "status" +:+ quote +:+ ":" +:+ quote +:+ as_str (status h) +:+ quote
  +:+ "," +:+ quote +:+ "live" +:+ quote +:+ ":" +:+ bool_str (is_live (status h))
  +:+ "," +:+ quote +:+ "ready" +:+ quote +:+ ":" +:+ bool_str (is_ready (status h))
  +:+ "," +:+ quote +:+ "in_flight" +:+ quote +:+ ":" +:+ dec (in_flight h)
  +:+ "," +:+ quote +:+ "uptime_secs" +:+ quote +:+ ":" +:+ secs +:+ "}".

Definition liveness_code (h : HealthCheck) : Z := if is_live (status h) then 200 else 503.
Definition readiness_code (h : HealthCheck) : Z := if is_ready (status h) then 200 else 503.
Definition startup_code (h : HealthCheck) : Z :=
  if bool_decide (status h ≠ Starting) then 200 else 503.

Record ReloadConfig := mkReloadConfig {
  drain_timeout_secs : Z;
  health_poll_interval_ms : Z;
  startup_grace_secs : Z;
  health_probes_enabled : bool;
  health_path_prefix : string
}.

Definition reload_config_default : ReloadConfig := mkReloadConfig 30 100 2 true "/_health".

Inductive ReloadSignal := SigNone | Graceful | Hot | Shutdown.

(** [tokio::sync::Notify], used through [notify_waiters] and [notified] only: a future
    created after the last [notify_waiters] is not woken by it ([notify_waiters] stores
    no permit), and creating a future wakes nobody. *)
Class Notify := {
  notify : Type;
  ticket : Type;
  notify_new : notify;
  notified : notify → ticket * notify;
  notify_waiters : notify → notify;
  is_notified : notify → ticket → bool;
  notified_fresh n : is_notified (notified n).2 (notified n).1 = false
}.

Section reload.
Context `{NT : Notify}.

Record ReloadManager := mkReloadManager {
  config : ReloadConfig;
  health : HealthCheck;
  signal : ReloadSignal;
  draining : bool;
  drain_complete : notify
}.

Definition manager_new (now : Z) (c : ReloadConfig) : ReloadManager :=
  mkReloadManager c (health_new now) SigNone false notify_new.

Definition set_health (h : HealthCheck) (rm : ReloadManager) : ReloadManager :=
  mkReloadManager (config rm) h (signal rm) (draining rm) (drain_complete rm).

Definition send_signal (s : ReloadSignal) (rm : ReloadManager) : ReloadManager :=
  mkReloadManager (config rm) (health rm) s (draining rm) (drain_complete rm).

Definition signal_graceful_reload := send_signal Graceful.
Definition signal_hot_reload := send_signal Hot.
Definition signal_shutdown := send_signal Shutdown.

(** Compare-and-exchange on the flag; only the first caller marks the health status. *)
Definition start_drain (rm : ReloadManager) : ReloadManager :=
  if draining rm then rm
  else mkReloadManager (config rm) (mark_draining (health rm)) (signal rm) true
         (drain_complete rm).

Definition is_draining (rm : ReloadManager) : bool := draining rm.

(** The two halves of [on_request_complete]: the decrement, then the test of the flag
    and the wake-up. *)
Definition complete_decrement (rm : ReloadManager) : ReloadManager * Z :=
  let '(h, remaining) := decrement_in_flight (health rm) in (set_health h rm, remaining).

Definition complete_notify (remaining : Z) (rm : ReloadManager) : ReloadManager :=
  if is_draining rm && (remaining =? 0) then
    mkReloadManager (config rm) (health rm) (signal rm) (draining rm)
      (notify_waiters (drain_complete rm))
  else rm.

Definition on_request_complete (rm : ReloadManager) : ReloadManager :=
  let '(rm', remaining) := complete_decrement rm in complete_notify remaining rm'.

Definition reset_after_reload (rm : ReloadManager) : ReloadManager :=
  mkReloadManager (config rm) (set_status Healthy (health rm)) SigNone false
    (drain_complete rm).

(** ** Interleaving *)

(** A request between the steps of [handle_request]: admitted by the drain test, counted,
    or decremented and about to notify. *)
Inductive req_pc := Admitted_pc | InFlight | Finishing (remaining : Z).

#[local] Instance req_pc_eq_dec : EqDecision req_pc.
Proof. solve_decision. Defined.

(** A caller of [wait_for_drain]. *)
Inductive wait_pc := WIdle | WLoaded | WWaiting (t : ticket) | WDone (drained : bool).

(** [cancelled] counts the requests that were dropped while they were counted. *)
Record Sys := mkSys { rm : ReloadManager; reqs : gmap nat req_pc; waiter : wait_pc; cancelled : Z }.

Definition set_rm (m : ReloadManager) (s : Sys) : Sys := mkSys m (reqs s) (waiter s) (cancelled s).
Definition set_reqs (m : ReloadManager) (r : gmap nat req_pc) (s : Sys) : Sys :=
  mkSys m r (waiter s) (cancelled s).
Definition set_waiter (w : wait_pc) (s : Sys) : Sys := mkSys (rm s) (reqs s) w (cancelled s).

(** When a client disconnects, the server drops the future of its request: it was suspended inside
    [handle_request_inner], the only place where [handle_request] waits, and [on_request_complete]
    after it is not run. *)
Inductive step : Sys → Sys → Prop :=
| S_reject s : is_draining (rm s) = true → step s s
| S_admit s i : is_draining (rm s) = false → reqs s !! i = None →
    step s (set_reqs (rm s) (<[i := Admitted_pc]> (reqs s)) s)
| S_start s i : reqs s !! i = Some Admitted_pc →
    step s (set_reqs (set_health (increment_in_flight (health (rm s))).1 (rm s))
              (<[i := InFlight]> (reqs s)) s)
| S_finish s i : reqs s !! i = Some InFlight →
    step s (set_reqs (complete_decrement (rm s)).1
              (<[i := Finishing (complete_decrement (rm s)).2]> (reqs s)) s)
| S_notify s i r : reqs s !! i = Some (Finishing r) →
    step s (set_reqs (complete_notify r (rm s)) (delete i (reqs s)) s)
| S_cancel s i : reqs s !! i = Some InFlight →
    step s (mkSys (rm s) (delete i (reqs s)) (waiter s) (cancelled s + 1))
| S_drain s : step s (set_rm (start_drain (rm s)) s)
| S_startup s : step s (set_rm (set_health (mark_healthy (health (rm s))) (rm s)) s)
| S_wait_zero s : waiter s = WIdle → in_flight (health (rm s)) = 0 → step s (set_waiter (WDone true) s)
| S_wait_load s : waiter s = WIdle → in_flight (health (rm s)) ≠ 0 → step s (set_waiter WLoaded s)
| S_wait_register s : waiter s = WLoaded →
    step s (mkSys (mkReloadManager (config (rm s)) (health (rm s)) (signal (rm s))
                     (draining (rm s)) (notified (drain_complete (rm s))).2)
                  (reqs s) (WWaiting (notified (drain_complete (rm s))).1) (cancelled s))
| S_wait_woken s t : waiter s = WWaiting t → is_notified (drain_complete (rm s)) t = true →
    step s (set_waiter (WDone true) s)
| S_wait_timeout s t : waiter s = WWaiting t → step s (set_waiter (WDone false) s)
| S_signal s g : step s (set_rm (send_signal g (rm s)) s).

Definition init (now : Z) (c : ReloadConfig) : Sys := mkSys (manager_new now c) ∅ WIdle 0.

Definition reachable (s : Sys) : Prop := ∃ now c, rtc step (init now c) s.

(** The requests that are counted. *)
Definition counted (s : Sys) : gmap nat req_pc := filter (λ kv, kv.2 = InFlight) (reqs s).

Lemma counted_insert (m : gmap nat req_pc) i p :
  filter (λ kv, kv.2 = InFlight) (<[i := p]> m)
  = if decide (p = InFlight)
    then <[i := p]> (filter (λ kv : nat * req_pc, kv.2 = InFlight) m)
    else delete i (filter (λ kv : nat * req_pc, kv.2 = InFlight) m).
Proof.
  case_decide.
  - by rewrite map_filter_insert_True.
  - rewrite map_filter_insert_False by done. by rewrite map_filter_delete.
Qed.

Lemma size_counted_insert (m : gmap nat req_pc) i p :
  Z.of_nat (size (filter (λ kv : nat * req_pc, kv.2 = InFlight) (<[i := p]> m)))
  = Z.of_nat (size (filter (λ kv : nat * req_pc, kv.2 = InFlight) m))
    + (if decide (p = InFlight) then 1 else 0)
    - (if decide (m !! i = Some InFlight) then 1 else 0).
Proof.
  rewrite counted_insert.
  set (f := filter _ m).
  assert (f !! i = if decide (m !! i = Some InFlight) then Some InFlight else None) as Hi.
  { unfold f. case_decide as Hm.
    - by rewrite map_lookup_filter_Some.
    - apply map_lookup_filter_None. right. intros x Hx ?. simpl in *. congruence. }
  repeat case_decide; rewrite ?map_size_insert, ?map_size_delete, ?Hi; simpl; try lia.
  assert (size f ≠ 0%nat) by (rewrite map_size_ne_0_lookup; eauto). lia.
Qed.

Lemma size_counted_delete (m : gmap nat req_pc) i p :
  m !! i = Some p →
  Z.of_nat (size (filter (λ kv : nat * req_pc, kv.2 = InFlight) (delete i m)))
  = Z.of_nat (size (filter (λ kv : nat * req_pc, kv.2 = InFlight) m)) - (if decide (p = InFlight) then 1 else 0).
Proof.
  intros Hi. rewrite map_filter_delete. set (f := filter _ m). case_decide as Hp.
  - assert (f !! i = Some p) as Hf by (by apply map_lookup_filter_Some).
    assert (size f ≠ 0%nat) by (rewrite map_size_ne_0_lookup; eauto).
    rewrite map_size_delete, Hf. simpl. lia.
  - rewrite map_size_delete_None; [lia|]. apply map_lookup_filter_None. right. intros x Hx ?. simpl in *. congruence.
Qed.

Lemma w64_idemp_add a b : w64 (w64 a + b) = w64 (a + b).
Proof. unfold w64. by rewrite Zplus_mod_idemp_l. Qed.

(** The counter is the number of counted requests and of those dropped, modulo the word size. *)
Definition balanced (s : Sys) : Prop :=
  in_flight (health (rm s)) = w64 (Z.of_nat (size (counted s)) + cancelled s) ∧ 0 <= cancelled s.

Lemma complete_notify_health r m : health (complete_notify r m) = health m.
Proof. unfold complete_notify. by case_match. Qed.

Lemma start_drain_in_flight m : in_flight (health (start_drain m)) = in_flight (health m).
Proof. unfold start_drain. by case_match. Qed.

Lemma balanced_step s s' : step s s' → balanced s → balanced s'.
Proof.
  unfold balanced, counted. intros Hst [Hb Hc].
  destruct Hst as [| s i _ Hi | s i Hi | s i Hi | s i r Hi | s i Hi | s | | | | | | |]; simpl in *;
    (split; [|lia]); try done.
  - rewrite Hb. f_equal. rewrite size_counted_insert, Hi. simpl. lia.
  - rewrite Hb, w64_idemp_add. f_equal. rewrite size_counted_insert, Hi. simpl. lia.
  - rewrite Hb. unfold Z.sub at 1. rewrite w64_idemp_add. f_equal.
    rewrite size_counted_insert, Hi. simpl. lia.
  - rewrite complete_notify_health, Hb. f_equal. rewrite (size_counted_delete _ _ _ Hi). simpl. lia.
  - rewrite Hb. f_equal. rewrite (size_counted_delete _ _ _ Hi). simpl. lia.
  - by rewrite start_drain_in_flight.
Qed.

Lemma balanced_reachable s : reachable s → balanced s.
Proof.
  intros (now & c & Hst). eapply (rtc_invariant step); [apply balanced_step|done|done].
Qed.

(** in every reachable interleaving the in-flight counter is exactly the number of
    requests between their increment and their decrement and of those whose client left in
    between (while fewer than 2^64 are), so a decrement never underflows. *)
Theorem in_flight_counts s :
  reachable s → Z.of_nat (size (reqs s)) + cancelled s <= u64_max →
  in_flight (health (rm s)) = Z.of_nat (size (counted s)) + cancelled s ∧
  (∀ i, reqs s !! i = Some InFlight →
     in_flight (complete_decrement (rm s)).1.(health) = Z.of_nat (size (counted s)) + cancelled s - 1 ∧
     (complete_decrement (rm s)).2 = Z.of_nat (size (counted s)) + cancelled s - 1).
Proof.
  intros [Hr Hc]%balanced_reachable Hs.
  assert (size (counted s) ≤ size (reqs s))%nat
    by (apply map_subseteq_size, map_filter_subseteq).
  rewrite w64_id in Hr by (unfold is_u64; lia). split; [done|].
  intros i Hi. simpl. rewrite Hr.
  assert (counted s !! i = Some InFlight) as Hci by (by apply map_lookup_filter_Some).
  assert (size (counted s) ≠ 0%nat) by (rewrite map_size_ne_0_lookup; eauto).
  rewrite w64_id by (unfold is_u64; lia). unfold sat_sub. lia.
Qed.

(** No request is between the drain test and its increment. *)
Definition no_admitted (s : Sys) : Prop := ∀ i, reqs s !! i ≠ Some Admitted_pc.

Definition closed (s : Sys) : Prop := draining (rm s) = true ∧ no_admitted s.

Lemma complete_notify_draining r m : draining (complete_notify r m) = draining m.
Proof. unfold complete_notify. by case_match. Qed.

Lemma start_drain_draining m : draining (start_drain m) = true.
Proof. unfold start_drain. by case_match. Qed.

Lemma closed_step s s' :
  step s s' → closed s →
  closed s' ∧ (∀ i, reqs s' !! i = Some InFlight → reqs s !! i = Some InFlight) ∧
  (counted s = ∅ → cancelled s' = cancelled s).
Proof.
  unfold closed, no_admitted, is_draining. intros Hst [Hd Ha].
  destruct Hst as [| s i Hf | s i Hi | s i Hi | s i r Hi | s i Hi | s | | | | | | |];
    simpl in *; try done; try congruence.
  - unfold is_draining in Hf. congruence.
  - split_and!; [done| | |done]; intros j; destruct (decide (i = j)) as [->|];
      rewrite ?lookup_insert_eq, ?lookup_insert_ne by done; naive_solver.
  - rewrite complete_notify_draining. split_and!; [done| | |done]; intros j;
      destruct (decide (i = j)) as [->|];
      rewrite ?lookup_delete_eq, ?lookup_delete_ne by done; naive_solver.
  - split_and!; [done| | |]; [intros j..|]; [destruct (decide (i = j)) as [->|];
      rewrite ?lookup_delete_eq, ?lookup_delete_ne by done; naive_solver..|].
    intros Hc. assert (counted s !! i = Some InFlight) as Hci by (by apply map_lookup_filter_Some).
    by rewrite Hc in Hci.
  - by rewrite start_drain_draining.
Qed.

Lemma none_counted s : (∀ i, reqs s !! i ≠ Some InFlight) → counted s = ∅.
Proof.
  intros H. apply map_empty. intros i. destruct (counted s !! i) eqn:E; [|done].
  apply map_lookup_filter_Some in E as [E1 E2]. simpl in E2. subst. by destruct (H i).
Qed.

Lemma counted_none s i : counted s = ∅ → reqs s !! i ≠ Some InFlight.
Proof.
  intros Hc Hi. assert (counted s !! i = Some InFlight) as E by (by apply map_lookup_filter_Some).
  by rewrite Hc in E.
Qed.

Lemma closed_steps s s' :
  rtc step s s' → closed s →
  closed s' ∧ (∀ i, reqs s' !! i = Some InFlight → reqs s !! i = Some InFlight) ∧
  (counted s = ∅ → cancelled s' = cancelled s).
Proof.
  induction 1 as [|s s1 s' H1 _ IH]; intros Hc; [done|].
  destruct (closed_step _ _ H1 Hc) as (Hc1 & Hi1 & He1). destruct (IH Hc1) as (Hc' & Hi' & He').
  split_and!; [done|auto|]. intros He. rewrite <-He1 by done. apply He', none_counted.
  intros i Hi%Hi1. by eapply counted_none.
Qed.

(** C18: once the drain has started and no request is between the drain test and its
    increment, no request is counted any more: those in flight only leave, and when none is
    left the in-flight count is final, the number of requests whose client disconnected before
    they were answered. *)
Theorem drained_stays_drained s s' :
  reachable s → draining (rm s) = true → no_admitted s → rtc step s s' →
  (∀ i, reqs s' !! i = Some InFlight → reqs s !! i = Some InFlight) ∧
  (counted s = ∅ → in_flight (health (rm s')) = w64 (cancelled s)).
Proof.
  intros (now & c & Hr) Hd Ha Hst.
  destruct (closed_steps _ _ Hst (conj Hd Ha)) as (_ & Hi & He). split; [done|]. intros Hc.
  assert (counted s' = ∅) as Hc' by (apply none_counted; intros i Hi'%Hi; by eapply counted_none).
  assert (reachable s') as [Hb _]%balanced_reachable by (exists now, c; by etrans).
  rewrite Hc', He in Hb by done. exact Hb.
Qed.

(** Nothing in flight, and still a count that is not zero. *)
Definition undrained (s : Sys) : Prop :=
  draining (rm s) = true ∧ reqs s = ∅ ∧ in_flight (health (rm s)) ≠ 0 ∧ waiter s ≠ WDone true ∧
  (∀ t, waiter s = WWaiting t → is_notified (drain_complete (rm s)) t = false).

Lemma undrained_step s s' : step s s' → undrained s → undrained s'.
Proof.
  unfold undrained. intros Hst (Hd & Hr & Hn & Hw & Ht).
  assert (∀ i, reqs s !! i = None) as Hnone by (intros; by rewrite Hr).
  destruct Hst as [| s i Hf | s i Hi | s i Hi | s i r Hi | s i Hi | s | | | | | s t' Hw' Hn' | | ];
    simpl in *; try congruence; try (by rewrite Hnone in Hi); try done.
  - unfold is_draining in Hf. congruence.
  - unfold start_drain. rewrite Hd. done.
  - split_and!; try done. intros t [= <-]. apply notified_fresh.
  - rewrite (Ht _ Hw') in Hn'. done.
Qed.

(** a client that disconnects keeps the worker from draining.  The count of its request is
    never given back, so when the drain has started and no request is left, a caller that waits
    for the drain to complete is, on every continuation, either still waiting or told after its
    timeout that the drain failed. *)
Theorem disconnect_blocks_drain s s' :
  reachable s → draining (rm s) = true → reqs s = ∅ → 0 < cancelled s <= u64_max → waiter s = WIdle →
  rtc step s s' → waiter s' ≠ WDone true ∧ in_flight (health (rm s')) = cancelled s.
Proof.
  intros Hr Hd He Hc Hw Hst. destruct (balanced_reachable s Hr) as [Hb _].
  assert (counted s = ∅) as Hce by (apply none_counted; intros i; by rewrite He).
  rewrite Hce, w64_id in Hb by (unfold is_u64; rewrite map_size_empty; lia).
  rewrite map_size_empty in Hb. simpl in Hb.
  assert (undrained s) as Hu by (split_and!; [done|done|lia|congruence|congruence]).
  assert (undrained s') as (_ & _ & _ & Hw' & _)
    by (eapply (rtc_invariant step undrained); [intros ????; by eapply undrained_step|exact Hst|done]).
  split; [done|]. assert (no_admitted s) as Ha by (intros i; by rewrite He).
  destruct (closed_steps _ _ Hst (conj Hd Ha)) as (_ & Hi & Hce').
  assert (counted s' = ∅) as Hc' by (apply none_counted; intros i Hi'%Hi; by eapply counted_none).
  destruct Hr as (now & c & Hr). assert (reachable s') as [Hb' _]%balanced_reachable by (exists now, c; by etrans).
  rewrite Hc', Hce', w64_id in Hb' by (done || (unfold is_u64; rewrite map_size_empty; lia)).
  by rewrite map_size_empty in Hb'.
Qed.

(** A waiter stuck on a future that nobody will complete. *)
Definition stuck (t : ticket) (s : Sys) : Prop :=
  draining (rm s) = true ∧ reqs s = ∅ ∧ is_notified (drain_complete (rm s)) t = false ∧
  (waiter s = WWaiting t ∨ waiter s = WDone false).

Lemma stuck_step t s s' : stuck t s → step s s' → stuck t s'.
Proof.
  unfold stuck, is_draining. intros (Hd & Hr & Hn & Hw) Hst.
  assert (∀ i, reqs s !! i = None) as Hnone by (intros; by rewrite Hr).
  destruct Hst as [| s i Hf | s i Hi | s i Hi | s i r Hi | s i Hi | s | | | | | s t' Hw' Hn' | | ];
    simpl in *; try congruence; try (by rewrite Hnone in Hi); try done.
  - unfold is_draining in Hf. congruence.
  - unfold start_drain. by rewrite Hd.
  - destruct Hw; congruence.
  - destruct Hw; congruence.
  - destruct Hw; congruence.
  - destruct Hw as [Hw|Hw]; rewrite Hw in Hw'; [|done]. injection Hw' as ->. congruence.
  - auto.
Qed.

(** the wake-up of a drain waiter can be lost.  There is a reachable state in which
    the drain has completed (draining, no request left, counter zero) but the waiter, who
    loaded a non-zero counter before the last request notified and registered after it,
    sleeps; from there every continuation keeps it waiting until its timeout reports the
    drain as failed. *)
Theorem drain_wakeup_lost :
  ∃ s t, reachable s ∧ draining (rm s) = true ∧ reqs s = ∅ ∧
    in_flight (health (rm s)) = 0 ∧ waiter s = WWaiting t ∧
    ∀ s', rtc step s s' → waiter s' = WWaiting t ∨ waiter s' = WDone false.
Proof.
  set (s0 := init 0 reload_config_default).
  set (rm1 := start_drain (set_health (increment_in_flight (health (rm s0))).1 (rm s0))).
  set (rm2 := on_request_complete rm1).
  set (n := drain_complete rm2).
  set (s := mkSys (mkReloadManager (config rm2) (health rm2) (signal rm2) (draining rm2)
                     (notified n).2) ∅ (WWaiting (notified n).1) 0).
  exists s, (notified n).1.
  assert (stuck (notified n).1 s) as Hstuck.
  { split_and!; [done|done|apply notified_fresh|by left]. }
  split_and!; [|done|done|done|done|].
  - exists 0, reload_config_default. fold s0.
    eapply rtc_l; [apply (S_admit _ 0%nat); done|].
    eapply rtc_l; [apply (S_start _ 0%nat); apply lookup_insert_eq|].
    eapply rtc_l; [apply S_drain|].
    eapply rtc_l; [apply S_wait_load; [done|discriminate]|].
    eapply rtc_l; [apply (S_finish _ 0%nat); apply lookup_insert_eq|].
    eapply rtc_l; [apply (S_notify _ 0%nat); apply lookup_insert_eq|].
    eapply rtc_l; [apply S_wait_register; done|]. simpl.
    rewrite !insert_insert_eq, delete_insert_eq. apply rtc_refl.
  - intros s' Hs'. assert (stuck (notified n).1 s') as (_ & _ & _ & Hw); [|done].
    eapply (rtc_invariant step); [intros ????; by eapply stuck_step|done|done].
Qed.

(** The startup task marks the worker healthy after its grace period without looking at
    the drain flag: a draining worker that rejects every request reports ready. *)
Theorem ready_while_draining :
  ∃ s, reachable s ∧ is_draining (rm s) = true ∧ readiness_code (health (rm s)) = 200.
Proof.
  eexists. split_and!.
  - exists 0, reload_config_default.
    eapply rtc_l; [apply S_drain|]. eapply rtc_l; [apply S_startup|]. apply rtc_refl.
  - done.
  - done.
Qed.
End reload.

(** * Witnesses *)

(** A [Notify] as a generation counter: a future remembers the generation it was created
    in and is woken when a later one has started. *)
#[refine] Instance counter_Notify : Notify := {
  notify := nat;
  ticket := nat;
  notify_new := 0%nat;
  notified n := (n, n);
  notify_waiters n := S n;
  is_notified n t := (t <? n)%nat
}.
Proof. intros n. apply Nat.ltb_irrefl. Defined.

Definition demo_sys : Sys :=
  mkSys (set_health (increment_in_flight (health (manager_new 0 reload_config_default))).1
           (manager_new 0 reload_config_default)) {[7%nat := InFlight]} WIdle 0.

Lemma demo_sys_reachable : reachable demo_sys.
Proof.
  exists 0, reload_config_default.
  eapply rtc_l; [apply (S_admit _ 7%nat); done|].
  eapply rtc_l; [apply (S_start _ 7%nat); apply lookup_insert_eq|]. simpl.
  rewrite insert_insert_eq. apply rtc_refl.
Qed.

Lemma in_flight_counts_witness : in_flight (health (rm demo_sys)) = 1.
Proof.
  refine (proj1 (in_flight_counts demo_sys demo_sys_reachable _)). vm_compute. discriminate.
Defined.

Definition drained_sys : Sys := mkSys (start_drain (manager_new 0 reload_config_default)) ∅ WIdle 0.

Lemma drained_sys_reachable : reachable drained_sys.
Proof. exists 0, reload_config_default. eapply rtc_l; [apply S_drain|]. apply rtc_refl. Qed.

Lemma drained_stays_drained_witness : in_flight (health (rm drained_sys)) = 0.
Proof.
  refine (proj2 (drained_stays_drained drained_sys drained_sys drained_sys_reachable
    _ _ _) _).
  - reflexivity.
  - intros i. simpl. rewrite lookup_empty. discriminate.
  - apply rtc_refl.
  - reflexivity.
Defined.

(** The request of [demo_sys] is dropped, then the drain starts. *)
Definition left_sys : Sys := mkSys (start_drain (rm demo_sys)) ∅ WIdle 1.

Lemma disconnect_blocks_drain_witness :
  reachable left_sys ∧ is_draining (rm left_sys) = true ∧ in_flight (health (rm left_sys)) = 1.
Proof.
  assert (reachable left_sys) as Hr.
  { destruct demo_sys_reachable as (now & c & Hr). exists now, c. etrans; [exact Hr|].
    eapply rtc_l; [apply (S_cancel _ 7%nat); apply lookup_insert_eq|].
    eapply rtc_l; [apply S_drain|]. simpl. rewrite delete_singleton_eq. apply rtc_refl. }
  split; [exact Hr|]. split; [reflexivity|].
  refine (proj2 (disconnect_blocks_drain left_sys left_sys Hr eq_refl eq_refl (conj eq_refl _) eq_refl (rtc_refl _ _))).
  discriminate.
Defined.
