(* ===== verification/Multipart.v ===== *)
(** Multipart form parsing (src/src/http/multipart.rs): uploaded files, form data and the
    parser from a body to its parts, with the round trip against an RFC 7578 encoder.
    A byte slice is a [string], one [ascii] per byte. *)
From S2P Require Import Prelude.
From stdpp Require Import base gmap strings list.
Open Scope Z_scope.

(** The content is behind a lock that no method writes, so it is a value here. *)
Record UploadedFile := mkUploadedFile {
  filename : string;
  name : string;
  content_type : string;
  size : Z;
  content : string
}.

Definition uploaded_file_new (n f ct c : string) : UploadedFile :=
  mkUploadedFile f n ct (str_len c) c.

Definition content_bytes (f : UploadedFile) : string := content f.
Definition is_image (f : UploadedFile) : bool := starts_with "image/" (content_type f).
Definition is_video (f : UploadedFile) : bool := starts_with "video/" (content_type f).
Definition is_audio (f : UploadedFile) : bool := starts_with "audio/" (content_type f).
Definition is_pdf (f : UploadedFile) : bool := String.eqb (content_type f) "application/pdf".

Definition read_text `{Utf8} (f : UploadedFile) : result string string :=
  if valid_utf8 (content f) then Ok (content f) else Err "UnicodeDecodeError".

Record FormData := mkFormData {
  fields : gmap string string;
  files : gmap string (list UploadedFile)
}.

Definition form_new : FormData := mkFormData ∅ ∅.

Definition add_field (n v : string) (d : FormData) : FormData :=
  mkFormData (<[n := v]> (fields d)) (files d).

(** [entry(name).or_insert_with(Vec::new).push(file)] *)
Definition add_file (n : string) (f : UploadedFile) (d : FormData) : FormData :=
  mkFormData (fields d) (<[n := default [] (files d !! n) ++ [f]]> (files d)).

Definition get (d : FormData) (key : string) : option string := fields d !! key.
Definition get_or (d : FormData) (key : string) (dflt : option string) : option string :=
  match fields d !! key with Some v => Some v | None => dflt end.
Definition file (d : FormData) (key : string) : option UploadedFile :=
  files d !! key ≫= head.
Definition files_list (d : FormData) (key : string) : list UploadedFile :=
  default [] (files d !! key).
Definition has (d : FormData) (key : string) : bool := bool_decide (is_Some (fields d !! key)).
Definition has_file (d : FormData) (key : string) : bool :=
  bool_decide (is_Some (files d !! key)).
Definition field_names `{!HashIter string string} (d : FormData) : list string :=
  (hiter (fields d)).*1.
Definition file_names `{!HashIter string (list UploadedFile)} (d : FormData) : list string :=
  (hiter (files d)).*1.
Definition all_files `{!HashIter string (list UploadedFile)} (d : FormData)
    : list UploadedFile := concat (hiter (files d)).*2.
Definition file_count `{!HashIter string (list UploadedFile)} (d : FormData) : Z :=
  foldl Z.add 0 ((λ l, Z.of_nat (length l)) <$> (hiter (files d)).*2).

(** ** The parser *)

(** [windows(n).position(..)]: the needle is never empty here (it starts with two
    dashes), so [windows] does not panic. *)
Definition find_bytes (haystack needle : string) : option nat := str_find needle haystack.

Definition find_double_crlf (data : string) : option nat := str_find (crlf +:+ crlf) data.

(** Skipping a line break after a boundary: [body.len() > start + 2] is strict. *)
Definition skip_crlf (rest : string) : string :=
  if (2 <? str_len rest) && starts_with crlf rest then str_drop 2 rest else rest.

(** The loop of [split_multipart] on [rest = &body[start..]]. *)
Fixpoint split_loop (fuel : nat) (boundary rest : string) : list string :=
  match fuel with
  | O => []
  | S fuel' =>
      match find_bytes rest boundary with
      | Some e =>
          let part := str_take e rest in
          let rest' := str_drop (e + String.length boundary) rest in
          if (0 <? str_len rest') && starts_with "--" rest' then [part]
          else part :: split_loop fuel' boundary (skip_crlf rest')
      | None => if 0 <? str_len rest then [rest] else []
      end
  end.

(** Every round drops at least the boundary, so more fuel than the length of the text
    changes nothing ([split_loop_fuel] below): the length of the body is enough. *)
Definition split_multipart (body boundary : string) : list string :=
  let rest :=
    match find_bytes body boundary with
    | Some pos => skip_crlf (str_drop (pos + String.length boundary) body)
    | None => body
    end in
  split_loop (S (String.length body)) boundary rest.

(** [str::split] on a line break. *)
Fixpoint split_crlf (s : string) : list string :=
  match s with
  | EmptyString => [EmptyString]
  | String a s1 =>
      match s1 with
      | String b s2 =>
          if Ascii.eqb a cr && Ascii.eqb b lf then EmptyString :: split_crlf s2
          else match split_crlf s1 with
               | p :: ps => String a p :: ps
               | [] => [String a EmptyString]
               end
      | EmptyString => [String a EmptyString]
      end
  end.

(** [trim_end_matches] for a line break: every trailing one goes. *)
Fixpoint trim_end_crlf (s : string) : string :=
  match s with
  | EmptyString => EmptyString
  | String a s' =>
      let t := trim_end_crlf s' in
      if Ascii.eqb a cr && String.eqb t (String lf EmptyString) then EmptyString
      else String a t
  end.

Definition ends_with (suf s : string) : bool :=
  (String.length suf <=? String.length s)%nat &&
  String.eqb (str_drop (String.length s - String.length suf) s) suf.

(** At most one trailing line break goes. *)
Definition strip_crlf (s : string) : string :=
  if ends_with crlf s then str_take (String.length s - 2) s else s.

Section parse.
Context `{RS : RustStr} `{U8 : Utf8}.

Definition header_step (headers : gmap string string) (line : string) : gmap string string :=
  match str_split_once ":" line with
  | Some (n, v) => <[to_lowercase (trim n) := trim v]> headers
  | None => headers
  end.

Definition parse_part_headers (header_bytes : string) : gmap string string :=
  foldl header_step ∅ (split_crlf (from_utf8_lossy header_bytes)).

Definition disposition_step (acc : option string * option string) (part : string)
    : option string * option string :=
  let part := trim part in
  if starts_with "name=" part then
    (Some (trim_matches_char dquote (str_drop 5 part)), acc.2)
  else if starts_with "filename=" part then
    (acc.1, Some (trim_matches_char dquote (str_drop 9 part)))
  else acc.

Definition parse_content_disposition (value : string) : option string * option string :=
  foldl disposition_step (None, None) (str_split ";" value).

Definition extract_boundary (ct : string) : option string :=
  match List.find (λ part, starts_with "boundary=" (trim part)) (str_split ";" ct) with
  | Some part => Some (trim_matches_char dquote (str_drop 9 (trim part)))
  | None => None
  end.

(** One round of the loop over the parts. *)
Definition add_part (d : FormData) (part : string) : FormData :=
  if str_is_empty part then d
  else match find_double_crlf part with
  | None => d
  | Some sep_pos =>
      let headers := parse_part_headers (str_take sep_pos part) in
      let body_bytes := str_drop (sep_pos + 4) part in
      match headers !! "content-disposition" with
      | None => d
      | Some disposition =>
          match parse_content_disposition disposition with
          | (Some n, Some f) =>
              let ct := default "application/octet-stream" (headers !! "content-type") in
              add_file n (uploaded_file_new n f ct (strip_crlf body_bytes)) d
          | (Some n, None) => add_field n (trim_end_crlf (from_utf8_lossy body_bytes)) d
          | (None, _) => d
          end
      end
  end.

Definition parse_multipart (body boundary : string) : FormData :=
  foldl add_part form_new (split_multipart body ("--" +:+ boundary)).
End parse.

(** * The encoder of RFC 7578 that the parser is to invert *)

Inductive Part :=
| Field (n v : string)
| File (n f ct c : string).

Definition quoted (s : string) : string := String dquote (s +:+ String dquote EmptyString).

Definition disposition_text (p : Part) : string :=
  match p with
  | Field n _ => "form-data; name=" +:+ quoted n
  | File n f _ _ => "form-data; name=" +:+ quoted n +:+ "; filename=" +:+ quoted f
  end.

Definition part_headers (p : Part) : string :=
  match p with
  | Field _ _ => "Content-Disposition: " +:+ disposition_text p
  | File _ _ ct _ =>
      ("Content-Disposition: " +:+ disposition_text p) +:+ crlf +:+ "Content-Type: " +:+ ct
  end.

Definition part_body (p : Part) : string := match p with Field _ v => v | File _ _ _ c => c end.

Definition part_text (p : Part) : string := part_headers p +:+ crlf +:+ crlf +:+ part_body p.

Fixpoint encode_rest (delim : string) (ps : list Part) : string :=
  match ps with
  | [] => "--" +:+ crlf
  | p :: ps' => crlf +:+ part_text p +:+ crlf +:+ delim +:+ encode_rest delim ps'
  end.

Definition encode (boundary : string) (ps : list Part) : string :=
  ("--" +:+ boundary) +:+ encode_rest ("--" +:+ boundary) ps.

(** What the form data holds for the parts. *)
Definition add_encoded (d : FormData) (p : Part) : FormData :=
  match p with
  | Field n v => add_field n v d
  | File n f ct c => add_file n (uploaded_file_new n f ct c) d
  end.

(** Printable ASCII without the quote and the semicolon. *)
Definition quotable (a : ascii) : bool :=
  let b := byte_of_ascii a in (32 <=? b) && (b <=? 126) && negb (b =? 34) && negb (b =? 59).
(** Printable ASCII without the space. *)
Definition tokenish (a : ascii) : bool :=
  let b := byte_of_ascii a in (33 <=? b) && (b <=? 126).

(** Names are quotable; a text value is UTF-8 that does not end in a line break. *)
Definition part_ok `{Utf8} (delim : string) (p : Part) : bool :=
  negb (str_contains delim (part_text p)) &&
  match p with
  | Field n v => str_forall quotable n && valid_utf8 (v +:+ crlf) && negb (ends_with crlf v)
  | File n f ct c => str_forall quotable n && str_forall quotable f && str_forall tokenish ct
  end.

(** * Lemmas *)

Lemma split_crlf_app s t :
  str_contains_char cr s = false → split_crlf (s +:+ crlf +:+ t) = s :: split_crlf t.
Proof.
  induction s as [|a s IH]; intros H; [done|]. simpl in H.
  apply orb_false_iff in H as [Ha H]. specialize (IH H).
  rewrite str_app_cons. destruct s as [|b s].
  - cbn [split_crlf]. rewrite str_app_nil_l in *.
    change (crlf +:+ t) with (String cr (String lf t)) in *. by rewrite Ha.
  - rewrite str_app_cons in *. cbn [split_crlf]. rewrite Ha. simpl.
    cbn [split_crlf] in IH. by rewrite IH.
Qed.

Lemma split_crlf_none s : str_contains_char cr s = false → split_crlf s = [s].
Proof.
  induction s as [|a s IH]; intros H; [done|]. simpl in H.
  apply orb_false_iff in H as [Ha H]. specialize (IH H).
  destruct s as [|b s]; [done|]. cbn [split_crlf]. rewrite Ha. simpl.
  cbn [split_crlf] in IH. by rewrite IH.
Qed.

Lemma find_after_line a s u k :
  Ascii.eqb a cr = false →
  str_find (crlf +:+ crlf) (String a s +:+ u) = Some k →
  str_find (crlf +:+ crlf) (crlf +:+ String a s +:+ u) = Some (S (S k)).
Proof.
  intros Ha Hf. set (x := String a s +:+ u) in *.
  assert (starts_with (crlf +:+ crlf) (String cr (String lf x)) = false) as H1.
  { unfold starts_with, x, crlf. rewrite !str_app_cons. cbn [String.prefix].
    destruct (ascii_dec cr cr), (ascii_dec lf lf); try done.
    rewrite str_app_nil_l. destruct (ascii_dec cr a) as [<-|]; [|done].
    by rewrite Ascii.eqb_refl in Ha. }
  change (crlf +:+ x) with (String cr (String lf x)). cbn [str_find]. rewrite H1.
  change (starts_with (crlf +:+ crlf) (String lf x)) with false. cbn match. by rewrite Hf.
Qed.

Lemma ends_with_app s t : ends_with t (s +:+ t) = true.
Proof.
  unfold ends_with. rewrite str_length_app, (proj2 (Nat.leb_le _ _)) by lia.
  replace (String.length s + String.length t - String.length t)%nat with (String.length s) by lia.
  rewrite str_drop_app. apply String.eqb_refl.
Qed.

Lemma strip_crlf_app s : strip_crlf (s +:+ crlf) = s.
Proof.
  unfold strip_crlf. rewrite ends_with_app, str_length_app.
  replace (String.length s + String.length crlf - 2)%nat with (String.length s)
    by (simpl; lia). apply str_take_app.
Qed.

Lemma ends_with_cons a s t : ends_with t s = true → ends_with t (String a s) = true.
Proof.
  unfold ends_with. intros [Hl H]%andb_true_iff. apply Nat.leb_le in Hl. cbn [String.length].
  rewrite (proj2 (Nat.leb_le _ _)) by lia.
  by replace (S (String.length s) - String.length t)%nat
    with (S (String.length s - String.length t)) by lia.
Qed.

Lemma trim_end_crlf_none s : ends_with crlf s = false → trim_end_crlf s = s.
Proof.
  induction s as [|a s IH]; intros H; [done|]. simpl. rewrite IH.
  - destruct (Ascii.eqb_spec a cr) as [->|]; [|done].
    destruct (String.eqb_spec s (String lf EmptyString)) as [->|]; done.
  - destruct (ends_with crlf s) eqn:E; [|done]. by apply (ends_with_cons a) in E; congruence.
Qed.

Lemma trim_end_crlf_app s : ends_with crlf s = false → trim_end_crlf (s +:+ crlf) = s.
Proof.
  intros H. rewrite <- (trim_end_crlf_none s H) at 2. clear H.
  induction s as [|a s IH]; [done|]. rewrite str_app_cons. simpl. by rewrite IH.
Qed.

Lemma quotable_ascii a : quotable a = true → (byte_of_ascii a <? 128) = true.
Proof. unfold quotable. intros. bool_to_prop. apply Z.ltb_lt. lia. Qed.

Lemma tokenish_ascii a : tokenish a = true → (byte_of_ascii a <? 128) = true.
Proof. unfold tokenish. intros. bool_to_prop. apply Z.ltb_lt. lia. Qed.

Lemma tokenish_not_space a : tokenish a = true → negb (is_ascii_space a) = true.
Proof.
  unfold tokenish, is_ascii_space. intros. bool_to_prop. apply negb_true_iff.
  apply orb_false_iff. rewrite andb_false_iff, Z.eqb_neq, !Z.leb_gt. lia.
Qed.

Ltac no_char := by eapply str_forall_not_contains; [|eassumption].

Create HintDb multipart discriminated.
#[local] Hint Extern 1 (str_contains_char _ _ = false) => no_char : multipart.

Lemma is_ascii_app s t : is_ascii (s +:+ t) = is_ascii s && is_ascii t.
Proof. apply str_forall_app. Qed.

Lemma is_ascii_quotable s : str_forall quotable s = true → is_ascii s = true.
Proof. apply str_forall_impl, quotable_ascii. Qed.

Lemma is_ascii_tokenish s : str_forall tokenish s = true → is_ascii s = true.
Proof. apply str_forall_impl, tokenish_ascii. Qed.

Lemma is_ascii_quoted s : is_ascii (quoted s) = is_ascii s.
Proof. unfold quoted, is_ascii. simpl. rewrite str_forall_app. simpl. by rewrite andb_true_r. Qed.

Lemma contains_quoted c s :
  Ascii.eqb dquote c = false → str_contains_char c s = false →
  str_contains_char c (quoted s) = false.
Proof.
  intros Hc H. unfold quoted. cbn [str_contains_char].
  rewrite str_contains_char_app, H. cbn [str_contains_char orb]. by rewrite Hc.
Qed.

Lemma trim_matches_quote s : str_forall quotable s = true → trim_matches_char dquote (quoted s) = s.
Proof. intros H. apply trim_matches_quoted. no_char. Qed.

Lemma is_ascii_quoted_quotable s : str_forall quotable s = true → is_ascii (quoted s) = true.
Proof. intros. rewrite is_ascii_quoted. by apply is_ascii_quotable. Qed.

Section roundtrip.
Context `{RS : RustStr} `{U8 : Utf8}.

Lemma trim_value a s b :
  is_ascii (String a (s +:+ String b "")) = true →
  is_ascii_space a = false → is_ascii_space b = false →
  trim (String " " (String a (s +:+ String b ""))) = String a (s +:+ String b "").
Proof. intros Hs Ha Hb. rewrite trim_is_ascii by (by simpl in *). by apply trim_ascii_lead. Qed.

Lemma trim_quoted p s :
  is_ascii p = true → str_forall quotable s = true → p ≠ "" →
  match p with String a _ => is_ascii_space a = false | _ => True end →
  trim (String " " (p +:+ quoted s)) = p +:+ quoted s.
Proof.
  intros Hp Hs Hne Ha. destruct p as [|a p]; [done|].
  assert (p +:+ quoted s = (p +:+ String dquote s) +:+ String dquote "") as E
    by (unfold quoted; by rewrite <- (assoc_L String.append), <- str_app_cons).
  rewrite str_app_cons, E. apply trim_value; [|done|done].
  rewrite <- E, <- str_app_cons, is_ascii_app, is_ascii_quoted, Hp.
  by rewrite is_ascii_quotable.
Qed.

Lemma disposition_name acc n :
  str_forall quotable n = true →
  disposition_step acc (" name=" +:+ quoted n) = (Some n, acc.2).
Proof.
  intros Hn. unfold disposition_step.
  change (" name=" +:+ quoted n) with (String " " ("name=" +:+ quoted n)).
  rewrite trim_quoted by done. rewrite starts_with_app.
  rewrite (str_drop_app "name="). by rewrite trim_matches_quote.
Qed.

Lemma disposition_filename acc f :
  str_forall quotable f = true →
  disposition_step acc (" filename=" +:+ quoted f) = (acc.1, Some f).
Proof.
  intros Hn. unfold disposition_step.
  change (" filename=" +:+ quoted f) with (String " " ("filename=" +:+ quoted f)).
  rewrite trim_quoted by done. rewrite starts_with_app.
  rewrite (str_drop_app "filename="), trim_matches_quote by done. done.
Qed.

Lemma no_semicolon_quoted p s :
  str_contains_char ";" p = false → str_forall quotable s = true →
  str_contains_char ";" (p +:+ quoted s) = false.
Proof.
  intros Hp Hs. rewrite str_contains_char_app, Hp. apply contains_quoted; [done|no_char].
Qed.

Definition part_disposition (p : Part) : option string * option string :=
  match p with Field n _ => (Some n, None) | File n f _ _ => (Some n, Some f) end.

Lemma parse_disposition_text delim p :
  part_ok delim p = true →
  parse_content_disposition (disposition_text p) = part_disposition p.
Proof.
  unfold parse_content_disposition, part_ok. intros [_ Hp]%andb_true_iff.
  assert (disposition_step (None, None) "form-data" = (None, None)) as H0.
  { unfold disposition_step. by rewrite trim_is_ascii. }
  destruct p as [n v|n f ct c]; simpl in Hp; cbn [disposition_text part_disposition].
  - bool_to_prop.
    change ("form-data; name=" +:+ quoted n)
      with ("form-data" +:+ String ";" (" name=" +:+ quoted n)).
    rewrite str_split_app, str_split_none by (done || by apply no_semicolon_quoted).
    cbn [foldl]. by rewrite H0, disposition_name.
  - bool_to_prop.
    replace ("form-data; name=" +:+ quoted n +:+ "; filename=" +:+ quoted f)
      with ("form-data" +:+ String ";" ((" name=" +:+ quoted n)
              +:+ String ";" (" filename=" +:+ quoted f)))
      by (by rewrite <- (assoc_L String.append)).
    rewrite !str_split_app, str_split_none
      by (done || by apply no_semicolon_quoted).
    cbn [foldl]. by rewrite H0, disposition_name, disposition_filename.
Qed.

Lemma is_ascii_disposition delim p : part_ok delim p = true → is_ascii (disposition_text p) = true.
Proof.
  unfold part_ok. intros [_ Hp]%andb_true_iff.
  destruct p as [n v|n f ct c]; simpl in Hp; bool_to_prop; cbn [disposition_text];
    rewrite ?is_ascii_app, ?is_ascii_quoted_quotable by done; done.
Qed.

Lemma no_cr_disposition delim p :
  part_ok delim p = true → str_contains_char cr (disposition_text p) = false.
Proof.
  unfold part_ok. intros [_ Hp]%andb_true_iff.
  assert (∀ s, str_forall quotable s = true → str_contains_char cr (quoted s) = false) as Hq
    by (intros s Hs; apply contains_quoted; [done|no_char]).
  destruct p as [n v|n f ct c]; simpl in Hp; bool_to_prop; cbn [disposition_text];
    rewrite ?str_contains_char_app, ?Hq by done; done.
Qed.

(** The value of the disposition header survives trimming. *)
Lemma trim_disposition delim p :
  part_ok delim p = true →
  trim (String " " (disposition_text p)) = disposition_text p.
Proof.
  intros Hok. pose proof Hok as Hp. unfold part_ok in Hp. apply andb_true_iff in Hp as [_ Hp].
  destruct p as [n v|n f ct c]; simpl in Hp; bool_to_prop; cbn [disposition_text].
  - by apply trim_quoted.
  - rewrite !(assoc_L String.append). apply trim_quoted; [|done|done|done].
    rewrite !is_ascii_app, is_ascii_quoted_quotable by done. done.
Qed.

Lemma header_step_disposition delim p headers :
  part_ok delim p = true →
  header_step headers ("Content-Disposition: " +:+ disposition_text p)
  = <["content-disposition" := disposition_text p]> headers.
Proof.
  intros Hok. unfold header_step.
  change ("Content-Disposition: " +:+ disposition_text p)
    with ("Content-Disposition" +:+ String ":" (String " " (disposition_text p))).
  rewrite str_split_once_app by done. erewrite trim_disposition by done.
  rewrite trim_is_ascii, to_lowercase_ascii by done. done.
Qed.

Lemma header_step_content_type ct headers :
  str_forall tokenish ct = true →
  header_step headers ("Content-Type: " +:+ ct) = <["content-type" := ct]> headers.
Proof.
  intros Hct. unfold header_step.
  change ("Content-Type: " +:+ ct) with ("Content-Type" +:+ String ":" (String " " ct)).
  rewrite str_split_once_app by done. rewrite (trim_is_ascii "Content-Type") by done.
  rewrite to_lowercase_ascii by done.
  assert (str_forall (λ a, negb (is_ascii_space a)) ct = true) as Hns
    by (by eapply str_forall_impl; [apply tokenish_not_space|]).
  rewrite trim_is_ascii by exact (is_ascii_tokenish _ Hct).
  assert (trim_ascii (String " " ct) = ct) as -> by
    (unfold trim_ascii; simpl; by rewrite trim_start_by_none, trim_end_by_none).
  done.
Qed.

Definition part_headers_map (p : Part) : gmap string string :=
  match p with
  | Field _ _ => {["content-disposition" := disposition_text p]}
  | File _ _ ct _ => <["content-type" := ct]> {["content-disposition" := disposition_text p]}
  end.

Lemma parse_headers delim p :
  part_ok delim p = true → parse_part_headers (part_headers p) = part_headers_map p.
Proof.
  intros Hok. pose proof (is_ascii_disposition _ _ Hok) as Ha.
  pose proof (no_cr_disposition _ _ Hok) as Hc. unfold parse_part_headers.
  pose proof Hok as Hp. unfold part_ok in Hp. apply andb_true_iff in Hp as [_ Hp].
  destruct p as [n v|n f ct c]; simpl in Hp; cbn [part_headers part_headers_map].
  - rewrite from_utf8_lossy_valid by (apply valid_utf8_ascii; by rewrite is_ascii_app, Ha).
    rewrite split_crlf_none by (by rewrite str_contains_char_app, Hc).
    cbn [foldl]. by erewrite header_step_disposition.
  - bool_to_prop.
    rewrite from_utf8_lossy_valid
      by (apply valid_utf8_ascii; rewrite !is_ascii_app, Ha; by rewrite (is_ascii_tokenish ct)).
    rewrite split_crlf_app by (by rewrite str_contains_char_app, Hc).
    rewrite split_crlf_none by (rewrite str_contains_char_app; apply orb_false_iff; split;
      [done|no_char]).
    cbn [foldl]. erewrite header_step_disposition by done. by rewrite header_step_content_type.
Qed.

(** The blank line is found right after the headers. *)
Lemma find_blank_line delim p rest :
  part_ok delim p = true →
  find_double_crlf (part_headers p +:+ crlf +:+ crlf +:+ rest)
  = Some (String.length (part_headers p)).
Proof.
  intros Hok. pose proof (no_cr_disposition _ _ Hok) as Hc. unfold find_double_crlf.
  assert (∀ s, str_contains_char cr s = false →
    str_find (crlf +:+ crlf) (s +:+ crlf +:+ crlf +:+ rest) = Some (String.length s)) as Hfind.
  { intros s Hs. rewrite <- (Nat.add_0_r (String.length s)).
    apply (str_find_skip cr (String lf crlf)); [done|].
    apply (str_find_here (crlf +:+ crlf)). }
  unfold part_ok in Hok. apply andb_true_iff in Hok as [_ Hp].
  destruct p as [n v|n f ct c]; simpl in Hp; cbn [part_headers].
  - apply Hfind. by rewrite str_contains_char_app, Hc.
  - bool_to_prop. set (h := "Content-Disposition: " +:+ _).
    replace ((h +:+ crlf +:+ "Content-Type: " +:+ ct) +:+ crlf +:+ crlf +:+ rest)
      with (h +:+ crlf +:+ ("Content-Type: " +:+ ct) +:+ crlf +:+ crlf +:+ rest)
      by (by rewrite <- !(assoc_L String.append)).
    rewrite (str_length_app h). apply (str_find_skip cr (String lf crlf)).
    { unfold h. by rewrite str_contains_char_app, Hc. }
    apply (find_after_line "C" ("ontent-Type: " +:+ ct)); [done|]. apply Hfind.
    rewrite str_contains_char_app. apply orb_false_iff. split; [done|no_char].
Qed.

(** A parsed part is the encoded one. *)
Lemma add_part_encoded delim d p :
  part_ok delim p = true → add_part d (part_text p +:+ crlf) = add_encoded d p.
Proof.
  intros Hok. unfold add_part, part_text.
  replace ((part_headers p +:+ crlf +:+ crlf +:+ part_body p) +:+ crlf)
    with (part_headers p +:+ crlf +:+ crlf +:+ part_body p +:+ crlf)
    by (by rewrite !(assoc_L String.append)).
  assert (str_is_empty (part_headers p +:+ crlf +:+ crlf +:+ part_body p +:+ crlf) = false)
    as -> by (by destruct p).
  rewrite (find_blank_line _ _ _ Hok), str_take_app, (parse_headers _ _ Hok).
  assert (str_drop (String.length (part_headers p) + 4)
    (part_headers p +:+ crlf +:+ crlf +:+ part_body p +:+ crlf) = part_body p +:+ crlf) as ->.
  { replace (String.length (part_headers p) + 4)%nat
      with (String.length (part_headers p +:+ crlf +:+ crlf)) by (by rewrite !str_length_app).
    replace (part_headers p +:+ crlf +:+ crlf +:+ part_body p +:+ crlf)
      with ((part_headers p +:+ crlf +:+ crlf) +:+ part_body p +:+ crlf)
      by (by rewrite <- !(assoc_L String.append)).
    apply str_drop_app. }
  assert (part_headers_map p !! "content-disposition" = Some (disposition_text p)) as ->
    by (destruct p; simpl; [|rewrite lookup_insert_ne by done]; apply lookup_singleton_eq).
  rewrite (parse_disposition_text _ _ Hok). unfold part_ok in Hok.
  apply andb_true_iff in Hok as [_ Hp].
  destruct p as [n v|n f ct c]; simpl in Hp; cbn [part_disposition part_body add_encoded];
    bool_to_prop.
  - by rewrite from_utf8_lossy_valid, trim_end_crlf_app.
  - cbn [part_headers_map]. by rewrite lookup_insert_eq, strip_crlf_app.
Qed.

(** ** Splitting *)

Lemma skip_crlf_part s : s ≠ "" → skip_crlf (crlf +:+ s) = s.
Proof.
  intros Hs. unfold skip_crlf. rewrite starts_with_app. unfold str_len.
  rewrite str_length_app, (proj2 (Z.ltb_lt _ _)); [apply (str_drop_app crlf)|].
  destruct s; [done|]. simpl. lia.
Qed.

Lemma part_text_nonempty p u : part_text p +:+ u ≠ "".
Proof. by destruct p. Qed.

(** A delimiter is found right after the line break that ends a part. *)
Lemma find_delim b p u :
  str_contains_char cr b = false → str_contains ("--" +:+ b) (part_text p) = false →
  find_bytes (part_text p +:+ crlf +:+ ("--" +:+ b) +:+ u) ("--" +:+ b)
  = Some (String.length (part_text p +:+ crlf)).
Proof.
  intros Hb Hp. unfold find_bytes. rewrite str_length_app.
  change (crlf +:+ ("--" +:+ b) +:+ u) with (String cr (String lf (("--" +:+ b) +:+ u))).
  apply str_find_app; [by rewrite str_contains_char_app, Hb|done|].
  assert (str_find ("--" +:+ b) (("--" +:+ b) +:+ u) = Some O) as Hf by apply str_find_here.
  set (x := ("--" +:+ b) +:+ u) in *. cbn [str_find].
  change (starts_with ("--" +:+ b) (String cr (String lf x))) with false.
  change (starts_with ("--" +:+ b) (String lf x)) with false. by rewrite Hf.
Qed.

Lemma split_loop_fuel n m boundary rest :
  boundary ≠ "" → (String.length rest < n)%nat → (String.length rest < m)%nat →
  split_loop n boundary rest = split_loop m boundary rest.
Proof.
  intros Hb. revert m rest. induction n as [|n IH]; intros [|m] rest Hn Hm; [lia..|]. cbn [split_loop].
  destruct (find_bytes rest boundary) as [e|] eqn:E; [|done]. apply str_find_bound in E.
  case_match; [done|]. f_equal. assert (0 < String.length boundary)%nat by (destruct boundary; simpl; [done|lia]).
  assert (String.length (skip_crlf (str_drop (e + String.length boundary) rest)) < String.length rest)%nat.
  { unfold skip_crlf. case_match; rewrite ?str_length_drop; lia. }
  apply IH; lia.
Qed.

Lemma split_loop_encoded b ps p fuel :
  str_contains_char cr b = false →
  Forall (λ p, str_contains ("--" +:+ b) (part_text p) = false) (p :: ps) →
  (length ps < fuel)%nat →
  split_loop fuel ("--" +:+ b)
    (part_text p +:+ crlf +:+ ("--" +:+ b) +:+ encode_rest ("--" +:+ b) ps)
  = (λ p, part_text p +:+ crlf) <$> p :: ps.
Proof.
  intros Hb. revert p fuel. induction ps as [|q ps IH]; intros p [|fuel] Hall Hfuel;
    simpl in Hfuel; try lia; apply Forall_cons in Hall as [Hp Hall];
    cbn [split_loop]; rewrite find_delim by done.
  all: rewrite <- str_length_app.
  all: rewrite !(assoc_L String.append (part_text p)), !(assoc_L String.append (_ +:+ crlf)).
  all: rewrite str_drop_app, <- !(assoc_L String.append (_ +:+ crlf)), str_take_app.
  - done.
  - change (encode_rest ("--" +:+ b) (q :: ps))
      with (crlf +:+ part_text q +:+ crlf +:+ ("--" +:+ b) +:+ encode_rest ("--" +:+ b) ps).
    change (starts_with "--" (crlf +:+ _)) with false. rewrite andb_false_r.
    rewrite skip_crlf_part by apply part_text_nonempty.
    rewrite IH; [done|done|lia].
Qed.

Lemma encode_rest_length b ps : (length ps < String.length (encode_rest b ps))%nat.
Proof.
  induction ps as [|p ps IH]; [simpl; lia|]. cbn [encode_rest length].
  rewrite !str_length_app. change (String.length crlf) with 2%nat. lia.
Qed.

Lemma split_encoded b ps :
  str_contains_char cr b = false → ps ≠ [] →
  Forall (λ p, str_contains ("--" +:+ b) (part_text p) = false) ps →
  split_multipart (encode b ps) ("--" +:+ b) = (λ p, part_text p +:+ crlf) <$> ps.
Proof.
  intros Hb Hne Hall. destruct ps as [|p ps]; [done|].
  unfold split_multipart, encode. unfold find_bytes at 1.
  rewrite str_find_here, Nat.add_0_l, str_drop_app.
  change (encode_rest ("--" +:+ b) (p :: ps))
    with (crlf +:+ part_text p +:+ crlf +:+ ("--" +:+ b) +:+ encode_rest ("--" +:+ b) ps).
  rewrite skip_crlf_part by apply part_text_nonempty.
  apply split_loop_encoded; [done|done|].
  rewrite !str_length_app. pose proof (encode_rest_length ("--" +:+ b) ps). lia.
Qed.

(** C8: parsing inverts the RFC 7578 encoding.  For every boundary without a carriage
    return and every non-empty sequence of fields and files whose names are printable
    without quotes and semicolons, whose text values are UTF-8 not ending in a line break
    and which do not contain the delimiter, the parsed form holds exactly the encoded
    parts, in order, file contents byte for byte. *)
Theorem multipart_roundtrip b ps :
  str_contains_char cr b = false → ps ≠ [] →
  forallb (part_ok ("--" +:+ b)) ps = true →
  parse_multipart (encode b ps) b = foldl add_encoded form_new ps.
Proof.
  intros Hb Hne Hok. rewrite forallb_forall in Hok. unfold parse_multipart.
  assert (∀ p, p ∈ ps → part_ok ("--" +:+ b) p = true) as Hok'
    by (intros p Hp; by apply Hok, list_elem_of_In).
  rewrite split_encoded; [|done|done|].
  - clear Hok Hne. generalize form_new. induction ps as [|p ps IH]; intros d; [done|].
    cbn [fmap list_fmap foldl]. rewrite (add_part_encoded ("--" +:+ b)) by set_solver.
    apply IH. set_solver.
  - apply Forall_forall. intros p Hp. specialize (Hok' p Hp). unfold part_ok in Hok'.
    apply andb_true_iff in Hok' as [Hok' _]. by apply negb_true_iff in Hok'.
Qed.

End roundtrip.

(** A text value loses every trailing line break, a file only the one that precedes the
    delimiter. *)
Lemma text_field_loses_line_breaks :
  parse_multipart (encode "b" [Field "t" ("line" +:+ crlf +:+ crlf)]) "b"
  = parse_multipart (encode "b" [Field "t" "line"]) "b".
Proof. vm_compute. reflexivity. Qed.

(** * Witnesses *)

Definition demo_parts : list Part :=
  [Field "title" "Report";
   File "doc" "a.txt" "text/plain" ("hello" +:+ crlf +:+ "world" +:+ crlf);
   File "doc" "b.txt" "text/plain" "x"].

Lemma multipart_roundtrip_witness :
  files_list (parse_multipart (encode "XyZ" demo_parts) "XyZ") "doc"
  = [uploaded_file_new "doc" "a.txt" "text/plain" ("hello" +:+ crlf +:+ "world" +:+ crlf);
     uploaded_file_new "doc" "b.txt" "text/plain" "x"].
Proof.
  rewrite (multipart_roundtrip "XyZ" demo_parts); [|reflexivity|discriminate|reflexivity].
  reflexivity.
Defined.
