(* ===== verification/Request.v ===== *)
(** Requests (src/src/http/request.rs) and header maps (src/src/http/headers.rs): the
    conversion from axum, lazy query parameters, cookies, forms and the header-derived
    getters. *)
From S2P Require Import Prelude Method Routing Multipart.
From stdpp Require Import base gmap strings list.
Open Scope Z_scope.

(** * Third-party parsers *)

(** [form_urlencoded::parse]: the decoded pairs of a query string, in order. *)
Class FormUrlencoded := {
  form_pairs : string → list (string * string);
  form_pairs_empty : form_pairs "" = []
}.

(** [percent_encoding::percent_decode_str]: the identity without a percent sign. *)
Class PercentDecode := {
  percent_decode : string → string;
  percent_decode_id s : str_contains_char "%" s = false → percent_decode s = s
}.

(** [collect] of pairs into a hash map: the last value of a key wins. *)
Definition collect_map (l : list (string * string)) : gmap string string :=
  foldl (λ m kv, <[kv.1 := kv.2]> m) ∅ l.

(** * Header maps (headers.rs) *)

(** The hash map of [HeaderMap], keyed by lower-case names. *)
Definition HeaderMap := gmap string string.

Section headers.
Context `{RS : RustStr}.

Definition hm_new : HeaderMap := ∅.
Definition hm_get (h : HeaderMap) (key : string) : option string :=
  (h : gmap string string) !! to_lowercase key.
Definition hm_insert (key value : string) (h : HeaderMap) : HeaderMap :=
  <[to_lowercase key := value]> (h : gmap string string).
Definition hm_items `{!HashIter string string} (h : HeaderMap) : list (string * string) := hiter h.
Definition hm_keys `{!HashIter string string} (h : HeaderMap) : list string := (hiter h).*1.
Definition hm_values `{!HashIter string string} (h : HeaderMap) : list string := (hiter h).*2.
Definition hm_get_all `{!HashIter string string} (h : HeaderMap) (key : string) : list string :=
  (List.filter (λ kv, String.eqb kv.1 (to_lowercase key)) (hiter h)).*2.

(** axum's multi-map in order, each value with the outcome of its [to_str]. *)
Definition hm_from_axum (l : list (string * option string)) : HeaderMap :=
  foldl (λ (m : gmap string string) kv,
    match kv.2 with Some v => <[to_lowercase kv.1 := v]> m | None => m end) ∅ l.
End headers.

(** * Query parameters *)

Record QueryParams := mkQueryParams { raw : string; parsed : option (gmap string string) }.

Definition query_params_new (s : string) : QueryParams := mkQueryParams s None.

Section request.
Context `{RS : RustStr} `{XH : XXH3} `{FU : FormUrlencoded} `{PD : PercentDecode} `{U8 : Utf8}.

(** [parse] caches its result; the cached map is returned from then on. *)
Definition qp_parse (q : QueryParams) : QueryParams * gmap string string :=
  match parsed q with
  | Some m => (q, m)
  | None =>
      let m := if str_is_empty (raw q) then ∅ else collect_map (form_pairs (raw q)) in
      (mkQueryParams (raw q) (Some m), m)
  end.

Definition qp_get (q : QueryParams) (key : string) : QueryParams * option string :=
  let '(q', m) := qp_parse q in (q', m !! key).

(** * Requests *)

Record Request := mkRequest {
  path : string;
  method : HttpMethod;
  headers : HeaderMap;
  query_string : string;
  query_params : QueryParams;
  path_params : gmap string string;
  body : option string;
  route_hash : Z
}.

(** [method as u64]: the discriminants in declaration order. *)
Definition method_u64 (m : HttpMethod) : Z :=
  match m with
  | GET => 0 | POST => 1 | PUT => 2 | DELETE => 3 | PATCH => 4 | HEAD => 5
  | OPTIONS => 6 | CONNECT => 7 | TRACE => 8
  end.

Definition request_new (p : string) (m : HttpMethod) (h : HeaderMap) (qs : string)
    (b : option string) : Request :=
  mkRequest p m h qs (query_params_new qs) ∅ b (Z.lxor (xxh3_64 p) (method_u64 m)).

Definition set_path_params (params : gmap string string) (r : Request) : Request :=
  mkRequest (path r) (method r) (headers r) (query_string r) (query_params r) params (body r)
    (route_hash r).

Definition set_query_params (q : QueryParams) (r : Request) : Request :=
  mkRequest (path r) (method r) (headers r) (query_string r) q (path_params r) (body r)
    (route_hash r).

Definition take_body (r : Request) : Request * option string :=
  (mkRequest (path r) (method r) (headers r) (query_string r) (query_params r) (path_params r)
     None (route_hash r), body r).

Definition body_ref (r : Request) : option string := body r.
Definition headers_map (r : Request) : gmap string string := headers r.
Definition py_method (r : Request) : string := as_str (method r).
Definition py_path_params (r : Request) : gmap string string := path_params r.

Definition py_query_params (r : Request) : Request * gmap string string :=
  let '(q, m) := qp_parse (query_params r) in (set_query_params q r, m).

Definition query (r : Request) (n : string) : Request * option string :=
  let '(q, v) := qp_get (query_params r) n in (set_query_params q r, v).

Definition param (r : Request) (n : string) : option string := path_params r !! n.

Definition header (r : Request) (n : string) : option string := hm_get (headers r) n.

Definition accept_check (t : string) : string :=
  let l := to_lowercase t in
  if String.eqb l "html" then "text/html"
  else if String.eqb l "json" then "application/json"
  else if String.eqb l "xml" then "application/xml"
  else if String.eqb l "text" then "text/plain"
  else t.

Definition accepts (r : Request) (types : list string) : option string :=
  accept ← hm_get (headers r) "accept";
  List.find (λ t, str_contains (accept_check t) accept || str_contains "*/*" accept) types.

Definition accepts_json (r : Request) : bool := bool_decide (is_Some (accepts r ["json"])).
Definition accepts_html (r : Request) : bool := bool_decide (is_Some (accepts r ["html"])).

Definition ip (r : Request) : option string :=
  match hm_get (headers r) "x-forwarded-for" with
  | Some forwarded => trim <$> head (str_split "," forwarded)
  | None => hm_get (headers r) "x-real-ip"
  end.

Definition ips (r : Request) : list string :=
  match hm_get (headers r) "x-forwarded-for" with
  | Some forwarded => trim <$> str_split "," forwarded
  | None => []
  end.

Definition xhr (r : Request) : bool :=
  match hm_get (headers r) "x-requested-with" with
  | Some v => String.eqb (to_lowercase v) "xmlhttprequest"
  | None => false
  end.

Definition secure (r : Request) : bool :=
  match hm_get (headers r) "x-forwarded-proto" with
  | Some proto => String.eqb (to_lowercase proto) "https"
  | None => false
  end.

Definition hostname (r : Request) : option string :=
  (λ h, default h (head (str_split ":" h))) <$> hm_get (headers r) "host".

Definition subdomains (r : Request) : list string :=
  match hostname r with
  | Some h =>
      let parts := str_split "." h in
      if (2 <? length parts)%nat then take (length parts - 2) parts else []
  | None => []
  end.

Definition url (r : Request) : string :=
  if str_is_empty (query_string r) then path r else path r +:+ "?" +:+ query_string r.

Definition protocol (r : Request) : string := if secure r then "https" else "http".

Definition fresh (r : Request) (etag last_modified : option string) : bool :=
  match hm_get (headers r) "if-none-match", etag with
  | Some inm, Some e => String.eqb inm e || String.eqb inm "*"
  | _, _ => false
  end ||
  match hm_get (headers r) "if-modified-since", last_modified with
  | Some ims, Some lm => String.eqb ims lm
  | _, _ => false
  end.

Definition stale (r : Request) (etag last_modified : option string) : bool :=
  negb (fresh r etag last_modified).

(** [cookie.trim().splitn(2, '=')] with two pieces. *)
Definition cookie_pair (c : string) : option (string * string) := str_split_once "=" (trim c).

Fixpoint find_cookie (n : string) (l : list string) : option string :=
  match l with
  | [] => None
  | c :: l' =>
      match cookie_pair c with
      | Some (k, v) => if String.eqb k n then Some v else find_cookie n l'
      | None => find_cookie n l'
      end
  end.

Definition cookie (r : Request) (n : string) : option string :=
  cookies ← hm_get (headers r) "cookie"; find_cookie n (str_split ";" cookies).

Definition cookie_step (m : gmap string string) (c : string) : gmap string string :=
  match cookie_pair c with Some (k, v) => <[k := v]> m | None => m end.

Definition cookies (r : Request) : gmap string string :=
  match hm_get (headers r) "cookie" with
  | Some cs => foldl cookie_step ∅ (str_split ";" cs)
  | None => ∅
  end.

Definition content_type (r : Request) : option string := hm_get (headers r) "content-type".

Definition is_content_type (r : Request) (ct : string) : bool :=
  match content_type r with
  | Some v => str_contains (to_lowercase ct) (to_lowercase v)
  | None => false
  end.

Definition is_json (r : Request) : bool := is_content_type r "application/json".
Definition is_form (r : Request) : bool := is_content_type r "application/x-www-form-urlencoded".
Definition is_multipart (r : Request) : bool := is_content_type r "multipart/".

Definition form (r : Request) : result string FormData :=
  body_bytes ← ok_or (body r) "No body data available";
  let ct := default "" (content_type r) in
  if str_contains "multipart/form-data" ct then
    match extract_boundary ct with
    | Some boundary => Ok (parse_multipart body_bytes boundary)
    | None => Err "Missing boundary in multipart content-type"
    end
  else if str_contains "application/x-www-form-urlencoded" ct then
    Ok (foldl (λ d kv, add_field kv.1 kv.2 d) form_new
          (form_pairs (from_utf8_lossy body_bytes)))
  else Err "Request content-type is not form data".

Definition request_file (r : Request) (n : string) : result string (option UploadedFile) :=
  f ← form r; Ok (Multipart.file f n).

Definition request_files `{!HashIter string (list UploadedFile)} (r : Request)
    : result string (list UploadedFile) :=
  f ← form r; Ok (all_files f).

(** What the server hands over: the path and query of the URI, the method token, the
    headers and the outcome of reading at most 10 MiB of body ([to_bytes(..).ok()]). *)
Record AxumRequest := mkAxumRequest {
  path_and_query : option (string * option string);
  method_token : string;
  axum_headers : list (string * option string);
  read_body : option string
}.

Definition decode_path (raw_path : string) : string :=
  if str_contains_char "%" raw_path then from_utf8_lossy (percent_decode raw_path) else raw_path.

Definition content_length (hs : list (string * option string)) : option Z :=
  v ← List.find (λ kv, String.eqb kv.1 "content-length") hs;
  s ← v.2; parse_u64 s.

Definition from_axum (req : AxumRequest) : Request :=
  let '(p, qs) :=
    match path_and_query req with
    | None => ("/", "")
    | Some (raw_path, q) => (decode_path raw_path, default "" q)
    end in
  let m := Method.from_axum (method_token req) in
  let h := hm_from_axum (axum_headers req) in
  let body_bytes :=
    match m with
    | GET | HEAD | OPTIONS | DELETE =>
        if match content_length (axum_headers req) with Some n => 0 <? n | None => false end
        then read_body req else None
    | _ => read_body req
    end in
  request_new p m h qs body_bytes.
End request.

(** * Theorems *)

(** The Cookie header a client sends. *)
Definition cookie_text (kv : string * string) : string := kv.1 +:+ String "=" kv.2.
Definition cookie_header (l : list (string * string)) : string :=
  str_join "; " (cookie_text <$> l).

(** Visible ASCII without the semicolon, and without the equals sign in names. *)
Definition cookie_char (a : ascii) : bool :=
  let b := byte_of_ascii a in (33 <=? b) && (b <=? 126) && negb (b =? 59).
Definition cookie_name_char (a : ascii) : bool := cookie_char a && negb (Ascii.eqb a "=").
Definition cookie_ok (kv : string * string) : bool :=
  str_forall cookie_name_char kv.1 && str_forall cookie_char kv.2.

Lemma cookie_char_ascii a : cookie_char a = true → (byte_of_ascii a <? 128) = true.
Proof. unfold cookie_char. intros. bool_to_prop. apply Z.ltb_lt. lia. Qed.

Lemma cookie_char_not_space a : cookie_char a = true → negb (is_ascii_space a) = true.
Proof.
  unfold cookie_char, is_ascii_space. intros. bool_to_prop. apply negb_true_iff.
  apply orb_false_iff. rewrite andb_false_iff, Z.eqb_neq, !Z.leb_gt. lia.
Qed.

Lemma cookie_name_char_char a : cookie_name_char a = true → cookie_char a = true.
Proof. unfold cookie_name_char. by intros [? _]%andb_true_iff. Qed.

Lemma cookie_text_chars kv : cookie_ok kv = true → str_forall cookie_char (cookie_text kv) = true.
Proof.
  unfold cookie_ok, cookie_text. intros [Hn Hv]%andb_true_iff.
  rewrite str_forall_app. apply andb_true_iff. split; [|done].
  by eapply str_forall_impl; [apply cookie_name_char_char|].
Qed.

Lemma trim_ascii_id s :
  str_forall (λ a, negb (is_ascii_space a)) s = true → trim_ascii s = s.
Proof. intros H. unfold trim_ascii. by rewrite trim_start_by_none, trim_end_by_none. Qed.

Section cookies.
Context `{RS : RustStr}.

Lemma trim_cookie s :
  str_forall cookie_char s = true → trim s = s ∧ trim (String " " s) = s.
Proof.
  intros Hs.
  assert (is_ascii s = true) as Ha by (by eapply str_forall_impl; [apply cookie_char_ascii|]).
  assert (str_forall (λ a, negb (is_ascii_space a)) s = true) as Hn
    by (by eapply str_forall_impl; [apply cookie_char_not_space|]).
  split.
  - by rewrite trim_is_ascii, trim_ascii_id.
  - rewrite trim_is_ascii by exact Ha.
    change (trim_ascii (String " " s)) with (trim_ascii s). by apply trim_ascii_id.
Qed.

Lemma cookie_pair_text kv :
  cookie_ok kv = true →
  cookie_pair (cookie_text kv) = Some kv ∧ cookie_pair (String " " (cookie_text kv)) = Some kv.
Proof.
  intros Hok. pose proof (trim_cookie _ (cookie_text_chars _ Hok)) as [H1 H2].
  unfold cookie_pair. rewrite H1, H2. unfold cookie_text.
  unfold cookie_ok in Hok. apply andb_true_iff in Hok as [Hn _].
  rewrite str_split_once_app by (by eapply str_forall_not_contains; [|exact Hn]).
  by destruct kv.
Qed.

(** The pieces of the header: all but the first carry a leading space. *)
Lemma cookie_header_pieces kv l :
  forallb cookie_ok (kv :: l) = true →
  str_split ";" (cookie_header (kv :: l))
  = cookie_text kv :: (String " " ∘ cookie_text <$> l).
Proof.
  assert (∀ kv, cookie_ok kv = true → str_contains_char ";" (cookie_text kv) = false) as Hsc.
  { intros kv' Hkv. eapply str_forall_not_contains; [|by apply cookie_text_chars]. done. }
  unfold cookie_header. revert kv. induction l as [|kv' l IH]; intros kv H;
    apply andb_true_iff in H as [Hkv H].
  - simpl. by rewrite str_split_none by auto.
  - change (str_join "; " (cookie_text <$> kv :: kv' :: l))
      with (cookie_text kv +:+ String ";" (String " " (str_join "; " (cookie_text <$> kv' :: l)))).
    rewrite str_split_app by auto. specialize (IH _ H).
    cbn [str_split]. change (Ascii.eqb " " ";") with false. cbn match.
    by rewrite IH.
Qed.

Lemma foldl_cookie_step (f : string * string → string) l m :
  (∀ kv, kv ∈ l → cookie_pair (f kv) = Some kv) →
  foldl cookie_step m (f <$> l) = foldl (λ m kv, <[kv.1 := kv.2]> m) m l.
Proof.
  revert m. induction l as [|kv l IH]; intros m H; [done|]. cbn [fmap list_fmap foldl].
  unfold cookie_step at 2. rewrite H by set_solver. destruct kv. apply IH. set_solver.
Qed.

Lemma find_cookie_map (f : string * string → string) l n :
  (∀ kv, kv ∈ l → cookie_pair (f kv) = Some kv) →
  find_cookie n (f <$> l) = (list_to_map l : gmap string string) !! n.
Proof.
  induction l as [|[k v] l IH]; intros H; [done|]. cbn [fmap list_fmap find_cookie].
  rewrite H by set_solver. simpl. destruct (String.eqb_spec k n) as [->|Hne].
  - by rewrite lookup_insert_eq.
  - rewrite lookup_insert_ne by done. apply IH. set_solver.
Qed.

Lemma foldl_insert_NoDup (l : list (string * string)) (m : gmap string string) :
  NoDup l.*1 → foldl (λ m kv, <[kv.1 := kv.2]> m) m l = list_to_map l ∪ m.
Proof.
  revert m. induction l as [|[k v] l IH]; intros m Hnd; simpl; [by rewrite map_empty_union|].
  apply NoDup_cons in Hnd as [Hk Hnd]. rewrite IH by done.
  rewrite <- insert_union_r by (by apply not_elem_of_list_to_map_1).
  by rewrite insert_union_l.
Qed.

(** C35: cookies survive the trip through the header.  For distinct names and
    visible-ASCII names and values, the map of all cookies is the map that was sent, and
    each single lookup agrees with it (a value may contain equals signs). *)
Theorem cookies_roundtrip (r : Request) l :
  NoDup l.*1 → forallb cookie_ok l = true →
  hm_get (headers r) "cookie" = Some (cookie_header l) →
  cookies r = list_to_map l ∧
  ∀ n, cookie r n = (list_to_map l : gmap string string) !! n.
Proof.
  intros Hnd Hok Hh. unfold cookies, cookie. rewrite Hh. cbn [mbind option_bind].
  assert (∀ kv, kv ∈ l → cookie_ok kv = true) as Hok'.
  { rewrite forallb_forall in Hok. intros kv Hkv. by apply Hok, list_elem_of_In. }
  destruct l as [|kv l].
  - assert (cookie_pair "" = None) as E by (unfold cookie_pair; by rewrite trim_is_ascii).
    cbn. unfold cookie_step. rewrite E. done.
  - rewrite cookie_header_pieces by done.
    assert (∀ kv', kv' ∈ l → cookie_pair ((String " " ∘ cookie_text) kv') = Some kv') as Hl
      by (intros kv' Hkv'; apply cookie_pair_text, Hok'; set_solver).
    assert (cookie_pair (cookie_text kv) = Some kv) as Hkv
      by (apply cookie_pair_text, Hok'; set_solver).
    destruct kv as [k v]. apply NoDup_cons in Hnd as [Hk Hnd]. split.
    + cbn [foldl]. rewrite foldl_cookie_step by done. unfold cookie_step. rewrite Hkv.
      rewrite foldl_insert_NoDup by done. simpl.
      by rewrite <- insert_union_r, map_union_empty
        by (by apply not_elem_of_list_to_map_1).
    + intros n. cbn [find_cookie]. rewrite Hkv. simpl.
      destruct (String.eqb_spec k n) as [->|Hne]; [by rewrite lookup_insert_eq|].
      rewrite lookup_insert_ne by done. by apply find_cookie_map.
Qed.

End cookies.


(** * Witnesses *)

Definition demo_cookies : list (string * string) := [("sid", "a1=b2"); ("theme", "dark")].

Definition demo_request : Request :=
  mkRequest "/" GET {["cookie" := "sid=a1=b2; theme=dark"]} "" (query_params_new "") ∅ None 0.

Lemma cookies_roundtrip_witness :
  cookies demo_request = list_to_map demo_cookies ∧
  cookie demo_request "theme" = Some "dark".
Proof.
  destruct (cookies_roundtrip demo_request demo_cookies) as [H1 H2];
    [|reflexivity|reflexivity|exact (conj H1 (H2 "theme"))].
  repeat constructor; set_solver.
Defined.
