(* ===== verification/Chain.v ===== *)
(** The middleware chain (src/src/middleware/chain.rs): responses, errors, the request
    context shared along the chain, and the ordered execution of before, after and error
    middleware.  A middleware is a state transformer over the world [W] (the state of all
    middleware objects) and the context; [None] is a panic, which ends the process. *)
From S2P Require Import Prelude Method Routing Request.
From Stdlib Require Import SpecFloat.
From stdpp Require Import base gmap strings list.
Open Scope Z_scope.

(** * Responses and errors *)

Record MiddlewareResponse := mkMiddlewareResponse {
  status : Z;
  resp_headers : list (string * string);
  resp_body : string
}.

Definition response_new (s : Z) : MiddlewareResponse := mkMiddlewareResponse s [] "".

Definition with_status (s : Z) (r : MiddlewareResponse) : MiddlewareResponse :=
  mkMiddlewareResponse s (resp_headers r) (resp_body r).
Definition with_header (k v : string) (r : MiddlewareResponse) : MiddlewareResponse :=
  mkMiddlewareResponse (status r) (resp_headers r ++ [(k, v)]) (resp_body r).
Definition with_body (b : string) (r : MiddlewareResponse) : MiddlewareResponse :=
  mkMiddlewareResponse (status r) (resp_headers r) b.
Definition with_json_body (b : string) (r : MiddlewareResponse) : MiddlewareResponse :=
  with_body b (with_header "content-type" "application/json" r).
Definition with_text_body (b : string) (r : MiddlewareResponse) : MiddlewareResponse :=
  with_body b (with_header "content-type" "text/plain" r).

Definition bad_request (m : string) := with_text_body m (response_new 400).
Definition unauthorized (m : string) := with_text_body m (response_new 401).
Definition forbidden (m : string) := with_text_body m (response_new 403).
Definition not_found (m : string) := with_text_body m (response_new 404).
Definition too_many_requests (m : string) := with_text_body m (response_new 429).
Definition internal_error (m : string) := with_text_body m (response_new 500).
Definition service_unavailable (m : string) := with_text_body m (response_new 503).

Record MiddlewareError := mkMiddlewareError { code : string; message : string; err_status : Z }.

Definition dq : string := String dquote EmptyString.

(** The JSON body is formatted without escaping. *)
Definition to_response (e : MiddlewareError) : MiddlewareResponse :=
  with_json_body
    ("{" +:+ dq +:+ "error" +:+ dq +:+ ":" +:+ dq +:+ code e +:+ dq +:+ ","
     +:+ dq +:+ "message" +:+ dq +:+ ":" +:+ dq +:+ message e +:+ dq +:+ "}")
    (response_new (err_status e)).

Inductive MiddlewareResult :=
| Continue
| Response (r : MiddlewareResponse)
| Error (e : MiddlewareError).

(** * Context *)

Inductive StateValue :=
| VString (s : string) | VInt (i : Z) | VFloat (f : spec_float) | VBool (b : bool)
| VBytes (b : string).

Definition as_string (v : StateValue) : option string :=
  match v with VString s => Some s | _ => None end.
Definition as_int (v : StateValue) : option Z := match v with VInt i => Some i | _ => None end.
Definition as_bool (v : StateValue) : option bool := match v with VBool b => Some b | _ => None end.

Record MiddlewareState := mkMiddlewareState {
  values : gmap string StateValue;
  st_user_id : option string;
  st_is_authenticated : bool;
  roles : list string;
  trace_id : option string
}.

Definition state_default : MiddlewareState := mkMiddlewareState ∅ None false [] None.

(** Every field behind its own lock; the locks are never held together, so the context is
    a value threaded through the chain. *)
Record MiddlewareContext := mkMiddlewareContext {
  path : string;
  method : HttpMethod;
  headers : gmap string string;
  query_string : string;
  query_params : option (gmap string string);
  path_params : gmap string string;
  body : option string;
  state : option MiddlewareState;
  response_headers : list (string * string);
  start_time : Z;
  request_id : string
}.

(** [{:016x}] of a [u64]. *)
Definition hex_digit (d : Z) : ascii :=
  if d <? 10 then ascii_of_N (Z.to_N (48 + d)) else ascii_of_N (Z.to_N (87 + d)).
Fixpoint hex_fixed (n : nat) (z : Z) : string :=
  match n with
  | O => ""
  | S n' => hex_fixed n' (z / 16) +:+ String (hex_digit (z mod 16)) ""
  end.
Definition hex16 (z : Z) : string := hex_fixed 16 z.

Section context.
Context `{RS : RustStr} `{FU : FormUrlencoded}.

(** [now_debug] is the [{:?}] rendering of the start instant. *)
Definition context_new `{XXH3} (p : string) (m : HttpMethod) (hs : gmap string string)
    (qs : string) (b : option string) (now : Z) (now_debug : string) : MiddlewareContext :=
  mkMiddlewareContext p m hs qs None ∅ b None [] now (hex16 (xxh3_64 (p +:+ qs +:+ now_debug))).

Definition set_headers (h : gmap string string) (c : MiddlewareContext) : MiddlewareContext :=
  mkMiddlewareContext (path c) (method c) h (query_string c) (query_params c) (path_params c)
    (body c) (state c) (response_headers c) (start_time c) (request_id c).
Definition set_query_params (q : option (gmap string string)) (c : MiddlewareContext)
    : MiddlewareContext :=
  mkMiddlewareContext (path c) (method c) (headers c) (query_string c) q (path_params c)
    (body c) (state c) (response_headers c) (start_time c) (request_id c).
Definition set_params (q : gmap string string) (c : MiddlewareContext) : MiddlewareContext :=
  mkMiddlewareContext (path c) (method c) (headers c) (query_string c) (query_params c) q
    (body c) (state c) (response_headers c) (start_time c) (request_id c).
Definition put_body (b : option string) (c : MiddlewareContext) : MiddlewareContext :=
  mkMiddlewareContext (path c) (method c) (headers c) (query_string c) (query_params c)
    (path_params c) b (state c) (response_headers c) (start_time c) (request_id c).
Definition put_state (s : option MiddlewareState) (c : MiddlewareContext) : MiddlewareContext :=
  mkMiddlewareContext (path c) (method c) (headers c) (query_string c) (query_params c)
    (path_params c) (body c) s (response_headers c) (start_time c) (request_id c).
Definition set_path (p : string) (c : MiddlewareContext) : MiddlewareContext :=
  mkMiddlewareContext p (method c) (headers c) (query_string c) (query_params c)
    (path_params c) (body c) (state c) (response_headers c) (start_time c) (request_id c).
Definition set_query_string (q : string) (c : MiddlewareContext) : MiddlewareContext :=
  mkMiddlewareContext (path c) (method c) (headers c) q (query_params c)
    (path_params c) (body c) (state c) (response_headers c) (start_time c) (request_id c).
Definition add_response_header (n v : string) (c : MiddlewareContext) : MiddlewareContext :=
  mkMiddlewareContext (path c) (method c) (headers c) (query_string c) (query_params c)
    (path_params c) (body c) (state c) (response_headers c ++ [(n, v)]) (start_time c)
    (request_id c).

Definition get_header (c : MiddlewareContext) (n : string) : option string :=
  headers c !! to_lowercase n.
Definition set_header (n v : string) (c : MiddlewareContext) : MiddlewareContext :=
  set_headers (<[to_lowercase n := v]> (headers c)) c.
Definition remove_header (n : string) (c : MiddlewareContext)
    : MiddlewareContext * option string :=
  (set_headers (delete (to_lowercase n) (headers c)) c, headers c !! to_lowercase n).

(** The query parameters are parsed on first access and kept. *)
Definition ensure_query_params (c : MiddlewareContext) : MiddlewareContext :=
  match query_params c with
  | Some _ => c
  | None =>
      set_query_params
        (Some (if str_is_empty (query_string c) then ∅
               else collect_map (form_pairs (query_string c)))) c
  end.

Definition get_query (c : MiddlewareContext) (n : string) : MiddlewareContext * option string :=
  let c' := ensure_query_params c in (c', qp ← query_params c'; qp !! n).
Definition set_query (n v : string) (c : MiddlewareContext) : MiddlewareContext :=
  let c' := ensure_query_params c in
  match query_params c' with
  | Some qp => set_query_params (Some (<[n := v]> qp)) c'
  | None => c'
  end.
Definition remove_query (n : string) (c : MiddlewareContext)
    : MiddlewareContext * option string :=
  let c' := ensure_query_params c in
  match query_params c' with
  | Some qp => (set_query_params (Some (delete n qp)) c', qp !! n)
  | None => (c', None)
  end.

Definition get_param (c : MiddlewareContext) (n : string) : option string := path_params c !! n.
Definition set_param (n v : string) (c : MiddlewareContext) : MiddlewareContext :=
  set_params (<[n := v]> (path_params c)) c.
Definition set_body (b : string) (c : MiddlewareContext) : MiddlewareContext :=
  put_body (Some b) c.
Definition clear_body (c : MiddlewareContext) : MiddlewareContext := put_body None c.
Definition take_body (c : MiddlewareContext) : MiddlewareContext * option string :=
  (put_body None c, body c).
Definition get_path (c : MiddlewareContext) : string := path c.
Definition get_query_string (c : MiddlewareContext) : string := query_string c.
Definition get_response_headers (c : MiddlewareContext) : list (string * string) :=
  response_headers c.

Definition ensure_state (c : MiddlewareContext) : MiddlewareContext :=
  match state c with Some _ => c | None => put_state (Some state_default) c end.

Definition set_state (key : string) (v : StateValue) (c : MiddlewareContext)
    : MiddlewareContext :=
  let c' := ensure_state c in
  match state c' with
  | Some s => put_state (Some (mkMiddlewareState (<[key := v]> (values s)) (st_user_id s)
                (st_is_authenticated s) (roles s) (trace_id s))) c'
  | None => c'
  end.

Definition get_state (c : MiddlewareContext) (key : string) : option StateValue :=
  s ← state c; values s !! key.

Definition set_authenticated (user : string) (rs : list string) (c : MiddlewareContext)
    : MiddlewareContext :=
  let c' := ensure_state c in
  match state c' with
  | Some s => put_state (Some (mkMiddlewareState (values s) (Some user) true rs (trace_id s))) c'
  | None => c'
  end.

Definition is_authenticated (c : MiddlewareContext) : bool :=
  match state c with Some s => st_is_authenticated s | None => false end.
Definition user_id (c : MiddlewareContext) : option string := s ← state c; st_user_id s.
Definition has_role (c : MiddlewareContext) (role : string) : bool :=
  match state c with Some s => bool_decide (role ∈ roles s) | None => false end.
Definition elapsed (now : Z) (c : MiddlewareContext) : Z := sat_sub now (start_time c).
End context.

(** * The chain *)

Section chain.
Context {W : Type}.

(** The [RustMiddleware] trait.  [execute] has no result when it panics: the release profile
    aborts the process then. *)
Record RustMiddleware := mkRustMiddleware {
  name : string;
  execute : W → MiddlewareContext → option (W * MiddlewareContext * MiddlewareResult);
  applies_to : string → bool;
  applies_to_method : HttpMethod → bool
}.

Record MiddlewareChain := mkMiddlewareChain {
  before : list RustMiddleware;
  after : list RustMiddleware;
  error_handlers : list RustMiddleware
}.

Definition chain_new : MiddlewareChain := mkMiddlewareChain [] [] [].
Definition use_before (m : RustMiddleware) (c : MiddlewareChain) : MiddlewareChain :=
  mkMiddlewareChain (before c ++ [m]) (after c) (error_handlers c).
Definition use_after (m : RustMiddleware) (c : MiddlewareChain) : MiddlewareChain :=
  mkMiddlewareChain (before c) (after c ++ [m]) (error_handlers c).
Definition use_error (m : RustMiddleware) (c : MiddlewareChain) : MiddlewareChain :=
  mkMiddlewareChain (before c) (after c) (error_handlers c ++ [m]).

(** The loop shared by [execute_before] and [execute_after]; the path and the method are
    read once, before it. *)
Fixpoint run_chain (p : string) (m : HttpMethod) (l : list RustMiddleware) (w : W)
    (ctx : MiddlewareContext) : option (W * MiddlewareContext * MiddlewareResult) :=
  match l with
  | [] => Some (w, ctx, Continue)
  | mw :: l' =>
      if negb (applies_to mw p) || negb (applies_to_method mw m) then run_chain p m l' w ctx
      else
        '(w', ctx', res) ← execute mw w ctx;
        match res with
        | Continue => run_chain p m l' w' ctx'
        | _ => Some (w', ctx', res)
        end
  end.

Definition execute_before (c : MiddlewareChain) (w : W) (ctx : MiddlewareContext)
    : option (W * MiddlewareContext * MiddlewareResult) :=
  match before c with
  | [] => Some (w, ctx, Continue)
  | l => run_chain (path ctx) (method ctx) l w ctx
  end.

Definition execute_after (c : MiddlewareChain) (w : W) (ctx : MiddlewareContext)
    : option (W * MiddlewareContext * MiddlewareResult) :=
  match after c with
  | [] => Some (w, ctx, Continue)
  | l => run_chain (path ctx) (method ctx) l w ctx
  end.

(** Error handlers are not filtered by method, and only a response stops them. *)
Fixpoint run_error_handlers (p : string) (l : list RustMiddleware) (w : W)
    (ctx : MiddlewareContext) : option (W * MiddlewareContext * option MiddlewareResponse) :=
  match l with
  | [] => Some (w, ctx, None)
  | mw :: l' =>
      if negb (applies_to mw p) then run_error_handlers p l' w ctx
      else
        '(w', ctx', res) ← execute mw w ctx;
        match res with
        | Response r => Some (w', ctx', Some r)
        | _ => run_error_handlers p l' w' ctx'
        end
  end.

Definition store_error (e : MiddlewareError) (ctx : MiddlewareContext) : MiddlewareContext :=
  set_state "error_status" (VInt (err_status e))
    (set_state "error_message" (VString (message e))
       (set_state "error_code" (VString (code e)) ctx)).

Definition execute_error (c : MiddlewareChain) (w : W) (ctx : MiddlewareContext)
    (e : MiddlewareError) : option (W * MiddlewareContext * option MiddlewareResponse) :=
  let ctx1 := store_error e ctx in
  '(w', ctx', res) ← run_error_handlers (get_path ctx1) (error_handlers c) w ctx1;
  match res with
  | Some r => Some (w', ctx', Some r)
  | None => Some (w', ctx', Some (to_response e))
  end.

Definition stats (c : MiddlewareChain) : nat * nat * nat :=
  (length (before c), length (after c), length (error_handlers c)).
Definition is_empty_before (c : MiddlewareChain) : bool :=
  match before c with [] => true | _ => false end.
Definition is_empty_after (c : MiddlewareChain) : bool :=
  match after c with [] => true | _ => false end.

(** ** What execution means *)

(** The middleware that applies to a request, in order. *)
Definition applicable (p : string) (m : HttpMethod) (l : list RustMiddleware)
    : list RustMiddleware :=
  List.filter (λ mw, applies_to mw p && applies_to_method mw m) l.

(** All of [l] ran, in order, each on the state its predecessor left, and continued. *)
Inductive passes : list RustMiddleware → W → MiddlewareContext → W → MiddlewareContext → Prop :=
| passes_nil w ctx : passes [] w ctx w ctx
| passes_cons mw l w ctx w1 ctx1 w2 ctx2 :
    execute mw w ctx = Some (w1, ctx1, Continue) → passes l w1 ctx1 w2 ctx2 →
    passes (mw :: l) w ctx w2 ctx2.

(** The specification of a run: either everything passed, or a prefix passed and the
    next one stopped the chain with its result. *)
Definition chain_outcome (l : list RustMiddleware) (w : W) (ctx : MiddlewareContext)
    (w' : W) (ctx' : MiddlewareContext) (res : MiddlewareResult) : Prop :=
  (res = Continue ∧ passes l w ctx w' ctx') ∨
  (res ≠ Continue ∧ ∃ l1 mw l2 w1 ctx1,
     l = l1 ++ mw :: l2 ∧ passes l1 w ctx w1 ctx1 ∧ execute mw w1 ctx1 = Some (w', ctx', res)).

Lemma passes_cons_inv mw l w ctx w1 ctx1 r w' ctx' :
  execute mw w ctx = Some (w1, ctx1, r) → passes (mw :: l) w ctx w' ctx' →
  r = Continue ∧ passes l w1 ctx1 w' ctx'.
Proof. intros He. by inversion 1; simplify_eq. Qed.

Lemma chain_outcome_cons mw l w ctx w1 ctx1 w' ctx' res :
  execute mw w ctx = Some (w1, ctx1, Continue) →
  chain_outcome (mw :: l) w ctx w' ctx' res ↔ chain_outcome l w1 ctx1 w' ctx' res.
Proof.
  intros He. unfold chain_outcome. split.
  - intros [[-> Hp]|(Hne & l1 & mw' & l2 & w2 & c2 & Hl & Hp & He')].
    + left. split; [done|]. by eapply passes_cons_inv.
    + right. split; [done|]. destruct l1 as [|mw1 l1]; simplify_eq/=.
      * by inversion Hp; simplify_eq.
      * eapply passes_cons_inv in Hp as [_ Hp]; [|done]. eauto 10.
  - intros [[-> Hp]|(Hne & l1 & mw' & l2 & w2 & c2 & -> & Hp & He')].
    + left. split; [done|]. by econstructor.
    + right. split; [done|]. exists (mw :: l1), mw', l2, w2, c2. split_and!; [done| |done].
      by econstructor.
Qed.

Lemma chain_outcome_stop mw l w ctx w1 ctx1 r w' ctx' res :
  execute mw w ctx = Some (w1, ctx1, r) → r ≠ Continue →
  chain_outcome (mw :: l) w ctx w' ctx' res ↔ (w1, ctx1, r) = (w', ctx', res).
Proof.
  intros He Hr. unfold chain_outcome. split.
  - intros [[-> Hp]|(Hne & l1 & mw' & l2 & w2 & c2 & Hl & Hp & He')].
    + eapply passes_cons_inv in Hp as [? _]; [|done]. done.
    + destruct l1 as [|mw1 l1]; simplify_eq/=.
      * by inversion Hp; simplify_eq.
      * eapply passes_cons_inv in Hp as [? _]; [|done]. done.
  - intros [= <- <- <-]. right. split; [done|]. exists [], mw, l, w, ctx.
    split_and!; [done|constructor|done].
Qed.

Lemma chain_outcome_panics mw l w ctx w' ctx' res :
  execute mw w ctx = None → ¬ chain_outcome (mw :: l) w ctx w' ctx' res.
Proof.
  intros He [[-> Hp]|(Hne & l1 & mw' & l2 & w2 & c2 & Hl & Hp & He')].
  - inversion Hp; congruence.
  - destruct l1 as [|mw1 l1]; simplify_eq/=; by inversion Hp; simplify_eq.
Qed.

Lemma run_chain_outcome p m l w ctx w' ctx' res :
  run_chain p m l w ctx = Some (w', ctx', res) ↔
  chain_outcome (applicable p m l) w ctx w' ctx' res.
Proof.
  revert w ctx. induction l as [|mw l IH]; intros w ctx; simpl.
  - unfold chain_outcome. split.
    + intros [= <- <- <-]. left. split; [done|constructor].
    + intros [[-> Hp]|(_ & l1 & mw & l2 & w1 & c1 & Hl & _)]; [by inversion Hp|].
      by destruct l1.
  - destruct (applies_to mw p), (applies_to_method mw m); simpl; try apply IH.
    destruct (execute mw w ctx) as [[[w1 ctx1] r]|] eqn:He; simpl.
    + destruct r as [|r|e]; [by rewrite chain_outcome_cons|..];
        rewrite chain_outcome_stop by done; split; congruence.
    + split; [done|]. intros Ho. by destruct (chain_outcome_panics _ _ _ _ _ _ _ He Ho).
Qed.

(** A run has no outcome exactly when a prefix of the middleware passed and the next one
    panicked. *)
Lemma run_chain_panics p m l w ctx :
  run_chain p m l w ctx = None ↔
  ∃ l1 mw l2 w1 ctx1, applicable p m l = l1 ++ mw :: l2 ∧ passes l1 w ctx w1 ctx1 ∧
    execute mw w1 ctx1 = None.
Proof.
  revert w ctx. induction l as [|mw l IH]; intros w ctx; simpl.
  - split; [done|]. by intros ([|] & ? & ? & ? & ? & ? & _).
  - destruct (applies_to mw p), (applies_to_method mw m); simpl; try apply IH.
    destruct (execute mw w ctx) as [[[w1 ctx1] r]|] eqn:He; simpl.
    + transitivity (r = Continue ∧ run_chain p m l w1 ctx1 = None);
        [destruct r; naive_solver|]. rewrite IH. split.
      * intros (-> & l1 & mw' & l2 & w2 & c2 & -> & Hp & Hn).
        exists (mw :: l1), mw', l2, w2, c2. split_and!; [done|by econstructor|done].
      * intros ([|mw1 l1] & mw' & l2 & w2 & c2 & Hl & Hp & Hn); simplify_eq/=.
        { by inversion Hp; simplify_eq. }
        eapply passes_cons_inv in Hp as [-> Hp]; [|done]. eauto 10.
    + split; [|done]. intros _. exists [], mw, (applicable p m l), w, ctx.
      split_and!; [done|constructor|done].
Qed.

Lemma execute_before_runs c w ctx :
  execute_before c w ctx = run_chain (path ctx) (method ctx) (before c) w ctx.
Proof. unfold execute_before. by destruct (before c). Qed.

Lemma execute_after_runs c w ctx :
  execute_after c w ctx = run_chain (path ctx) (method ctx) (after c) w ctx.
Proof. unfold execute_after. by destruct (after c). Qed.

(** C28: executing the before chain runs exactly the middleware that applies to the path
    and method the request came in with (whatever the middleware does to the path), in
    order, each on the state left by its predecessor; it continues iff all of them do,
    and otherwise returns the first other result and runs nothing after it.  It panics
    exactly when all the middleware before one passes and that one panics. *)
Theorem execute_before_spec c w ctx :
  (∀ w' ctx' res, execute_before c w ctx = Some (w', ctx', res) ↔
     chain_outcome (applicable (path ctx) (method ctx) (before c)) w ctx w' ctx' res) ∧
  (execute_before c w ctx = None ↔
     ∃ l1 mw l2 w1 ctx1,
       applicable (path ctx) (method ctx) (before c) = l1 ++ mw :: l2 ∧
       passes l1 w ctx w1 ctx1 ∧ execute mw w1 ctx1 = None).
Proof.
  rewrite execute_before_runs. split; [|apply run_chain_panics]. intros. apply run_chain_outcome.
Qed.

(** The handlers that ran without responding. *)
Inductive declines : list RustMiddleware → W → MiddlewareContext → W → MiddlewareContext → Prop :=
| declines_nil w ctx : declines [] w ctx w ctx
| declines_cons mw l w ctx w1 ctx1 w2 ctx2 res :
    execute mw w ctx = Some (w1, ctx1, res) → (∀ r, res ≠ Response r) →
    declines l w1 ctx1 w2 ctx2 → declines (mw :: l) w ctx w2 ctx2.

Lemma run_error_handlers_spec p l w ctx :
  let hs := List.filter (λ mw, applies_to mw p) l in
  match run_error_handlers p l w ctx with
  | None => ∃ l1 mw l2 w1 ctx1,
      hs = l1 ++ mw :: l2 ∧ declines l1 w ctx w1 ctx1 ∧ execute mw w1 ctx1 = None
  | Some (w', ctx', None) => declines hs w ctx w' ctx'
  | Some (w', ctx', Some r) => ∃ l1 mw l2 w1 ctx1,
      hs = l1 ++ mw :: l2 ∧ declines l1 w ctx w1 ctx1 ∧
      execute mw w1 ctx1 = Some (w', ctx', Response r)
  end.
Proof.
  cbv zeta. revert w ctx. induction l as [|mw l IH]; intros w ctx; simpl; [constructor|].
  destruct (applies_to mw p); simpl; [|apply IH].
  destruct (execute mw w ctx) as [[[w1 ctx1] r]|] eqn:He; simpl.
  2: { exists [], mw, (List.filter (λ mw, applies_to mw p) l), w, ctx. split_and!; [done|constructor|done]. }
  destruct (match r with Response r' => Some r' | _ => None end) as [r'|] eqn:Hr.
  { assert (r = Response r') as -> by (destruct r; congruence). exists [], mw, (List.filter (λ mw, applies_to mw p) l), w, ctx. split_and!; [done|constructor|done]. }
  assert (∀ r', r ≠ Response r') as Hr' by (intros r' ->; done). specialize (IH w1 ctx1).
  assert (match r with Response r0 => Some (w1, ctx1, Some r0) | _ => run_error_handlers p l w1 ctx1 end
    = run_error_handlers p l w1 ctx1) as -> by (destruct r; naive_solver).
  destruct (run_error_handlers p l w1 ctx1) as [[[w' ctx'] [r'|]]|]; [|by econstructor|];
    destruct IH as (l1 & mw' & l2 & w2 & c2 & -> & Hd & He');
    (exists (mw :: l1), mw', l2, w2, c2; split_and!; [done|by econstructor|done]).
Qed.

Lemma get_state_set_state key v ctx : get_state (set_state key v ctx) key = Some v.
Proof.
  unfold get_state, set_state, ensure_state.
  destruct (state ctx) as [s|] eqn:E; simpl; [rewrite E|]; simpl; apply lookup_insert_eq.
Qed.

Lemma get_state_set_state_ne key key' v ctx :
  key ≠ key' → get_state (set_state key v ctx) key' = get_state ctx key'.
Proof.
  intros Hne. unfold get_state, set_state, ensure_state.
  destruct (state ctx) as [s|] eqn:E; simpl; [rewrite E|]; simpl.
  - by rewrite lookup_insert_ne.
  - rewrite lookup_insert_ne by done. apply lookup_empty.
Qed.

(** an error always ends in a response, unless a handler panics.  The error is readable in
    the context state; the handlers that apply to the path run in order (for every method) on
    it until one responds, and when none does the response is the error's own. *)
Theorem execute_error_spec c w ctx e :
  let ctx1 := store_error e ctx in
  let hs := List.filter (λ mw, applies_to mw (path ctx)) (error_handlers c) in
  get_state ctx1 "error_code" = Some (VString (code e)) ∧
  get_state ctx1 "error_message" = Some (VString (message e)) ∧
  get_state ctx1 "error_status" = Some (VInt (err_status e)) ∧
  match execute_error c w ctx e with
  | None => ∃ l1 mw l2 w1 ctx2, hs = l1 ++ mw :: l2 ∧ declines l1 w ctx1 w1 ctx2 ∧
      execute mw w1 ctx2 = None
  | Some (w', ctx', o) => ∃ r, o = Some r ∧
      ((declines hs w ctx1 w' ctx' ∧ r = to_response e) ∨
       (∃ l1 mw l2 w1 ctx2, hs = l1 ++ mw :: l2 ∧ declines l1 w ctx1 w1 ctx2 ∧
          execute mw w1 ctx2 = Some (w', ctx', Response r)))
  end.
Proof.
  cbv zeta. split_and!.
  1-3: unfold store_error; rewrite ?(get_state_set_state_ne "error_status"),
    ?(get_state_set_state_ne "error_message") by done; apply get_state_set_state.
  assert (get_path (store_error e ctx) = path ctx) as Hp
    by (unfold store_error, set_state, ensure_state; repeat (case_match; simplify_eq/=); done).
  unfold execute_error. rewrite Hp.
  pose proof (run_error_handlers_spec (path ctx) (error_handlers c) w (store_error e ctx)) as H.
  destruct (run_error_handlers _ _ _ _) as [[[w' ctx'] [r|]]|]; cbn; eauto.
Qed.
End chain.
Arguments RustMiddleware : clear implicits.
Arguments MiddlewareChain : clear implicits.

Section query.
Context `{FU : FormUrlencoded}.

(** the query parameters are parsed once.  After any read, replacing the query string
    is not seen by later reads; parameters set explicitly are, and removing one hides it. *)
Theorem query_params_lazy ctx n qs m v :
  let ctx1 := (get_query ctx n).1 in
  (get_query ctx n).2 = (match query_params ctx with
                         | Some qp => qp
                         | None => collect_map (form_pairs (query_string ctx))
                         end) !! n ∧
  (get_query (set_query_string qs ctx1) m).2 = (get_query ctx1 m).2 ∧
  (get_query (set_query m v ctx1) n).2 = (if decide (m = n) then Some v else (get_query ctx n).2) ∧
  (get_query (remove_query m ctx1).1 n).2 = (if decide (m = n) then None else (get_query ctx n).2).
Proof.
  unfold get_query, set_query, remove_query, ensure_query_params.
  destruct (query_params ctx) as [qp|] eqn:E; simpl; rewrite ?E; simpl.
  - rewrite ?E. simpl. rewrite lookup_insert, lookup_delete. split_and!; by try case_decide.
  - rewrite lookup_insert, lookup_delete.
    assert ((if str_is_empty (query_string ctx) then ∅
             else collect_map (form_pairs (query_string ctx)))
            = collect_map (form_pairs (query_string ctx))) as ->.
    { destruct (query_string ctx); [|done]. simpl. by rewrite form_pairs_empty. }
    split_and!; by try case_decide.
Qed.
End query.
