(* ===== verification/PyContext.v ===== *)
(** The Python methods of the middleware objects (the [_py] methods and getters of
    src/src/middleware/chain.rs): calls on a shared context as a small language, with what each
    returns to Python, and what a whole sequence of calls does. *)
From S2P Require Import Prelude F64 Method Routing Request Chain.
From Stdlib Require Import SpecFloat.
From stdpp Require Import base gmap strings list.
Open Scope Z_scope.

(** * Responses: the Python methods change the object in place *)

Definition with_status_py (s : Z) (r : MiddlewareResponse) : MiddlewareResponse :=
  mkMiddlewareResponse s (resp_headers r) (resp_body r).
Definition with_header_py (k v : string) (r : MiddlewareResponse) : MiddlewareResponse :=
  mkMiddlewareResponse (status r) (resp_headers r ++ [(k, v)]) (resp_body r).
Definition with_body_py (b : string) (r : MiddlewareResponse) : MiddlewareResponse :=
  mkMiddlewareResponse (status r) (resp_headers r) b.
Definition with_json_body_py (b : string) (r : MiddlewareResponse) : MiddlewareResponse :=
  mkMiddlewareResponse (status r) (resp_headers r ++ [("content-type", "application/json")]) b.
Definition with_text_body_py (b : string) (r : MiddlewareResponse) : MiddlewareResponse :=
  mkMiddlewareResponse (status r) (resp_headers r ++ [("content-type", "text/plain")]) b.
Definition py_error_new (c m : string) (s : Z) : MiddlewareError := mkMiddlewareError c m s.

Section pycontext.
Context `{RS : RustStr} `{FU : FormUrlencoded}.

(** * The methods of the context *)

Definition get_header_py (n : string) (c : MiddlewareContext) : option string := headers c !! to_lowercase n.
Definition set_header_py (n v : string) (c : MiddlewareContext) : MiddlewareContext :=
  set_headers (<[to_lowercase n := v]> (headers c)) c.
Definition remove_header_py (n : string) (c : MiddlewareContext) : MiddlewareContext * option string :=
  (set_headers (delete (to_lowercase n) (headers c)) c, headers c !! to_lowercase n).
Definition get_query_py (n : string) (c : MiddlewareContext) : MiddlewareContext * option string :=
  let c' := ensure_query_params c in (c', qp ← query_params c'; qp !! n).
Definition set_query_py (n v : string) (c : MiddlewareContext) : MiddlewareContext :=
  let c' := ensure_query_params c in
  match query_params c' with
  | Some qp => set_query_params (Some (<[n := v]> qp)) c'
  | None => c'
  end.
Definition remove_query_py (n : string) (c : MiddlewareContext) : MiddlewareContext * option string :=
  let c' := ensure_query_params c in
  match query_params c' with
  | Some qp => (set_query_params (Some (delete n qp)) c', qp !! n)
  | None => (c', None)
  end.
Definition set_param_py (n v : string) (c : MiddlewareContext) : MiddlewareContext :=
  set_params (<[n := v]> (path_params c)) c.
Definition set_body_py (b : string) (c : MiddlewareContext) : MiddlewareContext := put_body (Some b) c.
Definition set_body_str_py (b : string) (c : MiddlewareContext) : MiddlewareContext := put_body (Some b) c.
Definition clear_body_py (c : MiddlewareContext) : MiddlewareContext := put_body None c.
Definition set_path_py (p : string) (c : MiddlewareContext) : MiddlewareContext := set_path p c.
Definition set_query_string_py (q : string) (c : MiddlewareContext) : MiddlewareContext := set_query_string q c.
Definition add_response_header_py (n v : string) (c : MiddlewareContext) : MiddlewareContext :=
  add_response_header n v c.
Definition set_state_py (k : string) (v : StateValue) (c : MiddlewareContext) : MiddlewareContext :=
  let c' := ensure_state c in
  match state c' with
  | Some s => put_state (Some (mkMiddlewareState (<[k := v]> (values s)) (st_user_id s)
                (st_is_authenticated s) (roles s) (trace_id s))) c'
  | None => c'
  end.
Definition set_authenticated_py (user : string) (rs : list string) (c : MiddlewareContext) : MiddlewareContext :=
  let c' := ensure_state c in
  match state c' with
  | Some s => put_state (Some (mkMiddlewareState (values s) (Some user) true rs (trace_id s))) c'
  | None => c'
  end.
Definition elapsed_seconds (now : Z) (c : MiddlewareContext) : f64 := as_secs_f64 (sat_sub now (start_time c)).
Definition body_py (c : MiddlewareContext) : option string := body c.

(** ** Calls and scripts *)

Inductive py_call :=
| GetPath | GetMethod | GetQueryString | GetRequestId
| GetHeader (n : string) | SetHeader (n v : string) | RemoveHeader (n : string)
| GetQuery (n : string) | SetQuery (n v : string) | RemoveQuery (n : string)
| GetParam (n : string) | SetParam (n v : string)
| SetBody (b : string) | SetBodyStr (b : string) | ClearBody | GetBody
| SetPath (p : string) | SetQueryString (q : string)
| AddResponseHeader (n v : string)
| SetState (k : string) (v : StateValue) | GetState (k : string)
| SetAuthenticated (u : string) (rs : list string) | IsAuthenticated | UserId | HasRole (r : string)
| ElapsedSeconds (now : Z).

(** What Python gets back. *)
Inductive py_result :=
| RNone | RString (s : string) | ROption (s : option string) | RMethod (m : HttpMethod) | RBool (b : bool)
| RState (v : option StateValue) | RFloat (f : f64).

Definition py_eval (k : py_call) (c : MiddlewareContext) : MiddlewareContext * py_result :=
  match k with
  | GetPath => (c, RString (path c))
  | GetMethod => (c, RMethod (method c))
  | GetQueryString => (c, RString (query_string c))
  | GetRequestId => (c, RString (request_id c))
  | GetHeader n => (c, ROption (get_header_py n c))
  | SetHeader n v => (set_header_py n v c, RNone)
  | RemoveHeader n => let '(c', r) := remove_header_py n c in (c', ROption r)
  | GetQuery n => let '(c', r) := get_query_py n c in (c', ROption r)
  | SetQuery n v => (set_query_py n v c, RNone)
  | RemoveQuery n => let '(c', r) := remove_query_py n c in (c', ROption r)
  | GetParam n => (c, ROption (get_param c n))
  | SetParam n v => (set_param_py n v c, RNone)
  | SetBody b => (set_body_py b c, RNone)
  | SetBodyStr b => (set_body_str_py b c, RNone)
  | ClearBody => (clear_body_py c, RNone)
  | GetBody => (c, ROption (body_py c))
  | SetPath p => (set_path_py p c, RNone)
  | SetQueryString q => (set_query_string_py q c, RNone)
  | AddResponseHeader n v => (add_response_header_py n v c, RNone)
  | SetState x v => (set_state_py x v c, RNone)
  | GetState x => (c, RState (get_state c x))
  | SetAuthenticated u rs => (set_authenticated_py u rs c, RNone)
  | IsAuthenticated => (c, RBool (is_authenticated c))
  | UserId => (c, ROption (user_id c))
  | HasRole r => (c, RBool (has_role c r))
  | ElapsedSeconds now => (c, RFloat (elapsed_seconds now c))
  end.

Fixpoint py_run (ks : list py_call) (c : MiddlewareContext) : MiddlewareContext * list py_result :=
  match ks with
  | [] => (c, [])
  | k :: ks' => let '(c1, r) := py_eval k c in let '(c2, rs) := py_run ks' c1 in (c2, r :: rs)
  end.

(** ** What a script does *)

(** The value of something that calls overwrite, after a script: the last write wins. *)
Definition after {A} (w : py_call → option A) (a : A) (ks : list py_call) : A :=
  foldl (λ a k, default a (w k)) a ks.

Definition header_write (n : string) (k : py_call) : option (option string) :=
  match k with
  | SetHeader m v => if String.eqb (to_lowercase m) (to_lowercase n) then Some (Some v) else None
  | RemoveHeader m => if String.eqb (to_lowercase m) (to_lowercase n) then Some None else None
  | _ => None
  end.
Definition query_write (n : string) (k : py_call) : option (option string) :=
  match k with
  | SetQuery m v => if String.eqb m n then Some (Some v) else None
  | RemoveQuery m => if String.eqb m n then Some None else None
  | _ => None
  end.
Definition param_write (n : string) (k : py_call) : option (option string) :=
  match k with SetParam m v => if String.eqb m n then Some (Some v) else None | _ => None end.
Definition state_write (x : string) (k : py_call) : option (option StateValue) :=
  match k with SetState y v => if String.eqb y x then Some (Some v) else None | _ => None end.
Definition body_write (k : py_call) : option (option string) :=
  match k with SetBody b | SetBodyStr b => Some (Some b) | ClearBody => Some None | _ => None end.
Definition path_write (k : py_call) : option string := match k with SetPath p => Some p | _ => None end.
Definition string_write (k : py_call) : option string := match k with SetQueryString q => Some q | _ => None end.
Definition user_write (k : py_call) : option (bool * option string) :=
  match k with SetAuthenticated u _ => Some (true, Some u) | _ => None end.
Definition header_added (k : py_call) : option (string * string) :=
  match k with AddResponseHeader n v => Some (n, v) | _ => None end.

(** The calls that need the query parameters. *)
Definition uses_query (k : py_call) : bool :=
  match k with GetQuery _ | SetQuery _ _ | RemoveQuery _ => true | _ => false end.
Definition parsed (q : string) : gmap string string :=
  if str_is_empty q then ∅ else collect_map (form_pairs q).
Definition query_view (c : MiddlewareContext) : gmap string string := default (parsed (query_string c)) (query_params c).

Lemma py_run_app ks1 ks2 c : (py_run (ks1 ++ ks2) c).1 = (py_run ks2 (py_run ks1 c).1).1.
Proof.
  revert c. induction ks1 as [|k ks1 IH]; intros c; [done|]. cbn [app py_run].
  destruct (py_eval k c) as [c1 r]. specialize (IH c1).
  destruct (py_run (ks1 ++ ks2) c1), (py_run ks1 c1). exact IH.
Qed.

Lemma py_run_cons k ks c : (py_run (k :: ks) c).1 = (py_run ks (py_eval k c).1).1.
Proof. cbn [py_run]. destruct (py_eval k c) as [c1 r]. cbn [fst]. by destruct (py_run ks c1). Qed.

(** What every call changes as [w] says, a script changes as its last write says. *)
Lemma tracks {A} (view : MiddlewareContext → A) (w : py_call → option A) ks c :
  (∀ k c, view (py_eval k c).1 = default (view c) (w k)) → view (py_run ks c).1 = after w (view c) ks.
Proof.
  intros H. revert c. induction ks as [|k ks IH]; intros c; [done|]. by rewrite py_run_cons, IH, H.
Qed.

Lemma ensure_query_id (P : MiddlewareContext → Prop) c :
  P c → (∀ q, query_params c = None → P (set_query_params q c)) → P (ensure_query_params c).
Proof. intros H1 H2. unfold ensure_query_params. destruct (query_params c) eqn:E; [done|by apply H2]. Qed.

Lemma ensure_query_view c :
  query_params (ensure_query_params c) = Some (query_view c).
Proof. unfold ensure_query_params, query_view. destruct (query_params c) eqn:E; [by rewrite E|done]. Qed.

(** The calls one by one: each field is written by its own calls only. *)
Ltac call_cases :=
  intros k c; destruct k; try reflexivity;
  unfold py_eval, set_query_py, get_query_py, remove_query_py, set_state_py, set_authenticated_py,
    ensure_query_params, ensure_state;
  try (destruct (query_params c) eqn:Eq; cbn; rewrite ?Eq; cbn; try reflexivity);
  try (destruct (state c) eqn:Es; cbn; rewrite ?Es; cbn; try reflexivity).

Lemma path_tracks : ∀ k c, path (py_eval k c).1 = default (path c) (path_write k).
Proof. call_cases. Qed.
Lemma method_tracks : ∀ k c, method (py_eval k c).1 = method c.
Proof. call_cases. Qed.
Lemma id_tracks : ∀ k c, request_id (py_eval k c).1 = request_id c.
Proof. call_cases. Qed.
Lemma string_tracks : ∀ k c, query_string (py_eval k c).1 = default (query_string c) (string_write k).
Proof. call_cases. Qed.
Lemma body_tracks : ∀ k c, body (py_eval k c).1 = default (body c) (body_write k).
Proof. call_cases. Qed.
Lemma added_tracks : ∀ k c,
  response_headers (py_eval k c).1 = response_headers c ++ match header_added k with Some h => [h] | None => [] end.
Proof. call_cases; by rewrite app_nil_r. Qed.
Lemma header_tracks n : ∀ k c, get_header_py n (py_eval k c).1 = default (get_header_py n c) (header_write n k).
Proof.
  call_cases; cbn; unfold get_header_py; cbn; destruct (String.eqb_spec (to_lowercase n0) (to_lowercase n)) as [->|Hne];
    cbn; by rewrite ?lookup_insert_eq, ?lookup_delete_eq, ?lookup_insert_ne, ?lookup_delete_ne by done.
Qed.
Lemma param_tracks n : ∀ k c, get_param (py_eval k c).1 n = default (get_param c n) (param_write n k).
Proof.
  call_cases; cbn; unfold get_param; cbn; destruct (String.eqb_spec n0 n) as [->|Hne];
    cbn; by rewrite ?lookup_insert_eq, ?lookup_insert_ne by done.
Qed.
Lemma state_tracks x : ∀ k c, get_state (py_eval k c).1 x = default (get_state c x) (state_write x k).
Proof.
  call_cases; cbn; unfold get_state; cbn; rewrite ?Es; cbn; try done;
    destruct (String.eqb_spec k x) as [->|Hne]; cbn; rewrite ?lookup_insert_eq, ?lookup_insert_ne by done; done.
Qed.
Lemma user_tracks : ∀ k c,
  (is_authenticated (py_eval k c).1, user_id (py_eval k c).1)
  = default (is_authenticated c, user_id c) (user_write k).
Proof. call_cases; unfold is_authenticated, user_id; cbn; by rewrite ?Es. Qed.

Lemma query_parsed : ∀ k c,
  uses_query k = true ∨ is_Some (query_params c) → is_Some (query_params (py_eval k c).1).
Proof.
  intros k c [Hk|[q Hq]].
  - destruct k; try done; unfold py_eval, get_query_py, set_query_py, remove_query_py;
      cbv zeta; rewrite ensure_query_view; cbn; rewrite ?ensure_query_view; by eexists.
  - destruct k; try (cbn; by eexists);
      unfold py_eval, get_query_py, set_query_py, remove_query_py, set_state_py, set_authenticated_py,
        ensure_query_params, ensure_state; rewrite ?Hq; cbn; rewrite ?Hq; cbn; try (by eexists);
      destruct (state c) eqn:Es; cbn; rewrite ?Es; cbn; by eexists.
Qed.

Lemma query_tracks n : ∀ k c,
  uses_query k = true ∨ is_Some (query_params c) →
  query_view (py_eval k c).1 !! n = default (query_view c !! n) (query_write n k).
Proof.
  intros k c Hp. destruct k; try (destruct Hp as [|[qp Hqp]]; [done|]; cbn; unfold query_view;
    unfold set_state_py, set_authenticated_py, ensure_state; try (destruct (state c) eqn:Es; cbn; rewrite ?Es; cbn);
    cbn; rewrite ?Hqp; reflexivity);
    unfold py_eval, get_query_py, set_query_py, remove_query_py; cbv zeta; rewrite ?ensure_query_view; cbn.
  - unfold query_view at 1. by rewrite ensure_query_view.
  - unfold query_view at 1. cbn. destruct (String.eqb_spec n0 n) as [->|Hne]; cbn;
      by rewrite ?lookup_insert_eq, ?lookup_insert_ne by done.
  - unfold query_view at 1. cbn. destruct (String.eqb_spec n0 n) as [->|Hne]; cbn;
      by rewrite ?lookup_delete_eq, ?lookup_delete_ne by done.
Qed.

Lemma query_run n ks c :
  is_Some (query_params c) →
  is_Some (query_params (py_run ks c).1) ∧ query_view (py_run ks c).1 !! n = after (query_write n) (query_view c !! n) ks.
Proof.
  revert c. induction ks as [|k ks IH]; intros c Hp; [done|]. rewrite py_run_cons.
  destruct (IH (py_eval k c).1) as [H1 H2]; [apply query_parsed; by right|]. split; [done|].
  rewrite H2, query_tracks by (by right). done.
Qed.

Lemma query_untouched ks c :
  query_params c = None → Forall (λ k, uses_query k = false) ks → query_params (py_run ks c).1 = None.
Proof.
  intros Hq Hks. revert c Hq. induction Hks as [|k ks Hk _ IH]; intros c Hq; [done|]. rewrite py_run_cons.
  apply IH. destruct k; try done; cbn; unfold set_state_py, set_authenticated_py, ensure_state;
    destruct (state c) eqn:Es; cbn; rewrite ?Es; done.
Qed.

(** Scripts of Python calls on a context.  The method and the id never change; every header (by its
    lower-case name), path parameter, state value, the user, the body, the path and the query string
    are what their last write made them; response headers are only added, in order; and the query
    parameters are parsed once, from the query string at the first call that needs them: later
    changes of the query string do not reach them. *)
Theorem context_scripts ks c :
  let c' := (py_run ks c).1 in
  method c' = method c ∧ request_id c' = request_id c ∧
  path c' = after path_write (path c) ks ∧
  query_string c' = after string_write (query_string c) ks ∧
  body c' = after body_write (body c) ks ∧
  (∀ n, get_header_py n c' = after (header_write n) (get_header_py n c) ks) ∧
  (∀ n, get_param c' n = after (param_write n) (get_param c n) ks) ∧
  (∀ x, get_state c' x = after (state_write x) (get_state c x) ks) ∧
  (is_authenticated c', user_id c') = after user_write (is_authenticated c, user_id c) ks ∧
  response_headers c' = response_headers c ++ omap header_added ks ∧
  (∀ n ks1 k ks2, query_params c = None → ks = ks1 ++ k :: ks2 →
     Forall (λ k, uses_query k = false) ks1 → uses_query k = true →
     (get_query_py n c').2 =
       after (query_write n) (parsed (after string_write (query_string c) ks1) !! n) (k :: ks2)).
Proof.
  intros c'. unfold c'. split_and!.
  - clear c'. revert c. induction ks as [|k ks IH]; intros c; [done|]. by rewrite py_run_cons, IH, method_tracks.
  - clear c'. revert c. induction ks as [|k ks IH]; intros c; [done|]. by rewrite py_run_cons, IH, id_tracks.
  - apply tracks, path_tracks.
  - apply tracks, string_tracks.
  - apply tracks, body_tracks.
  - intros n. apply tracks, header_tracks.
  - intros n. apply (tracks (λ c, get_param c n)), param_tracks.
  - intros x. apply (tracks (λ c, get_state c x)), state_tracks.
  - apply (tracks (λ c, (is_authenticated c, user_id c))), user_tracks.
  - clear c'. revert c. induction ks as [|k ks IH]; intros c; [cbn; by rewrite app_nil_r|].
    rewrite py_run_cons, IH, added_tracks, <-app_assoc. f_equal. cbn. by destruct (header_added k).
  - clear c'. intros n ks1 k ks2 Hq -> Hks Hk. rewrite py_run_app, py_run_cons.
    set (c1 := (py_run ks1 c).1). pose proof (query_untouched ks1 c Hq Hks) as Hq1. fold c1 in Hq1.
    assert (parsed (after string_write (query_string c) ks1) = query_view c1) as ->.
    { unfold query_view. rewrite Hq1. cbn. unfold c1. by rewrite (tracks query_string string_write ks1 c string_tracks). }
    destruct (query_run n ks2 (py_eval k c1).1) as [Hp Hv]; [apply query_parsed; by left|].
    unfold get_query_py. cbn. rewrite ensure_query_view. cbn. rewrite Hv, query_tracks by (by left). done.
Qed.
End pycontext.
