(* ===== verification/Builtin.v ===== *)
(** Stateless built-in middleware (src/src/middleware/builtin.rs): CORS, request logging,
    request ids, security headers, timeout, compression and the path and method wrappers,
    with the configurations built by the Python wrappers of src/src/middleware/mod.rs.  The timeout
    panics ([None]) when its deadline is no instant. *)
From S2P Require Import Prelude Method Routing Request Chain.
From stdpp Require Import base gmap strings list.
Open Scope Z_scope.

(** * CORS *)

Record CorsConfig := mkCorsConfig {
  allowed_origins : list string;
  allowed_methods : list HttpMethod;
  allowed_headers : list string;
  expose_headers : list string;
  allow_credentials : bool;
  max_age : Z
}.

Definition cors_default : CorsConfig :=
  mkCorsConfig ["*"] [GET; POST; PUT; DELETE; PATCH; OPTIONS]
    ["Content-Type"; "Authorization"; "X-Requested-With"] [] false 86400.

Definition allow_origin (o : string) (c : CorsConfig) : CorsConfig :=
  mkCorsConfig (allowed_origins c ++ [o]) (allowed_methods c) (allowed_headers c)
    (expose_headers c) (allow_credentials c) (max_age c).
Definition allow_any_origin (c : CorsConfig) : CorsConfig :=
  mkCorsConfig ["*"] (allowed_methods c) (allowed_headers c)
    (expose_headers c) (allow_credentials c) (max_age c).
Definition allow_method (m : HttpMethod) (c : CorsConfig) : CorsConfig :=
  mkCorsConfig (allowed_origins c)
    (if bool_decide (m ∈ allowed_methods c) then allowed_methods c else allowed_methods c ++ [m])
    (allowed_headers c) (expose_headers c) (allow_credentials c) (max_age c).
Definition allow_header (h : string) (c : CorsConfig) : CorsConfig :=
  mkCorsConfig (allowed_origins c) (allowed_methods c) (allowed_headers c ++ [h])
    (expose_headers c) (allow_credentials c) (max_age c).
Definition expose_header (h : string) (c : CorsConfig) : CorsConfig :=
  mkCorsConfig (allowed_origins c) (allowed_methods c) (allowed_headers c)
    (expose_headers c ++ [h]) (allow_credentials c) (max_age c).

(** The keyword arguments of the Python constructor. *)
Definition py_cors_new (origins methods hdrs expose : option (list string))
    (credentials : bool) (age : Z) : CorsConfig :=
  let d := cors_default in
  mkCorsConfig (default (allowed_origins d) origins)
    (match methods with Some ms => omap Method.from_str ms | None => allowed_methods d end)
    (default (allowed_headers d) hdrs) (default (expose_headers d) expose) credentials age.

Definition is_origin_allowed (c : CorsConfig) (origin : string) : bool :=
  existsb (λ a, String.eqb a "*" || String.eqb a origin) (allowed_origins c).
Definition methods_string (c : CorsConfig) : string :=
  str_join ", " (Method.as_str <$> allowed_methods c).
Definition headers_string (c : CorsConfig) : string := str_join ", " (allowed_headers c).
Definition has_wildcard (c : CorsConfig) : bool := bool_decide ("*" ∈ allowed_origins c).

Section builtin.
Context `{RS : RustStr}.

(** The response to an OPTIONS request. *)
Definition preflight (c : CorsConfig) (origin : string) : MiddlewareResponse :=
  mkMiddlewareResponse 204
    ([("Access-Control-Allow-Origin", if has_wildcard c then "*" else origin);
      ("Access-Control-Allow-Methods", methods_string c);
      ("Access-Control-Allow-Headers", headers_string c);
      ("Access-Control-Max-Age", dec (max_age c))] ++
     (if allow_credentials c then [("Access-Control-Allow-Credentials", "true")] else [])) "".

Definition cors_execute (c : CorsConfig) (ctx : MiddlewareContext)
    : MiddlewareContext * MiddlewareResult :=
  let origin := default "" (get_header ctx "origin") in
  if str_is_empty origin then (ctx, Continue)
  else if negb (is_origin_allowed c origin) then
    (ctx, Response (forbidden "Origin not allowed"))
  else
    let allowed_origin := if has_wildcard c && negb (allow_credentials c) then "*" else origin in
    let ctx1 := add_response_header "Access-Control-Allow-Origin" allowed_origin ctx in
    let ctx2 := if allow_credentials c
                then add_response_header "Access-Control-Allow-Credentials" "true" ctx1
                else ctx1 in
    let ctx3 := match expose_headers c with
                | [] => ctx2
                | hs => add_response_header "Access-Control-Expose-Headers" (str_join ", " hs) ctx2
                end in
    if bool_decide (Chain.method ctx = OPTIONS) then (ctx3, Response (preflight c origin))
    else (ctx3, Continue).

(** * Request logging *)

Inductive LogLevel := Debug | Info | Warn | LError.

Record LogConfig := mkLogConfig {
  level : LogLevel;
  log_headers : bool;
  log_body : bool;
  max_body_log_size : Z;
  log_skip_paths : list string;
  format : option string
}.

Definition log_config_default : LogConfig :=
  mkLogConfig Info false false 1024 ["/health"; "/favicon.ico"] None.

Definition with_level (l : LogLevel) (c : LogConfig) : LogConfig :=
  mkLogConfig l (log_headers c) (log_body c) (max_body_log_size c) (log_skip_paths c) (format c).
Definition with_headers (c : LogConfig) : LogConfig :=
  mkLogConfig (level c) true (log_body c) (max_body_log_size c) (log_skip_paths c) (format c).
Definition skip_path (p : string) (c : LogConfig) : LogConfig :=
  mkLogConfig (level c) (log_headers c) (log_body c) (max_body_log_size c)
    (log_skip_paths c ++ [p]) (format c).

Definition py_log_level (l : string) : LogLevel :=
  let s := to_lowercase l in
  if String.eqb s "debug" then Debug
  else if String.eqb s "warn" || String.eqb s "warning" then Warn
  else if String.eqb s "error" then LError else Info.

Definition py_log_new (l : string) (hdrs : bool) (paths : option (list string)) : LogConfig :=
  let c1 := with_level (py_log_level l) log_config_default in
  let c2 := if hdrs then with_headers c1 else c1 in
  foldl (λ c p, skip_path p c) c2 (default [] paths).

(** What the middleware sends to the log queue. *)
Inductive LogEvent :=
| LogRequest (m p id : string)
| LogHeader (id k v : string)
| LogCompleted (id : string) (ms : Z).

Definition skipped (paths : list string) (p : string) : bool := existsb (λ q, starts_with q p) paths.

Definition log_execute `{!HashIter string string} (c : LogConfig) (now : Z)
    (ctx : MiddlewareContext) : MiddlewareContext * list LogEvent * MiddlewareResult :=
  if skipped (log_skip_paths c) (get_path ctx) then (ctx, [], Continue)
  else
    let id := Chain.request_id ctx in
    let ev := LogRequest (Method.as_str (Chain.method ctx)) (get_path ctx) id ::
              (if log_headers c
               then (λ kv, LogHeader id kv.1 kv.2) <$> hiter (Chain.headers ctx) else []) in
    (set_state "log_start_time" (VInt (i64 (elapsed now ctx))) ctx, ev, Continue).

Definition log_after_execute (c : LogConfig) (now : Z) (ctx : MiddlewareContext)
    : MiddlewareContext * list LogEvent * MiddlewareResult :=
  if skipped (log_skip_paths c) (get_path ctx) then (ctx, [], Continue)
  else (ctx, [LogCompleted (Chain.request_id ctx) (elapsed now ctx / 1000000)], Continue).

(** * Request ids *)

Record RequestIdMiddleware := mkRequestIdMiddleware {
  header_name : string;
  trust_incoming : bool
}.

Definition request_id_new : RequestIdMiddleware := mkRequestIdMiddleware "X-Request-ID" true.
Definition with_id_header (h : string) (c : RequestIdMiddleware) : RequestIdMiddleware :=
  mkRequestIdMiddleware h (trust_incoming c).

Definition request_id_execute (c : RequestIdMiddleware) (ctx : MiddlewareContext)
    : MiddlewareContext * MiddlewareResult :=
  let id := if trust_incoming c
            then default (Chain.request_id ctx) (get_header ctx (to_lowercase (header_name c)))
            else Chain.request_id ctx in
  (set_state "request_id" (VString id) (add_response_header (header_name c) id ctx), Continue).

(** * Security headers *)

Record SecurityHeadersConfig := mkSecurityHeadersConfig {
  content_type_options : bool;
  frame_options : option string;
  xss_protection : bool;
  hsts : option string;
  csp : option string;
  referrer_policy : option string;
  permissions_policy : option string
}.

Definition security_default : SecurityHeadersConfig :=
  mkSecurityHeadersConfig true (Some "DENY") true (Some "max-age=31536000; includeSubDomains")
    None (Some "strict-origin-when-cross-origin") None.

Definition py_security_new (with_hsts : bool) (age : Z) (frame : string) (cto xss : bool)
    (policy : option string) : SecurityHeadersConfig :=
  mkSecurityHeadersConfig cto (Some frame) xss
    (if with_hsts then Some ("max-age=" +:+ dec age +:+ "; includeSubDomains") else None)
    policy (Some "strict-origin-when-cross-origin") None.

Definition security_strict : SecurityHeadersConfig :=
  mkSecurityHeadersConfig true (Some "DENY") true (Some "max-age=31536000; includeSubDomains")
    (Some "default-src 'self'") (Some "no-referrer")
    (Some "geolocation=(), microphone=(), camera=()").

Definition add_opt (n : string) (v : option string) (ctx : MiddlewareContext) : MiddlewareContext :=
  match v with Some x => add_response_header n x ctx | None => ctx end.
Definition flag (b : bool) (v : string) : option string := if b then Some v else None.

Definition security_execute (c : SecurityHeadersConfig) (ctx : MiddlewareContext)
    : MiddlewareContext * MiddlewareResult :=
  let ctx := add_opt "X-Content-Type-Options" (flag (content_type_options c) "nosniff") ctx in
  let ctx := add_opt "X-Frame-Options" (frame_options c) ctx in
  let ctx := add_opt "X-XSS-Protection" (flag (xss_protection c) "1; mode=block") ctx in
  let ctx := add_opt "Strict-Transport-Security" (hsts c) ctx in
  let ctx := add_opt "Content-Security-Policy" (csp c) ctx in
  let ctx := add_opt "Referrer-Policy" (referrer_policy c) ctx in
  let ctx := add_opt "Permissions-Policy" (permissions_policy c) ctx in
  (ctx, Continue).

(** * Timeout and compression *)

(** [Instant + Duration]: an instant is a count of seconds in an [i64] and of nanoseconds; the sum
    panics when the seconds do not fit.  Both are in nanoseconds here. *)
Definition instant_add (t d : Z) : option Z :=
  if t + d <? 2 ^ 63 * 1000000000 then Some (t + d) else None.

(** [deadline.elapsed()] of an instant in the future is zero. *)
Definition timeout_execute (timeout now : Z) (ctx : MiddlewareContext)
    : option (MiddlewareContext * MiddlewareResult) :=
  deadline ← instant_add (start_time ctx) timeout;
  Some (set_state "request_timeout_ms" (VInt (i64 (timeout / 1000000)))
     (set_state "request_deadline" (VInt (i64 (sat_sub now deadline))) ctx), Continue).

Record CompressionMiddleware := mkCompressionMiddleware {
  min_size : Z;
  content_types : list string
}.

Definition compression_new : CompressionMiddleware :=
  mkCompressionMiddleware 1024
    ["text/"; "application/json"; "application/javascript"; "application/xml"].
Definition with_min_size (n : Z) (c : CompressionMiddleware) : CompressionMiddleware :=
  mkCompressionMiddleware n (content_types c).

Definition compression_execute (c : CompressionMiddleware) (ctx : MiddlewareContext)
    : MiddlewareContext * MiddlewareResult :=
  let accept_encoding := default "" (get_header ctx "accept-encoding") in
  let ctx1 :=
    if str_contains "br" accept_encoding then set_state "compression" (VString "br") ctx
    else if str_contains "gzip" accept_encoding then set_state "compression" (VString "gzip") ctx
    else if str_contains "deflate" accept_encoding
         then set_state "compression" (VString "deflate") ctx
         else ctx in
  (set_state "compression_min_size" (VInt (i64 (min_size c))) ctx1, Continue).

(** * Wrappers *)

(** [PathMiddleware]: the inner middleware's method filter is not forwarded. *)
Definition path_middleware {W} (inner : RustMiddleware W) (paths : list string) (exact : bool)
    : RustMiddleware W :=
  mkRustMiddleware (name inner) (execute inner)
    (λ p, if exact then existsb (λ q, String.eqb q p) paths else existsb (λ q, starts_with q p) paths)
    (λ _, true).

(** [MethodMiddleware]: the inner middleware's path filter is not forwarded. *)
Definition method_middleware {W} (inner : RustMiddleware W) (methods : list HttpMethod)
    : RustMiddleware W :=
  mkRustMiddleware (name inner) (execute inner) (λ _, true) (λ m, bool_decide (m ∈ methods)).

(** * Theorems *)

Definition acao : string := "Access-Control-Allow-Origin".
Definition acac : string := "Access-Control-Allow-Credentials".

Lemma is_origin_allowed_spec c o :
  is_origin_allowed c o = true ↔ "*" ∈ allowed_origins c ∨ o ∈ allowed_origins c.
Proof.
  unfold is_origin_allowed. rewrite existsb_exists. split.
  - intros (a & Ha%list_elem_of_In & Hor). apply orb_true_iff in Hor.
    rewrite !String.eqb_eq in Hor. naive_solver.
  - intros [H|H]; (eexists; split; [by apply list_elem_of_In, H|]).
    + done.
    + by rewrite String.eqb_refl, orb_true_r.
Qed.

(** the CORS decision for a request with origin [o].  Without an origin nothing
    happens; an origin that is neither listed nor covered by the wildcard is refused with
    403 before anything is added; an allowed request that is not a preflight continues with
    an allow-origin header that is the origin itself, or the wildcard only if that is
    configured and credentials are not allowed, and with an allow-credentials header iff
    they are. *)
Theorem cors_outcome c ctx :
  let o := default "" (get_header ctx "origin") in
  let allowed := "*" ∈ allowed_origins c ∨ o ∈ allowed_origins c in
  let '(ctx', res) := cors_execute c ctx in
  (o = "" → ctx' = ctx ∧ res = Continue) ∧
  (o ≠ "" → ¬ allowed → ctx' = ctx ∧ res = Response (forbidden "Origin not allowed")) ∧
  (o ≠ "" → allowed → Chain.method ctx ≠ OPTIONS →
     res = Continue ∧ ∃ v rest,
       response_headers ctx' = response_headers ctx ++ (acao, v) :: rest ∧
       (v = o ∨ v = "*" ∧ "*" ∈ allowed_origins c ∧ allow_credentials c = false) ∧
       ((acac, "true") ∈ rest ↔ allow_credentials c = true)).
Proof.
  cbv zeta. unfold cors_execute. set (o := default "" _).
  destruct (str_is_empty o) eqn:Eo; [by destruct o|].
  assert (o ≠ "") as Ho by (by intros ->). destruct (is_origin_allowed c o) eqn:Ea; simpl.
  - apply is_origin_allowed_spec in Ea. case_bool_decide; split_and!; try done.
    intros _ _ _. split; [done|]. unfold has_wildcard.
    destruct (expose_headers c) as [|h hs], (allow_credentials c); simpl;
      rewrite <- ?app_assoc; do 2 eexists; (split; [done|]);
      rewrite ?andb_true_r, ?andb_false_r; (split; [try case_bool_decide; naive_solver|]);
      set_solver.
  - split_and!; try done. intros _ Hall%is_origin_allowed_spec. congruence.
Qed.

(** A preflight of a configuration with the wildcard and credentials answers with both
    the wildcard origin and the credentials flag, a pair that the Fetch standard rejects;
    the actual request would have named the origin. *)
Lemma preflight_wildcard_with_credentials c o :
  "*" ∈ allowed_origins c → allow_credentials c = true →
  (acao, "*") ∈ resp_headers (preflight c o) ∧ (acac, "true") ∈ resp_headers (preflight c o).
Proof.
  intros Hw Hc. unfold preflight, has_wildcard. rewrite bool_decide_eq_true_2, Hc by done.
  simpl. set_solver.
Qed.

(** Nesting the wrappers loses the inner filter. *)
Lemma method_over_path_ignores_path {W} (mw : RustMiddleware W) paths ex ms p :
  applies_to (method_middleware (path_middleware mw paths ex) ms) p = true.
Proof. done. Qed.
End builtin.

(** * Witnesses *)

Definition demo_cors : CorsConfig := allow_origin "https://a.example" (mkCorsConfig [] [GET] [] [] true 60).
Definition demo_ctx : MiddlewareContext :=
  mkMiddlewareContext "/x" GET {["origin" := "https://a.example"]} "" None ∅ None None [] 0 "id".

Lemma cors_outcome_witness :
  (cors_execute demo_cors demo_ctx).2 = Continue.
Proof.
  destruct (cors_outcome demo_cors demo_ctx) as (_ & _ & H).
  apply H; [discriminate|right; vm_compute; left|discriminate].
Defined.
