(* ===== verification/RateLimit.v ===== *)
(** Rate limiting (RateLimitMiddleware of src/src/middleware/builtin.rs): fixed window,
    sliding window and token bucket over per-client states.  Instants and durations are in
    nanoseconds, [f64] is that of F64.v, and every [Instant::now()] of the source is an argument. *)
From S2P Require Import Prelude F64 Method Routing Request Chain Builtin.
From Stdlib Require Import SpecFloat.
From stdpp Require Import base gmap strings list.
Open Scope Z_scope.

(** * Configuration *)

Inductive RateLimitAlgorithm :=
| FixedWindow
| SlidingWindow
| TokenBucket (bucket_size : Z) (refill_rate : f64).

Record RateLimitConfig := mkRateLimitConfig {
  max_requests : Z;
  window : Z;
  algorithm : RateLimitAlgorithm;
  key_header : option string;
  skip_paths : list string
}.

Definition config_new (max window_secs : Z) : RateLimitConfig :=
  mkRateLimitConfig max (window_secs * 1000000000) SlidingWindow None ["/health"; "/metrics"].
Definition with_algorithm (a : RateLimitAlgorithm) (c : RateLimitConfig) : RateLimitConfig :=
  mkRateLimitConfig (max_requests c) (window c) a (key_header c) (skip_paths c).
Definition with_key_header (h : string) (c : RateLimitConfig) : RateLimitConfig :=
  mkRateLimitConfig (max_requests c) (window c) (algorithm c) (Some h) (skip_paths c).
Definition skip_path (p : string) (c : RateLimitConfig) : RateLimitConfig :=
  mkRateLimitConfig (max_requests c) (window c) (algorithm c) (key_header c) (skip_paths c ++ [p]).

(** The Python constructor. *)
Definition py_rate_limit_new `{RustStr} (max window_secs : Z) (alg : string)
    (header : option string) (paths : option (list string)) : result string RateLimitConfig :=
  let a := to_lowercase alg in
  algo ← (if String.eqb a "fixed" || String.eqb a "fixed_window" then Ok FixedWindow
          else if String.eqb a "sliding" || String.eqb a "sliding_window" then Ok SlidingWindow
          else if String.eqb a "token" || String.eqb a "token_bucket" then
            Ok (TokenBucket max (f64_div (f64_of_Z max) (f64_of_Z window_secs)))
          else Err "Invalid algorithm. Use 'fixed', 'sliding', or 'token_bucket'");
  let c := with_algorithm algo (config_new max window_secs) in
  let c := match header with Some h => with_key_header h c | None => c end in
  Ok (match paths with
      | Some ps => mkRateLimitConfig (max_requests c) (window c) (algorithm c) (key_header c) ps
      | None => c
      end).

(** * Per-client state *)

Record RateLimitState := mkRateLimitState {
  count : Z;
  window_start : Z;
  tokens : f64;
  last_refill : Z
}.

Definition state_new (now : Z) : RateLimitState :=
  mkRateLimitState 0 now (S754_zero false) now.

Definition set_window (c ws : Z) (s : RateLimitState) : RateLimitState :=
  mkRateLimitState c ws (tokens s) (last_refill s).

Definition check_fixed_window (cfg : RateLimitConfig) (now : Z) (s : RateLimitState)
    : RateLimitState * (bool * Z) :=
  if window cfg <=? sat_sub now (window_start s) then
    (set_window 1 now s, (true, w64 (max_requests cfg - 1)))
  else
    let n := w64 (count s + 1) in
    (set_window n (window_start s) s, (n <=? max_requests cfg, sat_sub (max_requests cfg) n)).

Definition check_sliding_window (cfg : RateLimitConfig) (now : Z) (s : RateLimitState)
    : RateLimitState * (bool * Z) :=
  let elapsed := sat_sub now (window_start s) in
  if window cfg <=? elapsed then
    (set_window 1 now s, (true, w64 (max_requests cfg - 1)))
  else
    let window_ratio := f64_div (as_secs_f64 elapsed) (as_secs_f64 (window cfg)) in
    let weighted_count :=
      f64_to_u64 (f64_mul (f64_of_Z (count s)) (f64_sub (f64_of_Z 1) window_ratio)) in
    let n := w64 (weighted_count + 1) in
    (set_window n (window_start s) s, (n <=? max_requests cfg, sat_sub (max_requests cfg) n)).

Definition check_token_bucket (bucket_size : Z) (refill_rate : f64) (now : Z)
    (s : RateLimitState) : RateLimitState * (bool * Z) :=
  let elapsed := as_secs_f64 (sat_sub now (last_refill s)) in
  let t := f64_min (f64_add (tokens s) (f64_mul elapsed refill_rate)) (f64_of_Z bucket_size) in
  if SFleb (f64_of_Z 1) t then
    let t' := f64_sub t (f64_of_Z 1) in
    (mkRateLimitState (count s) (window_start s) t' now, (true, f64_to_u64 t'))
  else (mkRateLimitState (count s) (window_start s) t now, (false, 0)).

Definition check (cfg : RateLimitConfig) (now : Z) (s : RateLimitState)
    : RateLimitState * (bool * Z) :=
  match algorithm cfg with
  | FixedWindow => check_fixed_window cfg now s
  | SlidingWindow => check_sliding_window cfg now s
  | TokenBucket bucket_size refill_rate => check_token_bucket bucket_size refill_rate now s
  end.

Section execute.
Context `{RS : RustStr}.

Definition get_client_key (cfg : RateLimitConfig) (ctx : MiddlewareContext) : string :=
  match h ← key_header cfg; get_header ctx h with
  | Some value => value
  | None =>
      match get_header ctx "x-forwarded-for" with
      | Some xff => trim (default "unknown" (head (str_split "," xff)))
      | None => default "unknown" (get_header ctx "x-real-ip")
      end
  end.

Notation Clients := (gmap string RateLimitState).

(** [entry(key).or_insert_with(RateLimitState::new)] *)
Definition client_state (cl : Clients) (now0 : Z) (key : string) : RateLimitState :=
  default (state_new now0) (cl !! key).

Definition limit_headers (cfg : RateLimitConfig) (remaining : Z) (ctx : MiddlewareContext)
    : MiddlewareContext :=
  add_response_header "X-RateLimit-Reset" (dec (as_secs (window cfg)))
    (add_response_header "X-RateLimit-Remaining" (dec remaining)
       (add_response_header "X-RateLimit-Limit" (dec (max_requests cfg)) ctx)).

(** The answer to a check: the headers, and a 429 for a request that is not allowed. *)
Definition conclude (cfg : RateLimitConfig) (allowed : bool) (remaining : Z) (ctx : MiddlewareContext)
    : MiddlewareContext * MiddlewareResult :=
  let ctx1 := limit_headers cfg remaining ctx in
  if negb allowed then
    let retry := dec (as_secs (window cfg)) in
    (add_response_header "Retry-After" retry ctx1,
     Response (with_header "Retry-After" retry (too_many_requests "Rate limit exceeded")))
  else (ctx1, Continue).

Definition execute (cfg : RateLimitConfig) (now0 now : Z) (cl : Clients)
    (ctx : MiddlewareContext) : Clients * MiddlewareContext * MiddlewareResult :=
  if skipped (skip_paths cfg) (get_path ctx) then (cl, ctx, Continue)
  else
    let key := get_client_key cfg ctx in
    let '(s', (allowed, remaining)) := check cfg now (client_state cl now0 key) in
    (<[key := s']> cl, (conclude cfg allowed remaining ctx).1, (conclude cfg allowed remaining ctx).2).

(** ** Runs *)

(** A request: the clock when the client state is created, the clock of the check, and
    its context. *)
Record Req := mkReq { created : Z; now : Z; req_ctx : MiddlewareContext }.

(** Whether a request is limited under the key [k] and let through in the window [ws]. *)
Definition admits (cfg : RateLimitConfig) (k : string) (ws : Z) (ctx : MiddlewareContext)
    (cl' : Clients) (res : MiddlewareResult) : bool :=
  negb (skipped (skip_paths cfg) (get_path ctx)) && String.eqb (get_client_key cfg ctx) k
  && match res with Continue => true | _ => false end
  && match cl' !! k with Some s => window_start s =? ws | None => false end.

(** How many requests of the run are. *)
Fixpoint admitted (cfg : RateLimitConfig) (cl : Clients) (rs : list Req) (k : string) (ws : Z) : Z :=
  match rs with
  | [] => 0
  | r :: rs' =>
      let '(cl', _, res) := execute cfg (created r) (now r) cl (req_ctx r) in
      (if admits cfg k ws (req_ctx r) cl' res then 1 else 0) + admitted cfg cl' rs' k ws
  end.

(** What the window [ws] may still admit, of a client with the state [s] and of the client [k]. *)
Definition state_budget (cfg : RateLimitConfig) (s : RateLimitState) (ws : Z) : Z :=
  if ws =? window_start s then Z.max 0 (max_requests cfg - count s)
  else if ws <? window_start s then 0 else Z.max 1 (max_requests cfg).

Definition budget (cfg : RateLimitConfig) (cl : Clients) (k : string) (ws : Z) : Z :=
  match cl !! k with Some s => state_budget cfg s ws | None => Z.max 1 (max_requests cfg) end.

Lemma check_fixed_spec cfg t s :
  0 <= count s < u64_max →
  check_fixed_window cfg t s =
    if window cfg <=? sat_sub t (window_start s) then
      (set_window 1 t s, (true, w64 (max_requests cfg - 1)))
    else (set_window (count s + 1) (window_start s) s,
          (count s + 1 <=? max_requests cfg, sat_sub (max_requests cfg) (count s + 1))).
Proof.
  intros Hc. unfold check_fixed_window. rewrite (w64_id (count s + 1)); [done|]. unfold is_u64, u64_max in *. lia.
Qed.

(** One check, whatever its clock reading, spends the budget of the window it counts in and opens
    later windows only. *)
Lemma fixed_step cfg t s ws :
  0 < window cfg → 0 <= count s < u64_max →
  let '(s', (allowed, _)) := check_fixed_window cfg t s in
  (if allowed && (window_start s' =? ws) then 1 else 0) + state_budget cfg s' ws <= state_budget cfg s ws.
Proof.
  intros Hw Hc. rewrite check_fixed_spec by done. unfold sat_sub, state_budget.
  destruct (Z.leb_spec (window cfg) (Z.max 0 (t - window_start s))); simpl;
    repeat match goal with
    | |- context [?a =? ?b] => destruct (Z.eqb_spec a b)
    | |- context [?a <? ?b] => destruct (Z.ltb_spec a b)
    | |- context [?a <=? ?b] => destruct (Z.leb_spec a b)
    end; simpl; lia.
Qed.

Lemma state_new_budget cfg t ws : state_budget cfg (state_new t) ws <= Z.max 1 (max_requests cfg).
Proof. unfold state_budget. simpl. repeat case_match; lia. Qed.

Lemma budget_nonneg cfg cl k ws : 0 <= budget cfg cl k ws.
Proof. unfold budget, state_budget. repeat case_match; lia. Qed.

Lemma client_state_budget cfg cl t k ws : state_budget cfg (client_state cl t k) ws <= budget cfg cl k ws.
Proof. unfold budget, client_state. destruct (cl !! k); simpl; [done|apply state_new_budget]. Qed.

Lemma budget_insert cfg cl k k' s ws :
  budget cfg (<[k' := s]> cl) k ws = if String.eqb k' k then state_budget cfg s ws else budget cfg cl k ws.
Proof.
  unfold budget. destruct (String.eqb_spec k' k) as [->|Hne]; [by rewrite lookup_insert_eq|].
  by rewrite lookup_insert_ne.
Qed.

Definition clients_ok (n : Z) (cl : Clients) : Prop := map_Forall (λ _ s, 0 <= count s <= n) cl.

Lemma clients_ok_mono n n' cl : n <= n' → clients_ok n cl → clients_ok n' cl.
Proof. intros Hn Hcl i s Hi. specialize (Hcl i s Hi). simpl in *. lia. Qed.

Lemma client_state_ok n cl t k : 0 <= n → clients_ok n cl → 0 <= count (client_state cl t k) <= n.
Proof.
  intros Hn Hok. unfold client_state. destruct (cl !! k) as [s|] eqn:E; simpl; [|lia]. exact (Hok _ _ E).
Qed.

Lemma check_fixed_ok cfg n t s :
  0 <= n → 0 <= count s <= n → n < u64_max → 0 <= count (check_fixed_window cfg t s).1 <= n + 1.
Proof. intros Hn Hc Hlt. rewrite check_fixed_spec by lia. case_match; simpl; lia. Qed.

(** One execution spends the budget it uses. *)
Lemma execute_budget cfg n t0 t cl ctx k ws :
  algorithm cfg = FixedWindow → 0 < window cfg → 0 <= n < u64_max → clients_ok n cl →
  let '(cl', _, res) := execute cfg t0 t cl ctx in
  (if admits cfg k ws ctx cl' res then 1 else 0) + budget cfg cl' k ws <= budget cfg cl k ws ∧
  clients_ok (n + 1) cl'.
Proof.
  intros Ha Hw Hn Hok. unfold execute, admits.
  destruct (skipped (skip_paths cfg) (get_path ctx)); cbn [negb andb].
  { split; [lia|]. eapply clients_ok_mono; [|done]. lia. }
  set (key := get_client_key cfg ctx). set (s := client_state cl t0 key).
  pose proof (client_state_ok n cl t0 key ltac:(lia) Hok) as Hcs. fold s in Hcs.
  pose proof (client_state_budget cfg cl t0 key ws) as Hb. fold s in Hb.
  unfold check. rewrite Ha.
  pose proof (check_fixed_ok cfg n t s ltac:(lia) Hcs ltac:(lia)) as Hok'.
  pose proof (fixed_step cfg t s ws Hw ltac:(lia)) as Hstep.
  destruct (check_fixed_window cfg t s) as [s' [allowed rem]]. cbn [fst] in Hok'.
  assert (clients_ok (n + 1) (<[key := s']> cl)) as Hcl'.
  { apply map_Forall_insert_2; [done|]. eapply clients_ok_mono; [|done]. lia. }
  pose proof (budget_insert cfg cl k key s' ws) as Hbi.
  destruct allowed; cbn [negb andb] in *; (split; [|done]); rewrite Hbi;
    (destruct (String.eqb_spec key k) as [<-|Hne]; cbn [andb]; [|lia]);
    rewrite ?lookup_insert_eq; simpl in *; lia.
Qed.

Lemma admitted_budget cfg k ws rs : ∀ n cl,
  algorithm cfg = FixedWindow → 0 < window cfg → 0 <= n →
  n + Z.of_nat (length rs) < u64_max → clients_ok n cl →
  admitted cfg cl rs k ws <= budget cfg cl k ws.
Proof.
  induction rs as [|r rs IH]; intros n cl Ha Hw Hn Hlen Hok; cbn [admitted].
  { apply budget_nonneg. }
  cbn [length] in Hlen. pose proof (execute_budget cfg n (created r) (now r) cl (req_ctx r) k ws Ha Hw ltac:(lia) Hok) as H.
  destruct (execute cfg (created r) (now r) cl (req_ctx r)) as [[cl' ctx'] res]. destruct H as [H Hok'].
  pose proof (IH (n + 1) cl' Ha Hw ltac:(lia) ltac:(lia) Hok'). lia.
Qed.

(** the fixed window limits.  In every run over any mix of clients and paths, the requests of
    one client that are let through in one window are at most the configured maximum (one, if that
    is zero), whatever the clock readings are: they are taken before the lock, so the run need not
    be in their order. *)
Theorem fixed_window_limit cfg rs k ws :
  algorithm cfg = FixedWindow → 0 < window cfg → Z.of_nat (length rs) < u64_max →
  admitted cfg ∅ rs k ws <= Z.max 1 (max_requests cfg).
Proof.
  intros Ha Hw Hlen.
  pose proof (admitted_budget cfg k ws rs 0 ∅ Ha Hw ltac:(lia) ltac:(lia) (map_Forall_empty _)) as H.
  unfold budget in H. by rewrite lookup_empty in H.
Qed.

(** Results of a run. *)
Fixpoint results (cfg : RateLimitConfig) (cl : Clients) (rs : list Req) : list MiddlewareResult :=
  match rs with
  | [] => []
  | r :: rs' =>
      let '(cl', _, res) := execute cfg (created r) (now r) cl (req_ctx r) in
      res :: results cfg cl' rs'
  end.

Definition half_second : Z := 500000000.

Lemma sliding_half_fixpoint s :
  (count s = 0 ∨ count s = 1) → window_start s = 0 →
  check_sliding_window (config_new 1 1) half_second s
  = (set_window 1 0 s, (true, 0)).
Proof.
  destruct s as [c ws t l]. simpl. intros Hc ->.
  destruct Hc as [-> | ->]; vm_compute; reflexivity.
Qed.

(** the sliding window does not limit.  With a maximum of one request per second,
    any number of requests of the same client that arrive half a second after its window
    started are all let through, because every check scales the whole stored count by the
    rest of the window. *)
Theorem sliding_window_unbounded ctx n :
  skipped ["/health"; "/metrics"] (get_path ctx) = false →
  results (config_new 1 1) ∅ (mkReq 0 half_second ctx :: replicate n (mkReq half_second half_second ctx))
  = replicate (S n) Continue.
Proof.
  intros Hs.
  assert (∀ cl t0, (∀ s, client_state cl t0 (get_client_key (config_new 1 1) ctx) = s →
      (count s = 0 ∨ count s = 1) ∧ window_start s = 0) →
    ∃ cl' c', execute (config_new 1 1) t0 half_second cl ctx = (cl', c', Continue) ∧
      ∃ s', cl' !! get_client_key (config_new 1 1) ctx = Some s' ∧ count s' = 1 ∧ window_start s' = 0)
    as Hstep.
  { intros cl t0 Hst. unfold execute.
    change (skip_paths (config_new 1 1)) with ["/health"; "/metrics"]. rewrite Hs.
    destruct (Hst _ eq_refl) as [Hc Hw]. unfold check.
    change (algorithm (config_new 1 1)) with SlidingWindow. cbn match.
    rewrite sliding_half_fixpoint by done. simpl. do 2 eexists. split; [done|].
    rewrite lookup_insert_eq. eauto. }
  cbn [results replicate]. destruct (Hstep ∅ 0) as (cl & c & He & Hcl).
  { intros s <-. unfold client_state. rewrite lookup_empty. simpl. auto. }
  cbn [created now req_ctx]. rewrite He. f_equal. clear He c. revert cl Hcl.
  induction n as [|n IH]; intros cl (s & Hk & Hcnt & Hws); [done|].
  cbn [results replicate created now req_ctx].
  destruct (Hstep cl half_second) as (cl' & c & -> & Hcl').
  { intros s0 <-. unfold client_state. rewrite Hk. simpl. auto. }
  f_equal. by apply IH.
Qed.
End execute.

(** A fresh token bucket is empty: the first request, if its clock reading is the one the
    bucket was created with, is rejected whatever its size and finite refill rate. *)
Lemma token_bucket_starts_empty b sgn m e t :
  (check_token_bucket b (S754_finite sgn m e) t (state_new t)).2 = (false, 0).
Proof.
  unfold check_token_bucket. cbn [last_refill tokens state_new].
  replace (sat_sub t t) with 0 by (unfold sat_sub; lia).
  change (as_secs_f64 0) with (S754_zero false).
  assert (f64_add (S754_zero false) (f64_mul (S754_zero false) (S754_finite sgn m e))
    = S754_zero false) as -> by (by destruct sgn).
  assert (∀ y, SFleb (f64_of_Z 1) (f64_min (S754_zero false) y) = false) as H
    by (intros [[]|[]| |[] m' e']; reflexivity).
  by rewrite H.
Qed.

(** A maximum of zero underflows the advertised remainder. *)
Lemma zero_limit_remaining s :
  (check_fixed_window (with_algorithm FixedWindow (config_new 0 1)) (window_start s + 1000000000) s).2
  = (true, u64_max).
Proof.
  unfold check_fixed_window. simpl.
  replace (sat_sub (window_start s + 1000000000) (window_start s)) with 1000000000
    by (unfold sat_sub; lia). reflexivity.
Qed.

(** * Witnesses *)

Definition demo_cfg : RateLimitConfig := with_algorithm FixedWindow (config_new 2 1).
Definition demo_reqs : list Req :=
  [mkReq 5 6 demo_ctx; mkReq 7 8 demo_ctx; mkReq 9 10 demo_ctx; mkReq 2000000000 2000000001 demo_ctx].

Lemma fixed_window_limit_witness :
  admitted demo_cfg ∅ demo_reqs "unknown" 5 <= 2 ∧ admitted demo_cfg ∅ demo_reqs "unknown" 5 = 2.
Proof.
  split; [|vm_compute; reflexivity].
  refine (fixed_window_limit demo_cfg demo_reqs "unknown" 5 _ _ _); [reflexivity|vm_compute; reflexivity..].
Defined.

Lemma sliding_window_unbounded_witness :
  results (config_new 1 1) ∅
    (mkReq 0 half_second demo_ctx :: replicate 9 (mkReq half_second half_second demo_ctx))
  = replicate 10 Continue.
Proof. refine (sliding_window_unbounded demo_ctx 9 _). reflexivity. Defined.
