(* ===== verification/BasicAuth.v ===== *)
(** HTTP basic authentication (BasicAuthMiddleware of src/src/middleware/builtin.rs): the
    base64 decoder, the credential parser and the decision, with the round trip against
    an RFC 4648 encoder. *)
From S2P Require Import Prelude Method Routing Request Chain.
From Stdlib Require Import Zify.
From stdpp Require Import base gmap strings list.
Open Scope Z_scope.

#[local] Ltac Zify.zify_post_hook ::= Z.to_euclidean_division_equations.

Definition alphabet : string :=
  "ABCDEFGHIJKLMNOPQRSTUVWXYZabcdefghijklmnopqrstuvwxyz0123456789+/".

(** [ALPHABET.iter().position(|&x| x == c)] *)
Fixpoint position (c : ascii) (s : string) : option Z :=
  match s with
  | EmptyString => None
  | String a s' => if Ascii.eqb a c then Some 0 else Z.succ <$> position c s'
  end.

Definition byte (z : Z) : ascii := ascii_of_N (Z.to_N (z mod 256)).

(** The loop: a [u32] buffer, the number of collected bits, and the output. *)
Fixpoint decode_loop (buffer bits : Z) (input : string) : option string :=
  match input with
  | EmptyString => Some EmptyString
  | String c input' =>
      value ← position c alphabet;
      let buffer := w32 (Z.lor (w32 (Z.shiftl buffer 6)) value) in
      let bits := bits + 6 in
      if 8 <=? bits then
        let bits := bits - 8 in
        String (byte (Z.shiftr buffer bits)) <$>
          decode_loop (Z.land buffer (Z.shiftl 1 bits - 1)) bits input'
      else decode_loop buffer bits input'
  end.

Definition base64_decode (input : string) : option string :=
  decode_loop 0 0 (trim_end_char "=" input).

Record BasicAuthMiddleware := mkBasicAuthMiddleware {
  credentials : gmap string string;
  realm : string
}.

Definition auth_new (r : string) : BasicAuthMiddleware := mkBasicAuthMiddleware ∅ r.
Definition add_user (u p : string) (m : BasicAuthMiddleware) : BasicAuthMiddleware :=
  mkBasicAuthMiddleware (<[u := p]> (credentials m)) (realm m).

(** The Python constructor adds the users in the map's iteration order. *)
Definition py_basic_auth_new `{!HashIter string string} (r : string)
    (users : option (gmap string string)) : BasicAuthMiddleware :=
  foldl (λ m kv, add_user kv.1 kv.2 m) (auth_new r)
    (match users with Some us => hiter us | None => [] end).

Section auth.
Context `{RS : RustStr} `{U8 : Utf8}.

Definition decode_basic_auth (header : string) : option (string * string) :=
  encoded ← str_strip_prefix "Basic " header;
  decoded ← base64_decode encoded;
  if valid_utf8 decoded then str_split_once ":" decoded else None.

Definition challenge (m : BasicAuthMiddleware) (text : string) : MiddlewareResponse :=
  with_header "WWW-Authenticate" ("Basic realm=" +:+ dq +:+ realm m +:+ dq) (unauthorized text).

Definition execute (m : BasicAuthMiddleware) (ctx : MiddlewareContext)
    : MiddlewareContext * MiddlewareResult :=
  match get_header ctx "authorization" with
  | None => (ctx, Response (challenge m "Authentication required"))
  | Some auth_header =>
      match decode_basic_auth auth_header with
      | None => (ctx, Response (unauthorized "Invalid authentication format"))
      | Some (username, password) =>
          match credentials m !! username with
          | Some stored =>
              if String.eqb stored password then (set_authenticated username [] ctx, Continue)
              else (ctx, Response (challenge m "Invalid credentials"))
          | None => (ctx, Response (challenge m "Invalid credentials"))
          end
      end
  end.
End auth.

(** * The encoder of RFC 4648 *)

Definition sextet (v : Z) : ascii := default "="%char (String.get (Z.to_nat v) alphabet).

Fixpoint base64_encode (s : string) : string :=
  match s with
  | String a (String b (String c s')) =>
      let '(a, b, c) := (byte_of_ascii a, byte_of_ascii b, byte_of_ascii c) in
      String (sextet (a / 4)) (String (sextet (a mod 4 * 16 + b / 16))
        (String (sextet (b mod 16 * 4 + c / 64)) (String (sextet (c mod 64)) (base64_encode s'))))
  | String a (String b EmptyString) =>
      let '(a, b) := (byte_of_ascii a, byte_of_ascii b) in
      String (sextet (a / 4)) (String (sextet (a mod 4 * 16 + b / 16))
        (String (sextet (b mod 16 * 4)) "="))
  | String a EmptyString =>
      let a := byte_of_ascii a in
      String (sextet (a / 4)) (String (sextet (a mod 4 * 16)) "==")
  | EmptyString => EmptyString
  end.

(** ** One step of the decoder, by enumeration *)

Lemma position_sextet v : 0 <= v < 64 → position (sextet v) alphabet = Some v.
Proof.
  intros Hv. apply (forallb_range (λ v, bool_decide (position (sextet v) alphabet = Some v))) in Hv;
    [by apply bool_decide_eq_true in Hv|]. vm_compute. reflexivity.
Qed.

Lemma sextet_not_pad v : 0 <= v < 64 → Ascii.eqb (sextet v) "=" = false.
Proof.
  intros Hv. apply (forallb_range (λ v, negb (Ascii.eqb (sextet v) "="))) in Hv;
    [by apply negb_true_iff in Hv|]. vm_compute. reflexivity.
Qed.

Lemma lor_shift6 b v : 0 <= b → 0 <= v < 64 → Z.lor (Z.shiftl b 6) v = b * 64 + v.
Proof.
  intros Hb Hv. rewrite Z.shiftl_mul_pow2 by lia. change (2 ^ 6) with 64.
  rewrite <- Z.lxor_lor, Z.add_nocarry_lxor; [done|..];
    (replace 64 with (2 ^ 6) by done; rewrite <- Z.shiftl_mul_pow2 by lia;
     apply Z.bits_inj'; intros i Hi; rewrite Z.land_spec, Z.bits_0, Z.shiftl_spec by done;
     destruct (Z.ltb_spec i 6);
       [by rewrite Z.testbit_neg_r by lia
       |replace v with (v mod 2 ^ 6) by (apply Z.mod_small; lia);
        rewrite Z.mod_pow2_bits_high by lia; apply andb_false_r]).
Qed.

Lemma w32_id z : 0 <= z < 2 ^ 32 → w32 z = z.
Proof. apply Z.mod_small. Qed.

(** Feeding a sextet to the decoder. *)
Lemma decode_sextet b bits v s :
  0 <= b < 64 → 0 <= v < 64 → 0 <= bits <= 6 →
  decode_loop b bits (String (sextet v) s) =
    if 2 <=? bits then
      String (byte ((b * 64 + v) / 2 ^ (bits - 2))) <$>
        decode_loop ((b * 64 + v) mod 2 ^ (bits - 2)) (bits - 2) s
    else decode_loop (b * 64 + v) (bits + 6) s.
Proof.
  intros Hb Hv Hbits. cbn [decode_loop]. rewrite position_sextet by done. cbn [mbind option_bind].
  rewrite (w32_id (Z.shiftl b 6)) by (rewrite Z.shiftl_mul_pow2 by lia; lia).
  rewrite lor_shift6, w32_id by lia.
  destruct (Z.leb_spec 2 bits), (Z.leb_spec 8 (bits + 6)); try lia; [|done].
  replace (bits + 6 - 8) with (bits - 2) by lia.
  rewrite Z.shiftr_div_pow2, Z.shiftl_1_l by lia.
  replace (2 ^ (bits - 2) - 1) with (Z.ones (bits - 2)) by (rewrite Z.ones_equiv; lia).
  by rewrite Z.land_ones by lia.
Qed.

Lemma decode_keep v s :
  0 <= v < 64 → decode_loop 0 0 (String (sextet v) s) = decode_loop v 6 s.
Proof. intros. by rewrite decode_sextet by lia. Qed.

Lemma decode_emit b bits v k s :
  0 <= b < 64 → 0 <= v < 64 → 2 <= bits <= 6 → k = bits - 2 →
  decode_loop b bits (String (sextet v) s) =
    String (byte ((b * 64 + v) / 2 ^ k)) <$> decode_loop ((b * 64 + v) mod 2 ^ k) k s.
Proof. intros ?? Hb ->. rewrite decode_sextet by lia. by destruct (Z.leb_spec 2 bits); [|lia]. Qed.

Lemma byte_byte_of_ascii a : byte (byte_of_ascii a) = a.
Proof. destruct a as [[] [] [] [] [] [] [] []]; reflexivity. Qed.

Lemma byte_of_ascii_range a : 0 <= byte_of_ascii a < 256.
Proof. destruct a as [[] [] [] [] [] [] [] []]; vm_compute; split; (discriminate || reflexivity). Qed.

Lemma decode_first a k s :
  0 <= a < 256 → 0 <= k < 16 →
  decode_loop 0 0 (String (sextet (a / 4)) (String (sextet (a mod 4 * 16 + k)) s))
  = String (byte a) <$> decode_loop k 4 s.
Proof.
  intros Ha Hk. rewrite decode_keep, (decode_emit _ _ _ 4) by lia. change (2 ^ 4) with 16.
  replace (a / 4 * 64 + (a mod 4 * 16 + k)) with (a * 16 + k) by lia.
  by replace ((a * 16 + k) / 16) with a by lia; replace ((a * 16 + k) mod 16) with k by lia.
Qed.

Lemma decode_second b j s :
  0 <= b < 256 → 0 <= j < 4 →
  decode_loop (b / 16) 4 (String (sextet (b mod 16 * 4 + j)) s)
  = String (byte b) <$> decode_loop j 2 s.
Proof.
  intros Hb Hj. rewrite (decode_emit _ _ _ 2) by lia.
  change (2 ^ 2) with 4.
  replace (b / 16 * 64 + (b mod 16 * 4 + j)) with (b * 4 + j) by lia.
  by replace ((b * 4 + j) / 4) with b by lia; replace ((b * 4 + j) mod 4) with j by lia.
Qed.

Lemma decode_third c s :
  0 <= c < 256 →
  decode_loop (c / 64) 2 (String (sextet (c mod 64)) s) = String (byte c) <$> decode_loop 0 0 s.
Proof.
  intros Hc. rewrite (decode_emit _ _ _ 0) by lia.
  change (2 ^ 0) with 1.
  replace (c / 64 * 64 + c mod 64) with c by lia.
  by replace (c / 1) with c by lia; replace (c mod 1) with 0 by lia.
Qed.

Lemma trim_padding body pad :
  str_contains_char "=" body = false → trim_end_char "=" pad = "" →
  trim_end_char "=" (body +:+ pad) = body.
Proof.
  intros Hb Hp. induction body as [|a body IH]; [done|]. simpl in Hb.
  apply orb_false_iff in Hb as [Ha Hb]. rewrite str_app_cons. simpl. rewrite IH, Ha by done.
  by destruct body.
Qed.

(** The encoding is unpadded sextets that decode to the input, and padding. *)
Lemma encode_decompose s :
  ∃ body pad, base64_encode s = body +:+ pad ∧ trim_end_char "=" pad = "" ∧
    str_contains_char "=" body = false ∧ decode_loop 0 0 body = Some s.
Proof.
  remember (String.length s) as n eqn:Hn. revert s Hn.
  induction (lt_wf n) as [n _ IH]. intros s ->.
  destruct s as [|a [|b [|c s]]].
  - by exists "", "".
  - pose proof (byte_of_ascii_range a).
    exists (String (sextet (byte_of_ascii a / 4)) (String (sextet (byte_of_ascii a mod 4 * 16)) "")), "==".
    split_and!; [done|done|cbn [str_contains_char]; by rewrite !sextet_not_pad by lia|].
    rewrite <- (Z.add_0_r (byte_of_ascii a mod 4 * 16)), decode_first by lia.
    by rewrite byte_byte_of_ascii.
  - pose proof (byte_of_ascii_range a). pose proof (byte_of_ascii_range b).
    exists (String (sextet (byte_of_ascii a / 4))
      (String (sextet (byte_of_ascii a mod 4 * 16 + byte_of_ascii b / 16))
        (String (sextet (byte_of_ascii b mod 16 * 4)) ""))), "=".
    split_and!; [done|done|cbn [str_contains_char]; by rewrite !sextet_not_pad by lia|].
    rewrite decode_first by lia.
    rewrite <- (Z.add_0_r (byte_of_ascii b mod 16 * 4)), decode_second by lia.
    by rewrite !byte_byte_of_ascii.
  - pose proof (byte_of_ascii_range a). pose proof (byte_of_ascii_range b).
    pose proof (byte_of_ascii_range c).
    destruct (IH (String.length s) ltac:(simpl; lia) s eq_refl) as (body & pad & He & Hp & Hb & Hd).
    exists (String (sextet (byte_of_ascii a / 4))
      (String (sextet (byte_of_ascii a mod 4 * 16 + byte_of_ascii b / 16))
        (String (sextet (byte_of_ascii b mod 16 * 4 + byte_of_ascii c / 64))
          (String (sextet (byte_of_ascii c mod 64)) body)))), pad.
    split_and!; [|done| |].
    + cbn [base64_encode]. by rewrite He.
    + cbn [str_contains_char]. by rewrite !sextet_not_pad by lia.
    + rewrite decode_first, decode_second, decode_third by lia.
      by rewrite Hd, !byte_byte_of_ascii.
Qed.

Lemma base64_roundtrip s : base64_decode (base64_encode s) = Some s.
Proof.
  destruct (encode_decompose s) as (body & pad & He & Hp & Hb & Hd).
  unfold base64_decode. by rewrite He, trim_padding.
Qed.

Section decision.
Context `{RS : RustStr} `{U8 : Utf8}.

Lemma decode_basic_auth_encoded u p :
  str_contains_char ":" u = false → valid_utf8 (u +:+ String ":" p) = true →
  decode_basic_auth ("Basic " +:+ base64_encode (u +:+ String ":" p)) = Some (u, p).
Proof.
  intros Hu Hv. unfold decode_basic_auth. rewrite (strip_prefix_app "Basic ").
  cbn [mbind option_bind]. rewrite base64_roundtrip. cbn [mbind option_bind].
  by rewrite Hv, str_split_once_app.
Qed.

(** C29: basic authentication lets a request through exactly on the stored credentials.
    A request continues iff its Authorization header decodes to a user of the table with
    that user's password, and then (only then) the context is authenticated as that user
    without roles; every refusal is a 401 that leaves the context alone; and the header a
    client builds from a user name without a colon and the password is accepted iff they
    are the stored ones. *)
Theorem basic_auth_decision m ctx :
  let '(ctx', res) := execute m ctx in
  (res = Continue ↔ ∃ h u p, get_header ctx "authorization" = Some h ∧
     decode_basic_auth h = Some (u, p) ∧ credentials m !! u = Some p ∧
     ctx' = set_authenticated u [] ctx) ∧
  (res ≠ Continue → ctx' = ctx ∧ ∃ r, res = Response r ∧ status r = 401) ∧
  (∀ u p, str_contains_char ":" u = false → valid_utf8 (u +:+ String ":" p) = true →
     get_header ctx "authorization" = Some ("Basic " +:+ base64_encode (u +:+ String ":" p)) →
     res = Continue ↔ credentials m !! u = Some p).
Proof.
  destruct (execute m ctx) as [ctx' res] eqn:He. unfold execute in He.
  assert ((res = Continue ↔ ∃ h u p, get_header ctx "authorization" = Some h ∧
     decode_basic_auth h = Some (u, p) ∧ credentials m !! u = Some p ∧
     ctx' = set_authenticated u [] ctx) ∧
    (res ≠ Continue → ctx' = ctx ∧ ∃ r, res = Response r ∧ status r = 401)) as [H1 H2].
  { destruct (get_header ctx "authorization") as [h|];
      [destruct (decode_basic_auth h) as [[u p]|] eqn:Ed;
        [destruct (credentials m !! u) as [p'|] eqn:Ec;
          [destruct (String.eqb_spec p' p) as [->|Hne]|]|]|];
      injection He as <- <-; (split; [|naive_solver]); naive_solver. }
  split_and!; [done|done|]. intros u p Hu Hv Hh. rewrite H1, Hh.
  pose proof (decode_basic_auth_encoded u p Hu Hv) as Hd. split.
  - intros (h & u' & p' & [= <-] & Hd' & Hc & _). rewrite Hd in Hd'. by injection Hd' as <- <-.
  - intros Hc. rewrite Hh, Hd, Hc, String.eqb_refl in He. injection He as <- <-. eauto 10.
Qed.
End decision.

(** * Witnesses *)

Definition demo_auth : BasicAuthMiddleware := add_user "ann" "s:ecret" (auth_new "site").
Definition demo_auth_ctx : MiddlewareContext :=
  mkMiddlewareContext "/x" GET
    {["authorization" := "Basic " +:+ base64_encode "ann:s:ecret"]} "" None ∅ None None [] 0 "id".

Lemma basic_auth_decision_witness : (execute demo_auth demo_auth_ctx).2 = Continue.
Proof.
  destruct (basic_auth_decision demo_auth demo_auth_ctx) as (_ & _ & H).
  apply (H "ann" "s:ecret"); vm_compute; reflexivity.
Defined.
