(* ===== verification/Circuit.v ===== *)
(** The circuit breaker and the cache middleware (src/src/middleware/builtin.rs). *)
From S2P Require Import Prelude Method Routing JsonCache Request Chain Builtin.
From stdpp Require Import base gmap strings list.
Open Scope Z_scope.

(** * Circuit breaker *)

Inductive CircuitState := Closed | Open | HalfOpen.

Record CircuitBreakerConfig := mkCircuitBreakerConfig {
  failure_threshold : Z;
  success_threshold : Z;
  timeout : Z;
  paths : list string
}.

Definition breaker_config_default : CircuitBreakerConfig :=
  mkCircuitBreakerConfig 5 2 30000000000 [].
Definition breaker_config_new (f s timeout_secs : Z) : CircuitBreakerConfig :=
  mkCircuitBreakerConfig f s (timeout_secs * 1000000000) [].

Definition py_breaker_new (f s timeout_secs : Z) (ps : option (list string))
    : CircuitBreakerConfig :=
  let c := breaker_config_new f s timeout_secs in
  match ps with
  | Some p => mkCircuitBreakerConfig (failure_threshold c) (success_threshold c) (timeout c) p
  | None => c
  end.

Record CircuitBreakerState := mkCircuitBreakerState {
  cb_state : CircuitState;
  failure_count : Z;
  success_count : Z;
  last_failure_at : option Z
}.

Definition breaker_state_new : CircuitBreakerState := mkCircuitBreakerState Closed 0 0 None.

Notation Circuits := (gmap string CircuitBreakerState).

(** [entry(path).or_insert_with(..)] *)
Definition get_circuit (cs : Circuits) (p : string) : CircuitBreakerState :=
  default breaker_state_new (cs !! p).

Section breaker.
Context `{RS : RustStr}.
Variable cfg : CircuitBreakerConfig.

Definition record_success (p : string) (cs : Circuits) : Circuits :=
  match cs !! p with
  | None => cs
  | Some cb =>
      match cb_state cb with
      | HalfOpen =>
          let sc := w64 (success_count cb + 1) in
          if success_threshold cfg <=? sc then
            <[p := mkCircuitBreakerState Closed 0 0 (last_failure_at cb)]> cs
          else <[p := mkCircuitBreakerState HalfOpen (failure_count cb) sc (last_failure_at cb)]> cs
      | Closed =>
          <[p := mkCircuitBreakerState Closed 0 (success_count cb) (last_failure_at cb)]> cs
      | Open => cs
      end
  end.

Definition record_failure (p : string) (now : Z) (cs : Circuits) : Circuits :=
  let cb := get_circuit cs p in
  match cb_state cb with
  | Closed =>
      let fc := w64 (failure_count cb + 1) in
      if failure_threshold cfg <=? fc then
        <[p := mkCircuitBreakerState Open fc (success_count cb) (Some now)]> cs
      else <[p := mkCircuitBreakerState Closed fc (success_count cb) (last_failure_at cb)]> cs
  | HalfOpen => <[p := mkCircuitBreakerState Open (failure_count cb) 0 (Some now)]> cs
  | Open =>
      <[p := mkCircuitBreakerState Open (failure_count cb) (success_count cb) (Some now)]> cs
  end.

Definition get_state (cs : Circuits) (p : string) : CircuitState :=
  match cs !! p with Some cb => cb_state cb | None => Closed end.
Definition get_failure_count (cs : Circuits) (p : string) : Z :=
  match cs !! p with Some cb => failure_count cb | None => 0 end.

Definition protected (p : string) : bool :=
  match paths cfg with [] => true | ps => existsb (λ q, starts_with q p) ps end.

Definition execute (now : Z) (cs : Circuits) (ctx : MiddlewareContext)
    : Circuits * MiddlewareContext * MiddlewareResult :=
  let p := get_path ctx in
  if negb (protected p) then (cs, ctx, Continue)
  else
    let cb := get_circuit cs p in
    let pass s := set_state "circuit_breaker_state" (VString s) ctx in
    match cb_state cb with
    | Open =>
        let should_half_open :=
          match last_failure_at cb with Some t => timeout cfg <=? sat_sub now t | None => false end in
        if should_half_open then
          (<[p := mkCircuitBreakerState HalfOpen (failure_count cb) 0 (last_failure_at cb)]> cs,
           pass "half_open", Continue)
        else
          (<[p := cb]> cs, ctx,
           Response (with_header "Retry-After" (dec (timeout cfg / 1000000000))
             (service_unavailable "Service temporarily unavailable (circuit open)")))
    | HalfOpen => (<[p := cb]> cs, pass "half_open", Continue)
    | Closed => (<[p := cb]> cs, pass "closed", Continue)
    end.

(** ** Events and the abstract machine of one path *)

Inductive event :=
| Exec (now : Z) (ctx : MiddlewareContext)
| Success (p : string)
| Failure (p : string) (now : Z).

Definition step (cs : Circuits) (e : event) : Circuits :=
  match e with
  | Exec now ctx => (execute now cs ctx).1.1
  | Success p => record_success p cs
  | Failure p now => record_failure p now cs
  end.

Definition run (evs : list event) : Circuits := foldl step ∅ evs.

(** Closed after [n] consecutive failures, open since the failure at [t], or half open
    after [m] successes. *)
Inductive machine := MClosed (n : Z) | MOpen (t : Z) | MHalf (m : Z).

Definition m_success (s : machine) : machine :=
  match s with
  | MClosed _ => MClosed 0
  | MOpen t => MOpen t
  | MHalf m => if success_threshold cfg <=? m + 1 then MClosed 0 else MHalf (m + 1)
  end.

Definition m_failure (now : Z) (s : machine) : machine :=
  match s with
  | MClosed n => if failure_threshold cfg <=? n + 1 then MOpen now else MClosed (n + 1)
  | _ => MOpen now
  end.

(** A request at [now] passes unless the circuit is open and its timeout has not elapsed;
    the first one after the timeout half-opens it. *)
Definition m_blocks (now : Z) (s : machine) : bool :=
  match s with MOpen t => sat_sub now t <? timeout cfg | _ => false end.

Definition m_exec (now : Z) (s : machine) : machine :=
  match s with
  | MOpen t => if sat_sub now t <? timeout cfg then MOpen t else MHalf 0
  | _ => s
  end.

Definition m_step (p : string) (s : machine) (e : event) : machine :=
  match e with
  | Exec now ctx =>
      if String.eqb (get_path ctx) p && protected p then m_exec now s else s
  | Success q => if String.eqb q p then m_success s else s
  | Failure q now => if String.eqb q p then m_failure now s else s
  end.

Definition m_run (p : string) (evs : list event) : machine := foldl (m_step p) (MClosed 0) evs.

(** The concrete state of a path represents a machine state; counters that count are
    below [n]. *)
Definition represents (n : Z) (cb : CircuitBreakerState) (s : machine) : Prop :=
  match s with
  | MClosed k => cb_state cb = Closed ∧ failure_count cb = k ∧ 0 <= k <= n
  | MOpen t => cb_state cb = Open ∧ last_failure_at cb = Some t
  | MHalf k => cb_state cb = HalfOpen ∧ success_count cb = k ∧ 0 <= k <= n
  end.

Lemma represents_mono n n' cb s : n <= n' → represents n cb s → represents n' cb s.
Proof. destruct s; simpl; intuition lia. Qed.

Lemma get_circuit_insert cs p q cb :
  get_circuit (<[q := cb]> cs) p = if String.eqb q p then cb else get_circuit cs p.
Proof.
  unfold get_circuit. destruct (String.eqb_spec q p) as [->|Hne].
  - by rewrite lookup_insert_eq.
  - by rewrite lookup_insert_ne.
Qed.

Lemma step_represents n p cs s e :
  0 <= n < u64_max → represents n (get_circuit cs p) s →
  represents (n + 1) (get_circuit (step cs e) p) (m_step p s e).
Proof.
  intros Hn Hr. assert (represents (n + 1) (get_circuit cs p) s) as Hr'
    by (eapply represents_mono; [|done]; lia).
  destruct e as [now ctx|q|q now]; simpl.
  - unfold execute. destruct (String.eqb_spec (get_path ctx) p) as [->|Hne]; simpl.
    + destruct (protected p); simpl; [|done].
      destruct s as [k|t|k]; destruct Hr as [Hs Hr]; rewrite Hs; simpl.
      * rewrite get_circuit_insert, String.eqb_refl. simpl. intuition lia.
      * rewrite Hr. unfold sat_sub. destruct (Z.leb_spec (timeout cfg) (Z.max 0 (now - t))),
          (Z.ltb_spec (Z.max 0 (now - t)) (timeout cfg)); try lia; simpl;
          rewrite get_circuit_insert, String.eqb_refl; simpl; intuition lia.
      * rewrite get_circuit_insert, String.eqb_refl. simpl. intuition lia.
    + repeat case_match; simpl; rewrite ?get_circuit_insert,
        ?(proj2 (String.eqb_neq (get_path ctx) p)) by done; done.
  - unfold record_success. destruct (String.eqb_spec q p) as [->|Hne].
    + unfold get_circuit in Hr, Hr' |- *. destruct (cs !! p) as [cb|] eqn:E; simpl in *.
      * destruct s as [k|t|k]; destruct Hr as [Hs Hr]; rewrite Hs; simpl.
        -- rewrite lookup_insert_eq. simpl. intuition lia.
        -- by rewrite E.
        -- destruct Hr as [<- Hk]. rewrite w64_id by (unfold is_u64, u64_max in *; lia).
           case_match; rewrite lookup_insert_eq; simpl; intuition lia.
      * destruct s as [k|t|k]; destruct Hr as [Hs Hr]; try done. rewrite E. simpl.
        simpl in Hr. intuition lia.
    + repeat case_match; rewrite ?get_circuit_insert,
        ?(proj2 (String.eqb_neq q p)) by done; done.
  - unfold record_failure. destruct (String.eqb_spec q p) as [->|Hne].
    + destruct s as [k|t|k]; destruct Hr as [Hs Hr]; rewrite Hs; simpl.
      * destruct Hr as [<- Hk]. rewrite w64_id by (unfold is_u64, u64_max in *; lia).
        case_match; rewrite get_circuit_insert, String.eqb_refl; simpl; intuition lia.
      * rewrite get_circuit_insert, String.eqb_refl. simpl. done.
      * rewrite get_circuit_insert, String.eqb_refl. simpl. done.
    + repeat case_match; rewrite ?get_circuit_insert,
        ?(proj2 (String.eqb_neq q p)) by done; done.
Qed.

Lemma run_represents p evs :
  Z.of_nat (length evs) < u64_max →
  represents (Z.of_nat (length evs)) (get_circuit (run evs) p) (m_run p evs).
Proof.
  unfold run, m_run. induction evs as [|e evs IH] using rev_ind; intros Hlen; [done|].
  rewrite !foldl_app, length_app in *. simpl in *. rewrite Nat2Z.inj_add in *.
  apply step_represents; [lia|]. apply IH. lia.
Qed.

(** The answer of the machine to a request. *)
Definition m_answer (now : Z) (ctx : MiddlewareContext) (s : machine) : MiddlewareResult :=
  if protected (get_path ctx) && m_blocks now s
  then Response (with_header "Retry-After" (dec (timeout cfg / 1000000000))
         (service_unavailable "Service temporarily unavailable (circuit open)"))
  else Continue.

Lemma execute_answer n cs now ctx s :
  represents n (get_circuit cs (get_path ctx)) s → (execute now cs ctx).2 = m_answer now ctx s.
Proof.
  intros Hr. unfold execute, m_answer, m_blocks.
  destruct s as [k|t|m]; destruct Hr as [Hs Hr]; rewrite Hs;
    destruct (protected (get_path ctx)); simpl; try done.
  rewrite Hr. destruct (Z.leb_spec (timeout cfg) (sat_sub now t)),
    (Z.ltb_spec (sat_sub now t) (timeout cfg)); try lia; done.
Qed.

(** A half-open circuit lets every request through, however many there are. *)
Lemma half_open_unlimited now ctx m : m_answer now ctx (MHalf m) = Continue.
Proof. unfold m_answer. simpl. by rewrite andb_false_r. Qed.

(** The observable outcome of a request in terms of the machine. *)
Lemma execute_outcome evs now ctx :
  Z.of_nat (length evs) < u64_max →
  (execute now (run evs) ctx).2 = m_answer now ctx (m_run (get_path ctx) evs).
Proof. intros Hlen. eapply execute_answer, run_represents, Hlen. Qed.

Lemma represents_state n cs p s :
  represents n (get_circuit cs p) s →
  get_state cs p = (match s with MClosed _ => Closed | MOpen _ => Open | MHalf _ => HalfOpen end) ∧
  (∀ k, s = MClosed k → get_failure_count cs p = k).
Proof.
  intros Hr.
  assert (get_state cs p = cb_state (get_circuit cs p) ∧
          get_failure_count cs p = failure_count (get_circuit cs p)) as [-> ->].
  { unfold get_state, get_failure_count, get_circuit. by destruct (cs !! p). }
  split.
  - by destruct s as [k|t|m]; destruct Hr as [Hs Hr].
  - intros k ->. by destruct Hr as (_ & ? & _).
Qed.

(** the circuit breaker implements its state machine, per path.  After any sequence
    of requests, successes and failures on any paths, the next request to a protected
    path is answered with 503 exactly when the machine of that path is open and its
    timeout has not elapsed, and otherwise continues; the state that [get_state] reports
    is the machine's, and so is the number of consecutive failures while closed. *)
Theorem circuit_refines evs now ctx :
  Z.of_nat (length evs) < u64_max →
  let p := get_path ctx in let s := m_run p evs in
  get_state (run evs) p
    = (match s with MClosed _ => Closed | MOpen _ => Open | MHalf _ => HalfOpen end) ∧
  (∀ n, s = MClosed n → get_failure_count (run evs) p = n) ∧
  (execute now (run evs) ctx).2 = m_answer now ctx s.
Proof.
  intros Hlen p s. destruct (represents_state _ _ p s (run_represents p evs Hlen)) as [H1 H2].
  split_and!; [done|done|by apply execute_outcome].
Qed.

Lemma m_run_app p evs1 evs2 : m_run p (evs1 ++ evs2) = foldl (m_step p) (m_run p evs1) evs2.
Proof. apply foldl_app. Qed.

(** The circuit is open at [t] after enough failures in a row from any state. *)
Lemma m_failures p ts t s :
  match s with MClosed n => failure_threshold cfg <= n + Z.of_nat (length ts) + 1 | _ => True end →
  foldl (m_step p) s ((Failure p <$> ts) ++ [Failure p t]) = MOpen t.
Proof.
  revert s. induction ts as [|t0 ts IH]; intros s Hlen; cbn [fmap list_fmap foldl app m_step];
    rewrite String.eqb_refl.
  - destruct s as [n|t'|m]; simpl; try done. simpl in Hlen. by rewrite (proj2 (Z.leb_le _ _)) by lia.
  - apply IH. cbn [length] in Hlen. destruct s as [n|t'|m]; cbn [m_failure]; try done.
    destruct (Z.leb_spec (failure_threshold cfg) (n + 1)); [done|lia].
Qed.

(** a failing path is cut off.  Whatever happened before on any path, once a
    protected path has failed [failure_threshold] times in a row, every request to it
    within the timeout of the last failure is answered with 503. *)
Theorem circuit_trips evs ts t now ctx :
  let p := get_path ctx in
  Z.of_nat (length evs + length ts) < u64_max - 1 →
  protected p = true → failure_threshold cfg <= Z.of_nat (length ts) + 1 → now < t + timeout cfg →
  0 < timeout cfg →
  ∃ r, (execute now (run (evs ++ (Failure p <$> ts) ++ [Failure p t])) ctx).2 = Response r ∧
       status r = 503.
Proof.
  intros p Hlen Hp Hthr Hnow Hto.
  rewrite execute_outcome by (rewrite !length_app, length_fmap; simpl; lia). unfold m_answer. fold p.
  rewrite Hp, m_run_app, m_failures.
  - unfold m_blocks, sat_sub. rewrite (proj2 (Z.ltb_lt _ _)) by lia. simpl. eauto.
  - pose proof (run_represents p evs ltac:(lia)) as Hr. destruct (m_run p evs); try done.
    destruct Hr as (_ & _ & ?). lia.
Qed.
End breaker.

(** * Cache middleware *)

Record CacheConfig := mkCacheConfig {
  ttl_seconds : Z;
  cache_control_respect : bool;
  max_cache_size : Z;
  cache_paths : list string
}.

Definition cache_config_new (ttl : Z) : CacheConfig := mkCacheConfig ttl true 10000 [].

Definition py_cache_new (ttl : Z) (respect : bool) (max : Z) (ps : option (list string))
    : CacheConfig :=
  mkCacheConfig ttl respect max (default (cache_paths (cache_config_new ttl)) ps).

Record CacheMiddleware := mkCacheMiddleware {
  config : CacheConfig;
  cache : JsonResponseCache
}.

Definition cache_middleware_new (c : CacheConfig) : CacheMiddleware :=
  mkCacheMiddleware c (JsonCache.new (max_cache_size c) (ttl_seconds c * 1000000000)).

Definition put_cache (j : JsonResponseCache) (m : CacheMiddleware) : CacheMiddleware :=
  mkCacheMiddleware (config m) j.

Section cache.
Context `{RS : RustStr} `{XH : XXH3}.

Definition invalidate (m : CacheMiddleware) (r params : string) : CacheMiddleware :=
  put_cache (JsonCache.invalidate (cache m) (compute_key_hash r params)) m.
Definition clear (m : CacheMiddleware) : CacheMiddleware := put_cache (JsonCache.clear (cache m)) m.

Definition bytes_string (l : list Byte.byte) : string := String.string_of_list_byte l.

Definition bypass (m : CacheMiddleware) (ctx : MiddlewareContext) : bool :=
  let cc := to_lowercase (default "" (get_header ctx "cache-control")) in
  cache_control_respect (config m) && (str_contains "no-store" cc || str_contains "no-cache" cc).

Definition cache_execute (now : Z) (m : CacheMiddleware) (ctx : MiddlewareContext)
    : CacheMiddleware * MiddlewareContext * MiddlewareResult :=
  if negb (bool_decide (Chain.method ctx = GET)) then (m, ctx, Continue)
  else
    let p := get_path ctx in
    if match cache_paths (config m) with [] => false | ps => negb (existsb (λ q, starts_with q p) ps) end
    then (m, ctx, Continue)
    else if bypass m ctx then (m, set_state "x-cache" (VString "BYPASS") ctx, Continue)
    else
      let key_hash := compute_key_hash p (get_query_string ctx) in
      match JsonCache.get now (cache m) key_hash with
      | (j, Some cached_bytes) =>
          (put_cache j m, ctx,
           Response (with_header "X-Cache" "HIT"
             (with_header "Content-Type" "application/json; charset=utf-8"
                (with_body (bytes_string cached_bytes) (response_new 200)))))
      | (j, None) =>
          (put_cache j m,
           set_state "cache_key_hash" (VString (dec key_hash))
             (set_state "x-cache" (VString "MISS") ctx), Continue)
      end.

Inductive cache_event :=
| CacheExec (now : Z) (ctx : MiddlewareContext)
| CacheInvalidate (r params : string)
| CacheClear.

(** Every operation the middleware has, with the results of the requests. *)
Fixpoint cache_run (m : CacheMiddleware) (evs : list cache_event) : list MiddlewareResult :=
  match evs with
  | [] => []
  | CacheExec now ctx :: evs' =>
      let '(m', _, res) := cache_execute now m ctx in res :: cache_run m' evs'
  | CacheInvalidate r params :: evs' => cache_run (invalidate m r params) evs'
  | CacheClear :: evs' => cache_run (clear m) evs'
  end.

Lemma cache_execute_empty now m ctx :
  JsonCache.cache (cache m) = ∅ →
  (cache_execute now m ctx).2 = Continue ∧
  JsonCache.cache (cache (cache_execute now m ctx).1.1) = ∅.
Proof.
  intros He. unfold cache_execute.
  assert (∀ k, JsonCache.get now (cache m) k = (cache m, None)) as Hg
    by (intros k; unfold JsonCache.get; by rewrite He, lookup_empty).
  rewrite Hg. repeat case_match; done.
Qed.

(** the cache middleware never serves anything.  No operation of it (and nothing
    else in the program) stores a response, so in every run from a new middleware, at any
    clock readings, every request continues to its handler. *)
Theorem cache_never_hits c evs :
  Forall (λ res, res = Continue) (cache_run (cache_middleware_new c) evs).
Proof.
  assert (JsonCache.cache (cache (cache_middleware_new c)) = ∅) as He by done. revert He.
  generalize (cache_middleware_new c). induction evs as [|[now ctx|r ps|] evs IH]; intros m He; simpl.
  - constructor.
  - destruct (cache_execute_empty now m ctx He) as [Hr He'].
    destruct (cache_execute now m ctx) as [[m' ctx'] res]. simpl in *. constructor; auto.
  - apply IH. simpl. by rewrite He, delete_empty.
  - by apply IH.
Qed.
End cache.

(** * Witnesses *)

Definition demo_breaker : CircuitBreakerConfig := breaker_config_new 2 1 30.
Definition demo_events : list event :=
  [Exec 1 demo_ctx; Failure "/x" 2; Success "/x"; Failure "/x" 3; Failure "/y" 4].

Lemma circuit_refines_witness :
  get_failure_count (run demo_breaker demo_events) "/x" = 1.
Proof.
  destruct (circuit_refines demo_breaker demo_events 5 demo_ctx) as (_ & H & _);
    [vm_compute; reflexivity|]. apply H. vm_compute. reflexivity.
Defined.

Lemma circuit_trips_witness :
  ∃ r, (execute demo_breaker 20 (run demo_breaker
          (demo_events ++ (Failure "/x" <$> [7]) ++ [Failure "/x" 9])) demo_ctx).2 = Response r ∧
       status r = 503.
Proof.
  refine (circuit_trips demo_breaker demo_events [7] 9 20 demo_ctx _ _ _ _ _);
    vm_compute; (reflexivity || discriminate).
Defined.
