(* ===== verification/Concurrent.v ===== *)
(** The rate limiter and the circuit breaker (src/src/middleware/builtin.rs) under the threads of
    the runtime.  The chain runs without the interpreter lock, so requests overlap: a step here is
    one access to the shared map, one clock reading, or one critical section of a state's lock.
    Each critical section is the sequential operation of RateLimit.v or Circuit.v on a map that
    holds the entry: it changes that entry only. *)
From S2P Require Import Prelude Method Routing Request Chain Builtin RateLimit Circuit.
From stdpp Require Import base gmap strings list relations.
Open Scope Z_scope.

(** * Counting in a list of tasks *)

Section counting.
Context {A : Type} (P : A → bool).

Definition counts (l : list A) : Z := Z.of_nat (length (List.filter P l)).
Definition b2z (b : bool) : Z := if b then 1 else 0.

Lemma counts_snoc l x : counts (l ++ [x]) = counts l + b2z (P x).
Proof. unfold counts, b2z. rewrite List.filter_app, length_app. simpl. case_match; simpl; lia. Qed.

Lemma counts_insert l i x y : l !! i = Some x → counts (<[i := y]> l) = counts l - b2z (P x) + b2z (P y).
Proof.
  unfold counts, b2z. revert i. induction l as [|z l IH]; intros [|i] Hi; try done.
  - injection Hi as ->. change (<[0%nat := y]> (x :: l)) with (y :: l). cbn [List.filter].
    destruct (P x), (P y); cbn [length]; lia.
  - specialize (IH i Hi). change (<[S i := y]> (z :: l)) with (z :: <[i := y]> l). cbn [List.filter].
    destruct (P z); cbn [length]; lia.
Qed.

Lemma counts_nonneg l : 0 <= counts l.
Proof. unfold counts. lia. Qed.

Lemma counts_length l : counts l <= Z.of_nat (length l).
Proof. unfold counts. pose proof (List.filter_length_le P l). lia. Qed.
End counting.

(** * Rate limiting *)

Section limiter.
Context `{RS : RustStr}.
Variable cfg : RateLimitConfig.

(** Where a request is in [execute]: before the entry, with the [Arc] of its client's state, with
    its clock reading and before the lock, or answered; a limited one with its client's key and the
    start of the window it was counted in. *)
Inductive limit_task :=
| LWaiting (ctx : MiddlewareContext)
| LHolding (ctx : MiddlewareContext)
| LRead (ctx : MiddlewareContext) (now : Z)
| LSkipped (ctx : MiddlewareContext)
| LAnswered (key : string) (ws : Z) (ctx : MiddlewareContext) (r : MiddlewareResult).

Record Limiter := mkLimiter { clients : gmap string RateLimitState; limit_tasks : list limit_task }.

Definition limiter_new : Limiter := mkLimiter ∅ [].

Definition set_limit_task (i : nat) (t : limit_task) (s : Limiter) : Limiter :=
  mkLimiter (clients s) (<[i := t]> (limit_tasks s)).

Inductive limit_step : Limiter → Limiter → Prop :=
| L_arrive s ctx : limit_step s (mkLimiter (clients s) (limit_tasks s ++ [LWaiting ctx]))
| L_skip s i ctx : limit_tasks s !! i = Some (LWaiting ctx) → skipped (skip_paths cfg) (get_path ctx) = true →
    limit_step s (set_limit_task i (LSkipped ctx) s)
| L_entry s i ctx now0 : limit_tasks s !! i = Some (LWaiting ctx) →
    skipped (skip_paths cfg) (get_path ctx) = false →
    let key := get_client_key cfg ctx in
    limit_step s (mkLimiter (<[key := client_state (clients s) now0 key]> (clients s))
                    (<[i := LHolding ctx]> (limit_tasks s)))
| L_clock s i ctx now : limit_tasks s !! i = Some (LHolding ctx) → limit_step s (set_limit_task i (LRead ctx now) s)
| L_check s i ctx now st st' allowed remaining : limit_tasks s !! i = Some (LRead ctx now) →
    let key := get_client_key cfg ctx in
    clients s !! key = Some st → check cfg now st = (st', (allowed, remaining)) →
    limit_step s (mkLimiter (<[key := st']> (clients s))
      (<[i := LAnswered key (window_start st') (conclude cfg allowed remaining ctx).1
                (conclude cfg allowed remaining ctx).2]> (limit_tasks s))).

Definition let_through (k : string) (ws : Z) (t : limit_task) : bool :=
  match t with
  | LAnswered key ws' _ Continue => String.eqb key k && (ws' =? ws)
  | _ => false
  end.
Definition is_checked (t : limit_task) : bool := match t with LAnswered _ _ _ _ => true | _ => false end.

(** How many requests of the client [k] were let through in the window that starts at [ws]. *)
Definition admitted_in (k : string) (ws : Z) (s : Limiter) : Z := counts (let_through k ws) (limit_tasks s).

(** What was admitted in a window and what it may still admit stay within the maximum. *)
Definition within (s : Limiter) : Prop :=
  counts is_checked (limit_tasks s) < u64_max →
  clients_ok (counts is_checked (limit_tasks s)) (clients s) ∧
  ∀ k ws, admitted_in k ws s + budget cfg (clients s) k ws <= Z.max 1 (max_requests cfg).

Lemma within_step s s' : algorithm cfg = FixedWindow → 0 < window cfg → limit_step s s' → within s → within s'.
Proof.
  intros Ha Hw Hstep H. unfold within, admitted_in in *.
  destruct Hstep as [s ctx|s i ctx Hi Hs|s i ctx now0 Hi Hs key|s i ctx now Hi|
    s i ctx now st st' allowed remaining Hi key Hst Hc];
    cbn [set_limit_task clients limit_tasks] in *.
  - rewrite counts_snoc. cbn [is_checked b2z]. rewrite Z.add_0_r. intros Hlt. destruct (H Hlt) as [Hok Hb].
    split; [done|]. intros k ws. rewrite counts_snoc. cbn [let_through b2z]. specialize (Hb k ws). lia.
  - rewrite (counts_insert _ _ _ _ _ Hi). cbn [is_checked b2z]. rewrite Z.add_0_r, Z.sub_0_r. intros Hlt.
    destruct (H Hlt) as [Hok Hb]. split; [done|]. intros k ws. rewrite (counts_insert _ _ _ _ _ Hi).
    cbn [let_through b2z]. specialize (Hb k ws). lia.
  - rewrite (counts_insert _ _ _ _ _ Hi). cbn [is_checked b2z]. rewrite Z.add_0_r, Z.sub_0_r. intros Hlt.
    destruct (H Hlt) as [Hok Hb]. split.
    + apply map_Forall_insert_2; [|done]. apply client_state_ok; [apply counts_nonneg|done].
    + intros k ws. rewrite (counts_insert _ _ _ _ _ Hi), budget_insert. cbn [let_through b2z].
      specialize (Hb k ws). destruct (String.eqb_spec key k) as [<-|]; [|lia].
      pose proof (client_state_budget cfg (clients s) now0 key ws). lia.
  - rewrite (counts_insert _ _ _ _ _ Hi). cbn [is_checked b2z]. rewrite Z.add_0_r, Z.sub_0_r. intros Hlt.
    destruct (H Hlt) as [Hok Hb]. split; [done|]. intros k ws. rewrite (counts_insert _ _ _ _ _ Hi).
    cbn [let_through b2z]. specialize (Hb k ws). lia.
  - rewrite (counts_insert _ _ _ _ _ Hi). cbn [is_checked b2z]. rewrite Z.sub_0_r. intros Hlt.
    destruct H as [Hok Hb]; [lia|]. pose proof (counts_nonneg is_checked (limit_tasks s)) as Hn.
    pose proof (Hok _ _ Hst) as Hcnt. simpl in Hcnt. unfold check in Hc. rewrite Ha in Hc.
    pose proof (check_fixed_ok cfg _ now st Hn Hcnt ltac:(lia)) as Hok'. rewrite Hc in Hok'. split.
    + apply map_Forall_insert_2; [done|]. eapply clients_ok_mono; [|done]. lia.
    + intros k ws. rewrite (counts_insert _ _ _ _ _ Hi), budget_insert. cbn [let_through b2z].
      pose proof (fixed_step cfg now st ws Hw ltac:(lia)) as Hstep. rewrite Hc in Hstep.
      assert (budget cfg (clients s) key ws = state_budget cfg st ws) as Hkey by (unfold budget; by rewrite Hst).
      specialize (Hb k ws). destruct (String.eqb_spec key k) as [<-|];
        destruct allowed; cbn [conclude negb snd b2z andb] in *; unfold b2z; lia.
Qed.

(** C30: the fixed window limits under the runtime's threads.  Requests arrive at any time and their
    steps interleave in any order, with any clock readings; still the requests of one client that
    are let through in one window are at most the configured maximum (one, if that is zero). *)
Theorem fixed_window_concurrent s k ws :
  algorithm cfg = FixedWindow → 0 < window cfg →
  rtc limit_step limiter_new s → Z.of_nat (length (limit_tasks s)) < u64_max →
  admitted_in k ws s <= Z.max 1 (max_requests cfg).
Proof.
  intros Ha Hw Hr Hlen. assert (within s) as H.
  { eapply (rtc_invariant limit_step within); [|exact Hr|].
    - intros s1 s2 Hs. by apply within_step.
    - intros _. split; [apply map_Forall_empty|]. intros k' ws'. unfold budget, admitted_in, counts. cbn [limiter_new clients limit_tasks List.filter length].
      rewrite lookup_empty. lia. }
  destruct H as [_ H]; [pose proof (counts_length is_checked (limit_tasks s)); lia|].
  specialize (H k ws). pose proof (budget_nonneg cfg (clients s) k ws). lia.
Qed.
End limiter.

(** ** Several processes *)

(** Every worker process has the limiter's map of its own; the kernel gives each request to one of
    the [n] workers. *)
Definition share `{RustStr} (i : nat) (rs : list (nat * Req)) : list Req :=
  snd <$> List.filter (λ r, (r.1 =? i)%nat) rs.
Fixpoint deployed `{RustStr} (cfg : RateLimitConfig) (n : nat) (rs : list (nat * Req)) (k : string) (ws : Z) : Z :=
  match n with
  | O => 0
  | S n' => deployed cfg n' rs k ws + admitted cfg ∅ (share n' rs) k ws
  end.

(** The limit of a deployment is that of one process times the number of processes. *)
Theorem deployed_limit `{RustStr} cfg n rs k ws :
  algorithm cfg = FixedWindow → 0 < window cfg → Z.of_nat (length rs) < u64_max →
  deployed cfg n rs k ws <= Z.of_nat n * Z.max 1 (max_requests cfg).
Proof.
  intros Ha Hw Hlen. induction n as [|n IH]; [done|]. cbn [deployed].
  assert (admitted cfg ∅ (share n rs) k ws <= Z.max 1 (max_requests cfg)); [|lia].
  assert (length (share n rs) ≤ length rs)%nat as Hl.
  { unfold share. rewrite length_fmap. apply List.filter_length_le. }
  assert (0 + Z.of_nat (length (share n rs)) < u64_max) as Hn by lia.
  pose proof (admitted_budget cfg k ws (share n rs) 0 ∅ Ha Hw (Z.le_refl 0) Hn (map_Forall_empty _)) as Hb.
  unfold budget in Hb. by rewrite lookup_empty in Hb.
Qed.

(** It is attained: two processes with a maximum of two let four requests through at one instant. *)
Example deployed_attained :
  deployed demo_cfg 2 ((λ i, (i, mkReq 5 6 demo_ctx)) <$> [0; 1; 0; 1; 0; 1]%nat) "unknown" 5 = 4.
Proof. vm_compute. reflexivity. Qed.

(** * Circuit breaker *)

Section breaker.
Context `{RS : RustStr}.
Variable cfg : CircuitBreakerConfig.

(** Requests and reports: before the entry, with the [Arc] of the path's state, or done. *)
Inductive breaker_task :=
| CWaiting (ctx : MiddlewareContext)
| CHolding (ctx : MiddlewareContext)
| CPassed (ctx : MiddlewareContext)
| CAnswered (ctx : MiddlewareContext) (now : Z) (r : MiddlewareResult)
| SWaiting (p : string)
| SHolding (p : string)
| FWaiting (p : string)
| FHolding (p : string)
| Reported.

(** The shared map, the tasks, and the critical sections so far, in order, each with the answer it
    gave to a request. *)
Record Breaker := mkBreaker {
  circuits : Circuits;
  breaker_tasks : list breaker_task;
  history : list (event * option MiddlewareResult)
}.

Definition breaker_new : Breaker := mkBreaker ∅ [] [].

Definition set_breaker_task (i : nat) (t : breaker_task) (b : Breaker) : Breaker :=
  mkBreaker (circuits b) (<[i := t]> (breaker_tasks b)) (history b).

Definition breaker_entry (p : string) (i : nat) (t : breaker_task) (b : Breaker) : Breaker :=
  mkBreaker (<[p := get_circuit (circuits b) p]> (circuits b)) (<[i := t]> (breaker_tasks b)) (history b).

Definition critical (e : event) (r : option MiddlewareResult) (i : nat) (t : breaker_task) (b : Breaker) : Breaker :=
  mkBreaker (Circuit.step cfg (circuits b) e) (<[i := t]> (breaker_tasks b)) (history b ++ [(e, r)]).

Inductive breaker_step : Breaker → Breaker → Prop :=
| B_arrive b t : match t with CWaiting _ | SWaiting _ | FWaiting _ => true | _ => false end = true →
    breaker_step b (mkBreaker (circuits b) (breaker_tasks b ++ [t]) (history b))
| B_pass b i ctx : breaker_tasks b !! i = Some (CWaiting ctx) → protected cfg (get_path ctx) = false →
    breaker_step b (set_breaker_task i (CPassed ctx) b)
| B_entry b i ctx : breaker_tasks b !! i = Some (CWaiting ctx) → protected cfg (get_path ctx) = true →
    breaker_step b (breaker_entry (get_path ctx) i (CHolding ctx) b)
| B_execute b i ctx now r : breaker_tasks b !! i = Some (CHolding ctx) →
    (Circuit.execute cfg now (circuits b) ctx).2 = r →
    breaker_step b (critical (Exec now ctx) (Some r) i (CAnswered ctx now r) b)
| B_success_absent b i p : breaker_tasks b !! i = Some (SWaiting p) → circuits b !! p = None →
    breaker_step b (critical (Success p) None i Reported b)
| B_success_get b i p : breaker_tasks b !! i = Some (SWaiting p) → is_Some (circuits b !! p) →
    breaker_step b (set_breaker_task i (SHolding p) b)
| B_success b i p : breaker_tasks b !! i = Some (SHolding p) →
    breaker_step b (critical (Success p) None i Reported b)
| B_failure_entry b i p : breaker_tasks b !! i = Some (FWaiting p) →
    breaker_step b (breaker_entry p i (FHolding p) b)
| B_failure b i p now : breaker_tasks b !! i = Some (FHolding p) →
    breaker_step b (critical (Failure p now) None i Reported b).

(** The machine of a path after the critical sections of a history. *)
Definition machine_of (p : string) (h : list (event * option MiddlewareResult)) : machine := m_run cfg p h.*1.

Definition answered_right (h : list (event * option MiddlewareResult)) : Prop :=
  ∀ h1 now ctx r h2, h = h1 ++ (Exec now ctx, r) :: h2 →
    r = Some (m_answer cfg now ctx (machine_of (get_path ctx) h1)).

Definition answers_logged (b : Breaker) : Prop :=
  ∀ i ctx now r, breaker_tasks b !! i = Some (CAnswered ctx now r) → (Exec now ctx, Some r) ∈ history b.

Definition linear (b : Breaker) : Prop :=
  Z.of_nat (length (history b)) < u64_max →
  (∀ p, represents (Z.of_nat (length (history b))) (get_circuit (circuits b) p) (machine_of p (history b))) ∧
  answered_right (history b) ∧ answers_logged b.

Lemma machine_of_snoc p h e r : machine_of p (h ++ [(e, r)]) = m_step cfg p (machine_of p h) e.
Proof. unfold machine_of, m_run. by rewrite fmap_app, foldl_app. Qed.

Lemma answered_right_snoc h e r :
  answered_right h →
  (∀ now ctx, e = Exec now ctx → r = Some (m_answer cfg now ctx (machine_of (get_path ctx) h))) →
  answered_right (h ++ [(e, r)]).
Proof.
  intros Hh He h1 now ctx r' h2 Heq.
  destruct h2 as [|x h2 _] using rev_ind.
  - apply app_inj_tail in Heq as [<- [= -> ->]]. by apply He.
  - rewrite app_comm_cons, (assoc_L (++)) in Heq. apply app_inj_tail in Heq as [-> _]. by eapply Hh.
Qed.

(** Taking an entry changes no circuit. *)
Lemma linear_entry p i t b :
  (∀ ctx now r, t ≠ CAnswered ctx now r) → linear b → linear (breaker_entry p i t b).
Proof.
  intros Ht H Hlen. destruct (H Hlen) as (H1 & H2 & H3). split_and!; [|done|].
  - intros q. cbn [breaker_entry circuits history]. rewrite get_circuit_insert.
    destruct (String.eqb_spec p q) as [->|]; apply H1.
  - intros j ctx now r. cbn [breaker_entry breaker_tasks history]. intros Hj.
    apply list_lookup_insert_Some in Hj as [(-> & Hj & _)|[_ Hj]]; [by destruct (Ht ctx now r)|by eapply H3].
Qed.

Lemma linear_task i t b : (∀ ctx now r, t ≠ CAnswered ctx now r) → linear b → linear (set_breaker_task i t b).
Proof.
  intros Ht H Hlen. destruct (H Hlen) as (H1 & H2 & H3). split_and!; [done|done|].
  intros j ctx now r. cbn [set_breaker_task breaker_tasks history]. intros Hj.
  apply list_lookup_insert_Some in Hj as [(-> & Hj & _)|[_ Hj]]; [by destruct (Ht ctx now r)|by eapply H3].
Qed.

(** A critical section is a step of every path's machine. *)
Lemma linear_critical e r i t b :
  (∀ now ctx, e = Exec now ctx → r = Some (Circuit.execute cfg now (circuits b) ctx).2) →
  (∀ ctx now r', t = CAnswered ctx now r' → e = Exec now ctx ∧ r = Some r') →
  linear b → linear (critical e r i t b).
Proof.
  intros He Ht H. unfold linear. cbn [critical circuits history]. rewrite length_app. cbn [length].
  rewrite Nat2Z.inj_add. change (Z.of_nat 1) with 1. intros Hlen.
  destruct H as (H1 & H2 & H3); [lia|]. split_and!.
  - intros p. rewrite machine_of_snoc. apply step_represents; [lia|apply H1].
  - apply answered_right_snoc; [done|]. intros now ctx ->. rewrite (He now ctx eq_refl). f_equal.
    eapply execute_answer, H1.
  - intros j ctx now r'. cbn [breaker_tasks]. intros Hj. apply elem_of_app.
    apply list_lookup_insert_Some in Hj as [(-> & Hj & _)|[_ Hj]]; [|left; by eapply H3].
    destruct (Ht _ _ _ Hj) as [-> ->]. right. by left.
Qed.

Lemma linear_step b b' : breaker_step b b' → linear b → linear b'.
Proof.
  intros Hs H. destruct Hs as [b t Ht|b i ctx Hi Hp|b i ctx Hi Hp|b i ctx now r Hi Hr|b i p Hi Hn|b i p Hi Hn|
    b i p Hi|b i p Hi|b i p now Hi].
  - intros Hlen. destruct (H Hlen) as (H1 & H2 & H3). split_and!; [done|done|].
    intros j ctx now r. cbn [breaker_tasks history]. intros [Hj|[_ Hj]]%lookup_app_Some; [by eapply H3|].
    apply list_lookup_singleton_Some in Hj as [_ ->]. done.
  - by apply linear_task.
  - by apply linear_entry.
  - apply linear_critical; [intros ? ? [= <- <-]; by rewrite Hr|by intros ? ? ? [= <- <- <-]|done].
  - by apply linear_critical.
  - by apply linear_task.
  - by apply linear_critical.
  - by apply linear_entry.
  - by apply linear_critical.
Qed.

Lemma linear_reachable b : rtc breaker_step breaker_new b → linear b.
Proof.
  intros Hr. eapply (rtc_invariant breaker_step linear); [apply linear_step|exact Hr|].
  intros _. split_and!.
  - intros p. unfold get_circuit. cbn [breaker_new circuits history]. rewrite lookup_empty.
    split; [done|]. split; [done|]. simpl. lia.
  - intros h1 now ctx r h2 Heq. by destruct h1.
  - intros i ctx now r Hi. done.
Qed.

(** C17: the circuit breaker is linearizable to its state machine.  However the requests and the
    reports of successes and failures overlap, there is one order of their critical sections in
    which every request was answered as the machine of its path decides (503 exactly when the path
    is protected, its machine open and its timeout not over), and the shared state of every path
    is the machine's after that order.  In particular a half-open circuit lets every request through,
    however many there are (docs/middleware.md says a limited number).  The runs are those of fewer
    than 2^64 critical sections. *)
Theorem circuit_linearizable b :
  rtc breaker_step breaker_new b → Z.of_nat (length (history b)) < u64_max →
  (∀ i ctx now r, breaker_tasks b !! i = Some (CAnswered ctx now r) →
     ∃ h1 h2, history b = h1 ++ (Exec now ctx, Some r) :: h2 ∧
       r = m_answer cfg now ctx (machine_of (get_path ctx) h1)) ∧
  (∀ h1 now ctx r h2 m, history b = h1 ++ (Exec now ctx, r) :: h2 →
     machine_of (get_path ctx) h1 = MHalf m → r = Some Continue) ∧
  (∀ p, let s := machine_of p (history b) in
     get_state (circuits b) p = (match s with MClosed _ => Closed | MOpen _ => Open | MHalf _ => HalfOpen end) ∧
     (∀ n, s = MClosed n → get_failure_count (circuits b) p = n)).
Proof.
  intros Hr Hlen. destruct (linear_reachable b Hr Hlen) as (H1 & H2 & H3). split_and!.
  - intros i ctx now r Hi. destruct (list_elem_of_split _ _ (H3 _ _ _ _ Hi)) as (h1 & h2 & Heq).
    exists h1, h2. split; [done|]. by injection (H2 _ _ _ _ _ Heq).
  - intros h1 now ctx r h2 m Heq Hm. by rewrite (H2 _ _ _ _ _ Heq), Hm, half_open_unlimited.
  - intros p s. eapply represents_state, H1.
Qed.
End breaker.

(** * Witnesses *)

(** Three requests of one client overlap: they all hold its state and have read their clocks, in
    reverse order, before the first is checked. *)
Lemma fixed_window_concurrent_witness :
  ∃ s, rtc (limit_step demo_cfg) limiter_new s ∧ length (limit_tasks s) = 3%nat ∧
    admitted_in "unknown" 5 s = 2 ∧ admitted_in "unknown" 5 s <= 2.
Proof.
  assert (rtc (limit_step demo_cfg) limiter_new limiter_new) as Hr by apply rtc_refl.
  do 3 advance Hr (L_arrive demo_cfg _ demo_ctx).
  advance Hr (L_entry demo_cfg _ 0 demo_ctx 5).
  advance Hr (L_entry demo_cfg _ 1 demo_ctx 6).
  advance Hr (L_entry demo_cfg _ 2 demo_ctx 7).
  advance Hr (L_clock demo_cfg _ 0 demo_ctx 10).
  advance Hr (L_clock demo_cfg _ 1 demo_ctx 9).
  advance Hr (L_clock demo_cfg _ 2 demo_ctx 8).
  advance Hr (L_check demo_cfg _ 2 demo_ctx 8).
  advance Hr (L_check demo_cfg _ 1 demo_ctx 9).
  advance Hr (L_check demo_cfg _ 0 demo_ctx 10).
  eexists. split; [exact Hr|]. split; [vm_compute; reflexivity|]. split; [vm_compute; reflexivity|].
  refine (fixed_window_concurrent demo_cfg _ "unknown" 5 _ _ Hr _); vm_compute; reflexivity.
Defined.

(** A request of the path is between its entry and its lock while two failures open the circuit;
    it is answered after them. *)
Lemma circuit_linearizable_witness :
  ∃ b r, rtc (breaker_step demo_breaker) breaker_new b ∧
    breaker_tasks b !! 0%nat = Some (CAnswered demo_ctx 9 r) ∧ r ≠ Continue ∧
    get_state (circuits b) "/x" = Open.
Proof.
  assert (rtc (breaker_step demo_breaker) breaker_new breaker_new) as Hr by apply rtc_refl.
  advance Hr (B_arrive demo_breaker _ (CWaiting demo_ctx)).
  advance Hr (B_entry demo_breaker _ 0 demo_ctx).
  do 2 advance Hr (B_arrive demo_breaker _ (FWaiting "/x")).
  advance Hr (B_failure_entry demo_breaker _ 2 "/x").
  advance Hr (B_failure_entry demo_breaker _ 1 "/x").
  advance Hr (B_failure demo_breaker _ 1 "/x" 7).
  advance Hr (B_failure demo_breaker _ 2 "/x" 8).
  advance Hr (B_execute demo_breaker _ 0 demo_ctx 9).
  do 2 eexists. split; [exact Hr|]. split; [vm_compute; reflexivity|].
  split; [vm_compute; discriminate|].
  refine (proj1 (proj2 (proj2 (circuit_linearizable demo_breaker _ Hr _)) "/x")). vm_compute. reflexivity.
Defined.
