(* ===== verification/Channel.v ===== *)
(** Publish/subscribe channels (src/src/realtime/channel.rs): topic patterns, the topic
    matcher and the channel manager.  tokio's broadcast channel is a class. *)
From S2P Require Import Prelude.
From stdpp Require Import base gmap strings list sets.
Open Scope Z_scope.

(** * Topic patterns *)

(** The loop of [pattern_matches] over the remaining segments. *)
Fixpoint match_parts (pattern_parts topic_parts : list string) : bool :=
  match pattern_parts, topic_parts with
  | p :: ps, t :: ts =>
      if String.eqb p "#" then true
      else if String.eqb p "*" then match_parts ps ts
      else if negb (String.eqb p t) then false
      else match_parts ps ts
  | [], [] => true
  | _, _ => false
  end.

Definition pattern_matches (pattern topic : string) : bool :=
  if String.eqb pattern topic then true
  else match_parts (str_split ":" pattern) (str_split ":" topic).

(** One segment of a pattern against one segment of a topic. *)
Definition seg_matches (p t : string) : Prop := p = "*" ∨ p = t.

Lemma match_parts_spec ps ts :
  match_parts ps ts = true ↔
  ("#" ∉ ps ∧ Forall2 seg_matches ps ts) ∨
  (∃ ps1 ps2 ts1 ts2, ps = ps1 ++ "#" :: ps2 ∧ ts = ts1 ++ ts2 ∧ ts2 ≠ [] ∧
     "#" ∉ ps1 ∧ Forall2 seg_matches ps1 ts1).
Proof.
  revert ts. induction ps as [|p ps IH]; intros [|t ts]; simpl.
  - split; [left; split; [set_solver|constructor]|done].
  - split; [done|]. intros [[_ H]|(ps1 & ps2 & ? & ? & H & _)]; [by inversion H|by destruct ps1].
  - split; [done|]. intros [[_ H]|(ps1 & ps2 & ts1 & ts2 & H & H' & Hne & _ & HF)]; [by inversion H|].
    by destruct ts1, ts2.
  - destruct (String.eqb_spec p "#") as [->|Hh].
    { split; [|done]. intros _. right. exists [], ps, [], (t :: ts). split_and!; try done; set_solver. }
    assert (∀ b, (b = true ↔ seg_matches p t ∧ match_parts ps ts = true) →
      b = true ↔
      ("#" ∉ p :: ps ∧ Forall2 seg_matches (p :: ps) (t :: ts)) ∨
      (∃ ps1 ps2 ts1 ts2, p :: ps = ps1 ++ "#" :: ps2 ∧ t :: ts = ts1 ++ ts2 ∧ ts2 ≠ [] ∧
         "#" ∉ ps1 ∧ Forall2 seg_matches ps1 ts1)) as Hrec.
    { intros b ->. rewrite IH, Forall2_cons, not_elem_of_cons. split.
      - intros [Hs [[H1 H2]|(ps1 & ps2 & ts1 & ts2 & -> & -> & Hne & Hni & HF)]]; [by left|].
        right. exists (p :: ps1), ps2, (t :: ts1), ts2. split_and!; try done; [set_solver|].
        by constructor.
      - intros [[[_ H1] [H2 H3]]|(ps1 & ps2 & ts1 & ts2 & Hp & Ht & Hne & Hni & HF)]; [by auto|].
        destruct ps1 as [|p' ps1]; simplify_eq/=. inversion HF as [|? t' ? ts1' Hs HF']; simplify_eq/=.
        split; [done|]. right. exists ps1, ps2, ts1', ts2. split_and!; try done. set_solver. }
    unfold seg_matches in *. destruct (String.eqb_spec p "*") as [->|Hs]; [apply Hrec; naive_solver|].
    destruct (String.eqb_spec p t) as [->|Hne]; simpl; apply Hrec; naive_solver.
Qed.

(** the meaning of topic patterns.  A pattern matches a topic iff they are equal, or
    the segments match one to one (a star matches any segment, anything else itself), or
    the pattern has a hash such that the segments before it match a proper prefix of the
    topic (the hash stands for at least one segment and ends the pattern). *)
Theorem pattern_matches_spec pattern topic :
  pattern_matches pattern topic = true ↔
  pattern = topic ∨
  ("#" ∉ str_split ":" pattern ∧
     Forall2 seg_matches (str_split ":" pattern) (str_split ":" topic)) ∨
  (∃ ps1 ps2 ts1 ts2, str_split ":" pattern = ps1 ++ "#" :: ps2 ∧
     str_split ":" topic = ts1 ++ ts2 ∧ ts2 ≠ [] ∧ "#" ∉ ps1 ∧ Forall2 seg_matches ps1 ts1).
Proof.
  unfold pattern_matches. rewrite <- match_parts_spec.
  destruct (String.eqb_spec pattern topic) as [->|Hne]; naive_solver.
Qed.

(** * Topic matcher *)

(** [DashMap<String, HashSet<String>>] *)
Notation Patterns := (gmap string (gset string)).

Definition matcher_new : Patterns := ∅.

Definition subscribe (pattern client_id : string) (m : Patterns) : Patterns :=
  <[pattern := {[client_id]} ∪ default ∅ (m !! pattern)]> m.

Definition unsubscribe (pattern client_id : string) (m : Patterns) : Patterns * bool :=
  match m !! pattern with
  | Some s =>
      let s' := s ∖ {[client_id]} in
      (if bool_decide (s' = ∅) then delete pattern m else <[pattern := s']> m,
       bool_decide (client_id ∈ s))
  | None => (m, false)
  end.

Section matcher.
Context `{HI : !HashIter string (gset string)}.

(** The pass over all entries, then the removal of the emptied ones. *)
Definition unsubscribe_all (client_id : string) (m : Patterns) : Patterns * nat :=
  let m1 : Patterns := (λ s, s ∖ {[client_id]}) <$> m in
  let count := length (List.filter (λ kv : string * gset string, bool_decide (client_id ∈ kv.2)) (hiter m)) in
  let empty_patterns := (List.filter (λ kv : string * gset string, bool_decide (kv.2 = ∅)) (hiter m1)).*1 in
  (foldl (λ m p, delete p m) m1 empty_patterns, count).

(** The matched set; the vector the source returns lists it in an unspecified order. *)
Definition match_topic (topic : string) (m : Patterns) : gset string :=
  foldl (λ matched kv, if pattern_matches kv.1 topic then matched ∪ kv.2 else matched) ∅ (hiter m).

Definition matcher_patterns (m : Patterns) : list string := (hiter m).*1.
Definition subscriber_count (m : Patterns) (pattern : string) : nat :=
  match m !! pattern with Some s => size s | None => 0%nat end.

(** ** Refinement to a relation *)

Inductive op :=
| Subscribe (pattern client_id : string)
| Unsubscribe (pattern client_id : string)
| UnsubscribeAll (client_id : string).

Definition step (m : Patterns) (o : op) : Patterns :=
  match o with
  | Subscribe p c => subscribe p c m
  | Unsubscribe p c => (unsubscribe p c m).1
  | UnsubscribeAll c => (unsubscribe_all c m).1
  end.

Definition run (ops : list op) : Patterns := foldl step matcher_new ops.

(** The pairs that are subscribed. *)
Definition rel_step (r : gset (string * string)) (o : op) : gset (string * string) :=
  match o with
  | Subscribe p c => {[(p, c)]} ∪ r
  | Unsubscribe p c => r ∖ {[(p, c)]}
  | UnsubscribeAll c => filter (λ pc, pc.2 ≠ c) r
  end.
Definition rel_run (ops : list op) : gset (string * string) := foldl rel_step ∅ ops.

Definition implements (m : Patterns) (r : gset (string * string)) : Prop :=
  (∀ p c, (p, c) ∈ r ↔ c ∈ default ∅ (m !! p)) ∧ (∀ p, m !! p ≠ Some ∅).

Lemma foldl_delete (l : list string) (m : Patterns) p :
  foldl (λ m p, delete p m) m l !! p = if decide (p ∈ l) then None else m !! p.
Proof.
  revert m. induction l as [|q l IH]; intros m; simpl; [done|]. rewrite IH.
  destruct (decide (p = q)) as [->|Hne].
  - rewrite lookup_delete_eq, (decide_True (P:=q ∈ q :: l)) by set_solver. by case_decide.
  - rewrite lookup_delete_ne by done. apply decide_ext. set_solver.
Qed.

Lemma unsubscribe_all_lookup c m p :
  (unsubscribe_all c m).1 !! p =
    s ← m !! p; if bool_decide (s ∖ {[c]} = ∅) then None else Some (s ∖ {[c]}).
Proof.
  unfold unsubscribe_all. simpl. rewrite foldl_delete.
  set (m1 := (λ s : gset string, s ∖ {[c]}) <$> m).
  assert (p ∈ (List.filter (λ kv : string * gset string, bool_decide (kv.2 = ∅)) (hiter m1)).*1
          ↔ m1 !! p = Some ∅) as Hin.
  { rewrite list_elem_of_fmap. split.
    - intros ([k s] & -> & Hs). apply list_elem_of_In, filter_In in Hs as [Hs Hb].
      apply list_elem_of_In, elem_of_hiter in Hs. simpl in *.
      apply bool_decide_eq_true in Hb as ->. done.
    - intros Hm. exists (p, ∅). split; [done|]. apply list_elem_of_In, filter_In. split.
      + apply list_elem_of_In. by apply elem_of_hiter.
      + by apply bool_decide_eq_true. }
  unfold m1 in Hin |- *. rewrite lookup_fmap in *. destruct (m !! p) as [s|]; simpl in *.
  - case_decide as Hd; case_bool_decide as Hb; try done.
    + apply Hin in Hd. naive_solver.
    + destruct Hd. apply Hin. by rewrite Hb.
  - case_decide; [|done]. naive_solver.
Qed.

Lemma elem_of_default (o : option (gset string)) c :
  c ∈ default ∅ o ↔ ∃ s, o = Some s ∧ c ∈ s.
Proof. destruct o; simpl; [naive_solver|set_solver]. Qed.

Lemma implements_step m r o : implements m r → implements (step m o) (rel_step r o).
Proof.
  intros [Hr Hne]. destruct o as [p c|p c|c]; cbn [step rel_step].
  - unfold subscribe. split; intros p'; (destruct (decide (p' = p)) as [->|];
      [rewrite lookup_insert_eq; simpl|rewrite lookup_insert_ne by done]); try done.
    + intros c'. specialize (Hr p c'). set_solver.
    + intros c'. specialize (Hr p' c'). set_solver.
    + intros [= He]. set_solver.
  - unfold unsubscribe. destruct (m !! p) as [s|] eqn:E; simpl.
    + split.
      * intros p' c'. pose proof (Hr p' c') as Hr'. destruct (decide (p' = p)) as [->|].
        -- rewrite E in Hr'. simpl in Hr'. case_bool_decide;
             [rewrite lookup_delete_eq|rewrite lookup_insert_eq]; simpl; set_solver.
        -- case_bool_decide; [rewrite lookup_delete_ne by done|rewrite lookup_insert_ne by done];
             set_solver.
      * intros p'. destruct (decide (p' = p)) as [->|]; case_bool_decide;
          rewrite ?lookup_insert_eq, ?lookup_delete_eq, ?lookup_insert_ne, ?lookup_delete_ne by done;
          naive_solver.
    + split; [|done]. intros p' c'. specialize (Hr p c) as Hr1. rewrite E in Hr1. simpl in Hr1.
      rewrite elem_of_difference, elem_of_singleton, Hr.
      split; [naive_solver|]. intros Hc. split; [done|]. intros [= -> ->].
      apply Hr, Hr1 in Hc. set_solver.
  - split; intros p; rewrite unsubscribe_all_lookup.
    + intros c'. rewrite elem_of_filter, Hr. destruct (m !! p) as [s|]; simpl; [|set_solver].
      case_bool_decide; simpl; set_solver.
    + destruct (m !! p) as [s|]; simpl; [|done]. case_bool_decide; [done|naive_solver].
Qed.

Lemma implements_run ops : implements (run ops) (rel_run ops).
Proof.
  unfold run, rel_run. induction ops as [|o ops IH] using rev_ind.
  - split; intros p; [intros c|]; unfold matcher_new; simpl; rewrite lookup_empty; set_solver.
  - rewrite !foldl_app. simpl. by apply implements_step.
Qed.

Lemma elem_of_match_topic t m c :
  c ∈ match_topic t m ↔ ∃ p s, m !! p = Some s ∧ pattern_matches p t = true ∧ c ∈ s.
Proof.
  unfold match_topic.
  assert (∀ l acc, c ∈ foldl (λ (matched : gset string) (kv : string * gset string),
      if pattern_matches kv.1 t then matched ∪ kv.2 else matched) acc l
    ↔ c ∈ acc ∨ ∃ p s, (p, s) ∈ l ∧ pattern_matches p t = true ∧ c ∈ s) as H.
  { induction l as [|[p s] l IH]; intros acc; simpl.
    - setoid_rewrite elem_of_nil. naive_solver.
    - rewrite IH. setoid_rewrite elem_of_cons.
      split.
      + intros [Hacc|(p' & s' & Hin & Hp & Hc)]; [|by eauto 8].
        destruct (pattern_matches p t) eqn:E; [|by auto].
        apply elem_of_union in Hacc as [?|?]; [by auto|]. right. exists p, s. auto.
      + intros [Hacc|(p' & s' & [[= -> ->]|Hin] & Hp & Hc)]; [left| |by eauto 8].
        * case_match; [by apply elem_of_union_l|done].
        * left. rewrite Hp. by apply elem_of_union_r. }
  rewrite H. setoid_rewrite elem_of_hiter. rewrite elem_of_empty. naive_solver.
Qed.

Lemma unsubscribe_all_count c m r :
  implements m r → Z.of_nat (unsubscribe_all c m).2 = Z.of_nat (size (filter (λ pc, pc.2 = c) r)).
Proof.
  intros [Hr _]. unfold unsubscribe_all. simpl. f_equal.
  set (l := List.filter _ _).
  assert (filter (λ pc : string * string, pc.2 = c) r = list_to_set ((λ p, (p, c)) <$> l.*1)) as ->.
  { apply set_eq. intros [p c']. rewrite elem_of_filter, elem_of_list_to_set, Hr, elem_of_default. simpl.
    rewrite list_elem_of_fmap. setoid_rewrite list_elem_of_fmap. split.
    - intros [-> (s & Hs & Hc)]. exists p. split; [done|]. exists (p, s). split; [done|].
      apply list_elem_of_In, filter_In. split; [apply list_elem_of_In; by apply elem_of_hiter|].
      by apply bool_decide_eq_true.
    - intros (p' & [= -> ->] & [k s] & -> & Hin). apply list_elem_of_In, filter_In in Hin as [Hin Hb].
      apply list_elem_of_In, elem_of_hiter in Hin. apply bool_decide_eq_true in Hb. eauto. }
  rewrite size_list_to_set, !length_fmap; [done|].
  apply NoDup_fmap_2; [intros ?? [= ->]; done|].
  apply NoDup_fst_filter, NoDup_fst_hiter.
Qed.

(** C36: the topic matcher implements the relation of subscribed pairs.  After any
    sequence of operations, matching a topic gives exactly the clients subscribed to a
    pattern that matches it, the registered patterns are exactly those with a subscriber,
    unsubscribing reports whether the pair was subscribed, and unsubscribing a client from
    everything reports its number of patterns. *)
Theorem topic_matcher_refines ops :
  let m := run ops in let r := rel_run ops in
  (∀ t c, c ∈ match_topic t m ↔ ∃ p, (p, c) ∈ r ∧ pattern_matches p t = true) ∧
  (∀ p, p ∈ matcher_patterns m ↔ ∃ c, (p, c) ∈ r) ∧
  (∀ p c, (unsubscribe p c m).2 = bool_decide ((p, c) ∈ r)) ∧
  (∀ c, Z.of_nat (unsubscribe_all c m).2 = Z.of_nat (size (filter (λ pc, pc.2 = c) r))).
Proof.
  cbv zeta. pose proof (implements_run ops) as [Hr Hne]. split_and!.
  - intros t c. rewrite elem_of_match_topic. setoid_rewrite Hr. setoid_rewrite elem_of_default. naive_solver.
  - intros p. unfold matcher_patterns. rewrite list_elem_of_fmap. split.
    + intros ([k s] & -> & Hs%elem_of_hiter). simpl. destruct (set_choose_or_empty s) as [[c Hc]|He].
      * exists c. apply Hr, elem_of_default. eauto.
      * apply leibniz_equiv in He as ->. by destruct (Hne k).
    + intros [c (s & Hs & _)%Hr%elem_of_default]. exists (p, s). split; [done|]. by apply elem_of_hiter.
  - intros p c. unfold unsubscribe. specialize (Hr p c).
    destruct (run ops !! p) as [s|]; simpl.
    + apply bool_decide_ext. by rewrite Hr.
    + symmetry. apply bool_decide_eq_false. rewrite Hr. set_solver.
  - intros c. apply unsubscribe_all_count, implements_run.
Qed.
End matcher.

(** * Channel manager *)

(** tokio's [broadcast]: [send] reports the number of receivers or fails without any; a
    capacity of zero panics; a receiver has a finite backlog of messages and lag notices,
    and each call takes one of them or reports that there is none. *)
Inductive Recv := RMsg (m : string) | REmpty | RLagged (n : Z) | RClosed.

Class Bcast := {
  chan : Type;
  rx : Type;
  bchannel : Z → option chan;
  bsend : chan → string → chan * option Z;
  bsubscribe : chan → chan * rx;
  btry_recv : chan → rx → rx * Recv;
  backlog : chan → rx → nat;
  backlog_decreases c r : match btry_recv c r with
    | (r', RMsg _) | (r', RLagged _) => (backlog c r' < backlog c r)%nat
    | (_, REmpty) | (_, RClosed) => True
    end
}.

Section manager.
Context `{BC : Bcast}.

Record Subscriber := mkSubscriber {
  channel_name : string;
  sub_client_id : string;
  receiver : rx;
  received_count : Z;
  missed_count : Z
}.

Definition got (s : Subscriber) (r : rx) : Subscriber :=
  mkSubscriber (channel_name s) (sub_client_id s) r (w64 (received_count s + 1)) (missed_count s).
Definition missed (n : Z) (s : Subscriber) (r : rx) : Subscriber :=
  mkSubscriber (channel_name s) (sub_client_id s) r (received_count s) (w64 (missed_count s + n)).
Definition waited (s : Subscriber) (r : rx) : Subscriber :=
  mkSubscriber (channel_name s) (sub_client_id s) r (received_count s) (missed_count s).

(** One retry after a lag; a second lag in a row is reported as no message. *)
Definition try_recv (c : chan) (s : Subscriber) : Subscriber * option string :=
  match btry_recv c (receiver s) with
  | (r, RMsg m) => (got s r, Some m)
  | (r, RLagged n) =>
      let s1 := missed n s r in
      match btry_recv c r with
      | (r', RMsg m) => (got s1 r', Some m)
      | (r', _) => (waited s1 r', None)
      end
  | (r, _) => (waited s r, None)
  end.

(** The drain loop; more rounds than the backlog change nothing ([drain_fuel]). *)
Fixpoint drain (fuel : nat) (c : chan) (s : Subscriber) : Subscriber * list string :=
  match fuel with
  | O => (s, [])
  | S fuel' =>
      match btry_recv c (receiver s) with
      | (r, RMsg m) => let '(s', ms) := drain fuel' c (got s r) in (s', m :: ms)
      | (r, RLagged n) => drain fuel' c (missed n s r)
      | (r, _) => (waited s r, [])
      end
  end.

Lemma drain_fuel n m c s :
  (backlog c (receiver s) < n)%nat → (backlog c (receiver s) < m)%nat → drain n c s = drain m c s.
Proof.
  revert m s. induction n as [|n IH]; intros [|m] s Hn Hm; [lia..|]. cbn [drain].
  pose proof (backlog_decreases c (receiver s)) as Hb.
  destruct (btry_recv c (receiver s)) as [r [msg| |k|]]; try done.
  - rewrite (IH m (got s r)); [done|simpl; lia..].
  - apply IH; simpl; lia.
Qed.

Record ChannelInner := mkChannelInner {
  sender : chan;
  subscribers : gset string;
  total_messages : Z;
  dropped_messages : Z;
  metadata : gmap string string
}.

Record ChannelManager := mkChannelManager {
  channels : gmap string ChannelInner;
  default_buffer_size : Z;
  topic_matcher : Patterns
}.

Definition manager_new (size : Z) : ChannelManager := mkChannelManager ∅ size matcher_new.

Definition set_channels (cs : gmap string ChannelInner) (m : ChannelManager) : ChannelManager :=
  mkChannelManager cs (default_buffer_size m) (topic_matcher m).

(** [None] is the panic of [broadcast::channel(0)]. *)
Definition create_channel (name : string) (buffer_size : option Z)
    (meta : option (gmap string string)) (m : ChannelManager) : option (ChannelManager * bool) :=
  if bool_decide (is_Some (channels m !! name)) then Some (m, false)
  else
    c ← bchannel (default (default_buffer_size m) buffer_size);
    Some (set_channels (<[name := mkChannelInner c ∅ 0 0 (default ∅ meta)]> (channels m)) m, true).

Definition remove_channel (name : string) (m : ChannelManager) : ChannelManager * bool :=
  (set_channels (delete name (channels m)) m, bool_decide (is_Some (channels m !! name))).

Definition has_channel (name : string) (m : ChannelManager) : bool :=
  bool_decide (is_Some (channels m !! name)).

Definition missing (name : string) : string := "Channel '" +:+ name +:+ "' does not exist".

Definition subscribe_channel (name client : string) (m : ChannelManager)
    : ChannelManager * result string Subscriber :=
  match channels m !! name with
  | None => (m, Err (missing name))
  | Some ch =>
      let '(c, r) := bsubscribe (sender ch) in
      let ch' := mkChannelInner c ({[client]} ∪ subscribers ch) (total_messages ch)
                   (dropped_messages ch) (metadata ch) in
      (mkChannelManager (<[name := ch']> (channels m)) (default_buffer_size m)
         (subscribe name client (topic_matcher m)),
       Ok (mkSubscriber name client r 0 0))
  end.

Definition unsubscribe_channel (name client : string) (m : ChannelManager)
    : ChannelManager * bool :=
  let tm := (unsubscribe name client (topic_matcher m)).1 in
  match channels m !! name with
  | Some ch =>
      let ch' := mkChannelInner (sender ch) (subscribers ch ∖ {[client]}) (total_messages ch)
                   (dropped_messages ch) (metadata ch) in
      (mkChannelManager (<[name := ch']> (channels m)) (default_buffer_size m) tm,
       bool_decide (client ∈ subscribers ch))
  | None => (mkChannelManager (channels m) (default_buffer_size m) tm, false)
  end.

Definition send_inner (ch : ChannelInner) (message : string) : ChannelInner * Z :=
  let '(c, r) := bsend (sender ch) message in
  (mkChannelInner c (subscribers ch) (w64 (total_messages ch + 1)) (dropped_messages ch)
     (metadata ch), default 0 r).

Definition publish (name message : string) (m : ChannelManager)
    : ChannelManager * result string Z :=
  match channels m !! name with
  | None => (m, Err (missing name))
  | Some ch =>
      let '(ch', n) := send_inner ch message in
      (set_channels (<[name := ch']> (channels m)) m, Ok n)
  end.

Section publish.
Context `{HI : !HashIter string ChannelInner}.

(** The topic may itself be a pattern: channels are matched in both directions. *)
Definition publish_to_topic (topic message : string) (m : ChannelManager) : ChannelManager * Z :=
  foldl (λ acc kv,
    if pattern_matches topic kv.1 || pattern_matches kv.1 topic then
      let '(ch', n) := send_inner kv.2 message in
      (set_channels (<[kv.1 := ch']> (channels acc.1)) acc.1, acc.2 + n)
    else acc) (m, 0) (hiter (channels m)).

Definition list_channels (m : ChannelManager) : list string := (hiter (channels m)).*1.
End publish.

Definition channel_count (m : ChannelManager) : nat := size (channels m).

Definition get_stats (name : string) (m : ChannelManager)
    : result string (nat * Z * Z * gmap string string) :=
  match channels m !! name with
  | Some ch => Ok (size (subscribers ch), total_messages ch, dropped_messages ch, metadata ch)
  | None => Err (missing name)
  end.

Definition get_subscribers (name : string) (m : ChannelManager) : result string (gset string) :=
  match channels m !! name with
  | Some ch => Ok (subscribers ch)
  | None => Err (missing name)
  end.

Definition clear (m : ChannelManager) : ChannelManager := set_channels ∅ m.

(** Removing a channel leaves its subscribers in the topic matcher. *)
Lemma removed_channel_still_matches `{!HashIter string (gset string)} name client m m' s :
  subscribe_channel name client m = (m', Ok s) →
  has_channel name (remove_channel name m').1 = false ∧
  client ∈ match_topic name (topic_matcher (remove_channel name m').1).
Proof.
  unfold subscribe_channel. destruct (channels m !! name) as [ch|]; [|done].
  destruct (bsubscribe (sender ch)) as [c r]. intros [= <- <-]. split.
  - unfold has_channel. simpl. by rewrite lookup_delete_eq.
  - simpl. apply elem_of_match_topic. unfold subscribe.
    exists name, ({[client]} ∪ default ∅ (topic_matcher m !! name)).
    rewrite lookup_insert_eq. split_and!; [done| |set_solver].
    unfold pattern_matches. by rewrite String.eqb_refl.
Qed.
End manager.
