(* ===== verification/Broadcast.v ===== *)
(** Broadcast channels with deduplication and backpressure policies
    (src/src/realtime/broadcast.rs), over the broadcast class of Channel.v. *)
From S2P Require Import Prelude Channel.
From stdpp Require Import base gmap strings list.
Open Scope Z_scope.

Inductive BackpressurePolicy := DropOldest | PError.

Record BroadcastConfig := mkBroadcastConfig {
  buffer_size : Z;
  policy : BackpressurePolicy;
  dedup_enabled : bool;
  dedup_window : nat
}.

Definition config_default : BroadcastConfig := mkBroadcastConfig 256 DropOldest false 1000.

Record BroadcastStats := mkBroadcastStats {
  st_sent : Z; st_dropped : Z; st_deduped : Z; st_subscribers : Z; st_channels : Z
}.

Section broadcast.
Context `{BC : Bcast}.

Record BroadcastInner := mkBroadcastInner {
  sender : chan;
  config : BroadcastConfig;
  total_sent : Z;
  total_dropped : Z;
  total_deduped : Z;
  subscriber_count : Z;
  recent_ids : list string
}.

Notation Broadcasts := (gmap string BroadcastInner).

Definition create (name : string) (cfg : option BroadcastConfig) (b : Broadcasts)
    : option (Broadcasts * bool) :=
  if bool_decide (is_Some (b !! name)) then Some (b, false)
  else
    let c := default config_default cfg in
    ch ← bchannel (buffer_size c);
    Some (<[name := mkBroadcastInner ch c 0 0 0 0 []]> b, true).

Definition remove (name : string) (b : Broadcasts) : Broadcasts * bool :=
  (delete name b, bool_decide (is_Some (b !! name))).

Definition missing (name : string) : string :=
  "Broadcast channel '" +:+ name +:+ "' does not exist".

Definition subscribe (name : string) (b : Broadcasts) : Broadcasts * result string rx :=
  match b !! name with
  | None => (b, Err (missing name))
  | Some i =>
      let '(c, r) := bsubscribe (sender i) in
      (<[name := mkBroadcastInner c (config i) (total_sent i) (total_dropped i) (total_deduped i)
           (w64 (subscriber_count i + 1)) (recent_ids i)]> b, Ok r)
  end.

(** [recent.push(id)], then [drain(0..excess)] beyond the window. *)
Definition push_id (window : nat) (recent : list string) (id : string) : list string :=
  let l := recent ++ [id] in drop (length l - window) l.

(** The deduplication check: [None] skips the message. *)
Definition dedup (i : BroadcastInner) (message_id : option string) : option (list string) :=
  match message_id with
  | Some id =>
      if dedup_enabled (config i) then
        if bool_decide (id ∈ recent_ids i) then None
        else Some (push_id (dedup_window (config i)) (recent_ids i) id)
      else Some (recent_ids i)
  | None => Some (recent_ids i)
  end.

Definition send_inner (i : BroadcastInner) (message : string) (message_id : option string)
    : BroadcastInner * result string Z :=
  match dedup i message_id with
  | None =>
      (mkBroadcastInner (sender i) (config i) (total_sent i) (total_dropped i)
         (w64 (total_deduped i + 1)) (subscriber_count i) (recent_ids i), Ok 0)
  | Some recent =>
      let sent := w64 (total_sent i + 1) in
      match bsend (sender i) message with
      | (c, Some n) =>
          (mkBroadcastInner c (config i) sent (total_dropped i) (total_deduped i)
             (subscriber_count i) recent, Ok n)
      | (c, None) =>
          match policy (config i) with
          | PError =>
              (mkBroadcastInner c (config i) sent (total_dropped i) (total_deduped i)
                 (subscriber_count i) recent, Err "No active subscribers")
          | DropOldest =>
              (mkBroadcastInner c (config i) sent (w64 (total_dropped i + 1)) (total_deduped i)
                 (subscriber_count i) recent, Ok 0)
          end
      end
  end.

Definition send (name message : string) (message_id : option string) (b : Broadcasts)
    : Broadcasts * result string Z :=
  match b !! name with
  | None => (b, Err (missing name))
  | Some i => let '(i', r) := send_inner i message message_id in (<[name := i']> b, r)
  end.

(** [send_many] bypasses deduplication, policy and the dropped counter. *)
Definition send_many (names : list string) (message : string) (b : Broadcasts)
    : Broadcasts * gmap string Z :=
  foldl (λ acc name,
    match acc.1 !! name with
    | None => acc
    | Some i =>
        let '(c, r) := bsend (sender i) message in
        (<[name := mkBroadcastInner c (config i) (w64 (total_sent i + 1)) (total_dropped i)
             (total_deduped i) (subscriber_count i) (recent_ids i)]> acc.1,
         <[name := default 0 r]> acc.2)
    end) (b, ∅) names.

Definition stats (name : string) (b : Broadcasts) : result string BroadcastStats :=
  match b !! name with
  | None => Err (missing name)
  | Some i => Ok (mkBroadcastStats (total_sent i) (total_dropped i) (total_deduped i)
                    (subscriber_count i) 1)
  end.

Definition add_stats (s : BroadcastStats) (i : BroadcastInner) : BroadcastStats :=
  mkBroadcastStats (w64 (st_sent s + total_sent i)) (w64 (st_dropped s + total_dropped i))
    (w64 (st_deduped s + total_deduped i)) (w64 (st_subscribers s + subscriber_count i))
    (st_channels s).

Definition global_stats `{!HashIter string BroadcastInner} (b : Broadcasts) : BroadcastStats :=
  foldl (λ s kv, add_stats s kv.2) (mkBroadcastStats 0 0 0 0 (Z.of_nat (size b))) (hiter b).

Definition has_channel (name : string) (b : Broadcasts) : bool :=
  bool_decide (is_Some (b !! name)).
Definition clear (b : Broadcasts) : Broadcasts := ∅.

(** ** Deduplication *)

(** A sequence of sends with ids on one channel: which ids were passed on. *)
Fixpoint accepted (i : BroadcastInner) (msgs : list (string * string)) : list string :=
  match msgs with
  | [] => []
  | (message, id) :: msgs' =>
      let pass := match dedup i (Some id) with Some _ => [id] | None => [] end in
      pass ++ accepted (send_inner i message (Some id)).1 msgs'
  end.

Definition send_all (i : BroadcastInner) (msgs : list (string * string)) : BroadcastInner :=
  foldl (λ i m, (send_inner i m.1 (Some m.2)).1) i msgs.

Lemma config_send_all msgs i : config (send_all i msgs) = config i.
Proof.
  revert i. induction msgs as [|[m d] msgs IH]; intros i; [done|]. simpl. rewrite IH.
  unfold send_inner. by repeat case_match.
Qed.

(** The last [n] elements. *)
Definition last_n (n : nat) (l : list string) : list string := drop (length l - n) l.

Lemma push_last_n n l id : push_id n (last_n n l) id = last_n n (l ++ [id]).
Proof.
  unfold push_id, last_n. rewrite !length_app, length_drop. simpl.
  destruct n as [|n]; [rewrite !drop_ge; [done|rewrite length_app; simpl; lia|
    rewrite length_app, length_drop; simpl; lia]|].
  destruct (decide (S n ≤ length l)%nat).
  - replace (length l - (length l - S n) + 1 - S n)%nat with 1%nat by lia.
    replace (length l + 1 - S n)%nat with (length l - S n + 1)%nat by lia.
    rewrite !drop_app_le by (rewrite ?length_drop; lia). by rewrite drop_drop.
  - replace (length l - S n)%nat with 0%nat by lia. rewrite drop_0. f_equal. lia.
Qed.

Lemma send_inner_recent i message id :
  let i' := (send_inner i message (Some id)).1 in
  config i' = config i ∧ recent_ids i' = default (recent_ids i) (dedup i (Some id)).
Proof.
  unfold send_inner. destruct (dedup i (Some id)) as [r|]; simpl; [|done].
  by destruct (bsend (sender i) message) as [c [n|]]; [|destruct (policy (config i))].
Qed.

Lemma NoDup_last_n n l id :
  NoDup (last_n n l) → id ∉ last_n n l → NoDup (last_n n (l ++ [id])).
Proof.
  intros Hnd Hid. rewrite <- push_last_n. unfold push_id.
  eapply sublist_NoDup; [|apply sublist_drop].
  apply NoDup_app. split_and!; [done|set_solver|apply NoDup_singleton].
Qed.

Lemma recent_accepted msgs i acc :
  dedup_enabled (config i) = true → recent_ids i = last_n (dedup_window (config i)) acc →
  NoDup (recent_ids i) →
  recent_ids (send_all i msgs) = last_n (dedup_window (config i)) (acc ++ accepted i msgs) ∧
  NoDup (recent_ids (send_all i msgs)).
Proof.
  revert i acc. induction msgs as [|[message id] msgs IH]; intros i acc He Hr Hnd; simpl.
  { by rewrite app_nil_r. }
  destruct (send_inner_recent i message id) as [Hc Hr']. simpl in Hc, Hr'.
  rewrite app_assoc, <- Hc. apply IH; rewrite ?Hc; [done|..]; rewrite Hr'; unfold dedup; rewrite He;
    case_bool_decide as Hin; simpl.
  - by rewrite app_nil_r.
  - by rewrite Hr, push_last_n.
  - done.
  - rewrite Hr in *. rewrite push_last_n. by apply NoDup_last_n.
Qed.

(** deduplication.  From a fresh channel with deduplication, whatever is sent under
    whatever ids, the remembered ids are exactly the last [dedup_window] ids that were
    passed on, without repetition, and the next message is skipped (nothing reaches the
    channel, the result is zero receivers) iff its id is one of them. *)
Theorem dedup_window_spec c cfg msgs message id :
  dedup_enabled cfg = true →
  let i0 := mkBroadcastInner c cfg 0 0 0 0 [] in
  let i := send_all i0 msgs in
  let window := last_n (dedup_window cfg) (accepted i0 msgs) in
  recent_ids i = window ∧ NoDup window ∧ (length window ≤ dedup_window cfg)%nat ∧
  (id ∈ window → (send_inner i message (Some id)).2 = Ok 0 ∧
                 sender (send_inner i message (Some id)).1 = sender i) ∧
  (id ∉ window → (send_inner i message (Some id)).2 =
     match (bsend (sender i) message).2, policy cfg with
     | Some n, _ => Ok n
     | None, DropOldest => Ok 0
     | None, PError => Err "No active subscribers"
     end).
Proof.
  intros He i0 i window.
  destruct (recent_accepted msgs i0 [] He) as [Hr Hnd]; [done|apply NoDup_nil_2|].
  fold i in Hr, Hnd. simpl in Hr. fold window in Hr. rewrite Hr in Hnd.
  assert (config i = cfg) as Hcfg by (unfold i; by rewrite config_send_all).
  split_and!; [done|done|..].
  - unfold window, last_n. rewrite length_drop. lia.
  - intros Hin. unfold send_inner, dedup. rewrite Hcfg, He, Hr. by rewrite bool_decide_eq_true_2.
  - intros Hin. unfold send_inner, dedup. rewrite Hcfg, He, Hr. rewrite bool_decide_eq_false_2 by done.
    destruct (bsend (sender i) message) as [c' [n|]]; [done|]. by destruct (policy cfg).
Qed.

(** a failed send is not retried.  Under the error policy, a send with a new id that
    fails for lack of subscribers has already recorded the id, so sending it again, however
    many subscribers have arrived meanwhile (and as long as nothing else was sent), reports
    zero receivers and delivers nothing. *)
Theorem failed_send_swallows_retry i message id sender' subs :
  dedup_enabled (config i) = true → policy (config i) = PError →
  (0 < dedup_window (config i))%nat → id ∉ recent_ids i →
  (bsend (sender i) message).2 = None →
  let i1 := (send_inner i message (Some id)).1 in
  let i2 := mkBroadcastInner sender' (config i1) (total_sent i1) (total_dropped i1)
              (total_deduped i1) subs (recent_ids i1) in
  (send_inner i message (Some id)).2 = Err "No active subscribers" ∧
  (send_inner i2 message (Some id)).2 = Ok 0 ∧
  sender (send_inner i2 message (Some id)).1 = sender'.
Proof.
  intros He Hp Hw Hid Hs i1 i2.
  assert (dedup i (Some id) = Some (push_id (dedup_window (config i)) (recent_ids i) id)) as Hd
    by (unfold dedup; rewrite He; by rewrite bool_decide_eq_false_2).
  destruct (send_inner_recent i message id) as [Hc Hr]. fold i1 in Hc, Hr.
  rewrite Hd in Hr. cbn in Hr.
  assert (dedup i2 (Some id) = None) as Hd2.
  { unfold dedup. simpl. rewrite Hc, He, Hr. rewrite bool_decide_eq_true_2; [done|].
    unfold push_id. rewrite drop_app_le by (rewrite length_app; simpl; lia). set_solver. }
  split_and!; [|by unfold send_inner; rewrite Hd2..].
  unfold send_inner. rewrite Hd. destruct (bsend (sender i) message) as [c [n|]]; [done|].
  by rewrite Hp.
Qed.
End broadcast.

(** * Witnesses *)

(** A broadcast channel that keeps what was sent and counts its receivers. *)
#[refine] Instance counting_Bcast : Bcast := {
  chan := Z * list string;
  rx := nat;
  bchannel cap := if 0 <? cap then Some (0, []) else None;
  bsend c m := (if 0 <? c.1 then (c.1, c.2 ++ [m]) else c, if 0 <? c.1 then Some c.1 else None);
  bsubscribe c := ((c.1 + 1, c.2), length c.2);
  btry_recv c r := match c.2 !! r with Some m => (S r, RMsg m) | None => (r, REmpty) end;
  backlog c r := (length c.2 - r)%nat
}.
Proof.
  intros c r. destruct (c.2 !! r) eqn:E; [|done]. apply lookup_lt_Some in E. lia.
Defined.

Definition demo_config : BroadcastConfig := mkBroadcastConfig 8 PError true 2.

Lemma dedup_window_spec_witness :
  recent_ids (send_all (mkBroadcastInner (1, []) demo_config 0 0 0 0 [])
                [("a", "1"); ("b", "2"); ("a", "1"); ("c", "3")]) = ["2"; "3"].
Proof.
  refine (proj1 (dedup_window_spec (1, []) demo_config
    [("a", "1"); ("b", "2"); ("a", "1"); ("c", "3")] "m" "9" _)). reflexivity.
Defined.

Lemma failed_send_swallows_retry_witness :
  (send_inner (mkBroadcastInner (5, []) demo_config 1 0 0 5
     (recent_ids (send_inner (mkBroadcastInner (0, []) demo_config 0 0 0 0 []) "m" (Some "1")).1))
     "m" (Some "1")).2 = Ok 0.
Proof.
  refine (proj1 (proj2 (failed_send_swallows_retry (mkBroadcastInner (0, []) demo_config 0 0 0 0 [])
    "m" "1" (5, []) 5 _ _ _ _ _))); try reflexivity; [simpl; lia|set_solver].
Defined.
