(* ===== verification/Subscribers.v ===== *)
(** The receiving side of the realtime channels: [Subscriber] of src/src/realtime/channel.rs (its
    [try_recv] and [drain] are in Channel.v) and [BroadcastSubscriber] of
    src/src/realtime/broadcast.rs, over a broadcast channel whose ring overwrites old messages. *)
From S2P Require Import Prelude Channel.
From stdpp Require Import base strings list.
Open Scope Z_scope.

(** tokio's [broadcast] for a receiver: the messages it can still take, oldest first, and how many
    were overwritten before it took them.  A receiver that is behind is told so once, with that
    number, and goes on with the oldest message that is left. *)
Class RingBcast `{BC : Bcast} := {
  pending : chan → rx → list string;
  behind : chan → rx → Z;
  live : chan → rx → Prop;
  ring_subscribe c : live (bsubscribe c).1 (bsubscribe c).2 ∧
                     pending (bsubscribe c).1 (bsubscribe c).2 = [] ∧
                     behind (bsubscribe c).1 (bsubscribe c).2 = 0;
  ring_send c m r : live c r → let c' := (bsend c m).1 in
    live c' r ∧
    behind c' r + Z.of_nat (length (pending c' r)) = behind c r + Z.of_nat (length (pending c r)) + 1 ∧
    pending c' r `suffix_of` pending c r ++ [m];
  ring_recv c r : live c r → live c (btry_recv c r).1 ∧ match btry_recv c r with
    | (r', RLagged n) => 0 < behind c r ∧ n = behind c r ∧ behind c r' = 0 ∧ pending c r' = pending c r
    | (r', RMsg m) => behind c r = 0 ∧ behind c r' = 0 ∧ pending c r = m :: pending c r'
    | (r', _) => behind c r = 0 ∧ behind c r' = 0 ∧ pending c r = [] ∧ pending c r' = []
    end
}.

Section subscriber.
Context `{RB : RingBcast}.

Record BroadcastSubscriber := mkBroadcastSubscriber {
  bs_channel_name : string;
  bs_receiver : rx;
  bs_received : Z;
  bs_lagged : Z
}.

Definition bs_got (s : BroadcastSubscriber) (r : rx) : BroadcastSubscriber :=
  mkBroadcastSubscriber (bs_channel_name s) r (w64 (bs_received s + 1)) (bs_lagged s).
Definition bs_missed (n : Z) (s : BroadcastSubscriber) (r : rx) : BroadcastSubscriber :=
  mkBroadcastSubscriber (bs_channel_name s) r (bs_received s) (w64 (bs_lagged s + n)).
Definition bs_waited (s : BroadcastSubscriber) (r : rx) : BroadcastSubscriber :=
  mkBroadcastSubscriber (bs_channel_name s) r (bs_received s) (bs_lagged s).

Definition bs_try_recv (c : chan) (s : BroadcastSubscriber) : BroadcastSubscriber * option string :=
  match btry_recv c (bs_receiver s) with
  | (r, RMsg m) => (bs_got s r, Some m)
  | (r, RLagged n) =>
      let s1 := bs_missed n s r in
      match btry_recv c r with
      | (r', RMsg m) => (bs_got s1 r', Some m)
      | (r', _) => (bs_waited s1 r', None)
      end
  | (r, _) => (bs_waited s r, None)
  end.

(** As for [Channel.drain], more rounds than the backlog change nothing. *)
Fixpoint bs_drain (fuel : nat) (c : chan) (s : BroadcastSubscriber) : BroadcastSubscriber * list string :=
  match fuel with
  | O => (s, [])
  | S fuel' =>
      match btry_recv c (bs_receiver s) with
      | (r, RMsg m) => let '(s', ms) := bs_drain fuel' c (bs_got s r) in (s', m :: ms)
      | (r, RLagged n) => bs_drain fuel' c (bs_missed n s r)
      | (r, _) => (bs_waited s r, [])
      end
  end.

(** * A subscriber among the senders *)

Inductive sub_op := OSend (m : string) | OTryRecv | ODrain.

(** The channel, the subscriber, what was sent since it subscribed and what it was given. *)
Record Sub := mkSub { sub_chan : chan; sub_handle : Subscriber; sub_sent : list string; sub_given : list string }.

Definition sub_step (o : sub_op) (x : Sub) : Sub :=
  match o with
  | OSend m => mkSub (bsend (sub_chan x) m).1 (sub_handle x) (sub_sent x ++ [m]) (sub_given x)
  | OTryRecv =>
      let '(s, m) := try_recv (sub_chan x) (sub_handle x) in
      mkSub (sub_chan x) s (sub_sent x) (sub_given x ++ option_list m)
  | ODrain =>
      let '(s, ms) := drain (S (backlog (sub_chan x) (receiver (sub_handle x)))) (sub_chan x) (sub_handle x) in
      mkSub (sub_chan x) s (sub_sent x) (sub_given x ++ ms)
  end.

Definition sub_run (ops : list sub_op) (x : Sub) : Sub := foldl (λ x o, sub_step o x) x ops.

Definition sub_new (c : chan) (name client : string) : Sub :=
  let '(c', r) := bsubscribe c in mkSub c' (mkSubscriber name client r 0 0) [] [].

(** * Proofs *)

Notation waiting c s := (pending c (receiver s)).

(** What a receive call does with [given] messages. *)
Definition took (c : chan) (s s' : Subscriber) (given : list string) : Prop :=
  live c (receiver s') ∧
  waiting c s = given ++ waiting c s' ∧
  received_count s' = w64 (received_count s + Z.of_nat (length given)) ∧
  missed_count s' = w64 (missed_count s + (behind c (receiver s) - behind c (receiver s'))).

Lemma w64_plus a b : w64 (w64 a + b) = w64 (a + b).
Proof. unfold w64. apply Zplus_mod_idemp_l. Qed.

Definition counted (c : chan) (s : Subscriber) : Prop :=
  live c (receiver s) ∧ is_u64 (received_count s) ∧ is_u64 (missed_count s).

Lemma took_counted c s s' g : took c s s' g → counted c s'.
Proof. unfold counted. intros (? & _ & -> & ->). split_and!; [done|apply w64_range..]. Qed.

Lemma took_trans c s1 s2 s3 g1 g2 : took c s1 s2 g1 → took c s2 s3 g2 → took c s1 s3 (g1 ++ g2).
Proof.
  intros (_ & H1 & H2 & H3) (? & H4 & H5 & H6). unfold took. rewrite H5, H6, H2, H3, !w64_plus, length_app.
  split_and!; [done|by rewrite H1, H4, (assoc_L (++))|f_equal; lia|f_equal; lia].
Qed.

(** One call of the channel's [try_recv]. *)
Lemma took_recv c s :
  counted c s →
  match btry_recv c (receiver s) with
  | (r, RMsg m) => took c s (got s r) [m]
  | (r, RLagged n) => took c s (missed n s r) [] ∧ behind c r = 0
  | (r, _) => took c s (waited s r) [] ∧ waiting c s = [] ∧ behind c (receiver s) = 0 ∧ behind c r = 0
  end.
Proof.
  intros (Hl & Hr & Hm). pose proof (ring_recv c (receiver s) Hl) as [Hl' H].
  destruct (btry_recv c (receiver s)) as [r [m| |n|]]; unfold took; cbn [fst] in Hl';
    cbn [got missed waited receiver received_count missed_count length app].
  - destruct H as (H1 & H2 & H3). rewrite H1, H2, Z.sub_0_r, Z.add_0_r.
    split_and!; [done|done|done|by rewrite w64_id].
  - destruct H as (H1 & H2 & H3 & H4). rewrite H1, H2, H3, H4, !Z.add_0_r, !w64_id by done. done.
  - destruct H as (H1 & H2 & H3 & H4). rewrite H2, H3, H4, Z.sub_0_r, Z.add_0_r, w64_id by done. done.
  - destruct H as (H1 & H2 & H3 & H4). rewrite H1, H2, H3, H4, !Z.add_0_r, !w64_id by done. done.
Qed.

Lemma took_try_recv c s :
  counted c s → let '(s', m) := try_recv c s in took c s s' (option_list m) ∧ (m = None → waiting c s = []).
Proof.
  intros Hc. unfold try_recv. pose proof (took_recv c s Hc) as H.
  destruct (btry_recv c (receiver s)) as [r [m| |n|]]; cbn [option_list];
    [by split|by destruct H as (? & ? & _)| |by destruct H as (? & ? & _)].
  destruct H as [H Hb]. pose proof (took_recv c (missed n s r) (took_counted _ _ _ _ H)) as H'.
  cbn [receiver missed] in H'.
  destruct (btry_recv c r) as [r' [m| |n'|]] eqn:E; cbn [option_list].
  - split; [by apply (took_trans _ _ _ _ _ _ H H')|done].
  - destruct H' as (H1 & H2 & _). split; [by apply (took_trans _ _ _ _ _ _ H H1)|]. intros _.
    destruct H as (_ & H & _). by rewrite H.
  - destruct (ring_recv c r (proj1 H)) as [_ Hr]. rewrite E in Hr. lia.
  - destruct H' as (H1 & H2 & _). split; [by apply (took_trans _ _ _ _ _ _ H H1)|]. intros _.
    destruct H as (_ & H & _). by rewrite H.
Qed.

Lemma took_drain fuel c s :
  counted c s → (backlog c (receiver s) < fuel)%nat →
  let '(s', ms) := drain fuel c s in took c s s' ms ∧ waiting c s' = [] ∧ behind c (receiver s') = 0.
Proof.
  revert s. induction fuel as [|fuel IH]; intros s Hc Hf; [lia|]. cbn [drain].
  pose proof (took_recv c s Hc) as H. pose proof (backlog_decreases c (receiver s)) as Hd.
  destruct (btry_recv c (receiver s)) as [r [m| |n|]].
  - specialize (IH (got s r) (took_counted _ _ _ _ H)). cbn [receiver got] in IH.
    specialize (IH ltac:(lia)). destruct (drain fuel c (got s r)) as [s' ms].
    destruct IH as (H1 & H2 & H3). split_and!; [|done|done]. exact (took_trans _ _ _ _ _ _ H H1).
  - destruct H as (H1 & H2 & H3 & H4). split_and!; [done| |done]. destruct H1 as (_ & H1 & _). by rewrite H1 in H2.
  - destruct H as [H Hb]. specialize (IH (missed n s r) (took_counted _ _ _ _ H)). cbn [receiver missed] in IH.
    specialize (IH ltac:(lia)). destruct (drain fuel c (missed n s r)) as [s' ms].
    destruct IH as (H1 & H2 & H3). split_and!; [|done|done]. exact (took_trans _ _ _ _ _ _ H H1).
  - destruct H as (H1 & H2 & H3 & H4). split_and!; [done| |done]. destruct H1 as (_ & H1 & _). by rewrite H1 in H2.
Qed.

(** What was sent is what was given, what was missed and what is still there. *)
Definition sub_inv (x : Sub) : Prop :=
  let c := sub_chan x in let s := sub_handle x in
  counted c s ∧
  (sub_given x ++ waiting c s) `sublist_of` sub_sent x ∧
  received_count s = w64 (Z.of_nat (length (sub_given x))) ∧
  missed_count s = w64 (Z.of_nat (length (sub_sent x)) - Z.of_nat (length (sub_given x))
                        - Z.of_nat (length (waiting c s)) - behind c (receiver s)).

Lemma sub_inv_took x s' g :
  sub_inv x → took (sub_chan x) (sub_handle x) s' g →
  sub_inv (mkSub (sub_chan x) s' (sub_sent x) (sub_given x ++ g)).
Proof.
  intros (Hc & Hsub & Hr & Hm) Ht. pose proof (took_counted _ _ _ _ Ht) as Hc'.
  destruct Ht as (_ & H1 & H2 & H3). unfold sub_inv. cbn [sub_chan sub_handle sub_sent sub_given].
  split_and!; [done|by rewrite <- (assoc_L (++)), <- H1| |].
  - rewrite H2, Hr, w64_plus, length_app. f_equal. lia.
  - rewrite H3, Hm, w64_plus, H1, !length_app. f_equal. lia.
Qed.

Lemma sub_inv_step o x : sub_inv x → sub_inv (sub_step o x).
Proof.
  intros Hx. destruct o as [m| |]; cbn [sub_step].
  - destruct Hx as (Hc & Hsub & Hr & Hm). destruct (ring_send (sub_chan x) m _ (proj1 Hc)) as (Hl & Hn & Hs).
    unfold sub_inv. cbn [sub_chan sub_handle sub_sent sub_given]. split_and!; [by destruct Hc| |done|].
    + transitivity (sub_given x ++ waiting (sub_chan x) (sub_handle x) ++ [m]).
      * apply sublist_app; [done|]. destruct Hs as [k Hk]. rewrite Hk. by apply sublist_inserts_l.
      * rewrite (assoc_L (++)). by apply sublist_app.
    + rewrite Hm, length_app. cbn [length]. f_equal. lia.
  - pose proof (took_try_recv (sub_chan x) (sub_handle x) (proj1 Hx)) as H.
    destruct (try_recv (sub_chan x) (sub_handle x)) as [s m].
    destruct H as [H _]. by apply (sub_inv_took _ _ _ Hx H).
  - pose proof (took_drain _ (sub_chan x) (sub_handle x) (proj1 Hx) (Nat.lt_succ_diag_r _)) as H.
    destruct (drain _ (sub_chan x) (sub_handle x)) as [s ms].
    destruct H as [H _]. by apply (sub_inv_took _ _ _ Hx H).
Qed.

Lemma sub_inv_run ops x : sub_inv x → sub_inv (sub_run ops x).
Proof. revert x. induction ops as [|o ops IH]; intros x Hx; [done|]. by apply IH, sub_inv_step. Qed.

Lemma sub_inv_new c name client : sub_inv (sub_new c name client).
Proof.
  unfold sub_new. destruct (ring_subscribe c) as (Hl & Hp & Hb). destruct (bsubscribe c) as [c' r]. cbn [fst snd] in *.
  unfold sub_inv. cbn [sub_chan sub_handle sub_sent sub_given receiver received_count missed_count length app].
  rewrite Hp, Hb. by split_and!.
Qed.

(** C22: A subscriber loses nothing silently.  However sends and receive calls interleave, the messages
    it is given are the ones sent since it subscribed, in order, without repetition, and its
    counters account for all of them: given, missed, overwritten since the last call and waiting
    add up to what was sent.  [drain] leaves nothing waiting, and [try_recv] answers [None] only
    when nothing is. *)
Theorem subscriber_accounts c name client ops :
  let x := sub_run ops (sub_new c name client) in
  let s := sub_handle x in
  let waiting := pending (sub_chan x) (receiver s) in
  (sub_given x ++ waiting) `sublist_of` sub_sent x ∧
  received_count s = w64 (Z.of_nat (length (sub_given x))) ∧
  missed_count s = w64 (Z.of_nat (length (sub_sent x)) - Z.of_nat (length (sub_given x))
                        - Z.of_nat (length waiting) - behind (sub_chan x) (receiver s)) ∧
  sub_given (sub_step ODrain x) = sub_given x ++ waiting ∧
  ((try_recv (sub_chan x) s).2 = None → waiting = []).
Proof.
  intros x s w. destruct (sub_inv_run ops _ (sub_inv_new c name client)) as (Hc & H1 & H2 & H3).
  fold x in Hc, H1, H2, H3. fold s in Hc, H1, H2, H3. fold w in H1, H3. split_and!; [done..| |].
  - cbn [sub_step]. fold s.
    pose proof (took_drain _ (sub_chan x) s Hc (Nat.lt_succ_diag_r _)) as H.
    destruct (drain _ (sub_chan x) s) as [s' ms]. cbn [sub_given].
    destruct H as ((_ & H & _) & H' & _). fold w in H. by rewrite H, H', app_nil_r.
  - pose proof (took_try_recv (sub_chan x) s Hc) as H. destruct (try_recv (sub_chan x) s) as [s' m].
    cbn [snd]. intros ->. by apply H.
Qed.

(** The two subscriber types behave alike. *)
Definition as_subscriber (client : string) (s : BroadcastSubscriber) : Subscriber :=
  mkSubscriber (bs_channel_name s) client (bs_receiver s) (bs_received s) (bs_lagged s).

Lemma bs_try_recv_alike c client s :
  try_recv c (as_subscriber client s) =
    (as_subscriber client (bs_try_recv c s).1, (bs_try_recv c s).2).
Proof.
  unfold try_recv, bs_try_recv. cbn [as_subscriber receiver].
  destruct (btry_recv c (bs_receiver s)) as [r [m| |n|]]; try done.
  by destruct (btry_recv c r) as [r' [m| |n'|]].
Qed.

Lemma bs_drain_alike fuel c client s :
  drain fuel c (as_subscriber client s) =
    (as_subscriber client (bs_drain fuel c s).1, (bs_drain fuel c s).2).
Proof.
  revert s. induction fuel as [|fuel IH]; intros s; [done|]. cbn [drain bs_drain]. cbn [as_subscriber receiver].
  destruct (btry_recv c (bs_receiver s)) as [r [m| |n|]]; try done.
  - change (got _ r) with (as_subscriber client (bs_got s r)). rewrite IH. by destruct (bs_drain fuel c (bs_got s r)).
  - change (missed n _ r) with (as_subscriber client (bs_missed n s r)). by rewrite IH.
Qed.
End subscriber.

(** * A ring of two messages *)

#[refine] Instance ring_Bcast : Bcast := {
  chan := list string;
  rx := nat;
  bchannel cap := if 0 <? cap then Some [] else None;
  bsend c m := (c ++ [m], Some 1);
  bsubscribe c := (c, length c);
  btry_recv c r :=
    if (r <? length c - 2)%nat then ((length c - 2)%nat, RLagged (Z.of_nat (length c - 2 - r)))
    else match c !! r with Some m => (S r, RMsg m) | None => (r, REmpty) end;
  backlog c r := (length c - r)%nat
}.
Proof.
  intros c r. destruct (Nat.ltb_spec r (length c - 2)); [lia|].
  destruct (c !! r) eqn:E; [|done]. apply lookup_lt_Some in E. lia.
Defined.

Lemma drop_snoc_suffix {A} (l : list A) x n k :
  (n ≤ k)%nat → drop k (l ++ [x]) `suffix_of` drop n l ++ [x].
Proof.
  intros Hn. destruct (decide (n ≤ length l)%nat).
  - rewrite <- drop_app_le by done. replace k with (n + (k - n))%nat by lia. rewrite <- drop_drop.
    eexists (take (k - n) _). by rewrite take_drop.
  - rewrite drop_ge by (rewrite length_app; cbn; lia). apply suffix_nil.
Qed.

#[refine] Instance ring_RingBcast : RingBcast := {
  pending c r := drop (Nat.max r (length c - 2)) c;
  behind c r := Z.of_nat (length c - 2 - r);
  live c r := (r ≤ length c)%nat
}.
Proof.
  - intros c. cbn. rewrite drop_ge by lia. split_and!; [done|done|lia].
  - intros c m r Hr. cbn [bsend ring_Bcast fst snd]. rewrite !length_drop, length_app. cbn [length].
    split_and!; [lia|lia|apply drop_snoc_suffix; lia].
  - intros c r Hr. cbn [btry_recv ring_Bcast]. destruct (Nat.ltb_spec r (length c - 2)).
    + cbn [fst]. rewrite Nat.max_id, Nat.max_r by lia. split_and!; try done; lia.
    + match goal with |- context [match ?o with Some _ => _ | None => _ end] => destruct o eqn:E end; cbn [fst].
      * pose proof (lookup_lt_Some _ _ _ E). rewrite !Nat.max_l by lia. rewrite (drop_S _ _ _ E).
        split_and!; try done; lia.
      * apply lookup_ge_None in E. rewrite drop_ge by lia. split_and!; try done; lia.
Defined.

(** Three messages overflow the ring: the first is counted as missed, the rest is given in order. *)
Example lagging_subscriber :
  let x := sub_run [OSend "a"; OSend "b"; OSend "c"; OTryRecv; OSend "d"; ODrain] (sub_new [] "room" "client") in
  sub_given x = ["b"; "c"; "d"] ∧ missed_count (sub_handle x) = 1 ∧ received_count (sub_handle x) = 3.
Proof. vm_compute. done. Qed.
