(* ===== verification/Heartbeat.v ===== *)
(** Heartbeat monitoring (src/src/realtime/heartbeat.rs): ping/pong bookkeeping, timeout
    detection, eviction and the SSE keep-alive texts.  The clock ([now_secs], an [f64] of
    seconds) is an argument of each call. *)
From S2P Require Import Prelude F64.
From Stdlib Require Import SpecFloat.
From stdpp Require Import base gmap strings list.
Open Scope Z_scope.

Record HeartbeatConfig := mkHeartbeatConfig {
  interval_secs : f64;
  timeout_secs : f64;
  max_retries : Z;
  sse_retry_ms : Z;
  send_keepalive : bool
}.

Definition config_default : HeartbeatConfig :=
  mkHeartbeatConfig (f64_of_Z 30) (f64_of_Z 90) 5 3000 true.

Record ClientHeartbeat := mkClientHeartbeat {
  last_ping : f64;
  last_pong : f64;
  retries : Z;
  alive : bool;
  last_event_id : option string
}.

Notation Clients := (gmap string ClientHeartbeat).

Record HeartbeatMonitor := mkHeartbeatMonitor {
  config : HeartbeatConfig;
  clients : Clients;
  total_pings : Z;
  total_pongs : Z;
  total_timeouts : Z
}.

Definition monitor_new (c : option HeartbeatConfig) : HeartbeatMonitor :=
  mkHeartbeatMonitor (default config_default c) ∅ 0 0 0.

Definition set_clients (cs : Clients) (m : HeartbeatMonitor) : HeartbeatMonitor :=
  mkHeartbeatMonitor (config m) cs (total_pings m) (total_pongs m) (total_timeouts m).

Definition register (now : f64) (id : string) (eid : option string) (m : HeartbeatMonitor)
    : HeartbeatMonitor :=
  set_clients (<[id := mkClientHeartbeat now now 0 true eid]> (clients m)) m.

Definition unregister (id : string) (m : HeartbeatMonitor) : HeartbeatMonitor * bool :=
  (set_clients (delete id (clients m)) m, bool_decide (is_Some (clients m !! id))).

Definition ping (now : f64) (id : string) (m : HeartbeatMonitor) : HeartbeatMonitor * bool :=
  match clients m !! id with
  | Some c =>
      (mkHeartbeatMonitor (config m)
         (<[id := mkClientHeartbeat now (last_pong c) (retries c) (alive c) (last_event_id c)]>
            (clients m)) (w64 (total_pings m + 1)) (total_pongs m) (total_timeouts m), true)
  | None => (m, false)
  end.

Definition pong (now : f64) (id : string) (m : HeartbeatMonitor) : HeartbeatMonitor * bool :=
  match clients m !! id with
  | Some c =>
      (mkHeartbeatMonitor (config m)
         (<[id := mkClientHeartbeat (last_ping c) now 0 true (last_event_id c)]> (clients m))
         (total_pings m) (w64 (total_pongs m + 1)) (total_timeouts m), true)
  | None => (m, false)
  end.

(** The test of [check_timeouts]: the pong is older than the timeout. *)
Definition expired (m : HeartbeatMonitor) (now : f64) (c : ClientHeartbeat) : bool :=
  f64_gt (f64_sub now (last_pong c)) (timeout_secs (config m)).

Definition times_out (m : HeartbeatMonitor) (now : f64) (c : ClientHeartbeat) : bool :=
  expired m now c && alive c.

Definition set_last_event_id (id eid : string) (m : HeartbeatMonitor) : HeartbeatMonitor * bool :=
  match clients m !! id with
  | Some c =>
      (set_clients (<[id := mkClientHeartbeat (last_ping c) (last_pong c) (retries c) (alive c)
         (Some eid)]> (clients m)) m, true)
  | None => (m, false)
  end.

Definition get_last_event_id (id : string) (m : HeartbeatMonitor) : option string :=
  c ← clients m !! id; last_event_id c.
Definition is_timed_out (id : string) (m : HeartbeatMonitor) : bool :=
  match clients m !! id with Some c => negb (alive c) | None => true end.
Definition is_alive (id : string) (m : HeartbeatMonitor) : bool :=
  match clients m !! id with Some c => alive c | None => false end.
Definition retry_count (id : string) (m : HeartbeatMonitor) : Z :=
  match clients m !! id with Some c => retries c | None => 0 end.
Definition clear (m : HeartbeatMonitor) : HeartbeatMonitor := set_clients ∅ m.
Definition client_count (m : HeartbeatMonitor) : nat := size (clients m).

Definition nl : string := String lf EmptyString.
Definition sse_keepalive_comment : string := ": keepalive" +:+ nl +:+ nl.
Definition sse_retry_field (m : HeartbeatMonitor) : string :=
  "retry: " +:+ dec (sse_retry_ms (config m)) +:+ nl +:+ nl.
Definition sse_heartbeat_event (m : HeartbeatMonitor) : string :=
  (if 0 <? sse_retry_ms (config m) then "retry: " +:+ dec (sse_retry_ms (config m)) +:+ nl else "")
  +:+ ": heartbeat" +:+ nl +:+ nl.

Section monitor.
Context `{HI : !HashIter string ClientHeartbeat}.

(** Keys of the entries that pass a test, in iteration order. *)
Definition select (f : ClientHeartbeat → bool) (m : HeartbeatMonitor) : list string :=
  (List.filter (λ kv, f kv.2) (hiter (clients m))).*1.

Definition check_timeouts (now : f64) (m : HeartbeatMonitor) : HeartbeatMonitor * list string :=
  let timed_out := select (times_out m now) m in
  (mkHeartbeatMonitor (config m)
     ((λ c, if times_out m now c then
              mkClientHeartbeat (last_ping c) (last_pong c) (w32 (retries c + 1)) false (last_event_id c)
            else c) <$> clients m)
     (total_pings m) (total_pongs m)
     (w64 (total_timeouts m + Z.of_nat (length timed_out))), timed_out).

Definition get_dead_clients (m : HeartbeatMonitor) : list string :=
  select (λ c, max_retries (config m) <? retries c) m.

Definition evict_dead (m : HeartbeatMonitor) : HeartbeatMonitor * list string :=
  let dead := get_dead_clients m in
  (set_clients (foldl (λ cs id, delete id cs) (clients m) dead) m, dead).

Definition clients_needing_ping (now : f64) (m : HeartbeatMonitor) : list string :=
  select (λ c, alive c && f64_gt (f64_sub now (last_ping c)) (interval_secs (config m))) m.

Definition client_ids (m : HeartbeatMonitor) : list string := (hiter (clients m)).*1.

(** [fixed1] is the [{:.1}] rendering. *)
Definition info_of (fixed1 : f64 → string) (now : f64) (c : ClientHeartbeat) : gmap string string :=
  let info := <["last_pong_ago_secs" := fixed1 (f64_sub now (last_pong c))]>
    (<["retries" := dec (retries c)]> {["alive" := if alive c then "true" else "false"]}) in
  match last_event_id c with Some eid => <["last_event_id" := eid]> info | None => info end.
Definition client_info (fixed1 : f64 → string) (now : f64) (m : HeartbeatMonitor) : gmap string (gmap string string) :=
  info_of fixed1 now <$> clients m.

(** [stats]: monitored, pings, pongs, timeouts and the clients past their timeout now. *)
Definition stats (now : f64) (m : HeartbeatMonitor) : nat * Z * Z * Z * nat :=
  (size (clients m), total_pings m, total_pongs m, total_timeouts m,
   length (select (expired m now) m)).

(** ** Runs *)

Inductive op :=
| Register (now : f64) (id : string) (eid : option string)
| Unregister (id : string)
| Ping (now : f64) (id : string)
| Pong (now : f64) (id : string)
| CheckTimeouts (now : f64)
| EvictDead
| SetEventId (id eid : string)
| Clear.

Definition step (m : HeartbeatMonitor) (o : op) : HeartbeatMonitor :=
  match o with
  | Register now id eid => register now id eid m
  | Unregister id => (unregister id m).1
  | Ping now id => (ping now id m).1
  | Pong now id => (pong now id m).1
  | CheckTimeouts now => (check_timeouts now m).1
  | EvictDead => (evict_dead m).1
  | SetEventId id eid => (set_last_event_id id eid m).1
  | Clear => clear m
  end.

Definition run (c : HeartbeatConfig) (ops : list op) : HeartbeatMonitor :=
  foldl step (monitor_new (Some c)) ops.

(** The retry counter only mirrors the alive flag. *)
Definition mirrored (cs : Clients) : Prop :=
  map_Forall (λ _ c, retries c = if alive c then 0 else 1) cs.

Lemma foldl_delete_subseteq (l : list string) (cs : Clients) :
  foldl (λ cs id, delete id cs) cs l ⊆ cs.
Proof.
  revert cs. induction l as [|id l IH]; intros cs; simpl; [done|].
  etrans; [apply IH|apply delete_subseteq].
Qed.

Lemma mirrored_step m o : mirrored (clients m) → mirrored (clients (step m o)).
Proof.
  intros Hm. assert (∀ cs, cs ⊆ clients m → mirrored cs) as Hsub
    by (intros cs Hcs id c Hc; by eapply Hm, lookup_weaken).
  destruct o as [now id eid|id|now id|now id|now| |id eid|]; simpl.
  - by apply map_Forall_insert_2.
  - apply Hsub, delete_subseteq.
  - unfold ping. destruct (clients m !! id) as [c|] eqn:E; [|done].
    apply map_Forall_insert_2; [exact (Hm _ _ E)|done].
  - unfold pong. destruct (clients m !! id) as [c|] eqn:E; [|done].
    by apply map_Forall_insert_2.
  - intros id c Hc. apply lookup_fmap_Some in Hc as (c0 & <- & Hc0). specialize (Hm _ _ Hc0).
    simpl in Hm. destruct (times_out m now c0) eqn:Et; [|done]. simpl.
    unfold times_out in Et. apply andb_true_iff in Et as [_ Ha]. by rewrite Hm, Ha.
  - apply Hsub, foldl_delete_subseteq.
  - unfold set_last_event_id. destruct (clients m !! id) as [c|] eqn:E; [|done].
    apply map_Forall_insert_2; [exact (Hm _ _ E)|done].
  - apply map_Forall_empty.
Qed.

Lemma config_step m o : config (step m o) = config m.
Proof. destruct o; simpl; try done; unfold ping, pong, set_last_event_id; by case_match. Qed.

Lemma elem_of_select f m id : id ∈ select f m ↔ ∃ c, clients m !! id = Some c ∧ f c = true.
Proof.
  unfold select. rewrite list_elem_of_fmap. split.
  - intros ([k c] & -> & Hin). apply list_elem_of_In, filter_In in Hin as [Hin Hf].
    apply list_elem_of_In, elem_of_hiter in Hin. eauto.
  - intros (c & Hc & Hf). exists (id, c). split; [done|]. apply list_elem_of_In, filter_In.
    split; [|done]. apply list_elem_of_In. by apply elem_of_hiter.
Qed.

Lemma run_mirrored c ops : mirrored (clients (run c ops)) ∧ config (run c ops) = c.
Proof.
  unfold run. induction ops as [|o ops IH] using rev_ind.
  - split; [apply map_Forall_empty|done].
  - rewrite foldl_app. simpl. destruct IH as [IH1 IH2]. split; [by apply mirrored_step|].
    by rewrite config_step.
Qed.

(** dead clients are evicted never or at once.  In every run, at any clock readings,
    a client's retry count is zero while it is alive and one when it has timed out, so
    with [max_retries] zero the dead clients are exactly the timed-out ones, and with
    [max_retries] one or more no client is ever dead and eviction removes nothing. *)
Theorem eviction_outcome c ops :
  let m := run c ops in
  (∀ id, retry_count id m = if is_alive id m then 0 else
     if decide (is_Some (clients m !! id)) then 1 else 0) ∧
  (max_retries c = 0 → ∀ id, id ∈ get_dead_clients m ↔
     is_Some (clients m !! id) ∧ is_alive id m = false) ∧
  (1 <= max_retries c → get_dead_clients m = [] ∧ evict_dead m = (m, [])).
Proof.
  cbv zeta. destruct (run_mirrored c ops) as [Hm Hc]. split_and!.
  - intros id. unfold retry_count, is_alive. destruct (clients (run c ops) !! id) as [h|] eqn:E.
    + rewrite (Hm _ _ E). rewrite decide_True by eauto. done.
    + by rewrite decide_False by (intros [? ?]; congruence).
  - intros Hz id. unfold get_dead_clients. rewrite elem_of_select, Hc, Hz. unfold is_alive. split.
    + intros (h & Hh & Hr). rewrite Hh. rewrite (Hm _ _ Hh) in Hr. split; [eauto|].
      by destruct (alive h).
    + intros [[h Hh] Ha]. rewrite Hh in Ha. exists h. split; [done|].
      rewrite (Hm _ _ Hh). by rewrite Ha.
  - intros H1. assert (get_dead_clients (run c ops) = []) as Hd.
    { destruct (get_dead_clients (run c ops)) as [|id l] eqn:E; [done|].
      assert (id ∈ get_dead_clients (run c ops)) as Hin by (rewrite E; set_solver).
      unfold get_dead_clients in Hin. rewrite Hc in Hin.
      apply elem_of_select in Hin as (h & Hh & Hr%Z.ltb_lt). rewrite (Hm _ _ Hh) in Hr.
      destruct (alive h); lia. }
    split; [done|]. unfold evict_dead. rewrite Hd. simpl. by destruct (run c ops).
Qed.
End monitor.

(** * Witnesses *)

Definition demo_heartbeat (r : Z) : HeartbeatConfig :=
  mkHeartbeatConfig (f64_of_Z 1) (f64_of_Z 2) r 3000 true.

Definition demo_ops : list op :=
  [Register (f64_of_Z 0) "a" None; Register (f64_of_Z 9) "b" None; CheckTimeouts (f64_of_Z 10);
   CheckTimeouts (f64_of_Z 20); Pong (f64_of_Z 21) "b"; CheckTimeouts (f64_of_Z 22)].

Lemma eviction_outcome_witness :
  get_dead_clients (run (demo_heartbeat 3) demo_ops) = [] ∧
  "a" ∈ get_dead_clients (run (demo_heartbeat 0) demo_ops).
Proof.
  split.
  - refine (proj1 (proj2 (proj2 (eviction_outcome (demo_heartbeat 3) demo_ops)) _)).
    vm_compute. discriminate.
  - refine (proj2 (proj1 (proj2 (eviction_outcome (demo_heartbeat 0) demo_ops)) _ "a") _);
      [reflexivity|]. split; [vm_compute; eauto|vm_compute; reflexivity].
Defined.
