(* ===== verification/Presence.v ===== *)
(** Presence tracking (src/src/realtime/presence.rs): channel members, the client to
    channels index and the pending joins and leaves.  The clock ([now_secs]) is an
    argument of each call. *)
From S2P Require Import Prelude F64.
From Stdlib Require Import SpecFloat.
From stdpp Require Import base gmap strings list sets.
Open Scope Z_scope.

Record PresenceInfo := mkPresenceInfo {
  client_id : string;
  channel : string;
  metadata : gmap string string;
  joined_at : f64;
  last_seen : f64
}.

Definition presence_info_new (now : f64) (c ch : string) (meta : option (gmap string string))
    : PresenceInfo := mkPresenceInfo c ch (default ∅ meta) now now.

Record PresenceDiff := mkPresenceDiff { joins : list PresenceInfo; leaves : list string }.

Definition has_changes (d : PresenceDiff) : bool :=
  match joins d, leaves d with [], [] => false | _, _ => true end.
Definition change_count (d : PresenceDiff) : nat := (length (joins d) + length (leaves d))%nat.

Record ChannelPresence := mkChannelPresence {
  members : gmap string PresenceInfo;
  pending_joins : list PresenceInfo;
  pending_leaves : list string
}.

Definition channel_presence_new : ChannelPresence := mkChannelPresence ∅ [] [].

Record PresenceTracker := mkPresenceTracker {
  channels : gmap string ChannelPresence;
  clients : gmap string (list string)
}.

Definition tracker_new : PresenceTracker := mkPresenceTracker ∅ ∅.

Definition join (c : string) (i : PresenceInfo) (cp : ChannelPresence) : ChannelPresence :=
  mkChannelPresence (<[c := i]> (members cp)) (pending_joins cp ++ [i]) (pending_leaves cp).

(** [members.remove(client)], recorded as a leave when the client was there. *)
Definition leave (c : string) (cp : ChannelPresence) : ChannelPresence :=
  match members cp !! c with
  | Some _ => mkChannelPresence (delete c (members cp)) (pending_joins cp) (pending_leaves cp ++ [c])
  | None => cp
  end.

(** The removal of [evict_stale], which records the leave without looking. *)
Definition evict (c : string) (cp : ChannelPresence) : ChannelPresence :=
  mkChannelPresence (delete c (members cp)) (pending_joins cp) (pending_leaves cp ++ [c]).

Definition track (now : f64) (ch c : string) (meta : option (gmap string string))
    (t : PresenceTracker) : PresenceTracker * PresenceInfo :=
  let info := presence_info_new now c ch meta in
  let cp := default channel_presence_new (channels t !! ch) in
  (mkPresenceTracker (<[ch := join c info cp]> (channels t))
     (<[c := default [] (clients t !! c) ++ [ch]]> (clients t)), info).

(** [retain] on the client's channel list, which disappears when empty. *)
Definition forget (ch c : string) (cs : gmap string (list string)) : gmap string (list string) :=
  match cs !! c with
  | Some l =>
      match List.filter (λ x, negb (String.eqb x ch)) l with
      | [] => delete c cs
      | l' => <[c := l']> cs
      end
  | None => cs
  end.

Definition is_idle (cp : ChannelPresence) : bool :=
  bool_decide (members cp = ∅) &&
  match pending_joins cp, pending_leaves cp with [], [] => true | _, _ => false end.

Definition untrack (ch c : string) (t : PresenceTracker) : PresenceTracker * bool :=
  match channels t !! ch with
  | Some cp =>
      let cp' := leave c cp in
      (mkPresenceTracker (if is_idle cp' then delete ch (channels t) else <[ch := cp']> (channels t))
         (forget ch c (clients t)), bool_decide (is_Some (members cp !! c)))
  | None => (mkPresenceTracker (channels t) (forget ch c (clients t)), false)
  end.

Definition leave_in (c : string) (chs : gmap string ChannelPresence) (ch : string)
    : gmap string ChannelPresence :=
  match chs !! ch with Some cp => <[ch := leave c cp]> chs | None => chs end.

Definition untrack_all (c : string) (t : PresenceTracker) : PresenceTracker * list string :=
  match clients t !! c with
  | None => (t, [])
  | Some l =>
      (mkPresenceTracker
         (foldl (leave_in c) (channels t) l)
         (delete c (clients t)), l)
  end.

Definition set_member (ch c : string) (f : PresenceInfo → PresenceInfo) (t : PresenceTracker)
    : PresenceTracker * bool :=
  match channels t !! ch with
  | Some cp =>
      match members cp !! c with
      | Some i =>
          (mkPresenceTracker (<[ch := mkChannelPresence (<[c := f i]> (members cp))
             (pending_joins cp) (pending_leaves cp)]> (channels t)) (clients t), true)
      | None => (t, false)
      end
  | None => (t, false)
  end.

Definition update (now : f64) (ch c : string) (meta : gmap string string) :=
  set_member ch c (λ i, mkPresenceInfo (client_id i) (channel i) meta (joined_at i) now).
Definition touch (now : f64) (ch c : string) :=
  set_member ch c (λ i, mkPresenceInfo (client_id i) (channel i) (metadata i) (joined_at i) now).

Definition get (ch c : string) (t : PresenceTracker) : option PresenceInfo :=
  cp ← channels t !! ch; members cp !! c.
Definition list_members `{!HashIter string PresenceInfo} (ch : string) (t : PresenceTracker)
    : list PresenceInfo :=
  match channels t !! ch with Some cp => (hiter (members cp)).*2 | None => [] end.
Definition count (ch : string) (t : PresenceTracker) : nat :=
  match channels t !! ch with Some cp => size (members cp) | None => 0%nat end.

Definition flush_diff (ch : string) (t : PresenceTracker) : PresenceTracker * PresenceDiff :=
  match channels t !! ch with
  | Some cp =>
      (mkPresenceTracker (<[ch := mkChannelPresence (members cp) [] []]> (channels t)) (clients t),
       mkPresenceDiff (pending_joins cp) (pending_leaves cp))
  | None => (t, mkPresenceDiff [] [])
  end.

Definition client_channels (c : string) (t : PresenceTracker) : list string :=
  default [] (clients t !! c).
Definition total_clients (t : PresenceTracker) : nat := size (clients t).
Definition clear (t : PresenceTracker) : PresenceTracker := tracker_new.

Section evict.
Context `{HM : !HashIter string PresenceInfo} `{HC : !HashIter string ChannelPresence}.

Definition active_channels (t : PresenceTracker) : list string :=
  (List.filter (λ kv : string * ChannelPresence, negb (bool_decide (members kv.2 = ∅)))
     (hiter (channels t))).*1.

(** The members of a channel last seen before the cutoff. *)
Definition stale (cutoff : f64) (cp : ChannelPresence) : list string :=
  (List.filter (λ kv : string * PresenceInfo, f64_lt (last_seen kv.2) cutoff) (hiter (members cp))).*1.

Definition evict_stale (now timeout : f64) (t : PresenceTracker)
    : PresenceTracker * list (string * string) :=
  let cutoff := f64_sub now timeout in
  let evicted := concat ((λ kv : string * ChannelPresence, pair kv.1 <$> stale cutoff kv.2)
                           <$> hiter (channels t)) in
  (mkPresenceTracker
     ((λ cp, foldl (λ cp c, evict c cp) cp (stale cutoff cp)) <$> channels t)
     (foldl (λ cs e, forget e.1 e.2 cs) (clients t) evicted), evicted).

(** ** Runs *)

Inductive op :=
| Track (now : f64) (ch c : string) (meta : option (gmap string string))
| Untrack (ch c : string)
| UntrackAll (c : string)
| Update (now : f64) (ch c : string) (meta : gmap string string)
| Touch (now : f64) (ch c : string)
| FlushDiff (ch : string)
| EvictStale (now timeout : f64)
| Clear.

Definition step (t : PresenceTracker) (o : op) : PresenceTracker :=
  match o with
  | Track now ch c meta => (track now ch c meta t).1
  | Untrack ch c => (untrack ch c t).1
  | UntrackAll c => (untrack_all c t).1
  | Update now ch c meta => (update now ch c meta t).1
  | Touch now ch c => (touch now ch c t).1
  | FlushDiff ch => (flush_diff ch t).1
  | EvictStale now timeout => (evict_stale now timeout t).1
  | Clear => clear t
  end.

Definition run (ops : list op) : PresenceTracker := foldl step tracker_new ops.

(** Who is present where, by the channels and by the index. *)
Definition present (t : PresenceTracker) (ch c : string) : Prop := is_Some (get ch c t).
Definition indexed (t : PresenceTracker) (ch c : string) : Prop := ch ∈ client_channels c t.

(** The two agree, and the index has no empty lists. *)
Definition consistent (t : PresenceTracker) : Prop :=
  (∀ ch c, present t ch c ↔ indexed t ch c) ∧ (∀ c, clients t !! c ≠ Some []).

Lemma elem_of_retain ch x l :
  x ∈ List.filter (λ x, negb (String.eqb x ch)) l ↔ x ∈ l ∧ x ≠ ch.
Proof.
  rewrite !list_elem_of_In, filter_In, negb_true_iff, String.eqb_neq. done.
Qed.

Lemma forget_spec ch c cs c' x :
  x ∈ default [] (forget ch c cs !! c') ↔ x ∈ default [] (cs !! c') ∧ (c' = c → x ≠ ch).
Proof.
  unfold forget. destruct (cs !! c) as [l|] eqn:E.
  - pose proof (λ y, elem_of_retain ch y l) as Hret.
    destruct (List.filter _ l) as [|y l'] eqn:F; destruct (decide (c' = c)) as [->|].
    + rewrite lookup_delete_eq, E. simpl. specialize (Hret x). set_solver.
    + rewrite lookup_delete_ne by done. naive_solver.
    + rewrite lookup_insert_eq, E. simpl. rewrite Hret. naive_solver.
    + rewrite lookup_insert_ne by done. naive_solver.
  - split; [|naive_solver]. intros Hx. split; [done|]. intros ->. rewrite E in Hx. set_solver.
Qed.

Lemma forget_nonempty ch c cs :
  (∀ c, cs !! c ≠ Some []) → ∀ c', forget ch c cs !! c' ≠ Some [].
Proof.
  intros H c'. unfold forget. destruct (cs !! c) as [l|]; [|done].
  destruct (List.filter _ l); [rewrite lookup_delete_Some|rewrite lookup_insert_Some]; naive_solver.
Qed.

Lemma leave_members c cp c' :
  is_Some (members (leave c cp) !! c') ↔ is_Some (members cp !! c') ∧ c' ≠ c.
Proof.
  unfold leave. destruct (members cp !! c) eqn:E; simpl.
  - rewrite lookup_delete_is_Some. naive_solver.
  - split; [|naive_solver]. intros H. split; [done|]. intros ->. rewrite E in H. by destruct H.
Qed.

Lemma present_spec t ch c :
  present t ch c ↔ ∃ cp, channels t !! ch = Some cp ∧ is_Some (members cp !! c).
Proof. unfold present, get. destruct (channels t !! ch); simpl; naive_solver. Qed.

Lemma consistent_track now ch c meta t : consistent t → consistent (track now ch c meta t).1.
Proof.
  intros [Hpi Hne]. split.
  - intros ch' c'. specialize (Hpi ch' c'). unfold indexed, client_channels, present, get in *.
    simpl. destruct (decide (ch' = ch)) as [->|Hch].
    + rewrite lookup_insert_eq. simpl. destruct (decide (c' = c)) as [->|Hc].
      * rewrite !lookup_insert_eq. simpl. set_solver.
      * rewrite !lookup_insert_ne by done. rewrite <- Hpi. by destruct (channels t !! ch).
    + rewrite lookup_insert_ne by done. rewrite Hpi. destruct (decide (c' = c)) as [->|Hc].
      * rewrite lookup_insert_eq. simpl. set_solver.
      * by rewrite lookup_insert_ne.
  - intros c'. simpl. destruct (decide (c' = c)) as [->|Hc].
    + rewrite lookup_insert_eq. destruct (default [] (clients t !! c)); naive_solver.
    + by rewrite lookup_insert_ne.
Qed.

Lemma untrack_present ch c t ch' c' :
  present (untrack ch c t).1 ch' c' ↔ present t ch' c' ∧ (ch' = ch → c' ≠ c).
Proof.
  rewrite !present_spec. unfold untrack. destruct (channels t !! ch) as [cp|] eqn:E; simpl.
  - destruct (decide (ch' = ch)) as [->|Hch].
    + rewrite E. assert ((∃ cp0, Some cp = Some cp0 ∧ is_Some (members cp0 !! c')) ∧ (ch = ch → c' ≠ c)
        ↔ is_Some (members (leave c cp) !! c')) as -> by (rewrite leave_members; naive_solver).
      case_match eqn:Hi.
      * rewrite lookup_delete_eq. unfold is_idle in Hi. apply andb_true_iff in Hi as [Hi _].
        apply bool_decide_eq_true in Hi. rewrite Hi, lookup_empty. split; [naive_solver|].
        by intros [? ?].
      * rewrite lookup_insert_eq. naive_solver.
    + case_match; [rewrite lookup_delete_ne by done|rewrite lookup_insert_ne by done]; naive_solver.
  - naive_solver.
Qed.

Lemma consistent_untrack ch c t : consistent t → consistent (untrack ch c t).1.
Proof.
  intros [Hpi Hne]. split.
  - intros ch' c'. rewrite untrack_present, Hpi. unfold indexed, client_channels.
    assert (clients (untrack ch c t).1 = forget ch c (clients t)) as ->
      by (unfold untrack; by case_match). rewrite forget_spec. naive_solver.
  - assert (clients (untrack ch c t).1 = forget ch c (clients t)) as ->
      by (unfold untrack; by case_match). by apply forget_nonempty.
Qed.

Lemma leave_all_lookup c l chs ch c' :
  is_Some (foldl (leave_in c) chs l !! ch ≫= λ cp, members cp !! c')
  ↔ is_Some (chs !! ch ≫= λ cp, members cp !! c') ∧ (ch ∈ l → c' ≠ c).
Proof.
  revert chs. induction l as [|ch0 l IH]; intros chs; simpl; [set_solver|]. rewrite IH.
  unfold leave_in. destruct (chs !! ch0) as [cp|] eqn:E.
  - destruct (decide (ch = ch0)) as [->|Hne].
    + rewrite lookup_insert_eq, E. simpl. rewrite leave_members. set_solver.
    + rewrite lookup_insert_ne by done. set_solver.
  - destruct (decide (ch = ch0)) as [->|Hne]; [|set_solver].
    rewrite E. simpl. split; intros [H _]; by destruct H.
Qed.

Lemma consistent_untrack_all c t : consistent t → consistent (untrack_all c t).1.
Proof.
  intros [Hpi Hne]. unfold untrack_all. destruct (clients t !! c) as [l|] eqn:E; [|done].
  split; simpl.
  - intros ch c'. specialize (Hpi ch c'). unfold present, indexed, get, client_channels in *. simpl.
    rewrite leave_all_lookup, Hpi. destruct (decide (c' = c)) as [->|].
    + rewrite lookup_delete_eq, E. simpl. set_solver.
    + rewrite lookup_delete_ne by done. naive_solver.
  - intros c'. rewrite lookup_delete_Some. naive_solver.
Qed.

Lemma consistent_set_member ch c f t : consistent t → consistent (set_member ch c f t).1.
Proof.
  intros [Hpi Hne]. unfold set_member. destruct (channels t !! ch) as [cp|] eqn:E; [|done].
  destruct (members cp !! c) as [i|] eqn:E2; [|done]. split; [|done].
  intros ch' c'. rewrite <- (Hpi ch' c'). rewrite !present_spec. simpl.
  destruct (decide (ch' = ch)) as [->|]; [|by rewrite lookup_insert_ne].
  rewrite lookup_insert_eq, E. destruct (decide (c' = c)) as [->|].
  - split; intros (cp0 & [= <-] & H); eexists; (split; [done|]); [by eauto|].
    simpl. rewrite lookup_insert_eq. eauto.
  - split; intros (cp0 & [= <-] & H); eexists; (split; [done|]); simpl in *;
      [by rewrite lookup_insert_ne in H|by rewrite lookup_insert_ne].
Qed.

Lemma consistent_flush ch t : consistent t → consistent (flush_diff ch t).1.
Proof.
  intros [Hpi Hne]. unfold flush_diff. destruct (channels t !! ch) as [cp|] eqn:E; [|done].
  split; [|done]. intros ch' c'. rewrite <- (Hpi ch' c'). rewrite !present_spec. simpl.
  destruct (decide (ch' = ch)) as [->|]; [|by rewrite lookup_insert_ne].
  rewrite lookup_insert_eq, E. split; intros (cp0 & [= <-] & H); eauto.
Qed.

Lemma evict_members l cp c' :
  is_Some (members (foldl (λ cp c, evict c cp) cp l) !! c') ↔ is_Some (members cp !! c') ∧ c' ∉ l.
Proof.
  revert cp. induction l as [|c l IH]; intros cp; simpl; [set_solver|].
  rewrite IH. simpl. rewrite lookup_delete_is_Some. set_solver.
Qed.

Lemma forgets_spec l cs c' x :
  x ∈ default [] (foldl (λ cs e, forget e.1 e.2 cs) cs l !! c') ↔
  x ∈ default [] (cs !! c') ∧ (x, c') ∉ l.
Proof.
  revert cs. induction l as [|[ch c] l IH]; intros cs; simpl; [set_solver|].
  rewrite IH, forget_spec. simpl. rewrite not_elem_of_cons. naive_solver.
Qed.

Lemma forgets_nonempty l cs :
  (∀ c, cs !! c ≠ Some []) → ∀ c', foldl (λ cs e, forget e.1 e.2 cs) cs l !! c' ≠ Some [].
Proof.
  revert cs. induction l as [|[ch c] l IH]; intros cs H; simpl; [done|].
  apply IH. by apply forget_nonempty.
Qed.

Lemma consistent_evict now timeout t : consistent t → consistent (evict_stale now timeout t).1.
Proof.
  intros [Hpi Hne]. split; [|by apply forgets_nonempty].
  intros ch c. unfold indexed, client_channels. unfold evict_stale. cbn [fst clients].
  rewrite forgets_spec. specialize (Hpi ch c). unfold indexed, client_channels in Hpi.
  rewrite <- Hpi, !present_spec. cbn [channels].
  set (cutoff := f64_sub now timeout).
  assert ((ch, c) ∈ concat ((λ kv : string * ChannelPresence, pair kv.1 <$> stale cutoff kv.2)
      <$> hiter (channels t)) ↔ ∃ cp, channels t !! ch = Some cp ∧ c ∈ stale cutoff cp) as ->.
  { rewrite list_elem_of_In, in_concat. setoid_rewrite <- list_elem_of_In. split.
    - intros (l & ([ch' cp] & -> & Hcp%elem_of_hiter)%list_elem_of_fmap & Hin).
      apply list_elem_of_fmap in Hin as (c' & [= -> ->] & Hc). eauto.
    - intros (cp & Hcp & Hc). exists (pair ch <$> stale cutoff cp). split.
      + apply list_elem_of_fmap. exists (ch, cp). split; [done|]. by apply elem_of_hiter.
      + apply list_elem_of_fmap. eauto. }
  rewrite lookup_fmap. destruct (channels t !! ch) as [cp|]; simpl; [|naive_solver].
  split.
  - intros (cp' & [= <-] & H%evict_members). naive_solver.
  - intros [(cp' & [= <-] & H) Hn]. eexists. split; [done|]. apply evict_members.
    split; [done|]. intros Hc. apply Hn. eauto.
Qed.

Lemma consistent_new : consistent tracker_new.
Proof.
  split.
  - intros ch c. unfold present, indexed, get, client_channels, tracker_new. cbn [channels clients].
    rewrite !lookup_empty. simpl. split; [by intros [? ?]|set_solver].
  - intros c. unfold tracker_new. cbn [clients]. by rewrite lookup_empty.
Qed.

(** C37: the index follows the channels.  After any sequence of operations, at any clock
    readings, a client is a member of a channel iff the channel is in the client's list,
    and the number of tracked clients is the number of clients present somewhere. *)
Theorem presence_consistent ops :
  let t := run ops in
  (∀ ch c, is_Some (get ch c t) ↔ ch ∈ client_channels c t) ∧
  (∀ c, is_Some (clients t !! c) ↔ ∃ ch, is_Some (get ch c t)) ∧
  total_clients t = size (dom (clients t)).
Proof.
  cbv zeta. assert (consistent (run ops)) as [Hpi Hne].
  { unfold run. induction ops as [|o ops IH] using rev_ind; [exact consistent_new|].
    rewrite foldl_app. simpl. destruct o; simpl;
      [by apply consistent_track|by apply consistent_untrack|by apply consistent_untrack_all
      |by apply consistent_set_member|by apply consistent_set_member|by apply consistent_flush
      |by apply consistent_evict|exact consistent_new]. }
  split_and!; [exact Hpi| |unfold total_clients; by rewrite size_dom].
  intros c. split.
  - intros [l Hl]. destruct l as [|ch l]; [by destruct (Hne c)|]. exists ch. apply Hpi.
    unfold indexed, client_channels. rewrite Hl. set_solver.
  - intros [ch Hch]. apply Hpi in Hch. unfold indexed, client_channels in Hch.
    destruct (clients (run ops) !! c); [eauto|set_solver].
Qed.
(** ** What a diff says *)

Definition view (t : PresenceTracker) (ch : string) : ChannelPresence :=
  default channel_presence_new (channels t !! ch).

(** The changes an operation makes to one channel between two flushes. *)
Inductive chstep : ChannelPresence → ChannelPresence → Prop :=
| chstep_join c i cp : client_id i = c → chstep cp (join c i cp)
| chstep_evict c cp : chstep cp (evict c cp)
| chstep_set c i cp : is_Some (members cp !! c) →
    chstep cp (mkChannelPresence (<[c := i]> (members cp)) (pending_joins cp) (pending_leaves cp)).

Lemma leave_chsteps c cp : rtc chstep cp (leave c cp).
Proof.
  unfold leave. destruct (members cp !! c); [|apply rtc_refl]. apply rtc_once, chstep_evict.
Qed.

Lemma is_idle_spec cp : is_idle cp = true → cp = channel_presence_new.
Proof.
  destruct cp as [m j l]. unfold is_idle. simpl. intros [Hm Hjl]%andb_true_iff.
  apply bool_decide_eq_true in Hm as ->. by destruct j, l.
Qed.

Lemma leave_all_view c l chs ch :
  rtc chstep (default channel_presence_new (chs !! ch))
    (default channel_presence_new (foldl (leave_in c) chs l !! ch)).
Proof.
  revert chs. induction l as [|ch0 l IH]; intros chs; simpl; [done|]. etrans; [|apply IH].
  unfold leave_in. destruct (chs !! ch0) as [cp|] eqn:E; [|done].
  destruct (decide (ch = ch0)) as [->|]; [|by rewrite lookup_insert_ne].
  rewrite lookup_insert_eq, E. apply leave_chsteps.
Qed.

Lemma evict_chsteps l cp : rtc chstep cp (foldl (λ cp c, evict c cp) cp l).
Proof.
  revert cp. induction l as [|c l IH]; intros cp; simpl; [done|].
  etrans; [apply rtc_once, chstep_evict|apply IH].
Qed.

Lemma set_member_view ch c f t ch' :
  rtc chstep (view t ch') (view (set_member ch c f t).1 ch').
Proof.
  unfold set_member, view. destruct (channels t !! ch) as [cp|] eqn:E; [|done].
  destruct (members cp !! c) as [i|] eqn:E2; [|done]. simpl.
  destruct (decide (ch' = ch)) as [->|]; [|by rewrite lookup_insert_ne].
  rewrite lookup_insert_eq, E. apply rtc_once, chstep_set. by rewrite E2.
Qed.

(** The operations that neither hand out nor drop the pending changes of [ch]. *)
Definition keeps (ch : string) (o : op) : Prop :=
  match o with FlushDiff ch' => ch' ≠ ch | Clear => False | _ => True end.

Lemma step_view t o ch : keeps ch o → rtc chstep (view t ch) (view (step t o) ch).
Proof.
  destruct o as [now ch' c meta|ch' c|c|now ch' c meta|now ch' c|ch'|now timeout|]; simpl; intros Hk;
    [| | |apply set_member_view|apply set_member_view| | |done]; unfold view.
  - simpl. destruct (decide (ch = ch')) as [->|]; [|by rewrite lookup_insert_ne].
    rewrite lookup_insert_eq. by apply rtc_once, chstep_join.
  - unfold untrack. destruct (channels t !! ch') as [cp|] eqn:E; [|done]. simpl.
    destruct (decide (ch = ch')) as [->|].
    + rewrite E. etrans; [exact (leave_chsteps c cp)|]. destruct (is_idle _) eqn:Hi.
      * rewrite lookup_delete_eq. by rewrite (is_idle_spec _ Hi).
      * by rewrite lookup_insert_eq.
    + destruct (is_idle _); [by rewrite lookup_delete_ne|by rewrite lookup_insert_ne].
  - unfold untrack_all. destruct (clients t !! c) as [l|]; [|done]. apply leave_all_view.
  - unfold flush_diff. destruct (channels t !! ch') as [cp|]; [|done]. simpl.
    by rewrite lookup_insert_ne.
  - unfold evict_stale. cbn [fst channels]. rewrite lookup_fmap.
    destruct (channels t !! ch) as [cp|]; simpl; [|done]. apply evict_chsteps.
Qed.

(** The pending changes of [cp] describe how its members differ from [base]. *)
Definition diff_ok (base : string → Prop) (cp : ChannelPresence) : Prop :=
  ∀ c, let joined := c ∈ client_id <$> pending_joins cp in
    let left := c ∈ pending_leaves cp in let here := is_Some (members cp !! c) in
    (¬ joined → ¬ left → (here ↔ base c)) ∧ (joined → ¬ left → here) ∧ (left → ¬ joined → ¬ here).

Lemma chstep_diff_ok base cp cp' : chstep cp cp' → diff_ok base cp → diff_ok base cp'.
Proof.
  intros Hs H c0. specialize (H c0). cbv zeta in *.
  destruct Hs as [c i cp Hi|c cp|c i cp Hc]; simpl; rewrite ?fmap_app, ?elem_of_app; simpl;
    rewrite ?Hi, ?list_elem_of_singleton; rewrite ?lookup_insert_is_Some, ?lookup_delete_is_Some;
    destruct (decide (c0 = c)) as [->|]; naive_solver.
Qed.

Lemma flush_diff_view ch t :
  (flush_diff ch t).2 = mkPresenceDiff (pending_joins (view t ch)) (pending_leaves (view t ch)).
Proof. unfold flush_diff, view. by destruct (channels t !! ch). Qed.

(** what a client can conclude from a diff.  Between two flushes of a channel (and no
    clear) a client that is in neither list is present iff it was before, one that is only
    among the joins is present, and one only among the leaves is absent. *)
Theorem presence_diff_sound t ch ops c :
  Forall (keeps ch) ops →
  let t0 := (flush_diff ch t).1 in
  let t1 := foldl step t0 ops in
  let d := (flush_diff ch t1).2 in
  let joined := c ∈ client_id <$> joins d in
  let left := c ∈ leaves d in
  (¬ joined → ¬ left → (is_Some (get ch c t1) ↔ is_Some (get ch c t0))) ∧
  (joined → ¬ left → is_Some (get ch c t1)) ∧
  (left → ¬ joined → get ch c t1 = None).
Proof.
  intros Hk. cbv zeta.
  assert (∀ t' c, is_Some (get ch c t') ↔ is_Some (members (view t' ch) !! c)) as Hget.
  { intros t' c'. unfold get, view. destruct (channels t' !! ch); simpl; [done|].
    rewrite lookup_empty. done. }
  assert (rtc chstep (view (flush_diff ch t).1 ch) (view (foldl step (flush_diff ch t).1 ops) ch)) as Hr.
  { generalize (flush_diff ch t).1. induction Hk as [|o ops Ho _ IH]; intros t0; simpl; [done|].
    etrans; [by apply step_view|apply IH]. }
  assert (diff_ok (λ c, is_Some (get ch c (flush_diff ch t).1)) (view (flush_diff ch t).1 ch)) as H0.
  { intros c'. cbv zeta beta. rewrite Hget.
    assert (pending_joins (view (flush_diff ch t).1 ch) = [] ∧
            pending_leaves (view (flush_diff ch t).1 ch) = []) as [-> ->]; [|set_solver].
    unfold flush_diff, view. destruct (channels t !! ch) eqn:E; simpl;
      by rewrite ?lookup_insert_eq, ?E. }
  assert (diff_ok (λ c, is_Some (get ch c (flush_diff ch t).1))
            (view (foldl step (flush_diff ch t).1 ops) ch)) as H1.
  { revert H0. induction Hr as [|? ? ? Hs _ IH]; [done|]. intros H0. by eapply IH, chstep_diff_ok. }
  specialize (H1 c). cbv zeta in H1. rewrite <- Hget in H1. rewrite eq_None_not_Some.
  rewrite flush_diff_view. exact H1.
Qed.

(** The lists do not keep the order of a join and a leave: with the client present before,
    leaving and coming back and tracking again and leaving give the same diff. *)
Lemma diff_order_lost :
  let t0 := (flush_diff "r" (track (f64_of_Z 1) "r" "u" None tracker_new).1).1 in
  let back := foldl step t0 [Untrack "r" "u"; Track (f64_of_Z 2) "r" "u" None] in
  let gone := foldl step t0 [Track (f64_of_Z 2) "r" "u" None; Untrack "r" "u"] in
  (flush_diff "r" back).2 = (flush_diff "r" gone).2 ∧
  is_Some (get "r" "u" back) ∧ get "r" "u" gone = None.
Proof. split_and!; [reflexivity|by eexists|reflexivity]. Qed.

(** Tracking a client twice lists the channel twice. *)
Lemma track_twice_duplicates :
  client_channels "u" (run [Track (f64_of_Z 1) "r" "u" None; Track (f64_of_Z 2) "r" "u" None])
  = ["r"; "r"].
Proof. reflexivity. Qed.

(** The emptiness test of [untrack] comes after the leave was recorded, so the call that
    removes the last member never removes the channel. *)
Lemma untrack_last_keeps_channel t ch c cp :
  channels t !! ch = Some cp → is_Some (members cp !! c) →
  is_Some (channels (untrack ch c t).1 !! ch).
Proof.
  intros E [i Hi]. unfold untrack, leave. rewrite E, Hi. simpl.
  assert (is_idle (mkChannelPresence (delete c (members cp)) (pending_joins cp)
    (pending_leaves cp ++ [c])) = false) as ->.
  { unfold is_idle. simpl. destruct (pending_joins cp), (pending_leaves cp); simpl;
      by rewrite andb_false_r. }
  rewrite lookup_insert_eq. eauto.
Qed.
End evict.

Lemma presence_diff_sound_witness :
  let t := (track (f64_of_Z 1) "room" "u" None tracker_new).1 in
  let ops := [Track (f64_of_Z 2) "room" "v" None; Untrack "room" "u"; Touch (f64_of_Z 3) "room" "v"] in
  let t1 := foldl step (flush_diff "room" t).1 ops in
  Forall (keeps "room") ops ∧ is_Some (get "room" "v" t1) ∧ get "room" "u" t1 = None.
Proof.
  cbv zeta. assert (Forall (keeps "room") [Track (f64_of_Z 2) "room" "v" None; Untrack "room" "u";
    Touch (f64_of_Z 3) "room" "v"]) as H by (repeat constructor).
  split_and!; [exact H| |].
  - apply (presence_diff_sound (track (f64_of_Z 1) "room" "u" None tracker_new).1 "room" _ "v" H);
      apply (bool_decide_unpack _); vm_compute; exact I.
  - apply (presence_diff_sound (track (f64_of_Z 1) "room" "u" None tracker_new).1 "room" _ "u" H);
      apply (bool_decide_unpack _); vm_compute; exact I.
Defined.
