(* ===== verification/Sse.v ===== *)
(** Server-sent events and streaming bodies (src/src/http/streaming.rs): the wire format of
    an event, read back by the client algorithm of the HTML standard, and the stream
    handles over tokio's bounded channel, which is a class. *)
From S2P Require Import Prelude.
From stdpp Require Import base strings list pretty.
Open Scope Z_scope.

Definition lfs : string := String lf "".

(** * Events *)

Record SSEEvent := mkSSEEvent {
  id : option string;
  event : option string;
  data : string;
  retry : option Z
}.

Definition sse_event_new (d : string) (i e : option string) (r : option Z) : SSEEvent :=
  mkSSEEvent i e d r.
Definition data_event (d : string) : SSEEvent := mkSSEEvent None None d None.
Definition named (n d : string) : SSEEvent := mkSSEEvent None (Some n) d None.

(** [str::lines]: the pieces ended by a line feed, each without a carriage return before
    it, and the rest when it is not empty (a carriage return at its end stays). *)
Fixpoint strip_cr (s : string) : string :=
  match s with
  | EmptyString => EmptyString
  | String c EmptyString => if Ascii.eqb c cr then EmptyString else s
  | String c s' => String c (strip_cr s')
  end.

Fixpoint lines_of (l : list string) : list string :=
  match l with
  | [] => []
  | [last] => match last with EmptyString => [] | _ => [last] end
  | p :: l' => strip_cr p :: lines_of l'
  end.

Definition lines (s : string) : list string := lines_of (str_split lf s).

(** A field line: [output.push_str] of the name, the value and a line feed. *)
Definition field (n v : string) : string := n +:+ ": " +:+ v +:+ lfs.

Definition opt_field (n : string) (v : option string) : string :=
  match v with Some s => field n s | None => "" end.

Definition format (e : SSEEvent) : string :=
  opt_field "id" (id e) +:+ opt_field "event" (event e) +:+
  opt_field "retry" (dec <$> retry e) +:+
  str_join "" (field "data" <$> lines (data e)) +:+ lfs.

Definition comment (text : string) : string := ": " +:+ text +:+ lfs +:+ lfs.

Definition sse_headers : list (string * string) :=
  [("Content-Type", "text/event-stream"); ("Cache-Control", "no-cache");
   ("Connection", "keep-alive"); ("X-Accel-Buffering", "no")].

(** * The client of the HTML standard *)

(** The terminated lines of a stream: LF, CR LF and CR all end a line. *)
Fixpoint client_lines (cur s : string) : list string :=
  match s with
  | EmptyString => []
  | String c s' =>
      if Ascii.eqb c lf then cur :: client_lines "" s'
      else if Ascii.eqb c cr then
        match s' with
        | String d s'' =>
            if Ascii.eqb d lf then cur :: client_lines "" s'' else cur :: client_lines "" s'
        | EmptyString => [cur]
        end
      else client_lines (cur +:+ String c "") s'
  end.

Record Message := mkMessage { msg_type : string; msg_data : string; last_event_id : string }.

(** Data lines, event type, last event id, reconnection time and dispatched messages. *)
Record Client := mkClient {
  c_data : list string;
  c_type : string;
  c_id : string;
  c_retry : option Z;
  c_msgs : list Message
}.

Definition client_new : Client := mkClient [] "" "" None [].

Definition dispatch (c : Client) : Client :=
  mkClient [] "" (c_id c) (c_retry c)
    (match c_data c with
     | [] => c_msgs c
     | l => c_msgs c ++ [mkMessage (if str_is_empty (c_type c) then "message" else c_type c)
                           (str_join lfs l) (c_id c)]
     end).


Definition client_field (n v : string) (c : Client) : Client :=
  if String.eqb n "data" then mkClient (c_data c ++ [v]) (c_type c) (c_id c) (c_retry c) (c_msgs c)
  else if String.eqb n "event" then mkClient (c_data c) v (c_id c) (c_retry c) (c_msgs c)
  else if String.eqb n "id" then
    if str_contains_char zero v then c
    else mkClient (c_data c) (c_type c) v (c_retry c) (c_msgs c)
  else if String.eqb n "retry" then
    if is_digits v then
      mkClient (c_data c) (c_type c) (c_id c) (match parse_u64 v with Some r => Some r | None => c_retry c end)
        (c_msgs c)
    else c
  else c.

Definition strip_space (v : string) : string :=
  match v with String a v' => if Ascii.eqb a " " then v' else v | EmptyString => v end.

Definition client_line (c : Client) (l : string) : Client :=
  match l with
  | EmptyString => dispatch c
  | _ =>
      match str_split_once ":" l with
      | Some (EmptyString, _) => c
      | Some (n, v) => client_field n (strip_space v) c
      | None => client_field l "" c
      end
  end.

Definition receive (stream : string) (c : Client) : Client :=
  foldl client_line c (client_lines "" stream).

(** * Proofs *)

Definition no_break (s : string) : bool :=
  str_forall (λ c, negb (Ascii.eqb c lf) && negb (Ascii.eqb c cr)) s.

(** ** Lines of a formatted event *)

Definition terminated (l : string) : string := l +:+ lfs.

Lemma str_join_nil_cons x l : str_join "" (x :: l) = x +:+ str_join "" l.
Proof. unfold str_join. destruct l; simpl; [by rewrite str_app_nil_r|done]. Qed.

Lemma str_join_nil_app l1 l2 : str_join "" (l1 ++ l2) = str_join "" l1 +:+ str_join "" l2.
Proof.
  induction l1 as [|x l1 IH]; [done|]. rewrite <- app_comm_cons. by rewrite !str_join_nil_cons, IH, (assoc_L String.append).
Qed.

Lemma client_lines_one cur l rest :
  no_break l = true → client_lines cur (l +:+ String lf rest) = (cur +:+ l) :: client_lines "" rest.
Proof.
  revert cur. induction l as [|c l IH]; intros cur Hl.
  - rewrite str_app_nil_r. rewrite str_app_nil_l. cbn [client_lines]. by rewrite Ascii.eqb_refl.
  - unfold no_break in Hl. cbn [str_forall] in Hl.
    apply andb_true_iff in Hl as [[Hlf Hcr]%andb_true_iff Hl].
    apply negb_true_iff in Hlf, Hcr. rewrite str_app_cons. cbn [client_lines].
    rewrite Hlf, Hcr, IH by done. f_equal. rewrite <- (assoc_L String.append). done.
Qed.

Lemma client_lines_block ls rest :
  Forall (λ l, no_break l = true) ls →
  client_lines "" (str_join "" (terminated <$> ls) +:+ rest) = ls ++ client_lines "" rest.
Proof.
  induction 1 as [|l ls Hl _ IH]; [done|].
  rewrite fmap_cons, str_join_nil_cons, <- (assoc_L String.append). unfold terminated at 1.
  rewrite <- (assoc_L String.append). unfold lfs. rewrite str_app_cons, str_app_nil_l.
  rewrite client_lines_one by done. by rewrite IH.
Qed.

Definition event_lines (e : SSEEvent) : list string :=
  match id e with Some i => ["id: " +:+ i] | None => [] end ++
  match event e with Some n => ["event: " +:+ n] | None => [] end ++
  match retry e with Some r => ["retry: " +:+ dec r] | None => [] end ++
  (String.append "data: " <$> lines (data e)) ++ [""].

Lemma format_lines e : format e = str_join "" (terminated <$> event_lines e).
Proof.
  unfold format, event_lines. rewrite !fmap_app, !str_join_nil_app.
  assert (∀ n v, field n v = terminated (n +:+ ": " +:+ v)) as Hf.
  { intros n v. unfold field, terminated. by rewrite <- !(assoc_L String.append). }
  f_equal; [destruct (id e); [apply Hf|done]|].
  f_equal; [destruct (event e); [apply Hf|done]|].
  f_equal; [destruct (retry e); [apply Hf|done]|].
  f_equal. f_equal. rewrite <- list_fmap_compose. apply list_fmap_ext. intros i v _. apply Hf.
Qed.

(** ** What a client makes of the lines of an event *)

Definition event_ok (e : SSEEvent) : Prop :=
  (∀ i, id e = Some i → no_break i = true ∧ str_contains_char zero i = false) ∧
  (∀ n, event e = Some n → no_break n = true) ∧
  (∀ r, retry e = Some r → is_u64 r) ∧
  str_contains_char cr (data e) = false.

(** The effect of an event on a client that is between events. *)
Definition deliver (c : Client) (e : SSEEvent) : Client :=
  let i := default (c_id c) (id e) in
  mkClient [] "" i (match retry e with Some r => Some r | None => c_retry c end)
    (match lines (data e) with
     | [] => c_msgs c
     | l => c_msgs c ++ [mkMessage (match event e with
                                    | Some n => if str_is_empty n then "message" else n
                                    | None => "message"
                                    end) (str_join lfs l) i]
     end).

Lemma data_lines_client l c :
  foldl client_line c (String.append "data: " <$> l) =
  mkClient (c_data c ++ l) (c_type c) (c_id c) (c_retry c) (c_msgs c).
Proof.
  revert c. induction l as [|x l IH]; intros c.
  - rewrite app_nil_r. by destruct c.
  - rewrite fmap_cons. cbn [foldl]. rewrite IH.
    change (client_line c ("data: " +:+ x)) with
      (mkClient (c_data c ++ [x]) (c_type c) (c_id c) (c_retry c) (c_msgs c)). cbn [c_data c_type c_id c_retry c_msgs].
    by rewrite <- (assoc_L (++)).
Qed.

Lemma id_line_client o c :
  (∀ i, o = Some i → str_contains_char zero i = false) →
  foldl client_line c (match o with Some i => ["id: " +:+ i] | None => [] end) =
  mkClient (c_data c) (c_type c) (default (c_id c) o) (c_retry c) (c_msgs c).
Proof.
  intros H. destruct c, o as [i|]; [|done]. cbn [foldl].
  change (client_line ?c ("id: " +:+ i)) with
    (if str_contains_char zero i then c else mkClient (c_data c) (c_type c) i (c_retry c) (c_msgs c)).
  by rewrite H.
Qed.

Lemma event_line_client o c :
  foldl client_line c (match o with Some n => ["event: " +:+ n] | None => [] end) =
  mkClient (c_data c) (default (c_type c) o) (c_id c) (c_retry c) (c_msgs c).
Proof. destruct c, o; done. Qed.

Lemma retry_line_client o c :
  (∀ r, o = Some r → is_u64 r) →
  foldl client_line c (match o with Some r => ["retry: " +:+ dec r] | None => [] end) =
  mkClient (c_data c) (c_type c) (c_id c) (match o with Some r => Some r | None => c_retry c end)
    (c_msgs c).
Proof.
  intros H. destruct c, o as [r|]; [|done]. specialize (H r eq_refl). cbn [foldl].
  change (client_line ?c ("retry: " +:+ dec r)) with (client_field "retry" (dec r) c).
  unfold client_field. cbn [String.eqb Ascii.eqb Bool.eqb]. rewrite dec_digits by apply H.
  by rewrite parse_u64_dec.
Qed.

Lemma event_lines_client e c :
  event_ok e → c_data c = [] → c_type c = "" → foldl client_line c (event_lines e) = deliver c e.
Proof.
  intros (Hid & Hev & Hre & _) Hd Ht. unfold event_lines.
  rewrite !foldl_app, id_line_client, event_line_client, retry_line_client, data_lines_client
    by naive_solver.
  destruct c as [d t i r ms]. simpl in Hd, Ht. subst.
  unfold deliver. cbn [foldl client_line dispatch c_data c_type c_id c_retry c_msgs app].
  destruct (lines (data e)); [done|]. by destruct (event e).
Qed.

(** ** The lines of the data *)

Lemma strip_cr_id s : str_contains_char cr s = false → strip_cr s = s.
Proof.
  induction s as [|c s IH]; [done|]. cbn [str_contains_char]. intros [Hc Hs]%orb_false_iff.
  cbn [strip_cr]. destruct s as [|d s]; [by rewrite Hc|]. by rewrite IH.
Qed.

Lemma str_split_pieces (P : ascii → bool) c s :
  str_forall P s = true → Forall (λ p, str_forall (λ a, P a && negb (Ascii.eqb a c)) p = true) (str_split c s).
Proof.
  induction s as [|a s IH]; cbn [str_forall str_split]; intros H; [by repeat constructor|].
  apply andb_true_iff in H as [Ha Hs]. specialize (IH Hs).
  destruct (Ascii.eqb a c) eqn:E; [by constructor|].
  destruct (str_split c s) as [|p ps]; inversion IH; subst; constructor; try done;
    cbn [str_forall]; rewrite Ha, E; done.
Qed.

Lemma str_join_split c s : str_join (String c "") (str_split c s) = s.
Proof.
  induction s as [|a s IH]; [done|]. cbn [str_split]. destruct (Ascii.eqb_spec a c) as [->|].
  - destruct (str_split c s) as [|p ps] eqn:E; [by destruct s; simpl in E; repeat case_match|].
    change (str_join (String c "") ("" :: p :: ps)) with (String c (str_join (String c "") (p :: ps))).
    by rewrite IH.
  - destruct (str_split c s) as [|p ps]; [by rewrite <- IH|]. rewrite <- IH.
    by destruct ps.
Qed.

Lemma lines_of_spec l :
  Forall (λ p, str_contains_char cr p = false) l → l ≠ [] →
  (lines_of l = l) ∨ (l = lines_of l ++ [""]).
Proof.
  induction 1 as [|p l Hp Hl IH]; [done|]. intros _.
  destruct l as [|q l]; [destruct p; [by right|by left]|].
  change (lines_of (p :: q :: l)) with (strip_cr p :: lines_of (q :: l)). rewrite strip_cr_id by done.
  destruct IH as [->|IH]; [done|by left|right]. by rewrite <- app_comm_cons, <- IH.
Qed.

(** Text without carriage returns: the lines joined are the text up to one final line feed. *)
Lemma lines_join d :
  str_contains_char cr d = false →
  (lines d = [] ↔ d = "") ∧ (d = str_join lfs (lines d) ∨ d = str_join lfs (lines d) +:+ lfs) ∧
  Forall (λ l, no_break l = true) (lines d).
Proof.
  intros Hd. unfold lines.
  assert (str_forall (λ a, negb (Ascii.eqb a cr)) d = true) as Hf.
  { clear -Hd. induction d as [|a d IH]; [done|]. cbn [str_contains_char str_forall] in *.
    apply orb_false_iff in Hd as [-> Hd]. by rewrite IH. }
  pose proof (str_split_pieces _ lf _ Hf) as Hp. pose proof (str_join_split lf d) as Hj.
  assert (Forall (λ p, no_break p = true) (str_split lf d)) as Hnb.
  { eapply Forall_impl; [exact Hp|]. intros p. cbv beta. apply str_forall_impl. intros a.
    rewrite !andb_true_iff. tauto. }
  assert (Forall (λ p, str_contains_char cr p = false) (str_split lf d)) as Hcr.
  { eapply Forall_impl; [exact Hp|]. intros p. cbv beta. apply str_forall_not_contains.
    by rewrite Ascii.eqb_refl. }
  assert (str_split lf d ≠ []) as Hne by (destruct d; simpl; repeat case_match; done).
  destruct (lines_of_spec _ Hcr Hne) as [E|E].
  - rewrite E. split_and!; [|by left; rewrite <- Hj at 1|done]. split; [done|]. intros ->. by simpl in E.
  - rewrite E in Hnb. apply Forall_app in Hnb as [Hnb _]. split_and!; [| |done].
    + split; [intros Hl|by intros ->]. by rewrite Hl in E; rewrite <- Hj, E.
    + rewrite E in Hj. destruct (lines_of (str_split lf d)) as [|x l]; [by left; rewrite <- Hj|].
      right. rewrite <- Hj at 1. clear. revert x.
      induction l as [|y l IH]; intros x; [done|].
      change (str_join (String lf "") ((x :: y :: l) ++ [""])) with
        (x +:+ lfs +:+ str_join lfs ((y :: l) ++ [""])). unfold lfs in IH at 1. fold lfs in IH.
      rewrite IH. change (str_join lfs (x :: y :: l)) with (x +:+ lfs +:+ str_join lfs (y :: l)).
      by rewrite <- !(assoc_L String.append).
Qed.

Lemma no_break_field n v : no_break n = true → no_break v = true → no_break (n +:+ v) = true.
Proof. unfold no_break. rewrite str_forall_app. by intros -> ->. Qed.

Lemma digits_no_break s : is_digits s = true → no_break s = true.
Proof.
  apply str_forall_impl. intros a Ha. apply bool_decide_eq_true in Ha as [d Hd].
  destruct (Ascii.eqb_spec a lf) as [->|]; [done|]. by destruct (Ascii.eqb_spec a cr) as [->|].
Qed.

Lemma event_lines_no_break e : event_ok e → Forall (λ l, no_break l = true) (event_lines e).
Proof.
  intros (Hid & Hev & Hre & Hd). unfold event_lines. rewrite !Forall_app. split_and!.
  - destruct (id e); constructor; [|done]. apply no_break_field; [done|]. by apply Hid.
  - destruct (event e); constructor; [|done]. apply no_break_field; [done|]. by apply Hev.
  - destruct (retry e) as [r|]; constructor; [|done]. apply no_break_field; [done|].
    apply digits_no_break, dec_digits. by apply (Hre r eq_refl).
  - apply Forall_fmap. destruct (lines_join _ Hd) as (_ & _ & H).
    eapply Forall_impl; [exact H|]. intros l Hl. by apply no_break_field.
  - by repeat constructor.
Qed.

(** What a client makes of formatted events in sequence. *)
Lemma receive_events es c :
  Forall event_ok es → c_data c = [] → c_type c = "" →
  receive (str_join "" (format <$> es)) c = foldl deliver c es.
Proof.
  intros Hok Hd Ht.
  unfold receive. assert (∀ rest, client_lines "" (str_join "" (format <$> es) +:+ rest)
    = concat (event_lines <$> es) ++ client_lines "" rest) as Hl.
  { clear -Hok. intros rest. induction Hok as [|e es He _ IH]; [done|].
    rewrite fmap_cons, str_join_nil_cons, <- (assoc_L String.append), format_lines.
    rewrite client_lines_block by (by apply event_lines_no_break). rewrite IH.
    simpl. by rewrite (assoc_L (++)). }
  specialize (Hl ""). rewrite str_app_nil_r in Hl. rewrite Hl, app_nil_r. clear Hl.
  revert c Hd Ht. induction Hok as [|e es He _ IH]; intros c Hd Ht; [done|].
  rewrite fmap_cons. cbn [concat foldl]. rewrite foldl_app, event_lines_client by done.
  by apply IH.
Qed.

(** C38: events survive the wire.  A client of the HTML standard that reads the formatted
    events in sequence ends with exactly the effect of the events (their ids, reconnection
    times and messages, in order), and the text of a message is the data up to one final
    line feed; an event without data dispatches no message.  Ids and event names must be
    free of line breaks (the id also of NUL) and the data of carriage returns. *)
Theorem sse_roundtrip es c :
  Forall event_ok es → c_data c = [] → c_type c = "" →
  receive (str_join "" (format <$> es)) c = foldl deliver c es ∧
  Forall (λ e, (lines (data e) = [] ↔ data e = "") ∧
    (data e = str_join lfs (lines (data e)) ∨ data e = str_join lfs (lines (data e)) +:+ lfs)) es.
Proof.
  intros Hok Hd Ht. split.
  - by apply receive_events.
  - eapply Forall_impl; [exact Hok|]. intros e (_ & _ & _ & He).
    destruct (lines_join _ He) as (H1 & H2 & _). auto.
Qed.

(** A carriage return in the data ends a line at the client but not in [format]: data can
    forge the other fields of an event. *)
Lemma lone_cr_forges_event :
  c_msgs (receive (format (data_event ("hi" +:+ String cr "event: admin"))) client_new)
  = [mkMessage "admin" "hi" ""].
Proof. reflexivity. Qed.

(** * Stream handles *)

(** tokio's bounded [mpsc] channel: a capacity of zero panics, and sending fails once the
    receiver was dropped. *)
Inductive Poll := Ready (o : option string) | Pending.

Class Mpsc := {
  mchan : Type;
  mpsc_channel : Z → option mchan;
  drop_receiver : mchan → mchan;
  try_send : mchan → string → mchan * bool;
  poll_recv : mchan → mchan * Poll;
  receiver_gone : mchan → Prop;
  gone_drop c : receiver_gone (drop_receiver c);
  gone_send c b : receiver_gone c → (try_send c b).2 = false ∧ receiver_gone (try_send c b).1
}.

Section stream.
Context `{MP : Mpsc}.

(** A handle with the channel and the closed flag it shares with the body. *)
Record SSEStream := mkSSEStream { sender : mchan; closed : bool; event_count : Z }.

(** [py_new]: the receiver is a local variable of the constructor. *)
Definition py_new (buffer_size : Z) : option SSEStream :=
  c ← mpsc_channel buffer_size; Some (mkSSEStream (drop_receiver c) false 0).

(** [SSEBody::new]: the body keeps the receiver. *)
Definition body_new (buffer_size : Z) : option SSEStream :=
  c ← mpsc_channel buffer_size; Some (mkSSEStream c false 0).

Definition send (e : SSEEvent) (s : SSEStream) : SSEStream * bool :=
  if closed s then (s, false)
  else
    match try_send (sender s) (format e) with
    | (c, true) => (mkSSEStream c (closed s) (w64 (event_count s + 1)), true)
    | (c, false) => (mkSSEStream c (closed s) (event_count s), false)
    end.

Definition send_data (d : string) : SSEStream → SSEStream * bool := send (data_event d).
Definition send_event (n d : string) : SSEStream → SSEStream * bool := send (named n d).

Definition keepalive (s : SSEStream) : SSEStream * bool :=
  if closed s then (s, false)
  else
    let '(c, ok) := try_send (sender s) (comment "keepalive") in
    (mkSSEStream c (closed s) (event_count s), ok).

Definition close (s : SSEStream) : SSEStream := mkSSEStream (sender s) true (event_count s).
Definition is_closed (s : SSEStream) : bool := closed s.

(** [poll_next]: the flag is looked at before the queue. *)
Definition poll_next (s : SSEStream) : SSEStream * Poll :=
  if closed s then (s, Ready None)
  else let '(c, p) := poll_recv (sender s) in (mkSSEStream c (closed s) (event_count s), p).

Inductive stream_op := Send (e : SSEEvent) | Keepalive | Close.

Definition stream_step (o : stream_op) (s : SSEStream) : SSEStream * bool :=
  match o with Send e => send e s | Keepalive => keepalive s | Close => (close s, false) end.

Fixpoint stream_run (ops : list stream_op) (s : SSEStream) : SSEStream * list bool :=
  match ops with
  | [] => (s, [])
  | o :: ops' =>
      let '(s1, b) := stream_step o s in let '(s2, bs) := stream_run ops' s1 in (s2, b :: bs)
  end.

(** a stream made by the Python constructor never sends.  Whatever the buffer size
    and the calls, every send and keepalive reports failure and no event is counted. *)
Theorem py_stream_never_sends size s ops :
  py_new size = Some s →
  (stream_run ops s).2 = replicate (length ops) false ∧ event_count (stream_run ops s).1 = 0.
Proof.
  unfold py_new. destruct (mpsc_channel size) as [c|]; [|done]. intros [= <-].
  assert (∀ s, receiver_gone (sender s) → event_count s = 0 →
    (stream_run ops s).2 = replicate (length ops) false ∧ event_count (stream_run ops s).1 = 0) as H.
  { induction ops as [|o ops IH]; intros s Hg He; [done|]. cbn [stream_run length replicate].
    assert ((stream_step o s).2 = false ∧ receiver_gone (sender (stream_step o s).1) ∧
            event_count (stream_step o s).1 = 0) as (H1 & H2 & H3).
    { destruct o as [e| |]; cbn [stream_step]; unfold send, keepalive; [| |done];
        (destruct (closed s); [done|]);
        match goal with |- context [try_send (sender s) ?b] =>
          destruct (gone_send (sender s) b Hg); destruct (try_send (sender s) b) as [? []] end;
        naive_solver. }
    destruct (stream_step o s) as [s1 b]. simpl in *. subst b.
    destruct (IH s1 H2 H3) as [H4 H5]. destruct (stream_run ops s1). simpl in *. by subst. }
  apply H; [apply gone_drop|done].
Qed.

(** Closing drops what is still queued. *)
Lemma close_drops_queue s : (poll_next (close s)).2 = Ready None.
Proof. done. Qed.
End stream.

(** * Witnesses *)

Definition demo_event : SSEEvent := mkSSEEvent (Some "7") (Some "chat") ("a: b" +:+ String lf "c") (Some 250).

Lemma sse_roundtrip_witness :
  receive (str_join "" (format <$> [demo_event; data_event "x"])) client_new
  = mkClient [] "" "7" (Some 250)
      [mkMessage "chat" ("a: b" +:+ String lf "c") "7"; mkMessage "message" "x" "7"].
Proof.
  refine (eq_trans (proj1 (sse_roundtrip [demo_event; data_event "x"] client_new _ eq_refl eq_refl)) _);
    [|vm_compute; reflexivity].
  apply Forall_cons; split; [|apply Forall_cons; split; [|apply Forall_nil; exact I]];
    (split_and!; [intros ? [= <-]; split|intros ? [= <-]|intros ? [= <-]; unfold is_u64, u64_max; lia|];
     vm_compute; reflexivity).
Defined.

(** A channel as a bounded queue with a flag for its receiver. *)
#[refine] Instance queue_Mpsc : Mpsc := {
  mchan := (nat * list string * bool)%type;
  mpsc_channel n := if 0 <? n then Some (Z.to_nat n, [], true) else None;
  drop_receiver c := (c.1.1, [], false);
  try_send c b :=
    if c.2 && (length c.1.2 <? c.1.1)%nat then ((c.1.1, c.1.2 ++ [b], true), true) else (c, false);
  poll_recv c := match c.1.2 with b :: q => ((c.1.1, q, c.2), Ready (Some b)) | [] => (c, Pending) end;
  receiver_gone c := c.2 = false
}.
Proof. all: [> done | intros [[n q] []]; done]. Defined.

Lemma py_stream_never_sends_witness :
  (stream_run [Send demo_event; Keepalive; Close] (mkSSEStream (100%nat, [], false) false 0)).2
  = [false; false; false].
Proof.
  refine (proj1 (py_stream_never_sends 100 _ [Send demo_event; Keepalive; Close] _)). reflexivity.
Defined.
