(* ===== verification/Response.v ===== *)
(** Responses (src/src/http/response.rs): the slot a handler writes to, the methods of the
    Python [Response] object and the HTTP response made from the slot; also
    [middleware_response_to_hyper] of src/src/middleware/mod.rs.  The [http] crate's header
    names and values are a class. *)
From S2P Require Import Prelude Method Routing Multipart Request Chain Sse.
From stdpp Require Import base gmap strings list pretty.
Open Scope Z_scope.

(** * HTTP messages *)

(** RFC 9110 token characters. *)
Definition token_char (c : ascii) : bool :=
  let b := byte_of_ascii c in
  ((48 <=? b) && (b <=? 57)) || ((65 <=? b) && (b <=? 90)) || ((97 <=? b) && (b <=? 122)) ||
  existsb (Ascii.eqb c) ["!"; "#"; "$"; "%"; "&"; "'"; "*"; "+"; "-"; "."; "^"; "_"; "`"; "|"; "~"]%char.

(** [HeaderName::from_bytes] lowers a token; [HeaderValue::from_str] accepts visible ASCII
    and refuses line breaks. *)
Class Http := {
  header_name : string → option string;
  header_value_ok : string → bool;
  header_name_token n : n ≠ "" → str_forall token_char n = true →
    header_name n = Some (to_ascii_lowercase n);
  header_name_no_break n n' : header_name n = Some n' → no_break n' = true;
  header_value_visible v :
    str_forall (λ c, (32 <=? byte_of_ascii c) && (byte_of_ascii c <=? 126)) v = true →
    header_value_ok v = true;
  header_value_no_break v : header_value_ok v = true → no_break v = true
}.

(** [http::HeaderMap]: entries by name, several per name after [append]. *)
Notation Headers := (list (string * string)).

Definition h_append (n v : string) (h : Headers) : Headers := h ++ [(n, v)].
Definition h_remove (n : string) (h : Headers) : Headers :=
  List.filter (λ kv : string * string, negb (String.eqb kv.1 n)) h.
Definition h_insert (n v : string) (h : Headers) : Headers := h_remove n h ++ [(n, v)].
Definition h_contains (n : string) (h : Headers) : bool := existsb (λ kv : string * string, String.eqb kv.1 n) h.
Definition h_or_insert (n v : string) (h : Headers) : Headers :=
  if h_contains n h then h else h_append n v h.
Definition h_get_all (n : string) (h : Headers) : list string :=
  (List.filter (λ kv : string * string, String.eqb kv.1 n) h).*2.

(** Bodies: bytes, or the chunks of a channel. *)
Inductive BodyKind := Buffered (b : string) | Streaming (chunks : list string).

Record HttpResponse := mkHttpResponse {
  h_status : Z;
  h_headers : Headers;
  h_body : BodyKind
}.

(** [StatusCode::from_u16] *)
Definition status_code (s : Z) : option Z := if (100 <=? s) && (s <=? 999) then Some s else None.

Definition response_404 : HttpResponse :=
  mkHttpResponse 404 [("content-type", "text/plain")] (Buffered "Not Found").
Definition response_500 : HttpResponse :=
  mkHttpResponse 500 [("content-type", "text/plain")] (Buffered "Internal Server Error").
Definition response_405 : HttpResponse :=
  mkHttpResponse 405 [("content-type", "text/plain")] (Buffered "Method Not Allowed").

(** * The slot *)

Record ResponseSlot := mkResponseSlot {
  s_status : Z;
  s_headers : Headers;
  s_body : BodyKind;
  ready : bool;
  sent : bool;
  streaming : bool
}.

Definition slot_new : ResponseSlot := mkResponseSlot 200 [] (Buffered "") false false false.

Definition set_status (st : Z) (s : ResponseSlot) : ResponseSlot :=
  mkResponseSlot st (s_headers s) (s_body s) (ready s) (sent s) (streaming s).
Definition put_headers (h : Headers) (s : ResponseSlot) : ResponseSlot :=
  mkResponseSlot (s_status s) h (s_body s) (ready s) (sent s) (streaming s).
Definition put_body (b : BodyKind) (s : ResponseSlot) : ResponseSlot :=
  mkResponseSlot (s_status s) (s_headers s) b (ready s) (sent s) (streaming s).
Definition set_headers (h : Headers) (s : ResponseSlot) : ResponseSlot := put_headers h s.
Definition add_header (k v : string) (s : ResponseSlot) : ResponseSlot :=
  put_headers (s_headers s ++ [(k, v)]) s.
Definition set_body (b : string) (s : ResponseSlot) : ResponseSlot := put_body (Buffered b) s.
Definition append_body (d : string) (s : ResponseSlot) : ResponseSlot :=
  match s_body s with Buffered b => put_body (Buffered (b +:+ d)) s | Streaming _ => s end.
Definition get_body_len (s : ResponseSlot) : Z :=
  match s_body s with Buffered b => str_len b | Streaming _ => 0 end.
Definition set_streaming_body (chunks : list string) (s : ResponseSlot) : ResponseSlot :=
  mkResponseSlot (s_status s) (s_headers s) (Streaming chunks) (ready s) (sent s) true.
Definition mark_ready (s : ResponseSlot) : ResponseSlot :=
  mkResponseSlot (s_status s) (s_headers s) (s_body s) true (sent s) (streaming s).
Definition mark_sent (s : ResponseSlot) : ResponseSlot :=
  mkResponseSlot (s_status s) (s_headers s) (s_body s) (ready s) true (streaming s).

Section names.
Context `{RS : RustStr}.

Definition same_name (k1 k2 : string) : bool := String.eqb (to_lowercase k1) (to_lowercase k2).
Definition get_header (k : string) (s : ResponseSlot) : option string :=
  snd <$> List.find (λ kv, same_name kv.1 k) (s_headers s).
Definition remove_header (k : string) (s : ResponseSlot) : ResponseSlot :=
  put_headers (List.filter (λ kv : string * string, negb (same_name kv.1 k)) (s_headers s)) s.

(** * The methods of [Response] *)

Definition append (k v : string) (s : ResponseSlot) : ResponseSlot :=
  match get_header k s with
  | Some existing => add_header k (existing +:+ ", " +:+ v) (remove_header k s)
  | None => add_header k v s
  end.

Definition vary (f : string) (s : ResponseSlot) : ResponseSlot :=
  match get_header "Vary" s with
  | Some existing =>
      if negb (str_contains (to_lowercase f) (to_lowercase existing)) then
        add_header "Vary" (existing +:+ ", " +:+ f) (remove_header "Vary" s)
      else s
  | None => add_header "Vary" f s
  end.

(** What [send] finds in its Python argument; the JSON text is the serializer's. *)
Inductive PyBody := PyStr (s : string) | PyBytes (b : string) | PyNone | PyJson (j : string).

Definition json (j : string) (s : ResponseSlot) : ResponseSlot :=
  mark_ready (set_body j (add_header "Content-Type" "application/json" s)).

Definition default_type (t : string) (s : ResponseSlot) : ResponseSlot :=
  match get_header "Content-Type" s with Some _ => s | None => add_header "Content-Type" t s end.

Definition send (b : PyBody) (s : ResponseSlot) : ResponseSlot :=
  match b with
  | PyStr t => mark_ready (set_body t (default_type "text/html; charset=utf-8" s))
  | PyBytes t => mark_ready (set_body t (default_type "application/octet-stream" s))
  | PyNone => mark_ready (set_body "" s)
  | PyJson j => json j s
  end.
End names.

Definition quoted (v : string) : string := String dquote (v +:+ String dquote "").

Definition links (l : list (string * string)) (s : ResponseSlot) : ResponseSlot :=
  add_header "Link" (str_join ", " ((λ ru, "<" +:+ ru.2 +:+ ">; rel=" +:+ quoted ru.1) <$> l)) s.
Definition etag (e : string) (s : ResponseSlot) : ResponseSlot :=
  add_header "ETag" (if starts_with (String dquote "") e then e else quoted e) s.
Definition content_type (t : string) : ResponseSlot → ResponseSlot := add_header "Content-Type" t.
Definition typed_body (t b : string) (s : ResponseSlot) : ResponseSlot :=
  mark_ready (set_body b (add_header "Content-Type" t s)).
Definition html : string → ResponseSlot → ResponseSlot := typed_body "text/html; charset=utf-8".
Definition text : string → ResponseSlot → ResponseSlot := typed_body "text/plain; charset=utf-8".
Definition xml : string → ResponseSlot → ResponseSlot := typed_body "application/xml".

Definition with_sse_headers (s : ResponseSlot) : ResponseSlot :=
  foldl (λ s kv, add_header kv.1 kv.2 s) s sse_headers.
Definition sse (events : list SSEEvent) (s : ResponseSlot) : ResponseSlot :=
  mark_ready (set_body (str_join "" (format <$> events)) (with_sse_headers s)).
Definition sse_stream (events : list SSEEvent) (s : ResponseSlot) : ResponseSlot :=
  mark_ready (set_streaming_body (format <$> events) (with_sse_headers s)).
Definition sse_event (d : string) (e i : option string) (s : ResponseSlot) : ResponseSlot :=
  mark_ready (set_body (format (mkSSEEvent i e d None)) (with_sse_headers s)).

Definition status_message (st : Z) : string :=
  match st with
  | 100 => "Continue" | 101 => "Switching Protocols" | 200 => "OK" | 201 => "Created"
  | 202 => "Accepted" | 204 => "No Content" | 301 => "Moved Permanently" | 302 => "Found"
  | 303 => "See Other" | 304 => "Not Modified" | 307 => "Temporary Redirect"
  | 308 => "Permanent Redirect" | 400 => "Bad Request" | 401 => "Unauthorized"
  | 403 => "Forbidden" | 404 => "Not Found" | 405 => "Method Not Allowed"
  | 406 => "Not Acceptable" | 408 => "Request Timeout" | 409 => "Conflict" | 410 => "Gone"
  | 413 => "Payload Too Large" | 415 => "Unsupported Media Type"
  | 422 => "Unprocessable Entity" | 429 => "Too Many Requests"
  | 500 => "Internal Server Error" | 501 => "Not Implemented" | 502 => "Bad Gateway"
  | 503 => "Service Unavailable" | 504 => "Gateway Timeout" | _ => "Unknown Status"
  end.

Definition send_status (st : Z) (s : ResponseSlot) : ResponseSlot :=
  mark_ready (set_body (status_message st) (set_status st s)).
Definition end_response (d : option PyBody) (s : ResponseSlot) : ResponseSlot :=
  mark_ready (match d with Some (PyStr t) | Some (PyBytes t) => set_body t s | _ => s end).
Definition redirect (url : string) (st : Z) (s : ResponseSlot) : ResponseSlot :=
  mark_ready (add_header "Location" url (set_status st s)).

Definition cookie_attr (n : string) (v : option string) : string :=
  match v with Some x => "; " +:+ n +:+ "=" +:+ x | None => "" end.

Definition cookie (n v : string) (max_age : option Z) (path domain : option string)
    (secure http_only : bool) (same_site : option string) (s : ResponseSlot) : ResponseSlot :=
  add_header "Set-Cookie"
    (n +:+ "=" +:+ v +:+ cookie_attr "Max-Age" (pretty <$> max_age) +:+ cookie_attr "Path" path +:+
     cookie_attr "Domain" domain +:+ (if secure then "; Secure" else "") +:+
     (if http_only then "; HttpOnly" else "") +:+ cookie_attr "SameSite" same_site) s.
Definition clear_cookie (n : string) (path domain : option string) (s : ResponseSlot) : ResponseSlot :=
  add_header "Set-Cookie"
    (n +:+ "=; Max-Age=0" +:+ cookie_attr "Path" path +:+ cookie_attr "Domain" domain) s.

Definition cache_control (max_age : Z) (private no_cache no_store : bool) (s : ResponseSlot)
    : ResponseSlot :=
  add_header "Cache-Control"
    (str_join ", "
       (if no_store then ["no-store"] else if no_cache then ["no-cache"]
        else [if private then "private" else "public"; "max-age=" +:+ dec max_age])) s.
Definition no_cache (s : ResponseSlot) : ResponseSlot :=
  add_header "Expires" "0" (add_header "Pragma" "no-cache"
    (add_header "Cache-Control" "no-cache, no-store, must-revalidate" s)).

Definition add_opt (k : string) (v : option string) (s : ResponseSlot) : ResponseSlot :=
  match v with Some x => add_header k x s | None => s end.
Definition cors (origin : string) (methods hs : option (list string)) (credentials : bool)
    (max_age : option Z) (s : ResponseSlot) : ResponseSlot :=
  add_opt "Access-Control-Max-Age" (dec <$> max_age)
    (add_opt "Access-Control-Allow-Credentials" (if credentials then Some "true" else None)
       (add_opt "Access-Control-Allow-Headers" (str_join ", " <$> hs)
          (add_opt "Access-Control-Allow-Methods" (str_join ", " <$> methods)
             (add_header "Access-Control-Allow-Origin" origin s)))).
Definition attachment (f : option string) (s : ResponseSlot) : ResponseSlot :=
  add_header "Content-Disposition"
    (match f with Some n => "attachment; filename=" +:+ quoted n | None => "attachment" end) s.

(** * The response on the wire *)

Section http.
Context `{HT : Http}.

Definition append_valid (h : Headers) (kv : string * string) : Headers :=
  match header_name kv.1 with
  | Some n => if header_value_ok kv.2 then h_append n kv.2 h else h
  | None => h
  end.

Definition into_response (s : ResponseSlot) : HttpResponse :=
  let h := h_or_insert "server" "Hypern" (foldl append_valid [] (s_headers s)) in
  let h' :=
    match s_body s with
    | Buffered b => h_insert "content-length" (dec (str_len b)) h
    | Streaming _ => h_remove "content-length" (h_insert "transfer-encoding" "chunked" h)
    end in
  mkHttpResponse (default 200 (status_code (s_status s))) h' (s_body s).

(** [http::response::Builder]: an invalid part makes the whole message an error. *)
Definition builder_header (h : option Headers) (kv : string * string) : option Headers :=
  h ← h; n ← header_name kv.1; if header_value_ok kv.2 then Some (h_append n kv.2 h) else None.

Definition middleware_response_to_hyper (r : MiddlewareResponse) : HttpResponse :=
  match
    st ← status_code (status r);
    h ← foldl builder_header (Some [])
          (resp_headers r ++ [("content-length", dec (str_len (resp_body r)))]);
    Some (mkHttpResponse st h (Buffered (resp_body r)))
  with
  | Some m => m
  | None => mkHttpResponse 500 [] (Buffered "Internal Server Error")
  end.

(** ** No header carries a line break *)

(** Every name and value of the map is on one line. *)
Definition clean (h : Headers) : Prop :=
  Forall (λ kv : string * string, no_break kv.1 = true ∧ no_break kv.2 = true) h.

Lemma clean_remove n h : clean h → clean (h_remove n h).
Proof.
  unfold clean, h_remove. rewrite !Forall_forall. intros H kv Hkv. apply H.
  apply list_elem_of_In, filter_In in Hkv as [Hkv _]. by apply list_elem_of_In.
Qed.

Lemma clean_append n v h :
  clean h → no_break n = true → no_break v = true → clean (h_append n v h).
Proof. intros. apply Forall_app. split; [done|]. by repeat constructor. Qed.

Lemma clean_insert n v h :
  clean h → no_break n = true → no_break v = true → clean (h_insert n v h).
Proof. intros. apply clean_append; [by apply clean_remove|done..]. Qed.

Lemma clean_append_valid l h : clean h → clean (foldl append_valid h l).
Proof.
  revert h. induction l as [|[k v] l IH]; intros h Hh; [done|]. cbn [foldl]. apply IH.
  unfold append_valid. simpl. destruct (header_name k) as [n|] eqn:En; [|done].
  destruct (header_value_ok v) eqn:Ev; [|done].
  apply clean_append; [done|by eapply header_name_no_break|by apply header_value_no_break].
Qed.

Lemma str_len_no_break b : no_break (dec (str_len b)) = true.
Proof. apply digits_no_break, dec_digits. unfold str_len. lia. Qed.

Lemma builder_stuck l : foldl builder_header None l = None.
Proof. by induction l. Qed.

Lemma builder_headers_ok l h :
  Forall (λ kv : string * string, is_Some (header_name kv.1) ∧ header_value_ok kv.2 = true) l →
  is_Some (foldl builder_header (Some h) l).
Proof.
  intros H. revert h. induction H as [|[k v] l [[n Hn] Hv] _ IH]; intros h; [eauto|].
  cbn [foldl]. unfold builder_header at 2. simpl in *. rewrite Hn. simpl. rewrite Hv. apply IH.
Qed.

Lemma builder_headers_spec l h h' :
  foldl builder_header (Some h) l = Some h' →
  Forall (λ kv : string * string, is_Some (header_name kv.1) ∧ header_value_ok kv.2 = true) l ∧
  (clean h → clean h') ∧ h'.*2 = h.*2 ++ l.*2.
Proof.
  revert h. induction l as [|[k v] l IH]; intros h; cbn [foldl].
  - intros [= <-]. rewrite app_nil_r. auto.
  - unfold builder_header at 2. simpl. destruct (header_name k) as [n|] eqn:En; simpl;
      [destruct (header_value_ok v) eqn:Ev|].
    + intros H. destruct (IH _ H) as (H1 & H2 & H3). split_and!.
      * constructor; [|done]. simpl. rewrite En. eauto.
      * intros Hh. apply H2, clean_append; [done|by eapply header_name_no_break|].
        by apply header_value_no_break.
      * rewrite H3. unfold h_append. rewrite fmap_app. simpl. by rewrite <- (assoc_L (++)).
    + by rewrite builder_stuck.
    + by rewrite builder_stuck.
Qed.

Lemma get_all_remove n h : h_get_all n (h_remove n h) = [].
Proof.
  unfold h_get_all, h_remove. induction h as [|[k v] h IH]; [done|]. simpl in *.
  destruct (String.eqb k n) eqn:E; simpl; [done|]. by rewrite E.
Qed.

Lemma get_all_insert n v h : h_get_all n (h_insert n v h) = [v].
Proof.
  unfold h_insert. pose proof (get_all_remove n h) as H. unfold h_get_all in *.
  rewrite List.filter_app, fmap_app, H. simpl. by rewrite String.eqb_refl.
Qed.

Lemma get_all_remove_ne n m h : n ≠ m → h_get_all n (h_remove m h) = h_get_all n h.
Proof.
  intros Hne. unfold h_get_all, h_remove. induction h as [|[k v] h IH]; [done|].
  simpl in *. destruct (String.eqb_spec k m) as [->|]; simpl.
  - destruct (String.eqb_spec m n); [by subst|done].
  - destruct (String.eqb k n); [|done]. rewrite !fmap_cons. by f_equal.
Qed.

Lemma content_length_ok b :
  is_Some (header_name "content-length") ∧ header_value_ok (dec (str_len b)) = true.
Proof.
  split; [rewrite (header_name_token "content-length") by done; eauto|].
  apply header_value_visible. eapply str_forall_impl; [|apply (dec_digits (str_len b)); unfold str_len; lia].
  intros a Ha. cbv beta in Ha. apply bool_decide_eq_true in Ha as [d Hd]. unfold digit_of in Hd.
  case_match eqn:E; [|done]. unfold byte_of_ascii. lia.
Qed.

(** The values that a list of headers gives a name; a header with an invalid name or value gives none. *)
Definition written (n : string) (l : list (string * string)) : list string :=
  (List.filter (λ kv : string * string, match header_name kv.1 with
                                        | Some m => String.eqb m n && header_value_ok kv.2
                                        | None => false
                                        end) l).*2.

Lemma get_all_append n m v h : h_get_all n (h_append m v h) = h_get_all n h ++ (if String.eqb m n then [v] else []).
Proof. unfold h_get_all, h_append. rewrite List.filter_app, fmap_app. simpl. by destruct (String.eqb m n). Qed.

Lemma written_app n l1 l2 : written n (l1 ++ l2) = written n l1 ++ written n l2.
Proof. unfold written. by rewrite List.filter_app, fmap_app. Qed.

Lemma written_cons n kv l : written n (kv :: l) = written n [kv] ++ written n l.
Proof. apply (written_app n [kv] l). Qed.

Lemma get_all_append_valid n l h : h_get_all n (foldl append_valid h l) = h_get_all n h ++ written n l.
Proof.
  revert h. induction l as [|[k v] l IH]; intros h; [by rewrite app_nil_r|]. cbn [foldl].
  rewrite IH, written_cons, (assoc_L (++)). f_equal. unfold append_valid, written. simpl.
  destruct (header_name k) as [m|]; [|by rewrite app_nil_r]. destruct (header_value_ok v).
  - rewrite get_all_append, andb_true_r. by destruct (String.eqb m n).
  - by rewrite andb_false_r, app_nil_r.
Qed.

Lemma get_all_builder n l h h' :
  foldl builder_header (Some h) l = Some h' → h_get_all n h' = h_get_all n h ++ written n l.
Proof.
  revert h. induction l as [|[k v] l IH]; intros h; cbn [foldl]; [intros [= <-]; by rewrite app_nil_r|].
  unfold builder_header at 2. rewrite written_cons, (assoc_L (++)). unfold written at 1. simpl.
  destruct (header_name k) as [m|]; simpl; [destruct (header_value_ok v)|]; rewrite ?builder_stuck; [|done..].
  intros ->%IH. rewrite get_all_append, andb_true_r. by destruct (String.eqb m n).
Qed.

Lemma get_all_or_insert n m v h :
  h_get_all n (h_or_insert m v h) =
    h_get_all n h ++ (if String.eqb m n && (match h_get_all m h with [] => true | _ => false end) then [v] else []).
Proof.
  unfold h_or_insert. assert (h_contains m h = negb (match h_get_all m h with [] => true | _ => false end)) as ->.
  { unfold h_contains, h_get_all. induction h as [|[k w] h IH]; [done|]. simpl. destruct (String.eqb k m); [done|]. apply IH. }
  destruct (h_get_all m h); simpl; rewrite ?andb_true_r, ?andb_false_r, ?app_nil_r; [apply get_all_append|done].
Qed.

Lemma get_all_insert_ne n m v h : n ≠ m → h_get_all n (h_insert m v h) = h_get_all n h.
Proof.
  intros Hne. change (h_insert m v h) with (h_append m v (h_remove m h)).
  rewrite get_all_append, get_all_remove_ne by done.
  rewrite (proj2 (String.eqb_neq m n)) by congruence. by rewrite app_nil_r.
Qed.

Lemma written_length n b :
  written n [("content-length", dec (str_len b))] = if String.eqb n "content-length" then [dec (str_len b)] else [].
Proof.
  unfold written. cbn [List.filter fst snd]. rewrite (header_name_token "content-length") by done.
  change (to_ascii_lowercase "content-length") with "content-length". rewrite (proj2 (content_length_ok b)), andb_true_r.
  rewrite (String.eqb_sym n). by destruct (String.eqb _ n).
Qed.

Lemma status_code_range st n : status_code st = Some n → n = st ∧ 100 <= n <= 999.
Proof. unfold status_code. case_match eqn:E; [|done]. intros [= <-]. lia. Qed.

(** The two outcomes of the builder. *)
Lemma middleware_response_cases r :
  let m := middleware_response_to_hyper r in
  clean (h_headers m) ∧ 100 <= h_status m <= 999 ∧
  ((is_Some (status_code (status r)) ∧
    Forall (λ kv : string * string, is_Some (header_name kv.1) ∧ header_value_ok kv.2 = true)
      (resp_headers r) ∧
    h_status m = status r ∧ h_body m = Buffered (resp_body r) ∧
    (h_headers m).*2 = (resp_headers r).*2 ++ [dec (str_len (resp_body r))] ∧
    ∀ n, h_get_all n (h_headers m) =
      written n (resp_headers r) ++ (if String.eqb n "content-length" then [dec (str_len (resp_body r))] else [])) ∨
   (m = mkHttpResponse 500 [] (Buffered "Internal Server Error") ∧
    ¬ (is_Some (status_code (status r)) ∧
       Forall (λ kv : string * string, is_Some (header_name kv.1) ∧ header_value_ok kv.2 = true)
         (resp_headers r)))).
Proof.
  cbv zeta. unfold middleware_response_to_hyper.
  destruct (status_code (status r)) as [st|] eqn:Est; cbn [mbind option_bind].
  - apply status_code_range in Est as [-> Hst].
    destruct (foldl builder_header _ _) as [h|] eqn:Eh; cbn [h_headers h_status h_body mbind option_bind].
    + pose proof (λ n, get_all_builder n _ _ _ Eh) as H4.
      apply builder_headers_spec in Eh as (H1 & H2 & H3). apply Forall_app in H1 as [H1 _].
      split_and!; [by apply H2, Forall_nil|lia|lia|]. left. split_and!; [eauto|done..| |].
      * by rewrite H3, fmap_app.
      * intros n. by rewrite H4, written_app, written_length.
    + split_and!; [by apply Forall_nil|lia|lia|]. right. split; [done|]. intros [_ Hf].
      pose proof (content_length_ok (resp_body r)) as Hcl.
      assert (is_Some (foldl builder_header (Some [])
        (resp_headers r ++ [("content-length", dec (str_len (resp_body r)))]))) as [? ?]; [|congruence].
      apply builder_headers_ok, Forall_app. split; [done|]. by constructor.
  - cbn [h_headers h_status]. split_and!; [by apply Forall_nil|lia|lia|]. right. split; [done|].
    intros [[? [=]] _].
Qed.

(** C31: what goes on the wire.  A handler's response, whatever the handler wrote, has no
    line break in a header name or value and a status from 100 to 999; it carries one content
    length, that of the buffered body, or chunked encoding and no content length for a
    stream; and of every other header exactly the valid values the handler wrote, in order,
    with [Server: Hypern] added when it wrote none.  So a [Transfer-Encoding] that the handler
    sets on a buffered response is sent beside the content length.  A middleware response is either sent
    as it is, with its length added after any content length it already had, or replaced by a bare 500,
    and the latter exactly when its status or one of its headers is invalid. *)
Theorem wire_safe (s : ResponseSlot) (r : MiddlewareResponse) :
  let o := into_response s in let m := middleware_response_to_hyper r in
  (clean (h_headers o) ∧ clean (h_headers m) ∧
   100 <= h_status o <= 999 ∧ 100 <= h_status m <= 999) ∧
  match s_body s with
  | Buffered b => h_body o = Buffered b ∧ h_get_all "content-length" (h_headers o) = [dec (str_len b)]
  | Streaming c => h_body o = Streaming c ∧ h_get_all "content-length" (h_headers o) = [] ∧
      h_get_all "transfer-encoding" (h_headers o) = ["chunked"]
  end ∧
  (∀ n, n ≠ "content-length" → (n = "transfer-encoding" → ∃ b, s_body s = Buffered b) →
     h_get_all n (h_headers o) =
       written n (s_headers s) ++
         (if String.eqb "server" n && (match written "server" (s_headers s) with [] => true | _ => false end)
          then ["Hypern"] else [])) ∧
  ((is_Some (status_code (status r)) ∧
    Forall (λ kv : string * string, is_Some (header_name kv.1) ∧ header_value_ok kv.2 = true)
      (resp_headers r) ∧
    h_status m = status r ∧ h_body m = Buffered (resp_body r) ∧
    (h_headers m).*2 = (resp_headers r).*2 ++ [dec (str_len (resp_body r))] ∧
    ∀ n, h_get_all n (h_headers m) =
      written n (resp_headers r) ++ (if String.eqb n "content-length" then [dec (str_len (resp_body r))] else [])) ∨
   (m = mkHttpResponse 500 [] (Buffered "Internal Server Error") ∧
    ¬ (is_Some (status_code (status r)) ∧
       Forall (λ kv : string * string, is_Some (header_name kv.1) ∧ header_value_ok kv.2 = true)
         (resp_headers r)))).
Proof.
  cbv zeta. destruct (middleware_response_cases r) as (Hm1 & Hm2 & Hm3).
  split_and!; [|done|..|done].
  - unfold into_response. cbn [h_headers].
    assert (clean (h_or_insert "server" "Hypern" (foldl append_valid [] (s_headers s)))) as Hc.
    { unfold h_or_insert. case_match; [|apply clean_append; [|done..]];
        apply clean_append_valid; by apply Forall_nil. }
    destruct (s_body s); [|apply clean_remove]; apply clean_insert; try done.
    apply str_len_no_break.
  - unfold into_response. cbn [h_status]. unfold status_code. case_match eqn:E; simpl; lia.
  - unfold into_response. cbn [h_status]. unfold status_code. case_match eqn:E; simpl; lia.
  - by destruct Hm2.
  - by destruct Hm2.
  - unfold into_response. destruct (s_body s); cbn [h_body h_headers].
    + split; [done|]. apply get_all_insert.
    + split_and!; [done|apply get_all_remove|]. rewrite get_all_remove_ne by done. apply get_all_insert.
  - intros n Hn Ht. unfold into_response. cbn [h_headers].
    rewrite <- (get_all_append_valid n (s_headers s) []), <- (get_all_append_valid "server" (s_headers s) []) at 1.
    rewrite <- get_all_or_insert. destruct (s_body s) as [b|c].
    + by apply get_all_insert_ne.
    + rewrite get_all_remove_ne by done. apply get_all_insert_ne. intros Hx. by destruct (Ht Hx).
Qed.
End http.

(** The instance that accepts exactly tokens and visible ASCII. *)
#[refine] Instance token_Http : Http := {
  header_name n :=
    if negb (str_is_empty n) && str_forall token_char n then Some (to_ascii_lowercase n) else None;
  header_value_ok := str_forall (λ c, (32 <=? byte_of_ascii c) && (byte_of_ascii c <=? 126))
}.
Proof.
  - intros n Hn Ht. rewrite Ht. by destruct n.
  - intros n n' H. case_match eqn:E; [|done]. injection H as <-.
    apply andb_true_iff in E as [_ E]. clear -E. unfold no_break.
    induction n as [|a n IH]; [done|]. cbn [str_forall] in E. apply andb_true_iff in E as [Ha E].
    unfold to_ascii_lowercase in *. cbn [str_map str_forall]. rewrite IH by done. clear -Ha.
    assert (∀ a, token_char a = true →
      negb (Ascii.eqb (char_to_lower a) lf) && negb (Ascii.eqb (char_to_lower a) cr) = true) as H.
    { clear. intros a. destruct a as [[] [] [] [] [] [] [] []]; vm_compute; auto. }
    by rewrite H.
  - done.
  - intros v. apply str_forall_impl. intros a. destruct a as [[] [] [] [] [] [] [] []]; vm_compute; auto.
Defined.

(** Header injection is dropped, and the framing of the handler overridden. *)
Lemma injected_header_dropped :
  into_response (set_body "hello" (add_header "X-A" ("1" +:+ crlf +:+ "Evil: 2")
    (add_header "Content-Length" "9999" (add_header "X-B" "3" slot_new)))) =
  mkHttpResponse 200 [("x-b", "3"); ("server", "Hypern"); ("content-length", "5")] (Buffered "hello").
Proof. vm_compute. reflexivity. Qed.

(** The header methods append: a content type chosen before [json] is sent together with
    the one [json] adds. *)
Lemma json_duplicates_content_type :
  h_get_all "content-type"
    (h_headers (into_response (json "{}" (content_type "application/problem+json" slot_new))))
  = ["application/problem+json"; "application/json"].
Proof. vm_compute. reflexivity. Qed.

(** A middleware response that already carries a content length gets a second one. *)
Lemma middleware_length_duplicated :
  h_get_all "content-length"
    (h_headers (middleware_response_to_hyper (mkMiddlewareResponse 200 [("Content-Length", "0")] "abc")))
  = ["0"; "3"].
Proof. vm_compute. reflexivity. Qed.
