(* ===== verification/Log.v ===== *)
(** Logging (src/src/logging/mod.rs): levels, entries and their text, the configuration, and the
    global queue with its consumer threads as a step relation.  The clock, the printing of times
    and of durations are parameters.  Writing to the terminal is taken to succeed (the code ignores a
    failure), and the queue size to be positive (a channel of size zero has no queue). *)
From S2P Require Import Prelude F64.
From stdpp Require Import base gmap strings list relations.
Open Scope Z_scope.

(** * Levels *)

Inductive LogLevel := Trace | Debug | Info | Warn | Error | Off.

#[export] Instance LogLevel_eq_dec : EqDecision LogLevel.
Proof. solve_decision. Defined.

Definition level_num (l : LogLevel) : Z :=
  match l with Trace => 0 | Debug => 1 | Info => 2 | Warn => 3 | Error => 4 | Off => 5 end.

(** The derived order. *)
Definition level_lt (a b : LogLevel) : bool := level_num a <? level_num b.

Definition as_str (l : LogLevel) : string :=
  match l with
  | Trace => "TRACE" | Debug => "DEBUG" | Info => "INFO" | Warn => "WARN" | Error => "ERROR" | Off => "OFF"
  end.

Definition from_str `{RustStr} (s : string) : LogLevel :=
  let is_one := existsb (String.eqb (to_lowercase s)) in
  if is_one ["trace"] then Trace
  else if is_one ["debug"] then Debug
  else if is_one ["info"] then Info
  else if is_one ["warn"; "warning"] then Warn
  else if is_one ["error"] then Error
  else if is_one ["off"; "none"; "disabled"] then Off
  else Info.

Definition esc (code : string) : string := String (chr 27) ("[" +:+ code +:+ "m").

Definition color_code (l : LogLevel) : string :=
  match l with
  | Trace => esc "90" | Debug => esc "36" | Info => esc "32" | Warn => esc "33" | Error => esc "31" | Off => ""
  end.

(** * Entries *)

Record LogEntry := mkLogEntry {
  timestamp : f64;
  level : LogLevel;
  message : string;
  target : option string;
  request_id : option string;
  method : option string;
  path : option string;
  status : option Z;
  duration_ms : option f64;
  worker_id : option Z
}.

Definition entry_new (now : f64) (l : LogLevel) (m : string) : LogEntry :=
  mkLogEntry now l m None None None None None None None.
Definition with_target (t : string) (e : LogEntry) : LogEntry :=
  mkLogEntry (timestamp e) (level e) (message e) (Some t) (request_id e) (method e) (path e) (status e)
    (duration_ms e) (worker_id e).
Definition with_worker (w : Z) (e : LogEntry) : LogEntry :=
  mkLogEntry (timestamp e) (level e) (message e) (target e) (request_id e) (method e) (path e) (status e)
    (duration_ms e) (Some w).
Definition entry_request (now : f64) (m p : string) (rid : option string) : LogEntry :=
  mkLogEntry now Info "" (Some "request") rid (Some m) (Some p) None None None.
Definition entry_response (now : f64) (m p : string) (st : Z) (dur : f64) (rid : option string) : LogEntry :=
  mkLogEntry now Info "" (Some "response") rid (Some m) (Some p) (Some st) (Some dur) None.

(** The time stamp of a formatted entry: [print] is chrono's text of a second and its nanoseconds, if
    they name an instant; [now_text] that of the present. *)
Definition format_timestamp (print : Z → Z → option string) (now_text : string) (ts : f64) : string :=
  let secs := f64_to_i64 ts in
  let micros := f64_to_u32 (f64_mul (f64_sub ts (f64_of_Z secs)) (f64_of_Z 1000000)) in
  default now_text (print secs (w32 (micros * 1000))).

(** [{:<5}] *)
Definition pad5 (s : string) : string :=
  s +:+ String.concat "" (replicate (5 - String.length s) " ").

Definition status_color (st : Z) : string :=
  if (200 <=? st) && (st <=? 299) then esc "32"
  else if (300 <=? st) && (st <=? 399) then esc "36"
  else if (400 <=? st) && (st <=? 499) then esc "33"
  else if (500 <=? st) && (st <=? 599) then esc "31"
  else esc "37".

Definition format_colored (format_timestamp fixed2 : f64 → string) (e : LogEntry) : string :=
  let reset := esc "0" in
  let dim := esc "2" in
  let color := color_code (level e) in
  let head := dim +:+ format_timestamp (timestamp e) +:+ reset +:+ " " +:+ color +:+ pad5 (as_str (level e)) +:+ reset in
  let m := default "?" (method e) in
  let p := default "?" (path e) in
  let rid := default "-" (request_id e) in
  if bool_decide (target e = Some "request") then
    head +:+ " " +:+ esc "35" +:+ "-->" +:+ reset +:+ " " +:+ m +:+ " " +:+ p +:+ " " +:+ dim +:+ "[" +:+ rid +:+ "]" +:+ reset
  else if bool_decide (target e = Some "response") then
    let st := default 0 (status e) in
    let dur := default (f64_of_Z 0) (duration_ms e) in
    head +:+ " " +:+ esc "35" +:+ "<--" +:+ reset +:+ " " +:+ m +:+ " " +:+ p +:+ " " +:+ status_color st +:+ dec st +:+
      reset +:+ " " +:+ dim +:+ fixed2 dur +:+ "ms" +:+ reset +:+ " " +:+ dim +:+ "[" +:+ rid +:+ "]" +:+ reset
  else
    let worker := match worker_id e with Some w => " " +:+ dim +:+ "[worker-" +:+ dec w +:+ "]" +:+ reset | None => "" end in
    let tgt := match target e with Some t => " " +:+ dim +:+ t +:+ reset | None => "" end in
    head +:+ tgt +:+ worker +:+ " " +:+ message e.

(** * Configuration *)

Record LogConfig := mkLogConfig {
  min_level : LogLevel;
  log_request_on : bool;
  log_response_on : bool;
  queue_size : nat;
  skip_paths : list string
}.

Definition config_default : LogConfig :=
  mkLogConfig Info true true 10000
    ["/_health"; "/_health/live"; "/_health/ready"; "/_health/startup"; "/favicon.ico"].

Definition should_skip_path (p : string) (c : LogConfig) : bool :=
  existsb (λ q, starts_with q p) (skip_paths c).

(** The Python constructors. *)
Definition py_config_new `{RustStr} (l : string) (req resp : bool) (size : nat) (skip : option (list string))
    : LogConfig :=
  mkLogConfig (from_str l) req resp size (default (skip_paths config_default) skip).
Definition config_disabled : LogConfig := mkLogConfig Off false false 1 [].
Definition errors_only : LogConfig :=
  mkLogConfig Error false false (queue_size config_default) (skip_paths config_default).
Definition verbose : LogConfig :=
  mkLogConfig Debug true true (queue_size config_default) (skip_paths config_default).

(** * The queue *)

(** A consumer thread: at the head of its loop, inside [recv_timeout], printing what it received;
    flushing, printing an entry of the flush, past the flush, and ended with its receiver dropped. *)
Inductive consumer_pc :=
| Looping | Receiving | Printing (e : LogEntry) | Flushing | FlushPrinting (e : LogEntry) | Flushed | Ended.

(** The entry that was taken from the channel and is not printed yet. *)
Definition in_hand (p : consumer_pc) : list LogEntry :=
  match p with Printing e | FlushPrinting e => [e] | _ => [] end.
Definition has_ended (p : consumer_pc) : bool := match p with Ended => true | _ => false end.

(** One [init]: its channel, its configuration cell and flag, and its consumer.  [sender] is
    whether the global still holds the sender; [accepted] is what [try_send] took, [written] what
    reached the terminal, [lost] what the channel discarded with its receiver, and [flushed] what had been
    accepted when the last flush found the channel empty. *)
Record LogQueueInner := mkInner {
  queue : list LogEntry;
  config : LogConfig;
  capacity : nat;
  running : bool;
  sender : bool;
  pc : consumer_pc;
  accepted : list LogEntry;
  written : list LogEntry;
  lost : list LogEntry;
  flushed : list LogEntry
}.

Definition shown (c : LogConfig) (e : LogEntry) : bool := negb (level_lt (level e) (min_level c)).

(** [bounded(queue_size)]. *)
Definition instance_new (c : LogConfig) : LogQueueInner :=
  mkInner [] c (queue_size c) true true Looping [] [] [] [].

(** [log_entry] on the current instance: below the level, a full queue and a dropped receiver
    refuse the entry. *)
Definition try_log (e : LogEntry) (s : LogQueueInner) : LogQueueInner :=
  if level_lt (level e) (min_level (config s)) then s
  else if (length (queue s) <? capacity s)%nat && negb (has_ended (pc s)) then
    mkInner (queue s ++ [e]) (config s) (capacity s) (running s) (sender s) (pc s) (accepted s ++ [e]) (written s)
      (lost s) (flushed s)
  else s.

Definition set_pc (p : consumer_pc) (s : LogQueueInner) : LogQueueInner :=
  mkInner (queue s) (config s) (capacity s) (running s) (sender s) p (accepted s) (written s) (lost s) (flushed s).
Definition set_config (c : LogConfig) (s : LogQueueInner) : LogQueueInner :=
  mkInner (queue s) c (capacity s) (running s) (sender s) (pc s) (accepted s) (written s) (lost s) (flushed s).
Definition stop (s : LogQueueInner) : LogQueueInner :=
  mkInner (queue s) (config s) (capacity s) false (sender s) (pc s) (accepted s) (written s) (lost s) (flushed s).
Definition drop_sender (s : LogQueueInner) : LogQueueInner :=
  mkInner (queue s) (config s) (capacity s) (running s) false (pc s) (accepted s) (written s) (lost s) (flushed s).

(** The consumer takes the entry [e]; and prints it if the level, as configured by then, allows. *)
Definition receive (p : consumer_pc) (q : list LogEntry) (s : LogQueueInner) : LogQueueInner :=
  mkInner q (config s) (capacity s) (running s) (sender s) p (accepted s) (written s) (lost s) (flushed s).
Definition print (p : consumer_pc) (e : LogEntry) (s : LogQueueInner) : LogQueueInner :=
  mkInner (queue s) (config s) (capacity s) (running s) (sender s) p (accepted s)
    (if shown (config s) e then written s ++ [e] else written s) (lost s) (flushed s).

(** The flush found the channel empty. *)
Definition end_flush (s : LogQueueInner) : LogQueueInner :=
  mkInner (queue s) (config s) (capacity s) (running s) (sender s) Flushed (accepted s) (written s) (lost s) (accepted s).

(** Dropping the receiver discards what is in the channel. *)
Definition drop_receiver (s : LogQueueInner) : LogQueueInner :=
  mkInner [] (config s) (capacity s) (running s) (sender s) Ended (accepted s) (written s) (lost s ++ queue s) (flushed s).

(** [while running]: another wait for an entry, or the flush. *)
Definition next_round (s : LogQueueInner) : consumer_pc := if running s then Receiving else Flushing.

(** [log_consumer]. *)
Inductive consumer_step : LogQueueInner → LogQueueInner → Prop :=
| C_loop s : pc s = Looping → consumer_step s (set_pc (next_round s) s)
| C_receive s e q : pc s = Receiving → queue s = e :: q → consumer_step s (receive (Printing e) q s)
| C_print s e : pc s = Printing e → consumer_step s (print Looping e s)
| C_timeout s : pc s = Receiving → queue s = [] → sender s = true → consumer_step s (set_pc Looping s)
| C_disconnected s : pc s = Receiving → queue s = [] → sender s = false → consumer_step s (set_pc Flushing s)
| C_flush s e q : pc s = Flushing → queue s = e :: q → consumer_step s (receive (FlushPrinting e) q s)
| C_flush_print s e : pc s = FlushPrinting e → consumer_step s (print Flushing e s)
| C_flushed s : pc s = Flushing → queue s = [] → consumer_step s (end_flush s)
| C_end s : pc s = Flushed → consumer_step s (drop_receiver s).

(** The global [LOG_QUEUE] and every instance it held. *)
Record Logger := mkLogger { current : option nat; instances : list LogQueueInner }.

Definition on_current (f : LogQueueInner → LogQueueInner) (g : Logger) : Logger :=
  match current g with
  | Some i => mkLogger (current g) (alter f i (instances g))
  | None => g
  end.

Definition log_entry (e : LogEntry) : Logger → Logger := on_current (try_log e).

(** [LogQueue::config]. *)
Definition current_config (g : Logger) : option LogConfig :=
  i ← current g; config <$> instances g !! i.

Definition log (now : f64) (l : LogLevel) (m : string) : Logger → Logger := log_entry (entry_new now l m).

Definition log_request (now : f64) (m p : string) (rid : option string) (g : Logger) : Logger :=
  match current_config g with
  | Some cfg => if negb (log_request_on cfg) || should_skip_path p cfg then g
                else log_entry (entry_request now m p rid) g
  | None => g
  end.
Definition log_response (now : f64) (m p : string) (st : Z) (dur : f64) (rid : option string) (g : Logger) : Logger :=
  match current_config g with
  | Some cfg => if negb (log_response_on cfg) || should_skip_path p cfg then g
                else log_entry (entry_response now m p st dur rid) g
  | None => g
  end.

Definition update_config (c : LogConfig) : Logger → Logger := on_current (set_config c).

(** [shutdown] takes the lock twice: the flag, then the global. *)
Definition shutdown_flag : Logger → Logger := on_current stop.
Definition shutdown_drop (g : Logger) : Logger :=
  mkLogger None (instances (on_current drop_sender g)).
Definition shutdown (g : Logger) : Logger := shutdown_drop (shutdown_flag g).

(** [init] after its shutdown: storing the new instance drops whatever the global holds. *)
Definition init_store (c : LogConfig) (g : Logger) : Logger :=
  let g := shutdown_drop g in
  mkLogger (Some (length (instances g))) (instances g ++ [instance_new c]).
Definition init (c : LogConfig) (g : Logger) : Logger := init_store c (shutdown g).

(** In a forked child the old consumer does not exist, so its flag is left alone. *)
Definition reinit_after_fork (g : Logger) : Logger :=
  match current_config g with
  | Some cfg => init cfg (shutdown_drop g)
  | None => g
  end.

(** Threads that log and reconfigure, and the consumers, interleave.  The channels have room: one of
    size zero would hand an entry only to a consumer that waits. *)
Inductive step : Logger → Logger → Prop :=
| L_log g e : step g (log_entry e g)
| L_config g c : step g (update_config c g)
| L_flag g : step g (shutdown_flag g)
| L_drop g : step g (shutdown_drop g)
| L_init g c : (0 < queue_size c)%nat → step g (init_store c g)
| L_consumer g i s s' : instances g !! i = Some s → consumer_step s s' →
    step g (mkLogger (current g) (<[i := s']> (instances g))).

Definition logger_new : Logger := mkLogger None [].
Definition reachable (g : Logger) : Prop := rtc step logger_new g.

(** * Delivery *)

(** With an unchanged configuration whatever was accepted is on the terminal, in the hand of the
    consumer, in the queue or, once the consumer has ended, lost, in that order; and whatever was
    accepted before the flush ended is on the terminal then. *)
Record delivers (s : LogQueueInner) : Prop := {
  dl_accepted : accepted s = written s ++ in_hand (pc s) ++ queue s ++ lost s;
  dl_bound : (length (queue s) <= capacity s)%nat;
  dl_shown : Forall (λ e, shown (config s) e = true) (in_hand (pc s) ++ queue s);
  dl_lost : pc s ≠ Ended → lost s = [];
  dl_ended : pc s = Ended → queue s = [];
  dl_flushed : pc s = Flushed ∨ pc s = Ended → written s = flushed s
}.

Lemma delivers_new c : delivers (instance_new c).
Proof. split; cbn; try done. lia. Qed.

Lemma delivers_try_log e s : delivers s → delivers (try_log e s).
Proof.
  intros [Ha Hl Hs Hn He Hf]. unfold try_log. destruct (level_lt _ _) eqn:E; [by split|].
  destruct ((length (queue s) <? capacity s)%nat) eqn:El; [|by split].
  destruct (has_ended (pc s)) eqn:Ep; [by split|]. cbn [negb andb]. apply Nat.ltb_lt in El.
  assert (pc s ≠ Ended) as Hp by (by intros Hp; rewrite Hp in Ep). split; cbn; try done.
  - rewrite Ha, (Hn Hp), !app_nil_r. by rewrite !(assoc_L (++)).
  - rewrite length_app. simpl. lia.
  - rewrite (assoc_L (++)). apply Forall_app. split; [done|]. constructor; [|done]. unfold shown. by rewrite E.
Qed.

Ltac closing Hn Ha :=
  first [done | lia | intros _; by apply Hn | by intros [|] | by rewrite Ha, <-(assoc_L (++))].

Lemma delivers_consumer s s' : consumer_step s s' → delivers s → delivers s'.
Proof.
  intros Hst [Ha Hl Hs Hn He Hf].
  destruct Hst as [s Hp|s e q Hp Hq|s e Hp|s Hp Hq _|s Hp Hq _|s e q Hp Hq|s e Hp|s Hp Hq|s Hp];
    rewrite Hp in *; cbn in *.
  - unfold next_round. destruct (running s); split; cbn in *; closing Hn Ha.
  - rewrite Hq in *. split; cbn in *; closing Hn Ha.
  - apply Forall_cons in Hs as [H1 H2]. split; cbn in *; rewrite ?H1; closing Hn Ha.
  - split; cbn in *; closing Hn Ha.
  - split; cbn in *; closing Hn Ha.
  - rewrite Hq in *. split; cbn in *; closing Hn Ha.
  - apply Forall_cons in Hs as [H1 H2]. split; cbn in *; rewrite ?H1; closing Hn Ha.
  - rewrite (Hn ltac:(done)), Hq, app_nil_r in Ha.
    split; cbn; rewrite ?Hq, ?(Hn ltac:(done)), ?app_nil_r; first [done|apply Nat.le_0_l|lia|intros _; by rewrite Ha].
  - rewrite (Hn ltac:(done)), app_nil_r in Ha.
    split; cbn; rewrite ?(Hn ltac:(done)); first [done|lia|intros _; apply Hf; by left].
Qed.

Lemma consumer_keeps s s' :
  consumer_step s s' → config s' = config s ∧ running s' = running s ∧ sender s' = sender s ∧ accepted s' = accepted s.
Proof. by destruct 1. Qed.

(** A step that changes no configuration. *)
Definition keeps_config (g g' : Logger) : Prop :=
  ∀ i s s', instances g !! i = Some s → instances g' !! i = Some s' → config s' = config s.
Definition calm_step (g g' : Logger) : Prop := step g g' ∧ keeps_config g g'.

Lemma delivers_on_current f g :
  (∀ i s, current g = Some i → instances g !! i = Some s → delivers s → delivers (f s)) →
  Forall delivers (instances g) → Forall delivers (instances (on_current f g)).
Proof.
  intros Hf Hg. unfold on_current. destruct (current g) as [i|] eqn:Hc; [|done]. simpl.
  apply Forall_lookup. intros j s Hj. rewrite list_lookup_alter in Hj.
  destruct (decide (i = j)) as [<-|]; [|by eapply Forall_lookup_1].
  destruct (instances g !! i) as [s0|] eqn:Hi; simplify_eq/=. eapply Hf; [done..|]. by eapply Forall_lookup_1.
Qed.

Lemma delivers_step g g' : calm_step g g' → Forall delivers (instances g) → Forall delivers (instances g').
Proof.
  intros [Hs Hk] Hg. destruct Hs.
  - apply delivers_on_current; [|done]. intros _ s _ _. apply delivers_try_log.
  - apply delivers_on_current; [|done]. intros i s Hc Hi Hd.
    assert (c = config s) as ->.
    { apply (Hk i s (set_config c s) Hi). unfold update_config, on_current. rewrite Hc. simpl.
      by rewrite list_lookup_alter_eq, Hi. }
    by destruct Hd.
  - apply delivers_on_current; [|done]. by intros _ s _ _ [].
  - apply delivers_on_current; [|done]. by intros _ s _ _ [].
  - unfold init_store. simpl. apply Forall_app. split; [|constructor; [apply delivers_new|done]].
    apply delivers_on_current; [|done]. by intros _ s _ _ [].
  - simpl. apply Forall_insert; [done|]. eapply delivers_consumer; [done|]. by eapply Forall_lookup_1.
Qed.

(** ** The end of a consumer *)

Definition rank (p : consumer_pc) : nat :=
  match p with
  | Receiving | Printing _ => 4 | Looping | FlushPrinting _ => 3 | Flushing => 2 | Flushed => 1 | Ended => 0
  end.
Definition measure (s : LogQueueInner) : nat := 2 * length (queue s) + rank (pc s).

Lemma consumer_decreases s s' :
  running s = false → consumer_step s s' → running s' = false ∧ (measure s' < measure s)%nat.
Proof.
  intros Hr Hs. split; [by rewrite (proj1 (proj2 (consumer_keeps s s' Hs)))|].
  unfold measure. destruct Hs; unfold next_round; simpl; rewrite ?H, ?H0, ?Hr; simpl; lia.
Qed.

Lemma consumer_bound s n s' :
  running s = false → nsteps consumer_step n s s' → (n <= 2 * length (queue s) + 4)%nat.
Proof.
  intros Hr Hn. assert (n + measure s' <= measure s)%nat as H.
  { induction Hn as [|n s s1 s' H1 Hn IH]; [done|].
    destruct (consumer_decreases s s1 Hr H1) as [Hr' Hm]. specialize (IH Hr'). lia. }
  unfold measure in H. assert (rank (pc s) <= 4)%nat by (destruct (pc s); simpl; lia). lia.
Qed.

Lemma consumer_stuck s : (∀ s', ¬ consumer_step s s') → pc s = Ended.
Proof.
  intros Hn. destruct (pc s) eqn:Hp; [..|done]; exfalso.
  - eapply Hn. by apply C_loop.
  - destruct (queue s) as [|e q] eqn:Hq; [|by eapply Hn, C_receive].
    destruct (sender s) eqn:Hs; [by eapply Hn, C_timeout|by eapply Hn, C_disconnected].
  - eapply Hn. by apply C_print.
  - destruct (queue s) as [|e q] eqn:Hq; [by eapply Hn, C_flushed|by eapply Hn, C_flush].
  - eapply Hn. by apply C_flush_print.
  - eapply Hn. by apply C_end.
Qed.

(** A run of the consumer alone. *)
Lemma consumer_run s s' :
  rtc consumer_step s s' → delivers s → delivers s' ∧ accepted s' = accepted s.
Proof.
  induction 1 as [|s s1 s' H1 _ IH]; intros Hd; [done|].
  destruct (IH (delivers_consumer s s1 H1 Hd)) as [Hd' Ha]. split; [done|].
  destruct (consumer_keeps s s1 H1) as (_ & _ & _ & He). congruence.
Qed.

(** It loses nothing if it has yet to find the channel empty. *)
Definition lossless (s : LogQueueInner) : Prop := lost s = [] ∧ (pc s = Flushed → queue s = []).

Lemma lossless_step s s' : consumer_step s s' → lossless s → lossless s'.
Proof.
  unfold lossless. intros Hs [Hl Hq]. destruct Hs; unfold next_round; cbn; try done; [by destruct (running s)|].
  by rewrite Hl, Hq.
Qed.

Lemma lossless_run s s' : rtc consumer_step s s' → lossless s → lossless s'.
Proof. induction 1 as [|s s1 s' H1 _ IH]; [done|]. intros H. by eapply IH, lossless_step. Qed.

Lemma calm_delivers g i s : rtc calm_step logger_new g → instances g !! i = Some s → delivers s.
Proof.
  intros Hg Hi. assert (Forall delivers (instances g)) as Hd.
  { eapply (rtc_invariant calm_step (λ g, Forall delivers (instances g))); [apply delivers_step|done|by apply Forall_nil]. }
  by eapply (Forall_lookup_1 _ _ _ _ Hd).
Qed.

(** C11: what the logger does with the entries it accepts.  As long as no configuration is changed,
    under any interleaving of logging, shutdowns, re-initializations and the consumers: what an instance
    accepted is what it printed, followed by what its consumer has in hand, what is queued, and what was
    lost, in order and each once, and the queue keeps its bound; nothing is lost before the consumer has
    ended; and when the consumer is past its final flush, everything accepted until that flush found the
    channel empty is printed, so that only later entries can be lost.  Once its flag is down, the consumer,
    left alone, ends after at most twice as many steps as entries are queued and four more; then nothing is queued
    any more, and nothing was lost unless it was past its flush before. *)
Theorem log_delivery g i s :
  rtc calm_step logger_new g → instances g !! i = Some s →
  accepted s = written s ++ in_hand (pc s) ++ queue s ++ lost s ∧
  (length (queue s) <= capacity s)%nat ∧
  (pc s ≠ Ended → lost s = []) ∧
  (pc s = Flushed ∨ pc s = Ended → written s = flushed s) ∧
  (running s = false →
     (∀ n s', nsteps consumer_step n s s' → (n <= 2 * length (queue s) + 4)%nat) ∧
     (∀ s', rtc consumer_step s s' → (∀ s'', ¬ consumer_step s' s'') →
        pc s' = Ended ∧ accepted s = written s' ++ lost s' ∧
        (pc s ≠ Flushed → pc s ≠ Ended → lost s' = []))).
Proof.
  intros Hg Hi. pose proof (calm_delivers g i s Hg Hi) as Hd.
  split_and!; [by apply Hd..|]. intros Hr. split; [intros n s' Hn; by eapply consumer_bound|].
  intros s' Hs Hn. apply consumer_stuck in Hn. destruct (consumer_run s s' Hs Hd) as [Hd' Ha].
  split_and!; [done|rewrite <-Ha, (dl_accepted _ Hd'), Hn, (dl_ended _ Hd' Hn); done|].
  intros H1 H2. apply (lossless_run s s' Hs). split; [by apply Hd|done].
Qed.

(** Between the end of the flush and the drop of the receiver, entries are accepted that nobody will
    print. *)
Lemma accepted_after_flush :
  ∃ g s, reachable g ∧ instances g !! 0%nat = Some s ∧ pc s = Ended ∧ length (lost s) = 1%nat ∧ written s = [].
Proof.
  set (e := entry_new (f64_of_Z 0) Info "bye").
  set (s1 := stop (instance_new config_default)).
  set (s2 := end_flush (set_pc Flushing s1)).
  set (s4 := drop_receiver (try_log e s2)).
  exists (mkLogger (Some 0%nat) [s4]), s4. split; [|done].
  eapply rtc_l; [apply (L_init _ config_default); cbn; lia|]. eapply rtc_l; [apply L_flag|].
  change (shutdown_flag _) with (mkLogger (Some 0%nat) [s1]).
  eapply rtc_l; [by apply (L_consumer _ 0%nat s1), C_loop|].
  eapply rtc_l; [by apply (L_consumer _ 0%nat (set_pc Flushing s1)), C_flushed|].
  eapply rtc_l; [apply (L_log _ e)|].
  eapply rtc_l; [by apply (L_consumer _ 0%nat (try_log e s2)), C_end|].
  done.
Qed.

(** The skip list matches prefixes, not paths. *)
Example skip_prefix : should_skip_path "/_healthcare/records" config_default = true.
Proof. reflexivity. Qed.

Definition demo_entry : LogEntry := entry_new (f64_of_Z 0) Warn "low disk".

(** An entry is queued when the flag goes down; the consumer prints it and ends. *)
Definition demo_stopped : LogQueueInner := stop (try_log demo_entry (instance_new config_default)).

Lemma demo_stopped_run :
  rtc consumer_step demo_stopped
    (drop_receiver (end_flush (print Flushing demo_entry (receive (FlushPrinting demo_entry) [] (set_pc Flushing demo_stopped))))).
Proof.
  eapply rtc_l; [by apply C_loop|]. eapply rtc_l; [by apply C_flush|]. eapply rtc_l; [by apply C_flush_print|].
  eapply rtc_l; [by apply C_flushed|]. by apply rtc_once, C_end.
Qed.

Lemma log_delivery_witness :
  ∃ s', rtc consumer_step demo_stopped s' ∧ pc s' = Ended ∧ written s' = [demo_entry] ∧ lost s' = [].
Proof.
  assert (∀ g g', step g g' → keeps_config g g' → calm_step g g') as Hcalm by (by split).
  destruct (log_delivery (mkLogger (Some 0%nat) [demo_stopped]) 0%nat demo_stopped) as (_ & _ & _ & _ & H); [|done|].
  - eapply rtc_l; [apply Hcalm; [apply (L_init _ config_default); cbn; lia|by intros i s s' Hi]|].
    eapply rtc_l; [apply Hcalm; [apply (L_log (init_store config_default logger_new) demo_entry)|]|].
    { intros [|i] s s'; simpl; [|done]. by intros [= <-] [= <-]. }
    apply rtc_once, Hcalm; [apply (L_flag (log_entry demo_entry (init_store config_default logger_new)))|].
    intros [|i] s s'; simpl; [|done]. by intros [= <-] [= <-].
  - destruct (H eq_refl) as [_ H']. eexists. split; [exact demo_stopped_run|].
    destruct (H' _ demo_stopped_run) as (H1 & H2 & H3).
    + intros s'' Hs. inversion Hs; simplify_eq/=.
    + split_and!; [exact H1|reflexivity|by apply H3].
Defined.
