(* ===== verification/Worker.v ===== *)
(** The request pipeline of a worker (src/src/core/worker.rs and [http_execute] of
    src/src/core/interpreter.rs): drain test, in-flight accounting, the access log, middleware,
    routing and the Python handler, which is a parameter, as is the clock; and the health probes with the
    router that sends a request to them or to the pipeline.  [None] is a panic. *)
From S2P Require Import Prelude F64 Log Method Routing Multipart Request Chain BasicAuth Reload Response.
From stdpp Require Import base gmap strings list.
Open Scope Z_scope.

(** axum's router over the paths registered with [route]: which of them the path of a URI matches (one
    without captures matches itself only); and its [get] handlers, which serve GET, and HEAD without the
    body, and answer 405 to the other methods. *)
Definition plain_path (p : string) : bool := negb (str_contains_char "{"%char p || str_contains_char "}"%char p).

Class AxumRoutes := {
  axum_at : list string → string → option nat;
  without_body : HttpResponse → HttpResponse;
  method_not_allowed : HttpResponse;
  axum_at_static l p : Forall plain_path l → axum_at l p = fst <$> list_find (p =.) l;
  without_body_status r : h_status (without_body r) = h_status r;
  method_not_allowed_status : h_status method_not_allowed = 405
}.

Section worker.
Context `{RS : RustStr} `{XH : XXH3} `{FU : FormUrlencoded} `{PD : PercentDecode} `{U8 : Utf8}.
Context `{MI : MatchIt} `{HT : Http} `{NT : Notify} `{AX : AxumRoutes} {W : Type}.

(** The world holds the log queue of the process; handlers and middleware may log, too. *)
Context `{HL : !Holds Logger W}.

(** The clock readings of a request: for the middleware context, with its rendering; the times of
    the log entries; and the nanoseconds the handling takes. *)
Record Instant := mkInstant {
  now : Z; now_debug : string; received : f64; warned : f64; answered : f64; took : Z
}.

Definition logging (f : Logger → Logger) (w : W) : W := hold (f (held w)) w.

(** [AppState]: the reload manager is shared and changes; the others are read. *)
Record AppState := mkAppState {
  router : Routing.Router;
  middleware : @MiddlewareChain W;
  reload_manager : ReloadManager
}.

(** The registry of the process: a handler (the identity of the Python object) and whether it is a
    coroutine function, under the hash of its route; and what calling a handler does to the world
    and to the response slot.  An exception is printed and leaves the slot as it is. *)
Record Handlers := mkHandlers {
  registry : gmap Z (Z * bool);
  call : Z → bool → Request.Request → W → ResponseSlot → W * ResponseSlot
}.

Definition register_handler (is_coroutine : Z → bool) (hash handler : Z) (g : gmap Z (Z * bool))
    : gmap Z (Z * bool) := <[hash := (handler, is_coroutine handler)]> g.

(** [get_handler_info] and [get_handler]. *)
Definition get_handler (hs : Handlers) (hash : Z) : option (Z * bool) := registry hs !! hash.

Definition http_execute (hs : Handlers) (t : Instant) (route_hash : Z) (r : Request.Request) (w : W)
    : W * HttpResponse :=
  match get_handler hs route_hash with
  | None => (logging (log (warned t) Warn ("No handler found for hash: " +:+ dec route_hash)) w,
      into_response (set_body "Not Found" (Response.set_status 404 slot_new)))
  | Some (handler, is_async) =>
      let '(w', s) := call hs handler is_async r w slot_new in (w', into_response s)
  end.

Definition insert_valid (h : Headers) (kv : string * string) : Headers :=
  match header_name kv.1 with
  | Some n => if header_value_ok kv.2 then h_insert n kv.2 h else h
  | None => h
  end.

Definition with_headers (l : list (string * string)) (r : HttpResponse) : HttpResponse :=
  match l with
  | [] => r
  | _ => mkHttpResponse (h_status r) (foldl insert_valid (h_headers r) l) (h_body r)
  end.

Definition mw_context (t : Instant) (r : Request.Request) : MiddlewareContext :=
  context_new (Request.path r) (default GET (from_str (py_method r))) (headers_map r)
    (Request.query_string r) (body_ref r) (now t) (now_debug t).

(** The routed half of the slow path, after the before middleware passed.  Like all that runs
    middleware, it has no result when a middleware panics: the process is aborted. *)
Definition routed (st : AppState) (hs : Handlers) (t : Instant) (r : Request.Request) (w : W)
    (ctx : MiddlewareContext) : option (W * HttpResponse) :=
  match find_matching_route (router st) (Request.path r) (py_method r) with
  | Some (route, params) =>
      let r' := set_path_params params r in
      let ctx1 := set_params params ctx in
      let '(w1, res) := http_execute hs t (Routing.handler_hash route) r' w in
      '(w2, ctx2) ←
        (if negb (is_empty_after (middleware st)) then fst <$> execute_after (middleware st) w1 ctx1
         else Some (w1, ctx1));
      Some (w2, with_headers (get_response_headers ctx2) res)
  | None => Some (w, response_404)
  end.

Definition handle_request_inner (st : AppState) (hs : Handlers) (t : Instant)
    (req : AxumRequest) (w : W) : option (W * HttpResponse) :=
  let fast_req := Request.from_axum req in
  if negb (is_empty_before (middleware st)) then
    '(w1, ctx, res) ← execute_before (middleware st) w (mw_context t fast_req);
    match res with
    | Continue => routed st hs t fast_req w1 ctx
    | Response r => Some (w1, middleware_response_to_hyper r)
    | Error e =>
        '(w2, _, o) ← execute_error (middleware st) w1 ctx e;
        match o with
        | Some r => Some (w2, middleware_response_to_hyper r)
        | None => Some (w2, middleware_response_to_hyper (to_response e))
        end
    end
  else
    match find_matching_route (router st) (Request.path fast_req) (py_method fast_req) with
    | Some (route, params) =>
        Some (http_execute hs t (Routing.handler_hash route) (set_path_params params fast_req) w)
    | None => Some (w, response_404)
    end.

Definition draining_body : string :=
  "{" +:+ quote +:+ "error" +:+ quote +:+ ":" +:+ quote +:+ "service_draining" +:+ quote +:+ "," +:+
  quote +:+ "message" +:+ quote +:+ ":" +:+ quote +:+ "Server is reloading, please retry" +:+ quote +:+ "}".

Definition draining_response : HttpResponse :=
  mkHttpResponse 503 [("content-type", "application/json"); ("connection", "close");
    ("retry-after", "5")] (Buffered draining_body).

Definition set_manager (m : ReloadManager) (st : AppState) : AppState :=
  mkAppState (router st) (middleware st) m.

(** The access log has the method token and the path of the URI as they came. *)
Definition uri_path (req : AxumRequest) : string := default "" (fst <$> path_and_query req).
Definition log_received (t : Instant) (req : AxumRequest) : W → W :=
  logging (log_request (received t) (method_token req) (uri_path req) None).
Definition log_answered (t : Instant) (req : AxumRequest) (status : Z) : W → W :=
  logging (log_response (answered t) (method_token req) (uri_path req) status
    (f64_mul (as_secs_f64 (took t)) (f64_of_Z 1000)) None).

Definition handle_request (st : AppState) (hs : Handlers) (t : Instant) (req : AxumRequest)
    (w : W) : option (AppState * W * HttpResponse) :=
  let rm := reload_manager st in
  if is_draining rm then Some (st, w, draining_response)
  else
    let rm1 := set_health (increment_in_flight (health rm)).1 rm in
    '(w', response) ← handle_request_inner (set_manager rm1 st) hs t req (log_received t req w);
    Some (set_manager (on_request_complete rm1) st, log_answered t req (h_status response) w', response).

(** ** Health probes *)

Definition probe_response (code : Z) (secs : string) (h : HealthCheck) : HttpResponse :=
  mkHttpResponse (default 500 (status_code code)) [("content-type", "application/json")]
    (Buffered (to_json secs h)).

Definition health_liveness (secs : string) (m : ReloadManager) : HttpResponse :=
  probe_response (liveness_code (health m)) secs (health m).
Definition health_readiness (secs : string) (m : ReloadManager) : HttpResponse :=
  probe_response (readiness_code (health m)) secs (health m).
Definition health_startup (secs : string) (m : ReloadManager) : HttpResponse :=
  probe_response (startup_code (health m)) secs (health m).
Definition health_status (secs : string) (m : ReloadManager) : HttpResponse :=
  probe_response (if is_live (Reload.status (health m)) then 200 else 503) secs (health m).

(** The GET routes that [build_axum_router] registers before the fallback. *)
Definition probe_routes (m : ReloadManager) : list (string * (string → ReloadManager → HttpResponse)) :=
  let p := health_path_prefix (config m) in
  if health_probes_enabled (config m) then
    [(p +:+ "/live", health_liveness); (p +:+ "/ready", health_readiness);
     (p +:+ "/startup", health_startup); (p, health_status)]
  else [].

(** The probe that axum finds for a path; the rest goes to the fallback, [handle_request]. *)
Definition probe (m : ReloadManager) (p : string) : option (string → ReloadManager → HttpResponse) :=
  i ← axum_at (fst <$> probe_routes m) p; snd <$> probe_routes m !! i.

Definition get_only (m : string) (r : HttpResponse) : HttpResponse :=
  if String.eqb m "GET" then r else if String.eqb m "HEAD" then without_body r else method_not_allowed.

(** A request of the worker's axum application; [secs] is the rendering of the uptime. *)
Definition dispatch (st : AppState) (hs : Handlers) (t : Instant) (secs : string) (req : AxumRequest)
    (w : W) : option (AppState * W * HttpResponse) :=
  match probe (reload_manager st) (uri_path req) with
  | Some h => Some (st, w, get_only (method_token req) (h secs (reload_manager st)))
  | None => handle_request st hs t req w
  end.

(** * Theorems *)

Lemma append_inj_l (p a b : string) : p +:+ a = p +:+ b → a = b.
Proof. induction p as [|c p IH]; [done|]. intros H. apply IH. by injection H. Qed.

(** With a prefix without captures the probes are at its four paths, and nowhere else. *)
Lemma probe_found m p h :
  plain_path (health_path_prefix (config m)) = true → probe m p = Some h ↔ (p, h) ∈ probe_routes m.
Proof.
  intros Hs. unfold probe.
  assert (Forall plain_path (fst <$> probe_routes m)) as Hst.
  { unfold probe_routes. destruct (health_probes_enabled _); [|by constructor]. unfold plain_path in *. cbn.
    apply negb_true_iff, orb_false_iff in Hs as [H1 H2].
    repeat apply Forall_cons_2; [..|by apply Forall_nil_2];
      rewrite ?str_contains_char_app, ?H1, ?H2; reflexivity. }
  assert (NoDup (fst <$> probe_routes m)) as Hnd.
  { unfold probe_routes. destruct (health_probes_enabled _); [|by constructor]. cbn.
    set (q := health_path_prefix (config m)).
    assert (∀ a b, a ≠ b → q +:+ a ≠ q +:+ b) as Hne by (intros a b Hab Heq; apply Hab; by eapply append_inj_l).
    assert (∀ a, a ≠ "" → q +:+ a ≠ q) as Hq.
    { intros a Ha Heq. apply Ha, (append_inj_l q). by rewrite Heq, str_app_nil_r. }
    repeat (apply NoDup_cons_2; [repeat (apply not_elem_of_cons; split);
      first [by apply not_elem_of_nil|by apply Hne|by apply Hq]|]). apply NoDup_nil_2. }
  rewrite axum_at_static by done. revert Hnd. generalize (probe_routes m). clear Hst Hs. intros l Hnd. split.
  - destruct (list_find (p =.) (fst <$> l)) as [[i q]|] eqn:Hf; [|done]. cbn.
    apply list_find_Some in Hf as (Hi & -> & _). rewrite list_lookup_fmap in Hi.
    destruct (l !! i) as [[q' h']|] eqn:Hl; [|done]. intros; simplify_eq/=. by eapply list_elem_of_lookup_2.
  - intros [i Hi]%list_elem_of_lookup.
    assert ((fst <$> l) !! i = Some p) as Hp by (rewrite list_lookup_fmap, Hi; done).
    assert (list_find (p =.) (fst <$> l) = Some (i, p)) as ->; [|by cbn; rewrite Hi].
    apply list_find_Some. split_and!; [done|done|]. intros j y Hj Hlt ->.
    pose proof (NoDup_lookup _ _ _ _ Hnd Hj Hp). lia.
Qed.

(** What the before middleware sees of a request. *)
Definition request_chain (st : AppState) (t : Instant) (req : AxumRequest) : list (@RustMiddleware W) :=
  let ctx := mw_context t (Request.from_axum req) in
  applicable (Chain.path ctx) (Chain.method ctx) (before (middleware st)).

(** The value of the last valid header of a (normalised) name. *)
Definition last_valid (n : string) (l : list (string * string)) : option string :=
  last (snd <$> List.filter (λ kv : string * string,
    match header_name kv.1 with Some n' => String.eqb n' n && header_value_ok kv.2 | None => false end) l).

Lemma insert_valid_get n l h :
  h_get_all n (foldl insert_valid h l) =
  match last_valid n l with Some v => [v] | None => h_get_all n h end.
Proof.
  induction l as [|[k v] l IH] using rev_ind; [done|].
  rewrite foldl_app. cbn [foldl]. unfold last_valid in *.
  rewrite List.filter_app, fmap_app. unfold insert_valid at 1. simpl.
  destruct (header_name k) as [n'|]; simpl; [|by rewrite app_nil_r].
  destruct (header_value_ok v); [|by rewrite andb_false_r, app_nil_r].
  rewrite andb_true_r. destruct (String.eqb_spec n' n) as [->|Hne]; simpl.
  - by rewrite last_snoc, get_all_insert.
  - rewrite app_nil_r, <- IH. unfold h_insert. pose proof (get_all_remove_ne n n'
      (foldl insert_valid h l)) as Hr. unfold h_get_all in *.
    rewrite List.filter_app, fmap_app. simpl. rewrite (proj2 (String.eqb_neq n' n)) by done.
    rewrite app_nil_r. by apply Hr.
Qed.

Lemma with_headers_get n l r :
  h_get_all n (h_headers (with_headers l r)) =
  match last_valid n l with Some v => [v] | None => h_get_all n (h_headers r) end.
Proof. destruct l as [|kv l]; [done|]. apply (insert_valid_get n (kv :: l)). Qed.

Lemma inner_stopped st hs t req w w' ctx' res :
  is_empty_before (middleware st) = false →
  chain_outcome (request_chain st t req) w (mw_context t (Request.from_axum req)) w' ctx' res →
  res ≠ Continue →
  handle_request_inner st hs t req w =
    match res with
    | Response r => Some (w', middleware_response_to_hyper r)
    | Error e =>
        '(w2, _, o) ← execute_error (middleware st) w' ctx' e;
        Some (w2, middleware_response_to_hyper (default (to_response e) o))
    | Continue => None
    end.
Proof.
  intros Hb Ho Hne. apply run_chain_outcome in Ho. unfold handle_request_inner. rewrite Hb. simpl negb.
  cbv iota. rewrite execute_before_runs, Ho. destruct res as [|r|e]; [done|done|]. cbn [mbind option_bind].
  by destruct (execute_error (middleware st) w' ctx' e) as [[[w2 c2] []]|].
Qed.

Lemma inner_passed st hs t req w w' ctx' :
  is_empty_before (middleware st) = false →
  passes (request_chain st t req) w (mw_context t (Request.from_axum req)) w' ctx' →
  handle_request_inner st hs t req w = routed st hs t (Request.from_axum req) w' ctx'.
Proof.
  intros Hb Hp. assert (execute_before (middleware st) w (mw_context t (Request.from_axum req))
    = Some (w', ctx', Continue)) as Ho by (rewrite execute_before_runs; apply run_chain_outcome; left; done).
  unfold handle_request_inner. rewrite Hb. simpl negb. cbv iota. by rewrite Ho.
Qed.

(** Basic authentication as a member of a chain: it applies to every path and method. *)
Definition auth_middleware (m : BasicAuthMiddleware) : @RustMiddleware W :=
  mkRustMiddleware "basic_auth"
    (λ w ctx, let '(ctx', res) := BasicAuth.execute m ctx in Some (w, ctx', res)) (λ _, true) (λ _, true).

(** The request carries the stored credentials of user [u]. *)
Definition authorized (m : BasicAuthMiddleware) (r : Request.Request) (u : string) : Prop :=
  ∃ h p, Request.header r "authorization" = Some h ∧ decode_basic_auth h = Some (u, p) ∧
    credentials m !! u = Some p.

Lemma auth_execute m t r :
  (∃ u, authorized m r u ∧
     BasicAuth.execute m (mw_context t r) = (set_authenticated u [] (mw_context t r), Continue)) ∨
  ((∀ u, ¬ authorized m r u) ∧ ∃ text res, (res = challenge m text ∨ res = unauthorized text) ∧
     BasicAuth.execute m (mw_context t r) = (mw_context t r, Response res)).
Proof.
  unfold authorized, BasicAuth.execute.
  change (Chain.get_header (mw_context t r) "authorization") with (Request.header r "authorization").
  destruct (Request.header r "authorization") as [h|];
    [destruct (decode_basic_auth h) as [[u p]|] eqn:Ed;
      [destruct (credentials m !! u) as [p'|] eqn:Ec;
        [destruct (String.eqb_spec p' p) as [->|Hne]|]|]|];
    [left; exists u; split; [eauto|done]|right..]; (split; [naive_solver|eauto 6]).
Qed.

Definition realm_value (m : BasicAuthMiddleware) : string :=
  "Basic realm=" +:+ dq +:+ realm m +:+ dq.

Lemma refusal_status m text res :
  header_value_ok (realm_value m) = true → res = challenge m text ∨ res = unauthorized text →
  h_status (middleware_response_to_hyper res) = 401.
Proof.
  intros Hr Hres. destruct (middleware_response_cases res) as (_ & _ & H).
  assert (Chain.status res = 401) as Hst by (by destruct Hres as [->| ->]).
  rewrite Hst in H. destruct H as [(_ & _ & H & _)|[_ H]]; [done|]. exfalso. apply H.
  split; [by eexists|].
  assert (is_Some (header_name "content-type") ∧ header_value_ok "text/plain" = true) as Hct.
  { split; [rewrite (header_name_token "content-type") by done; eauto|by apply header_value_visible]. }
  destruct Hres as [->| ->]; repeat apply Forall_cons_2; try apply Forall_nil_2; try done.
  split; [rewrite (header_name_token "WWW-Authenticate") by done; eauto|done].
Qed.

(** C2: an authentication middleware at the head of the chain guards the handlers.  When
    the request does not carry stored credentials, the answer is a 401 (a 503 while
    draining), the world is untouched but for the two entries of the access log, and the outcome
    is the same whatever the registered handlers would do: none of them is reached.  When it does and authentication is the only
    middleware, the handler of the matching route runs on the request with its path
    parameters and its response is sent. *)
Theorem auth_guards_handlers st hs t req w m l :
  before (middleware st) = auth_middleware m :: l →
  header_value_ok (realm_value m) = true →
  is_draining (reload_manager st) = false →
  let r := Request.from_axum req in
  ((∀ u, ¬ authorized m r u) →
     ∃ st' res, h_status res = 401 ∧
       ∀ hs', handle_request st hs' t req w =
         Some (st', log_answered t req 401 (log_received t req w), res)) ∧
  (∀ u route params, authorized m r u → l = [] → after (middleware st) = [] →
     find_matching_route (router st) (Request.path r) (py_method r) = Some (route, params) →
     let '(w', res) :=
       http_execute hs t (Routing.handler_hash route) (set_path_params params r) (log_received t req w) in
     ∃ st', handle_request st hs t req w = Some (st', log_answered t req (h_status res) w', res)).
Proof.
  intros Hb Hrealm Hd. cbv zeta.
  set (st' := set_manager (set_health (increment_in_flight (health (reload_manager st))).1
    (reload_manager st)) st).
  assert (∀ hs', handle_request st hs' t req w =
    '(w', res) ← handle_request_inner st' hs' t req (log_received t req w);
    Some (set_manager (on_request_complete (reload_manager st')) st, log_answered t req (h_status res) w', res)) as Hh.
  { intros hs'. unfold handle_request. by rewrite Hd. }
  revert Hh. generalize (log_received t req w) as w0. intros w0 Hh.
  assert (is_empty_before (middleware st') = false) as He by (unfold is_empty_before; simpl; by rewrite Hb).
  assert (request_chain st' t req = auth_middleware m :: applicable
    (Chain.path (mw_context t (Request.from_axum req))) (Chain.method (mw_context t (Request.from_axum req))) l) as Hc.
  { unfold request_chain. simpl. by rewrite Hb. }
  destruct (auth_execute m t (Request.from_axum req)) as [(u & Hu & Ha)|(Hn & text & res & Hres & Ha)].
  - split; [intros Hn; by destruct (Hn u)|]. intros u' route params _ -> Haf Hroute.
    rewrite Hh. erewrite inner_passed; [|done|rewrite Hc].
    2: { eapply passes_cons; [|apply passes_nil]. simpl. by rewrite Ha. }
    unfold routed. change (router st') with (router st). rewrite Hroute.
    destruct (http_execute hs _ _ _ w0) as [w1 res]. unfold is_empty_after. simpl. rewrite Haf. eauto.
  - split; [intros _|intros u route params Hu; by destruct (Hn u)].
    eexists _, (middleware_response_to_hyper res). split; [by eapply refusal_status|]. intros hs'.
    erewrite Hh, (inner_stopped _ _ _ _ _ w0 _ (Response res)); [| |right; split; [done|]|]; [|done| |done].
    + cbn. by rewrite (refusal_status m text res Hrealm Hres).
    + eexists [], _, _, _, _. split_and!; [exact Hc|apply passes_nil|]. simpl. by rewrite Ha.
Qed.

(** C40: where the headers of the middleware end up.  On a matching route every response
    header that the middleware added (before or after the handler) and that is valid
    replaces the handler's headers of that name, the last value winning, and the other
    headers stay; when no route matches, the answer is the bare 404 whatever the middleware
    added; a panic of the after middleware is one of the request; and without before middleware
    the after middleware plays no role at all. *)
Theorem middleware_headers st hs t req w :
  let r := Request.from_axum req in
  (∀ w1 ctx1, before (middleware st) ≠ [] →
     passes (request_chain st t req) w (mw_context t r) w1 ctx1 →
     match find_matching_route (router st) (Request.path r) (py_method r) with
     | None => handle_request_inner st hs t req w = Some (w1, response_404)
     | Some (route, params) =>
         let '(w2, res) := http_execute hs t (Routing.handler_hash route) (set_path_params params r) w1 in
         match execute_after (middleware st) w2 (set_params params ctx1) with
         | None => handle_request_inner st hs t req w = None
         | Some (w3, ctx3, _) => ∃ res',
             handle_request_inner st hs t req w = Some (w3, res') ∧
             ∀ n, h_get_all n (h_headers res') =
               match last_valid n (response_headers ctx3) with
               | Some v => [v]
               | None => h_get_all n (h_headers res)
               end
         end
     end) ∧
  (before (middleware st) = [] → ∀ a e,
     handle_request_inner (mkAppState (router st) (mkMiddlewareChain [] a e) (reload_manager st)) hs t req w
     = handle_request_inner st hs t req w).
Proof.
  cbv zeta. split.
  - intros w1 ctx1 Hb Hp. assert (is_empty_before (middleware st) = false) as He
      by (unfold is_empty_before; by destruct (before (middleware st))).
    rewrite (inner_passed _ _ _ _ _ _ _ He Hp). unfold routed.
    destruct (find_matching_route _ _ _) as [[route params]|]; [|done].
    destruct (http_execute hs _ _ _ w1) as [w2 res].
    assert ((if negb (is_empty_after (middleware st))
             then fst <$> execute_after (middleware st) w2 (set_params params ctx1)
             else Some (w2, set_params params ctx1))
            = fst <$> execute_after (middleware st) w2 (set_params params ctx1)) as ->.
    { unfold is_empty_after, execute_after. by destruct (after (middleware st)). }
    destruct (execute_after _ _ _) as [[[w3 ctx3] r3]|]; cbn; [|done]. eexists. split; [done|].
    intros n. apply with_headers_get.
  - intros Hb a e. unfold handle_request_inner, is_empty_before. simpl. by rewrite Hb.
Qed.
End worker.

(** * Witnesses *)

(** A checksum in place of XXH3, no percent escapes, no form fields. *)
#[refine] Instance sum_XXH3 : XXH3 := {
  xxh3_64 := fix sum s := match s with EmptyString => 0 | String a s' => w64 (byte_of_ascii a + sum s') end
}.
Proof.
  intros s. unfold is_u64. destruct s as [|a s]; [unfold u64_max; lia|]. apply w64_range.
Defined.
#[refine] Instance no_forms : FormUrlencoded := { form_pairs _ := [] }.
Proof. done. Defined.
#[refine] Instance no_escapes : PercentDecode := { percent_decode s := s }.
Proof. done. Defined.

#[refine] Instance plain_Axum `{HT : Http} : AxumRoutes := {
  axum_at l p := fst <$> list_find (p =.) l;
  without_body r := mkHttpResponse (h_status r) (h_headers r) (Buffered "");
  method_not_allowed := mkHttpResponse 405 [("allow", "GET,HEAD")] (Buffered "")
}.
Proof. all: done. Defined.

(** The log of the process and what the handler did. *)
Definition demo_world : Type := Logger * list string.
Definition demo_start : demo_world := (Log.init Log.config_default logger_new, []).
Definition demo_instant : Instant := mkInstant 0 "" (f64_of_Z 0) (f64_of_Z 0) (f64_of_Z 0) 0.

(** A server with one route whose handler logs its user and answers with the id. *)
Definition demo_server (l a : list (@RustMiddleware demo_world)) : AppState :=
  mkAppState (add_route (router_new "/api") (mkRoute "/users/" 1 "get" None)).1
    (mkMiddlewareChain l a []) (manager_new 0 reload_config_default).

Definition demo_handlers : @Handlers demo_world :=
  mkHandlers {[Routing.handler_hash (mkRoute "/users/" 1 "get" None) := (1, false)]}
    (λ _ _ r w s, ((w.1, w.2 ++ [Request.path r]), text "hello" s)).

Definition demo_axum (hs : list (string * option string)) (p : string) : AxumRequest :=
  mkAxumRequest (Some (p, None)) "GET" hs None.

Definition demo_authorized : AxumRequest :=
  demo_axum [("authorization", Some ("Basic " +:+ base64_encode "ann:s:ecret"))] "/api/users/".

Lemma auth_guards_handlers_witness :
  let st := demo_server [auth_middleware demo_auth] [] in
  (∃ st' w' res, handle_request st demo_handlers demo_instant (demo_axum [] "/api/users/") demo_start
     = Some (st', w', res) ∧ h_status res = 401 ∧ w'.2 = []) ∧
  (∃ st' w' res, handle_request st demo_handlers demo_instant demo_authorized demo_start
     = Some (st', w', res) ∧ w'.2 = ["/api/users/"]).
Proof.
  cbv zeta. split.
  - assert (header_value_ok (realm_value demo_auth) = true) as Hr by (vm_compute; reflexivity).
    destruct (proj1 (auth_guards_handlers (demo_server [auth_middleware demo_auth] []) demo_handlers
      demo_instant (demo_axum [] "/api/users/") demo_start demo_auth [] eq_refl Hr eq_refl))
      as (st' & res & Hs & H).
    { intros u (h & p & H & _). vm_compute in H. discriminate. }
    do 3 eexists. split; [apply H|]. split; [exact Hs|reflexivity].
  - assert (authorized demo_auth (Request.from_axum demo_authorized) "ann") as Hu.
    { exists ("Basic " +:+ base64_encode "ann:s:ecret"), "s:ecret". split_and!; vm_compute; reflexivity. }
    pose proof (proj2 (auth_guards_handlers (demo_server [auth_middleware demo_auth] []) demo_handlers
      demo_instant demo_authorized demo_start demo_auth [] eq_refl eq_refl eq_refl) "ann"
      (mkRoute "/users/" 1 "get" None) ∅ Hu eq_refl eq_refl eq_refl) as H.
    destruct (http_execute _ _ _ _ _) as [w' res] eqn:E in H. destruct H as [st' H].
    do 3 eexists. split; [exact H|]. vm_compute in E. injection E as <- <-. vm_compute. reflexivity.
Defined.

(** A middleware that adds a response header and continues. *)
Definition tagging (n v : string) : @RustMiddleware demo_world :=
  mkRustMiddleware "tag" (λ w ctx, Some (w, add_response_header n v ctx, Continue)) (λ _, true) (λ _, true).

Lemma middleware_headers_witness :
  let st := demo_server [tagging "X-Tag" "1"] [tagging "x-tag" "2"] in
  handle_request_inner st demo_handlers demo_instant (demo_axum [] "/nowhere") demo_start
    = Some (demo_start, response_404) ∧
  ∃ w' res, handle_request_inner st demo_handlers demo_instant (demo_axum [] "/api/users/") demo_start
    = Some (w', res) ∧ h_get_all "x-tag" (h_headers res) = ["2"].
Proof.
  cbv zeta. split.
  - refine (proj1 (middleware_headers (demo_server [tagging "X-Tag" "1"] [tagging "x-tag" "2"]) demo_handlers
      demo_instant (demo_axum [] "/nowhere") demo_start) _ _ _ _); [done|].
    eapply passes_cons; [reflexivity|apply passes_nil].
  - set (st := demo_server [tagging "X-Tag" "1"] [tagging "x-tag" "2"]).
    set (req := demo_axum [] "/api/users/"). set (t := demo_instant).
    set (ctx := add_response_header "X-Tag" "1" (mw_context t (Request.from_axum req))).
    assert (passes (request_chain st t req) demo_start (mw_context t (Request.from_axum req)) demo_start ctx) as Hp
      by (eapply passes_cons; [reflexivity|apply passes_nil]).
    pose proof (proj1 (middleware_headers st demo_handlers t req demo_start) demo_start ctx ltac:(done) Hp) as H.
    assert (find_matching_route (router st) (Request.path (Request.from_axum req))
      (py_method (Request.from_axum req)) = Some (mkRoute "/users/" 1 "get" None, ∅)) as Hf
      by (vm_compute; reflexivity).
    rewrite Hf in H. clear Hf Hp.
    assert (http_execute demo_handlers t (Routing.handler_hash (mkRoute "/users/" 1 "get" None))
      (set_path_params ∅ (Request.from_axum req)) demo_start =
      ((demo_start.1, ["/api/users/"]), into_response (text "hello" slot_new))) as He by (vm_compute; reflexivity).
    rewrite He in H. destruct H as (res' & H & Hget). eexists _, res'. split; [exact H|exact (Hget "x-tag")].
Defined.
