(* ===== verification/Guarded.v ===== *)
(** The rate limiter in the request pipeline: RateLimit.v's middleware at the head of the chain of
    Worker.v (src/src/middleware/builtin.rs, src/src/core/worker.rs), and what it guarantees for
    the Python handlers over a run of requests. *)
From S2P Require Import Prelude F64 Log Method Routing Multipart Request Chain Builtin RateLimit Reload Response Worker.
From stdpp Require Import base gmap strings list.
Open Scope Z_scope.

Section guarded.
Context `{RS : RustStr} `{XH : XXH3} `{FU : FormUrlencoded} `{PD : PercentDecode} `{U8 : Utf8}.
Context `{MI : MatchIt} `{HT : Http} `{NT : Notify} {W : Type}.
Context `{HL : !Holds Logger W} `{HC : !Holds (gmap string RateLimitState) W}.
Variable cfg : RateLimitConfig.

(** The limiter as a member of a chain; [clock] gives its two readings of the clock. *)
Variable clock : W → Z * Z.

Definition limiter_middleware : @RustMiddleware W :=
  mkRustMiddleware "rate_limit"
    (λ w ctx, let '(cl, ctx', res) := RateLimit.execute cfg (clock w).1 (clock w).2 (held w) ctx in
      Some (hold cl w, ctx', res)) (λ _, true) (λ _, true).

(** The limiter's map is private: nothing else in the process touches it, and a handler that
    is not registered only logs. *)
Definition keeps_middleware (m : @RustMiddleware W) : Prop :=
  ∀ w ctx w' ctx' res, Chain.execute m w ctx = Some (w', ctx', res) → held w' = held w.
Definition keeps_handlers (hs : @Handlers W) : Prop :=
  ∀ h a r w s, held (call hs h a r w s).1 = held w.
Definition keeps_chain (c : @MiddlewareChain W) (rest : list (@RustMiddleware W)) : Prop :=
  Forall keeps_middleware rest ∧ Forall keeps_middleware (after c) ∧ Forall keeps_middleware (error_handlers c).

(** Nor does the log queue. *)
Definition keeps_log : Prop := ∀ (g : Logger) (w : W), held (hold g w) = held w :> gmap string RateLimitState.

Lemma run_chain_keeps p m l w ctx w' ctx' res :
  Forall keeps_middleware l → run_chain p m l w ctx = Some (w', ctx', res) → held w' = held w.
Proof.
  intros Hl. revert w ctx. induction Hl as [|mw l Hm Hl IH]; intros w ctx Hr; [by simplify_eq/=|]. cbn [run_chain] in Hr.
  destruct (negb _ || negb _); [by eapply IH|].
  destruct (Chain.execute mw w ctx) as [[[w1 ctx1] r]|] eqn:He; [|done]. apply Hm in He. cbn in Hr.
  destruct r; simplify_eq; try done. etrans; [by eapply IH|done].
Qed.

Lemma run_error_keeps p l w ctx w' ctx' o :
  Forall keeps_middleware l → run_error_handlers p l w ctx = Some (w', ctx', o) → held w' = held w.
Proof.
  intros Hl. revert w ctx. induction Hl as [|mw l Hm Hl IH]; intros w ctx Hr; [by simplify_eq/=|].
  cbn [run_error_handlers] in Hr. destruct (negb _); [by eapply IH|].
  destruct (Chain.execute mw w ctx) as [[[w1 ctx1] r]|] eqn:He; [|done]. apply Hm in He. cbn in Hr.
  destruct r; simplify_eq; try done; (etrans; [by eapply IH|done]).
Qed.

Lemma execute_error_keeps c w ctx e w' ctx' o :
  Forall keeps_middleware (error_handlers c) → execute_error c w ctx e = Some (w', ctx', o) → held w' = held w.
Proof.
  intros Hl. unfold execute_error. destruct (run_error_handlers _ _ _ _) as [[[w1 ctx1] r]|] eqn:Hr; [|done].
  apply run_error_keeps in Hr; [|done]. by destruct r; intros; simplify_eq/=.
Qed.

Lemma http_execute_keeps hs t h r w :
  keeps_log → keeps_handlers hs → held (http_execute hs t h r w).1 = held w :> gmap string RateLimitState.
Proof.
  intros Hg Hk. unfold http_execute, get_handler. destruct (registry hs !! h) as [[f a]|]; [|apply Hg].
  pose proof (Hk f a r w slot_new) as Hc. by destruct (call hs f a r w slot_new).
Qed.

Lemma routed_keeps st hs t r w ctx w' resp :
  keeps_log → keeps_handlers hs → Forall keeps_middleware (after (middleware st)) →
  routed st hs t r w ctx = Some (w', resp) → held w' = held w :> gmap string RateLimitState.
Proof.
  intros Hg Hh Ha. unfold routed. destruct (find_matching_route _ _ _) as [[route params]|]; [|by intros; simplify_eq].
  pose proof (http_execute_keeps hs t (Routing.handler_hash route) (set_path_params params r) w Hg Hh) as H1.
  destruct (http_execute _ _ _ _ _) as [w1 res]. cbn [fst] in H1. rewrite execute_after_runs.
  destruct (negb _); [|by intros; simplify_eq/=].
  destruct (run_chain _ _ _ _ _) as [[[w2 ctx2] r2]|] eqn:Hr; [|done].
  apply run_chain_keeps in Hr; [|done]. intros; simplify_eq/=. congruence.
Qed.

(** ** One request *)

(** The world in which a handler may see the request: it passes the drain test and every before
    middleware. *)
Definition reaches (st : AppState) (t : Instant) (req : AxumRequest) (w : W) : option W :=
  if is_draining (reload_manager st) then None
  else
    '(w1, _, res) ← execute_before (middleware st) (log_received t req w) (mw_context t (Request.from_axum req));
    match res with Continue => Some w1 | _ => None end.

Lemma run_head p m l w ctx :
  run_chain p m (limiter_middleware :: l) w ctx =
  let '(cl, ctx', res) := RateLimit.execute cfg (clock w).1 (clock w).2 (held w) ctx in
  match res with
  | Continue => run_chain p m l (hold cl w) ctx'
  | _ => Some (hold cl w, ctx', res)
  end.
Proof.
  cbn [run_chain limiter_middleware applies_to applies_to_method negb orb Chain.execute].
  by destruct (RateLimit.execute _ _ _ _ _) as [[cl ctx'] []].
Qed.

(** What the limiter does to a request. *)
Definition limited (t : Instant) (req : AxumRequest) (w : W) :=
  RateLimit.execute cfg (clock w).1 (clock w).2 (held w) (mw_context t (Request.from_axum req)).

Lemma inner_held (st : @AppState MI NT W) l hs m t req w w' resp :
  before (middleware st) = limiter_middleware :: l → keeps_chain (middleware st) l → keeps_handlers hs → keeps_log →
  handle_request_inner (set_manager m st) hs t req w = Some (w', resp) → held w' = (limited t req w).1.1.
Proof.
  intros Hb (Hl & Ha & He) Hh Hg. unfold handle_request_inner, is_empty_before, limited.
  rewrite execute_before_runs. cbn [set_manager middleware]. rewrite Hb. cbn [negb]. rewrite run_head.
  set (o := RateLimit.execute _ _ _ _ _). destruct o as [[cl ctx'] r0] eqn:Ho. cbn [fst snd].
  assert (∀ w1 ctx1 res, (match r0 with Continue => run_chain (Chain.path (mw_context t (Request.from_axum req)))
      (Chain.method (mw_context t (Request.from_axum req))) l (hold cl w) ctx' | _ => Some (hold cl w, ctx', r0) end)
      = Some (w1, ctx1, res) → held w1 = cl) as Hw1.
  { intros w1 ctx1 res. destruct r0; [intros Hr; apply run_chain_keeps in Hr; [|done]; by rewrite Hr, held_hold|..];
      intros; simplify_eq; by rewrite held_hold. }
  destruct (match r0 with Continue => _ | _ => _ end) as [[[w1 ctx1] res]|]; [|done].
  specialize (Hw1 _ _ _ eq_refl). cbn [mbind option_bind]. destruct res as [|r|e].
  - intros Hr. apply routed_keeps in Hr; [congruence|done..].
  - intros; by simplify_eq.
  - destruct (execute_error _ _ _ _) as [[[w2 c2] o2]|] eqn:Hr; [|done]. apply execute_error_keeps in Hr; [|done].
    by destruct o2; intros; simplify_eq/=.
Qed.

(** What a request that reaches the handlers shows of the limiter. *)
Lemma reaches_limited (st : @AppState MI NT W) l t req w w1 :
  before (middleware st) = limiter_middleware :: l → Forall keeps_middleware l → reaches st t req w = Some w1 →
  (limited t req (log_received t req w)).2 = Continue ∧ held w1 = (limited t req (log_received t req w)).1.1.
Proof.
  unfold reaches, limited. intros Hb Hl. rewrite execute_before_runs, Hb, run_head.
  destruct (is_draining _); [done|]. destruct (RateLimit.execute _ _ _ _ _) as [[cl ctx'] []]; [|done..]. cbn [fst snd].
  destruct (run_chain _ _ _ _ _) as [[[w2 ctx2] r]|] eqn:Hr; [|done]. apply run_chain_keeps in Hr; [|done].
  rewrite held_hold in Hr. destruct r; intros; simplify_eq/=. by split.
Qed.

(** A handler plays no role for a request that is not let through. *)
Lemma not_reached (st : @AppState MI NT W) l hs t req w hs' :
  before (middleware st) = limiter_middleware :: l →
  reaches st t req w = None → handle_request st hs' t req w = handle_request st hs t req w.
Proof.
  intros Hb. unfold reaches, handle_request. destruct (is_draining (reload_manager st)); [done|].
  unfold handle_request_inner, is_empty_before. rewrite !execute_before_runs. cbn [set_manager middleware].
  rewrite Hb. cbn [negb]. by destruct (run_chain _ _ _ _ _) as [[[w1 ctx1] []]|].
Qed.

Lemma handle_held (st : @AppState MI NT W) l hs t req w st' w' resp :
  before (middleware st) = limiter_middleware :: l → keeps_chain (middleware st) l → keeps_handlers hs → keeps_log →
  is_draining (reload_manager st) = false → handle_request st hs t req w = Some (st', w', resp) →
  held w' = (limited t req (log_received t req w)).1.1.
Proof.
  intros Hb Hk Hh Hg Hd. unfold handle_request. rewrite Hd.
  destruct (handle_request_inner _ _ _ _ _) as [[w2 res]|] eqn:Hi; [|done].
  apply (inner_held st l) in Hi; [|done..]. intros; simplify_eq/=. etrans; [apply Hg|exact Hi].
Qed.

(** ** Runs *)

(** The paths that the limiter lets through unseen: those that start with a configured prefix. *)
Definition exempt (p : string) : Prop :=
  Exists (λ q, String.substring 0 (String.length q) p = q) (skip_paths cfg).
#[local] Instance exempt_dec p : Decision (exempt p) := _.

Lemma skipped_exempt p : skipped (skip_paths cfg) p = bool_decide (exempt p).
Proof.
  symmetry. destruct (skipped (skip_paths cfg) p) eqn:Hs; [apply bool_decide_eq_true|apply bool_decide_eq_false];
    unfold exempt, skipped in *; rewrite List.Exists_exists.
  - apply existsb_exists in Hs as (q & Hq & Hp). exists q. split; [done|]. by apply String.prefix_correct.
  - intros (q & Hq & Hp). apply not_true_iff_false in Hs. apply Hs, existsb_exists. exists q.
    split; [done|]. by apply String.prefix_correct.
Qed.

(** The request, which a handler sees in the world [w1], is limited under the key [k] and counted in
    the window [ws]. *)
Definition counted (k : string) (ws : Z) (req : AxumRequest) (t : Instant) (w1 : W) : bool :=
  negb (bool_decide (exempt (Request.path (Request.from_axum req)))) &&
  String.eqb (get_client_key cfg (mw_context t (Request.from_axum req))) k &&
  match (held w1 : gmap string RateLimitState) !! k with Some s => window_start s =? ws | None => false end.

(** How many requests of a run, of the client [k] and counted in its window [ws], a handler may
    have seen; the run ends when the process is aborted. *)
Fixpoint reached (st : AppState) (hs : Handlers) (reqs : list (Instant * AxumRequest)) (w : W)
    (k : string) (ws : Z) : Z :=
  match reqs with
  | [] => 0
  | (t, req) :: reqs' =>
      (match reaches st t req w with Some w1 => if counted k ws req t w1 then 1 else 0 | None => 0 end) +
      (match handle_request st hs t req w with Some (st', w', _) => reached st' hs reqs' w' k ws | None => 0 end)
  end.

Lemma handle_middleware (st st' : @AppState MI NT W) hs t req w w' resp :
  handle_request st hs t req w = Some (st', w', resp) → middleware st' = middleware st.
Proof.
  unfold handle_request. destruct (is_draining _); [by intros; simplify_eq|].
  destruct (handle_request_inner _ _ _ _ _) as [[w2 res]|]; [|done]. by intros; simplify_eq/=.
Qed.

(** What a request may count is what the limiter admits. *)
Lemma counted_admits (st : @AppState MI NT W) l t req w k ws cl ctx' res :
  before (middleware st) = limiter_middleware :: l → Forall keeps_middleware l →
  limited t req (log_received t req w) = (cl, ctx', res) →
  (match reaches st t req w with Some w1 => if counted k ws req t w1 then 1 else 0 | None => 0 end)
  <= if admits cfg k ws (mw_context t (Request.from_axum req)) cl res then 1 else 0.
Proof.
  intros Hb Hl He. destruct (reaches st t req w) as [w1|] eqn:Hr; [|case_match; lia].
  apply (reaches_limited st l) in Hr as [Hc Hw]; [|done..]. rewrite He in Hc, Hw. cbn [fst snd] in Hc, Hw. subst res.
  unfold counted, admits. rewrite Hw, <-skipped_exempt, andb_true_r. done.
Qed.

Lemma reached_budget k ws hs l reqs : ∀ st n w,
  before (middleware st) = limiter_middleware :: l → keeps_chain (middleware st) l → keeps_handlers hs → keeps_log →
  algorithm cfg = FixedWindow → 0 < window cfg → 0 <= n → n + Z.of_nat (length reqs) < u64_max →
  clients_ok n (held w) → reached st hs reqs w k ws <= budget cfg (held w) k ws.
Proof.
  induction reqs as [|[t req] reqs IH]; intros st n w Hb Hk Hh Hg Ha Hw Hn Hlen Hok; cbn [reached].
  { apply budget_nonneg. }
  cbn [length] in Hlen. destruct (is_draining (reload_manager st)) eqn:Hd.
  - unfold reaches, handle_request. rewrite Hd. rewrite Z.add_0_l. apply (IH st n); done || lia.
  - set (w1 := log_received t req w). assert (held w1 = held w) as Hw1 by apply Hg. rewrite <-Hw1 in Hok |- *.
    pose proof (execute_budget cfg n (clock w1).1 (clock w1).2 (held w1) (mw_context t (Request.from_axum req)) k ws Ha Hw ltac:(lia) Hok) as Hstep.
    destruct (RateLimit.execute _ _ _ _ _) as [[cl ctx'] res] eqn:He. destruct Hstep as [Hstep Hok'].
    pose proof (counted_admits st l t req w k ws cl ctx' res Hb (proj1 Hk) He) as Hc.
    destruct (handle_request st hs t req w) as [[[st' w'] resp]|] eqn:Hr.
    2: { pose proof (budget_nonneg cfg cl k ws). lia. }
    pose proof (handle_middleware _ _ _ _ _ _ _ _ Hr) as Hm.
    pose proof (handle_held st l hs t req w st' w' resp Hb Hk Hh Hg Hd Hr) as Hheld.
    assert (held w' = cl) as Hcl by (rewrite Hheld; unfold limited; fold w1; by rewrite He).
    pose proof (IH st' (n + 1) w' ltac:(by rewrite Hm) ltac:(by rewrite Hm) Hh Hg Ha Hw ltac:(lia) ltac:(lia) ltac:(by rewrite Hcl)) as Hrest.
    rewrite Hcl in Hrest. lia.
Qed.

(** C3: the rate limiter guards the handlers.  When it is the first middleware of the chain, with a
    fixed window, then over any run of requests of any clients, through the whole pipeline (drain
    test, other middleware, error handlers, routing), a Python handler sees at most the configured
    maximum of requests of one client in one window (one, if the maximum is zero), not counting the
    requests of exempt paths; a request is exempt exactly when its path starts with one of the
    configured prefixes (/health and /metrics unless configured), and those the limiter passes on
    without counting, however many; and a request that is not let through is answered the same
    whatever the registered handlers would do. *)
Theorem limiter_guards_handlers st hs l reqs w k ws :
  before (middleware st) = limiter_middleware :: l → keeps_chain (middleware st) l → keeps_handlers hs → keeps_log →
  algorithm cfg = FixedWindow → 0 < window cfg → held w = ∅ → Z.of_nat (length reqs) < u64_max →
  reached st hs reqs w k ws <= Z.max 1 (max_requests cfg) ∧
  (∀ w' ctx, exempt (Chain.path ctx) →
     Chain.execute limiter_middleware w' ctx = Some (hold (held w' : gmap string RateLimitState) w', ctx, Continue)) ∧
  (∀ w' ctx, ¬ exempt (Chain.path ctx) →
     ∃ cl ctx' res, Chain.execute limiter_middleware w' ctx = Some (hold cl w', ctx', res) ∧
       is_Some (cl !! get_client_key cfg ctx)) ∧
  ∀ t req w' hs', reaches st t req w' = None → handle_request st hs' t req w' = handle_request st hs t req w'.
Proof.
  intros Hb Hk Hh Hg Ha Hw He Hlen. split_and!.
  - pose proof (reached_budget k ws hs l reqs st 0 w Hb Hk Hh Hg Ha Hw ltac:(lia) ltac:(lia)) as H.
    rewrite He in H. unfold budget in H at 1. rewrite lookup_empty in H. apply H. apply map_Forall_empty.
  - intros w' ctx Hx. cbn [Chain.execute limiter_middleware]. unfold RateLimit.execute, get_path.
    by rewrite skipped_exempt, bool_decide_true.
  - intros w' ctx Hx. cbn [Chain.execute limiter_middleware]. unfold RateLimit.execute, get_path.
    rewrite skipped_exempt, bool_decide_false by done. destruct (check _ _ _) as [s' [al rem]].
    do 3 eexists. split; [done|]. rewrite lookup_insert_eq. eauto.
  - intros t req w' hs' Hr. by eapply not_reached.
Qed.
End guarded.

(** * Witnesses *)

(** Two requests of one client reach the handler of the only route, the third does not. *)
Record guarded_world := mkGuardedWorld {
  g_limits : gmap string RateLimitState; g_log : Logger; g_calls : list string
}.
#[export, refine] Instance guarded_log : Holds Logger guarded_world := {
  held := g_log;
  hold g w := mkGuardedWorld (g_limits w) g (g_calls w)
}.
Proof. done. Defined.
#[export, refine] Instance guarded_limits : Holds (gmap string RateLimitState) guarded_world := {
  held := g_limits;
  hold l w := mkGuardedWorld l (g_log w) (g_calls w)
}.
Proof. done. Defined.
Definition guarded_start : guarded_world := mkGuardedWorld ∅ (Log.init Log.config_default logger_new) [].
Definition logging_handlers : @Handlers guarded_world :=
  mkHandlers {[Routing.handler_hash (mkRoute "/users/" 1 "get" None) := (1, false)]}
    (λ _ _ r w s, (mkGuardedWorld (g_limits w) (g_log w) (g_calls w ++ [Request.path r]), text "hello" s)).
Definition guarded_clock (w : guarded_world) : Z * Z := (5, 6 + Z.of_nat (length (g_calls w))).
Definition guarded_server : AppState :=
  mkAppState (add_route (router_new "/api") (mkRoute "/users/" 1 "get" None)).1
    (mkMiddlewareChain [limiter_middleware RateLimit.demo_cfg guarded_clock] [] [])
    (manager_new 0 reload_config_default).
Definition guarded_requests : list (Instant * AxumRequest) :=
  replicate 3 (demo_instant, demo_axum [] "/api/users/").

Lemma limiter_guards_handlers_witness :
  reached RateLimit.demo_cfg guarded_server logging_handlers guarded_requests guarded_start "unknown" 5 = 2 ∧
  reached RateLimit.demo_cfg guarded_server logging_handlers guarded_requests guarded_start "unknown" 5 <= 2.
Proof.
  split; [vm_compute; reflexivity|].
  refine (proj1 (limiter_guards_handlers RateLimit.demo_cfg guarded_clock guarded_server logging_handlers []
    guarded_requests guarded_start "unknown" 5 eq_refl _ _ _ eq_refl eq_refl eq_refl eq_refl)).
  - split; [|split]; apply Forall_nil_2.
  - intros h a r w s. reflexivity.
  - intros g w. reflexivity.
Defined.
