(* ===== verification/PyReload.v ===== *)
(** The Python objects over the reload protocol (PyHealthCheck, PyReloadConfig and PyReloadManager of
    src/src/core/reload.rs): their methods as a small language over a shared manager, and what a
    program can and cannot do to a server through them. *)
From S2P Require Import Prelude F64 Log Method Routing Multipart Request Chain Response Worker Reload.
From stdpp Require Import base gmap strings list.
Open Scope Z_scope.

Section pyreload.
Context `{NT : Notify}.

(** [fixed1] and [fixed2] are the [{:.1}] and [{:.2}] renderings of a time. *)
Variables fixed1 fixed2 : f64 → string.

(** * Constructors *)

Definition py_reload_config_new (drain_timeout_secs health_poll_interval_ms startup_grace_secs : Z)
    (health_probes_enabled : bool) (health_path_prefix : string) : ReloadConfig :=
  mkReloadConfig drain_timeout_secs health_poll_interval_ms startup_grace_secs health_probes_enabled health_path_prefix.
Definition py_reload_config_defaults : ReloadConfig := py_reload_config_new 30 100 2 true "/_health".
Definition py_manager_new (now : Z) (c : option ReloadConfig) : ReloadManager :=
  manager_new now (default reload_config_default c).
Definition py_health_new (now : Z) : HealthCheck := health_new now.

Lemma py_reload_defaults : py_reload_config_defaults = reload_config_default.
Proof. done. Qed.

(** * Methods *)

Definition bool_text (b : bool) : string := if b then "true" else "false".
Definition config_repr (c : ReloadConfig) : string :=
  "ReloadConfig(drain_timeout=" +:+ dec (drain_timeout_secs c) +:+ "s, health_probes=" +:+
  bool_text (health_probes_enabled c) +:+ ")".
Definition health_repr (now : Z) (h : HealthCheck) : string :=
  "HealthCheck(status=" +:+ as_str (status h) +:+ ", in_flight=" +:+ dec (in_flight h) +:+ ", uptime=" +:+
  fixed1 (as_secs_f64 (uptime now h)) +:+ "s)".
Definition manager_repr (rm : ReloadManager) : string :=
  "ReloadManager(status=" +:+ as_str (status (health rm)) +:+ ", draining=" +:+ bool_text (is_draining rm) +:+
  ", in_flight=" +:+ dec (in_flight (health rm)) +:+ ")".

(** The calls on a health object; [health()] of a manager gives the manager's own. *)
Inductive health_call :=
| HStatus | HMarkHealthy | HMarkDraining | HMarkUnhealthy | HInFlight | HUptime (now : Z) | HIsLive | HIsReady
| HToJson (now : Z) | HAddCheck (name : string) | HRepr (now : Z).

Inductive manager_call :=
| MHealth (k : health_call) | MGracefulReload | MHotReload | MShutdown | MIsDraining | MStatus | MInFlight | MRepr.

Inductive py_value := PNone | PStr (s : string) | PInt (z : Z) | PFloat (f : f64) | PBool (b : bool).

Definition health_eval (k : health_call) (h : HealthCheck) : HealthCheck * py_value :=
  match k with
  | HStatus => (h, PStr (as_str (status h)))
  | HMarkHealthy => (mark_healthy h, PNone)
  | HMarkDraining => (mark_draining h, PNone)
  | HMarkUnhealthy => (mark_unhealthy h, PNone)
  | HInFlight => (h, PInt (in_flight h))
  | HUptime now => (h, PFloat (as_secs_f64 (uptime now h)))
  | HIsLive => (h, PBool (is_live (status h)))
  | HIsReady => (h, PBool (is_ready (status h)))
  | HToJson now => (h, PStr (to_json (fixed2 (as_secs_f64 (uptime now h))) h))
  | HAddCheck name => (add_custom_check name h, PNone)
  | HRepr now => (h, PStr (health_repr now h))
  end.

Definition manager_eval (k : manager_call) (rm : ReloadManager) : ReloadManager * py_value :=
  match k with
  | MHealth k => let '(h, v) := health_eval k (health rm) in (set_health h rm, v)
  | MGracefulReload => (signal_graceful_reload rm, PNone)
  | MHotReload => (signal_hot_reload rm, PNone)
  | MShutdown => (signal_shutdown rm, PNone)
  | MIsDraining => (rm, PBool (is_draining rm))
  | MStatus => (rm, PStr (as_str (status (health rm))))
  | MInFlight => (rm, PInt (in_flight (health rm)))
  | MRepr => (rm, PStr (manager_repr rm))
  end.

Definition manager_script (ks : list manager_call) (rm : ReloadManager) : ReloadManager :=
  foldl (λ rm k, (manager_eval k rm).1) rm ks.

(** The last status that a script marks. *)
Definition marked (k : manager_call) : option HealthStatus :=
  match k with
  | MHealth HMarkHealthy => Some Healthy
  | MHealth HMarkDraining => Some Draining
  | MHealth HMarkUnhealthy => Some Unhealthy
  | _ => None
  end.

Lemma status_set s h : status (set_status s h) = s.
Proof. by destruct s. Qed.

Lemma manager_script_spec ks rm :
  let rm' := manager_script ks rm in
  config rm' = config rm ∧ is_draining rm' = is_draining rm ∧ drain_complete rm' = drain_complete rm ∧
  in_flight (health rm') = in_flight (health rm) ∧
  status (health rm') = foldl (λ s k, default s (marked k)) (status (health rm)) ks.
Proof.
  cbv zeta. revert rm. induction ks as [|k ks IH]; intros rm; [done|]. cbn [manager_script foldl].
  destruct (IH (manager_eval k rm).1) as (H1 & H2 & H3 & H4 & H5).
  unfold manager_script in *. rewrite H1, H2, H3, H4, H5.
  destruct k as [[]| | | | | | |]; split_and!; done.
Qed.

(** ** What Python cannot do *)

Context `{RS : RustStr} `{XH : XXH3} `{FU : FormUrlencoded} `{PD : PercentDecode} `{U8 : Utf8}.
Context `{MI : MatchIt} `{HT : Http} `{AX : AxumRoutes} {W : Type} `{HL : !Holds Logger W}.

(** What a request leaves in the world and what is sent. *)
Definition sent (o : option (@AppState MI NT W * W * HttpResponse)) : option (W * HttpResponse) :=
  (λ r, (r.1.2, r.2)) <$> o.

Lemma handle_script (ks : list manager_call) (st : @AppState MI NT W) hs t req w :
  sent (handle_request (set_manager (manager_script ks (reload_manager st)) st) hs t req w) =
  sent (handle_request st hs t req w).
Proof.
  set (st' := set_manager _ st). destruct (manager_script_spec ks (reload_manager st)) as (_ & Hd & _).
  set (m0 := set_health (increment_in_flight (health (reload_manager st))).1 (reload_manager st)).
  assert (∀ m w0, handle_request_inner (set_manager m st') hs t req w0 = handle_request_inner (set_manager m0 st) hs t req w0)
    as Hinner by done.
  unfold handle_request. change (reload_manager st') with (manager_script ks (reload_manager st)).
  rewrite Hd, Hinner. fold m0. destruct (is_draining (reload_manager st)); [done|].
  by destruct (handle_request_inner _ _ _ _ _) as [[]|].
Qed.

Lemma probe_script ks (m : ReloadManager) p : probe (manager_script ks m) p = probe m p.
Proof.
  unfold probe, probe_routes. by destruct (manager_script_spec ks m) as (-> & _).
Qed.

(** C26: the reload calls of Python reload nothing.  Whatever a program does to a manager through
    [ReloadManager] and [HealthCheck] (graceful and hot reloads, shutdown, marking as draining or
    unhealthy), and even when that manager is the worker's own: the drain flag and the in-flight count
    stay as they are, the status is the last one marked and no signal has marked any, and the worker
    answers every request of the application (each that is not for one of its health probes) as it
    would have.  The probes are where the calls show: at the same paths, they answer from the status
    that was marked last: live (200, otherwise 503) unless it is unhealthy, ready if it is healthy,
    started unless it is still the initial one. *)
Theorem python_reload_inert (ks : list manager_call) (st : @AppState MI NT W) hs t secs req w :
  let m' := manager_script ks (reload_manager st) in
  let marks := foldl (λ s k, default s (marked k)) (status (health (reload_manager st))) ks in
  let answer st := dispatch st hs t secs req w in
  is_draining m' = is_draining (reload_manager st) ∧
  in_flight (health m') = in_flight (health (reload_manager st)) ∧
  status (health m') = marks ∧
  match probe (reload_manager st) (uri_path req) with
  | None => sent (answer (set_manager m' st)) = sent (answer st)
  | Some h => answer (set_manager m' st) = Some (set_manager m' st, w, get_only (method_token req) (h secs m'))
  end ∧
  h_status (health_liveness secs m') = (if bool_decide (marks = Unhealthy) then 503 else 200) ∧
  h_status (health_status secs m') = (if bool_decide (marks = Unhealthy) then 503 else 200) ∧
  h_status (health_readiness secs m') = (if bool_decide (marks = Healthy) then 200 else 503) ∧
  h_status (health_startup secs m') = (if bool_decide (marks = Starting) then 503 else 200).
Proof.
  cbv zeta. pose proof (handle_script ks st hs t req w) as Hh.
  pose proof (probe_script ks (reload_manager st) (uri_path req)) as Hp.
  destruct (manager_script_spec ks (reload_manager st)) as (_ & Hd & _ & Hf & Hs).
  split_and!; [done|done|done|..].
  - unfold dispatch. cbn [reload_manager set_manager]. rewrite Hp. clear Hp. by destruct (probe _ _).
  - unfold health_liveness, probe_response, liveness_code. rewrite Hs. by destruct (foldl _ _ ks).
  - unfold health_status, probe_response. rewrite Hs. by destruct (foldl _ _ ks).
  - unfold health_readiness, probe_response, readiness_code. rewrite Hs. by destruct (foldl _ _ ks).
  - unfold health_startup, probe_response, startup_code. rewrite Hs. by destruct (foldl _ _ ks).
Qed.
End pyreload.
