(* ===== verification/DbContext.v ===== *)
(** Database contexts of a request (src/src/database/request_context.rs): lazy connections,
    transactions and their end when the request is finalized.  What the pool and the
    database answer is an argument of each call; the statements sent and the connections
    acquired and released are recorded in a log.  The calls of a context run one after another, and a
    context whose last session goes while nothing has it registered releases its connection. *)
From S2P Require Import Prelude.
From stdpp Require Import base gmap strings list sets.
Open Scope Z_scope.

(** * Contexts *)

Inductive ContextState := Idle | Connected | InTransaction | Committed | RolledBack | CtxClosed.

#[export] Instance ContextState_eq_dec : EqDecision ContextState.
Proof. solve_decision. Defined.

(** A pooled connection. *)
Definition conn := positive.

Record DatabaseContext := mkDatabaseContext {
  request_id : string;
  alias : string;
  connection : option conn;
  state : ContextState;
  auto_commit : bool;
  has_error : bool;
  in_transaction : bool
}.

Definition context_new (r a : string) : DatabaseContext :=
  mkDatabaseContext r a None Idle true false false.

Definition set_auto_commit (b : bool) (c : DatabaseContext) : DatabaseContext :=
  mkDatabaseContext (request_id c) (alias c) (connection c) (state c) b (has_error c) (in_transaction c).
Definition set_error (c : DatabaseContext) : DatabaseContext :=
  mkDatabaseContext (request_id c) (alias c) (connection c) (state c) (auto_commit c) true (in_transaction c).
Definition put_connection (k : option conn) (c : DatabaseContext) : DatabaseContext :=
  mkDatabaseContext (request_id c) (alias c) k (state c) (auto_commit c) (has_error c) (in_transaction c).
Definition take_connection (c : DatabaseContext) : DatabaseContext * option conn :=
  (put_connection None c, connection c).
Definition set_state (s : ContextState) (c : DatabaseContext) : DatabaseContext :=
  mkDatabaseContext (request_id c) (alias c) (connection c) s (auto_commit c) (has_error c) (in_transaction c).
Definition set_tx (b : bool) (s : ContextState) (c : DatabaseContext) : DatabaseContext :=
  mkDatabaseContext (request_id c) (alias c) (connection c) s (auto_commit c) (has_error c) b.

(** Transaction control sent by the context, statements of the user, and the pool. *)
Inductive tx_stmt := BEGIN | COMMIT | ROLLBACK.

Inductive event :=
| Acquire (k : conn)
| Tx (k : conn) (s : tx_stmt) (ok : bool)
| User (k : conn) (sql : string) (ok : bool)
| Release (k : conn).

(** The answers of one call: of the pool ([None]: no pool for the alias) and of the
    database to the statement (affected rows or rows found, or an error text). *)
Record answers := mkAnswers { pool : option (result string conn); reply : result string Z }.

(** The text of an error: the server's report with its optional parts ([position]: its debug text), or
    what the driver says. *)
Record DbError := mkDbError {
  message : string; code : string; detail : option string; hint : option string; position : option string
}.

Definition format_db_error (e : DbError + string) : string :=
  let line (label : string) (o : option string) := match o with Some t => String "010" (label +:+ t) | None => "" end in
  match e with
  | inl d =>
      "PostgreSQL error: " +:+ message d +:+ " (SQLSTATE " +:+ code d +:+ ")" +:+ line "Detail: " (detail d) +:+
        line "Hint: " (hint d) +:+ line "Position: " (position d)
  | inr text => text
  end.

(** The [SQLSTATE] of an error that the server reports is in the first line, whatever follows, and the
    code ends it if the message has no line break. *)
Lemma format_db_error_head d :
  str_contains_char "010" (message d) = false → str_contains_char "010" (code d) = false →
  head (str_split "010" (format_db_error (inl d))) =
    Some ("PostgreSQL error: " +:+ message d +:+ " (SQLSTATE " +:+ code d +:+ ")").
Proof.
  intros Hm Hc. unfold format_db_error.
  set (h := "PostgreSQL error: " +:+ message d +:+ " (SQLSTATE " +:+ code d +:+ ")").
  set (r := _ +:+ _ +:+ match position d with Some _ => _ | None => _ end).
  assert (str_contains_char "010" h = false) as Hh.
  { unfold h. rewrite !str_contains_char_app, Hm, Hc. done. }
  replace ("PostgreSQL error: " +:+ _) with (h +:+ r) by (unfold h, r; by rewrite !(assoc_L String.append)).
  assert (r = "" ∨ ∃ r', r = String "010" r') as [-> | [r' ->]].
  { unfold r. destruct (detail d); [eauto|]. destruct (hint d); [eauto|]. destruct (position d); eauto. }
  - rewrite str_app_nil_r. by rewrite str_split_none.
  - by rewrite str_split_app.
Qed.

Definition outcome (A : Type) : Type := (DatabaseContext * list event * result string A)%type.

Definition ensure_connection (a : answers) (c : DatabaseContext) : outcome unit :=
  match connection c with
  | Some _ => (c, [], Ok tt)
  | None =>
      match pool a with
      | None => (c, [], Err ("Connection pool for alias '" +:+ alias c +:+ "' not initialized"))
      | Some (Err e) => (c, [], Err ("Failed to acquire connection: " +:+ e))
      | Some (Ok k) => (set_state Connected (put_connection (Some k) c), [Acquire k], Ok tt)
      end
  end.

(** The statement runs between taking the connection and putting it back. *)
Definition send (ev : conn → bool → event) (what : string) (a : answers) (c : DatabaseContext)
    : outcome Z :=
  match take_connection c with
  | (_, None) => (c, [], Err "No connection available")
  | (c1, Some k) =>
      (put_connection (Some k) c1, [ev k (is_ok (reply a))],
       match reply a with Ok n => Ok n | Err e => Err (what +:+ e) end)
  end.

Definition send_tx (s : tx_stmt) : string → answers → DatabaseContext → outcome Z :=
  send (λ k ok, Tx k s ok).

Definition begin (a : answers) (c : DatabaseContext) : outcome unit :=
  match ensure_connection a c with
  | (c1, ev, Err e) => (c1, ev, Err e)
  | (c1, ev, Ok _) =>
      if in_transaction c1 then (c1, ev, Err "Transaction already active")
      else
        match send_tx BEGIN "Failed to begin transaction: " a c1 with
        | (c2, ev2, Err e) => (c2, ev ++ ev2, Err e)
        | (c2, ev2, Ok _) => (set_tx true InTransaction c2, ev ++ ev2, Ok tt)
        end
  end.

Definition commit (a : answers) (c : DatabaseContext) : outcome unit :=
  if negb (in_transaction c) then (c, [], Err "No active transaction to commit")
  else
    match send_tx COMMIT "Failed to commit transaction: " a c with
    | (c2, ev, Err e) => (c2, ev, Err e)
    | (c2, ev, Ok _) => (set_tx false Committed c2, ev, Ok tt)
    end.

Definition rollback (a : answers) (c : DatabaseContext) : outcome unit :=
  if negb (in_transaction c) then (c, [], Err "No active transaction to rollback")
  else
    match send_tx ROLLBACK "Failed to rollback transaction: " a c with
    | (c2, ev, Err e) => (c2, ev, Err e)
    | (c2, ev, Ok _) => (set_tx false RolledBack c2, ev, Ok tt)
    end.

(** [query] and [execute] differ in the text of the error and the kind of answer. *)
Definition statement (what sql : string) (a : answers) (c : DatabaseContext) : outcome Z :=
  match ensure_connection a c with
  | (c1, ev, Err e) => (c1, ev, Err e)
  | (c1, ev, Ok _) =>
      let '(c2, ev2, r) := send (λ k ok, User k sql ok) what a c1 in (c2, ev ++ ev2, r)
  end.
Definition query : string → answers → DatabaseContext → outcome Z := statement "Query failed: ".
Definition execute : string → answers → DatabaseContext → outcome Z := statement "Execute failed: ".

(** The end of the transaction that [finalize] chooses. *)
Definition end_transaction (a : answers) (c : DatabaseContext) : outcome unit :=
  if in_transaction c then
    if has_error c then rollback a c else if auto_commit c then commit a c else rollback a c
  else (c, [], Ok tt).

(** [finalize] on the context: on success the connection goes back to the pool. *)
Definition close_context (c : DatabaseContext) : DatabaseContext * list event :=
  let '(c1, k) := take_connection c in
  (set_state CtxClosed c1, match k with Some k => [Release k] | None => [] end).

(** * The registry *)

(** Contexts are shared objects: a heap of them, and the global map from request and alias
    to the registered one. *)
Record Store := mkStore {
  heap : gmap nat DatabaseContext;
  contexts : gmap string (gmap string nat);
  fresh_id : nat;
  log : list event
}.

Definition store_new : Store := mkStore ∅ ∅ 0 [].

Definition put (i : nat) (c : DatabaseContext) (ev : list event) (st : Store) : Store :=
  mkStore (<[i := c]> (heap st)) (contexts st) (fresh_id st) (log st ++ ev).

Definition create_request_context (r a : string) (st : Store) : Store * nat :=
  let i := fresh_id st in
  (mkStore (<[i := context_new r a]> (heap st))
     (<[r := <[a := i]> (default ∅ (contexts st !! r))]> (contexts st)) (S i) (log st), i).

Definition get_request_context (r a : string) (st : Store) : option nat :=
  m ← contexts st !! r; m !! a.

Definition get_db (r a : string) (st : Store) : Store * nat :=
  match get_request_context r a st with
  | Some i => (st, i)
  | None => create_request_context r a st
  end.

(** Removal of the alias, and of the request when it was the last. *)
Definition unregister (r a : string) (m : gmap string (gmap string nat))
    : gmap string (gmap string nat) :=
  match m !! r with
  | Some l =>
      let l' := delete a l in if bool_decide (l' = ∅) then delete r m else <[r := l']> m
  | None => m
  end.

(** [DatabaseContextInner::finalize] of the context [i]. *)
Definition finalize (a : answers) (i : nat) (st : Store) : Store * result string unit :=
  match heap st !! i with
  | None => (st, Ok tt)
  | Some c =>
      match end_transaction a c with
      | (c1, ev, Err e) => (put i c1 ev st, Err e)
      | (c1, ev, Ok _) =>
          let '(c2, ev2) := close_context c1 in
          let st' := put i c2 (ev ++ ev2) st in
          (mkStore (heap st') (unregister (request_id c) (alias c) (contexts st')) (fresh_id st')
             (log st'), Ok tt)
      end
  end.

Definition finalize_request_context (r al : string) (a : answers) (st : Store)
    : Store * result string unit :=
  match get_request_context r al st with
  | Some i => finalize a i st
  | None => (st, Ok tt)
  end.

(** [?] in the loop: the first error ends it. *)
Fixpoint finalize_each (a : nat → answers) (l : list nat) (st : Store)
    : Store * result string unit :=
  match l with
  | [] => (st, Ok tt)
  | i :: l' =>
      match finalize (a i) i st with
      | (st', Err e) => (st', Err e)
      | (st', Ok _) => finalize_each a l' st'
      end
  end.

Definition finalize_all_request_contexts `{!HashIter string nat} (r : string)
    (a : nat → answers) (st : Store) : Store * result string unit :=
  match contexts st !! r with
  | Some m => finalize_each a (hiter m).*2 st
  | None => (st, Ok tt)
  end.

(** ** Session calls *)

Inductive call :=
| Begin | Commit | Rollback | Query (sql : string) | Execute (sql : string)
| SetAutoCommit (b : bool) | SetError.

Definition run_call (x : call) (a : answers) (c : DatabaseContext) : DatabaseContext * list event :=
  match x with
  | Begin => (begin a c).1
  | Commit => (commit a c).1
  | Rollback => (rollback a c).1
  | Query sql => (query sql a c).1
  | Execute sql => (execute sql a c).1
  | SetAutoCommit b => (set_auto_commit b c, [])
  | SetError => (set_error c, [])
  end.

(** * The protocol of a pooled connection *)

(** Connections that are out of the pool, and whether a transaction is open on them: one was begun,
    and acknowledged, and none ended since. *)
Notation Held := (gmap conn bool).

Section protocol.
(** What a statement of the user does to the transaction of its connection when it succeeds: it may
    open one or end it, like the texts BEGIN and COMMIT; most do neither. *)
Variable tx_effect : string → option bool.

(** What the pool and the database require: a connection is acquired when it is in the
    pool, used while it is out, transactions do not nest, only an open one is ended, and a
    connection goes back without an open transaction. *)
Definition accept (m : Held) (e : event) : option Held :=
  match e with
  | Acquire k => match m !! k with None => Some (<[k := false]> m) | Some _ => None end
  | Tx k BEGIN ok =>
      match m !! k with Some false => Some (if ok then <[k := true]> m else m) | _ => None end
  | Tx k _ ok =>
      match m !! k with Some true => Some (if ok then <[k := false]> m else m) | _ => None end
  | User k sql ok =>
      match m !! k with
      | Some _ => Some (match tx_effect sql with Some b => if ok then <[k := b]> m else m | None => m end)
      | None => None
      end
  | Release k => match m !! k with Some false => Some (delete k m) | _ => None end
  end.

Definition accepts_from (m : option Held) (l : list event) : option Held :=
  foldl (λ o e, m ← o; accept m e) m l.
Definition accepts (l : list event) : option Held := accepts_from (Some ∅) l.

(** ** One context *)

Definition wf (c : DatabaseContext) : Prop := in_transaction c = true → is_Some (connection c).

Definition sync (m : Held) (c : DatabaseContext) : Prop :=
  ∀ k, connection c = Some k → m !! k = Some (in_transaction c).

Definition record (m : Held) (c : DatabaseContext) : Held :=
  match connection c with Some k => <[k := in_transaction c]> m | None => m end.

Lemma record_sync m c : sync m c → record m c = m.
Proof.
  intros Hs. unfold record. destruct (connection c) as [k|] eqn:E; [|done].
  by rewrite insert_id by (by apply Hs).
Qed.

(** A step of a context: what it logs is accepted and leaves the held connections in step
    with the context; a connection is kept, or acquired from those the pool may give. *)
Definition steps_to (m : Held) (c : DatabaseContext) (ev : list event) (c' : DatabaseContext) : Prop :=
  accepts_from (Some m) ev = Some (record m c') ∧ wf c' ∧
  (∀ k, connection c = Some k → connection c' = Some k) ∧
  request_id c' = request_id c ∧ alias c' = alias c.

Lemma steps_refl m c : wf c → sync m c → steps_to m c [] c.
Proof. intros. unfold steps_to. rewrite record_sync by done. done. Qed.

Definition pool_free (m : Held) (a : answers) : Prop := ∀ k, pool a = Some (Ok k) → m !! k = None.

Lemma ensure_steps m a c :
  wf c → sync m c → pool_free m a →
  let '(c', ev, r) := ensure_connection a c in
  steps_to m c ev c' ∧ sync (record m c') c' ∧ in_transaction c' = in_transaction c ∧
  (is_ok r = true → is_Some (connection c')).
Proof.
  intros Hw Hs Hp. unfold ensure_connection. destruct (connection c) as [k|] eqn:E.
  - rewrite record_sync by done. split_and!; [by apply steps_refl|done|done|by rewrite E].
  - assert (in_transaction c = false) as Ht
      by (destruct (in_transaction c) eqn:Et; [destruct (Hw Et); congruence|done]).
    destruct (pool a) as [[k|e]|] eqn:Ep;
      [|rewrite record_sync by done; split_and!; [by apply steps_refl|done..]
       |rewrite record_sync by done; split_and!; [by apply steps_refl|done..]].
    specialize (Hp k Ep). unfold steps_to, record. simpl. split_and!; try done.
    + unfold accepts_from. simpl. by rewrite Hp, Ht.
    + intros _. simpl. eauto.
    + intros k'. by rewrite E.
    + intros k' [= <-]. simpl. by rewrite lookup_insert_eq.
Qed.

Lemma send_steps m ev what a c :
  (∀ k ok, m !! k = Some (in_transaction c) → accept m (ev k ok) = Some m) →
  wf c → sync m c → let '(c', l, r) := send ev what a c in steps_to m c l c'.
Proof.
  intros He Hw Hs. unfold send, take_connection. destruct (connection c) as [k|] eqn:E.
  - unfold steps_to, record, accepts_from. simpl. rewrite E.
    rewrite He by (by apply Hs). split_and!; try done.
    + by rewrite insert_id by (by apply Hs).
    + unfold wf. simpl. eauto.
  - by apply steps_refl.
Qed.

(** A transaction statement toggles the flag when it succeeds. *)
Lemma send_tx_steps m s what a c b st :
  match s with BEGIN => b = true | _ => b = false end → in_transaction c = negb b →
  wf c → sync m c →
  let '(c', l, r) := send_tx s what a c in
  if is_ok r then steps_to m c l (set_tx b st c') else steps_to m c l c'.
Proof.
  intros Hb Ht Hw Hs. unfold send_tx, send, take_connection.
  destruct (connection c) as [k|] eqn:E; [|by apply steps_refl].
  specialize (Hs k E). rewrite Ht in Hs.
  assert (∀ ok, accept m (Tx k s ok) = Some (if ok then <[k := b]> m else m)) as Ha.
  { intros ok. simpl. rewrite Hs. destruct s; by rewrite Hb. }
  destruct (reply a) as [n|e]; cbn [is_ok]; unfold steps_to, record, accepts_from; cbn [foldl mbind option_bind];
    rewrite Ha; simpl; rewrite ?E, ?Ht; (split_and!; try done; try (by unfold wf; simpl; eauto)).
  by rewrite insert_id.
Qed.

Lemma steps_app m c1 ev1 c2 ev2 c3 :
  steps_to m c1 ev1 c2 → steps_to (record m c2) c2 ev2 c3 → steps_to m c1 (ev1 ++ ev2) c3.
Proof.
  intros (H1 & Hw1 & Hc1 & Hr1 & Ha1) (H2 & Hw2 & Hc2 & Hr2 & Ha2). unfold steps_to. split_and!.
  - unfold accepts_from in *. rewrite foldl_app, H1, H2. unfold record.
    destruct (connection c2) as [k|]; [|done]. rewrite (Hc2 k eq_refl). by rewrite insert_insert_eq.
  - done.
  - auto.
  - congruence.
  - congruence.
Qed.

Lemma statement_steps m what sql a c :
  tx_effect sql = None → wf c → sync m c → pool_free m a →
  let '(c', ev) := (statement what sql a c).1 in steps_to m c ev c'.
Proof.
  intros Hsql Hw Hs Hp. unfold statement. pose proof (ensure_steps m a c Hw Hs Hp) as He.
  destruct (ensure_connection a c) as [[c1 ev1] r1]. destruct He as (He & Hs1 & Ht & _).
  destruct r1 as [u|e]; [|done].
  pose proof (send_steps (record m c1) (λ k ok, User k sql ok) what a c1) as Hsend.
  destruct (send _ what a c1) as [[c2 ev2] r2]. simpl. eapply steps_app; [done|].
  apply Hsend; [|apply He|done]. intros k ok Hk. simpl. by rewrite Hk, Hsql.
Qed.

(** A call that leaves transactions to the session. *)
Definition plain (x : call) : Prop :=
  match x with Query sql | Execute sql => tx_effect sql = None | _ => True end.

Lemma call_steps m x a c :
  plain x → wf c → sync m c → pool_free m a → let '(c', ev) := run_call x a c in steps_to m c ev c'.
Proof.
  intros Hpl Hw Hs Hp. destruct x as [| | |sql|sql|b|]; simpl.
  - unfold begin. pose proof (ensure_steps m a c Hw Hs Hp) as He.
    destruct (ensure_connection a c) as [[c1 ev1] r1]. destruct He as (He & Hs1 & Ht & _).
    destruct r1 as [u|e]; [|done]. destruct (in_transaction c1) eqn:Et; [done|].
    pose proof (send_tx_steps (record m c1) BEGIN "Failed to begin transaction: " a c1 true InTransaction
      eq_refl Et ltac:(apply He) Hs1) as Hsend.
    destruct (send_tx _ _ _ _) as [[c2 ev2] r2]. destruct r2; simpl in *; by eapply steps_app.
  - unfold commit. destruct (in_transaction c) eqn:Et; simpl; [|by apply steps_refl].
    pose proof (send_tx_steps m COMMIT "Failed to commit transaction: " a c false Committed eq_refl Et Hw Hs).
    by destruct (send_tx _ _ _ _) as [[c2 ev2] []].
  - unfold rollback. destruct (in_transaction c) eqn:Et; simpl; [|by apply steps_refl].
    pose proof (send_tx_steps m ROLLBACK "Failed to rollback transaction: " a c false RolledBack eq_refl Et Hw Hs).
    by destruct (send_tx _ _ _ _) as [[c2 ev2] []].
  - by apply statement_steps.
  - by apply statement_steps.
  - pose proof (steps_refl m c Hw Hs) as H. unfold steps_to, wf, record in *. exact H.
  - pose proof (steps_refl m c Hw Hs) as H. unfold steps_to, wf, record in *. exact H.
Qed.

(** ** Finalizing *)

Lemma end_transaction_spec m a c :
  wf c → sync m c →
  match end_transaction a c with
  | (c', ev, Err e) => steps_to m c ev c' ∧ c' = c ∧ in_transaction c = true ∧ (∃ e0, reply a = Err e0) ∧
      ∃ k, connection c = Some k ∧
        ev = [Tx k (if negb (has_error c) && auto_commit c then COMMIT else ROLLBACK) false]
  | (c', ev, Ok _) => steps_to m c ev c' ∧ in_transaction c' = false ∧ connection c' = connection c ∧
      ev = if in_transaction c then
             match connection c with
             | Some k => [Tx k (if negb (has_error c) && auto_commit c then COMMIT else ROLLBACK) true]
             | None => []
             end
           else []
  end.
Proof.
  intros Hw Hs. unfold end_transaction. destruct (in_transaction c) eqn:Et; [|by split; [apply steps_refl|]].
  destruct (Hw Et) as [k Ek].
  pose proof (call_steps m Commit (mkAnswers None (reply a)) c I Hw Hs ltac:(done)) as Hc.
  pose proof (call_steps m Rollback (mkAnswers None (reply a)) c I Hw Hs ltac:(done)) as Hr.
  simpl in Hc, Hr. unfold commit, rollback, send_tx, send, take_connection in *. rewrite Et, Ek in *.
  simpl in *. assert (put_connection (Some k) (put_connection None c) = c) as Hput
    by (destruct c; simpl in *; by subst). rewrite Hput in *.
  destruct (has_error c), (auto_commit c), (reply a); simpl in *;
    (split_and!; [done|first [done|by destruct c]|first [done|by destruct c]|..]); eauto.
Qed.

Lemma end_transaction_ok m a c :
  wf c → sync m c →
  is_ok (end_transaction a c).2 = true ↔ in_transaction c = false ∨ is_ok (reply a) = true.
Proof.
  intros Hw _. clear tx_effect. unfold end_transaction, commit, rollback, send_tx, send, take_connection.
  destruct (in_transaction c) eqn:Et; [|simpl; tauto]. destruct (Hw Et) as [k ->].
  destruct (has_error c), (auto_commit c), (reply a); simpl; naive_solver.
Qed.

(** * Runs *)

(** No context holds the connection. *)
Definition free (st : Store) (k : conn) : Prop :=
  ∀ i c, heap st !! i = Some c → connection c ≠ Some k.

(** The global map knows the context. *)
Definition registered (i : nat) (st : Store) : Prop := ∃ r a, get_request_context r a st = Some i.

(** The last reference of a context goes: with it its connection, which returns to the pool as it is. *)
Definition drop_context (i : nat) (c : DatabaseContext) (st : Store) : Store :=
  mkStore (delete i (heap st)) (contexts st) (fresh_id st)
    (log st ++ match connection c with Some k => [Release k] | None => [] end).

(** Operations one at a time: the module's functions, calls of a session (any that was ever handed out
    and is kept), and the end of the last session of a context that is not registered. *)
Inductive op :=
| OGet (r a : string) | OCall (i : nat) (x : call) (a : answers)
| OFinalize (r al : string) (a : answers) | OFinalizeAll (r : string) (a : nat → answers) | ODrop (i : nat).

(** The pool gives out connections that nobody holds. *)
Inductive dstep `{!HashIter string nat} : op → Store → Store → Prop :=
| D_get st r a : dstep (OGet r a) st (get_db r a st).1
| D_call st i c x a : heap st !! i = Some c →
    (∀ k, pool a = Some (Ok k) → free st k) →
    dstep (OCall i x a) st (put i (run_call x a c).1 (run_call x a c).2 st)
| D_finalize st r al a : dstep (OFinalize r al a) st (finalize_request_context r al a st).1
| D_finalize_all st r a : dstep (OFinalizeAll r a) st (finalize_all_request_contexts r a st).1
| D_drop st i c : heap st !! i = Some c → ¬ registered i st → dstep (ODrop i) st (drop_context i c st).

(** Sessions are used as long as their context is registered, which it is until it is finalized, and
    statements leave transactions to the session. *)
Definition careful (o : op) (st : Store) : Prop :=
  match o with OCall i x _ => registered i st ∧ plain x | _ => True end.

Definition reachable `{!HashIter string nat} (st : Store) : Prop := rtc (λ s s', ∃ o, dstep o s s') store_new st.
Definition well_used `{!HashIter string nat} (st : Store) : Prop :=
  rtc (λ s s', ∃ o, careful o s ∧ dstep o s s') store_new st.

(** The log is accepted and the connections out of the pool are those of the contexts,
    each held by one context, with a transaction open iff the context says so. *)
Definition tracked (m : Held) (st : Store) : Prop :=
  accepts (log st) = Some m ∧
  (∀ i c, heap st !! i = Some c → wf c ∧ sync m c) ∧
  (∀ i j ci cj k, heap st !! i = Some ci → heap st !! j = Some cj →
     connection ci = Some k → connection cj = Some k → i = j) ∧
  (∀ k b, m !! k = Some b → ∃ i c, heap st !! i = Some c ∧ connection c = Some k) ∧
  (∀ i, is_Some (heap st !! i) → (i < fresh_id st)%nat).

Lemma accepts_app l ev m m' :
  accepts l = Some m → accepts_from (Some m) ev = Some m' → accepts (l ++ ev) = Some m'.
Proof. unfold accepts, accepts_from. rewrite foldl_app. by intros ->. Qed.

Lemma not_free_held m st k : tracked m st → m !! k ≠ None → ¬ free st k.
Proof.
  intros (_ & _ & _ & Hm & _) Hk Hf. destruct (m !! k) eqn:E; [|done].
  destruct (Hm _ _ E) as (i & c & Hi & Hc). by eapply Hf.
Qed.

(** Replacing a context by one it steps to keeps everything tracked. *)
Lemma tracked_put m st i c ev c' :
  tracked m st → heap st !! i = Some c → steps_to m c ev c' →
  (∀ k, connection c' = Some k → connection c = Some k ∨ m !! k = None) →
  tracked (record m c') (put i c' ev st).
Proof.
  intros (Ha & Hc & Hu & Hm & Hf) Hi (Hev & Hw & Hk & _) Hn. unfold tracked, put. simpl.
  assert (∀ j cj k, j ≠ i → heap st !! j = Some cj → connection cj = Some k → connection c' ≠ Some k) as Hd.
  { intros j cj k Hne Hj Hcj Hck. destruct (Hn k Hck) as [Hck'|Hfree].
    - by apply Hne, (Hu j i cj c k).
    - destruct (Hc _ _ Hj) as [_ Hs]. specialize (Hs k Hcj). congruence. }
  split_and!.
  - by eapply accepts_app.
  - intros j cj. destruct (decide (j = i)) as [->|Hne].
    + rewrite lookup_insert_eq. intros [= <-]. split; [done|]. intros k Hck. unfold record.
      rewrite Hck. by rewrite lookup_insert_eq.
    + rewrite lookup_insert_ne by done. intros Hj. destruct (Hc _ _ Hj) as [Hwj Hs]. split; [done|].
      intros k Hck. unfold record. destruct (connection c') as [k'|] eqn:Ek'; [|by apply Hs].
      rewrite lookup_insert_ne; [by apply Hs|]. intros ->. by eapply Hd.
  - intros j1 j2 c1 c2 k. rewrite !lookup_insert_Some.
    intros [[-> <-]|[Hn1 H1]] [[-> <-]|[Hn2 H2]] Hk1 Hk2; [done| | |by eapply Hu].
    + destruct (Hd j2 c2 k); auto.
    + destruct (Hd j1 c1 k); auto.
  - intros k b. unfold record. destruct (connection c') as [k'|] eqn:Ek'.
    + rewrite lookup_insert_Some. intros [[-> _]|[Hne Hkb]].
      * exists i, c'. by rewrite lookup_insert_eq.
      * destruct (Hm _ _ Hkb) as (j & cj & Hj & Hcj). exists j, cj. split; [|done].
        rewrite lookup_insert_ne; [done|]. intros ->. rewrite Hi in Hj. injection Hj as <-.
        specialize (Hk k Hcj). congruence.
    + intros Hkb. destruct (Hm _ _ Hkb) as (j & cj & Hj & Hcj). exists j, cj. split; [|done].
      rewrite lookup_insert_ne; [done|]. intros ->. rewrite Hi in Hj. injection Hj as <-.
      specialize (Hk k Hcj). congruence.
  - intros j [cj Hj]. apply lookup_insert_Some in Hj as [[-> _]|[_ Hj]]; [|by eauto]. eauto.
Qed.

Lemma send_connection ev what a c : connection (send ev what a c).1.1 = connection c.
Proof. unfold send, take_connection. by destruct (connection c) eqn:E. Qed.

Lemma ensure_connection_from a c k :
  connection (ensure_connection a c).1.1 = Some k → connection c = Some k ∨ pool a = Some (Ok k).
Proof.
  unfold ensure_connection. destruct (connection c) eqn:E; [simpl; rewrite E; auto|].
  destruct (pool a) as [[k'|e]|]; simpl; rewrite ?E; [|done..]. intros [= <-]. auto.
Qed.

Lemma statement_connection what sql a c k :
  connection (statement what sql a c).1.1 = Some k → connection c = Some k ∨ pool a = Some (Ok k).
Proof.
  intros H. apply ensure_connection_from. revert H. unfold statement.
  destruct (ensure_connection a c) as [[c1 ev1] []]; [|done].
  pose proof (send_connection (λ k ok, User k sql ok) what a c1) as Hs.
  destruct (send _ what a c1) as [[? ?] ?]. simpl in *. by rewrite Hs.
Qed.

Lemma run_call_connection x a c k :
  connection (run_call x a c).1 = Some k → connection c = Some k ∨ pool a = Some (Ok k).
Proof.
  intros H. destruct x as [| | |sql|sql|b|]; simpl in H; [| | | | |by left|by left].
  - apply ensure_connection_from. revert H. unfold begin.
    destruct (ensure_connection a c) as [[c1 ev1] []]; [|done]. destruct (in_transaction c1); [done|].
    pose proof (send_connection (λ k ok, Tx k BEGIN ok) "Failed to begin transaction: " a c1) as Hs.
    unfold send_tx. destruct (send _ _ a c1) as [[? ?] []]; simpl in *; by rewrite Hs.
  - left. revert H. unfold commit. destruct (in_transaction c); [|done].
    pose proof (send_connection (λ k ok, Tx k COMMIT ok) "Failed to commit transaction: " a c) as Hs.
    unfold send_tx. destruct (send _ _ a c) as [[? ?] []]; simpl in *; by rewrite Hs.
  - left. revert H. unfold rollback. destruct (in_transaction c); [|done].
    pose proof (send_connection (λ k ok, Tx k ROLLBACK ok) "Failed to rollback transaction: " a c) as Hs.
    unfold send_tx. destruct (send _ _ a c) as [[? ?] []]; simpl in *; by rewrite Hs.
  - by eapply statement_connection.
  - by eapply statement_connection.
Qed.

Lemma tracked_call m st i c x a :
  plain x → tracked m st → heap st !! i = Some c → (∀ k, pool a = Some (Ok k) → free st k) →
  ∃ m', tracked m' (put i (run_call x a c).1 (run_call x a c).2 st).
Proof.
  intros Hpl Ht Hi Hp. destruct Ht as (Ha & Hc & Hrest) eqn:E. clear E. destruct (Hc _ _ Hi) as [Hw Hs].
  assert (pool_free m a) as Hpf.
  { intros k Hk. destruct (m !! k) eqn:E; [|done]. exfalso.
    eapply not_free_held; [by split|rewrite E; discriminate|]. auto. }
  exists (record m (run_call x a c).1). eapply tracked_put; [by split|done| |].
  - pose proof (call_steps m x a c Hpl Hw Hs Hpf). by destruct (run_call x a c).
  - intros k Hk. destruct (run_call_connection _ _ _ _ Hk) as [?|?]; auto.
Qed.

Lemma tracked_close m st i c :
  tracked m st → heap st !! i = Some c → in_transaction c = false →
  ∃ m', tracked m' (put i (close_context c).1 (close_context c).2 st).
Proof.
  intros (Ha & Hc & Hu & Hm & Hf) Hi Ht. destruct (Hc _ _ Hi) as [Hw Hs].
  exists (match connection c with Some k => delete k m | None => m end).
  unfold tracked, put, close_context, take_connection. simpl. split_and!.
  - eapply accepts_app; [done|]. destruct (connection c) as [k|] eqn:Ek; [|done].
    unfold accepts_from. simpl. by rewrite (Hs k Ek), Ht.
  - intros j cj. destruct (decide (j = i)) as [->|Hne].
    + rewrite lookup_insert_eq. intros [= <-]. split; [unfold wf; simpl; by rewrite Ht|done].
    + rewrite lookup_insert_ne by done. intros Hj. destruct (Hc _ _ Hj) as [Hwj Hsj]. split; [done|].
      intros k Hck. destruct (connection c) as [k'|] eqn:Ek'; [|by apply Hsj].
      rewrite lookup_delete_ne; [by apply Hsj|]. intros ->. by apply Hne, (Hu j i cj c k).
  - intros j1 j2 c1 c2 k. rewrite !lookup_insert_Some.
    intros [[-> <-]|[Hn1 H1]] [[-> <-]|[Hn2 H2]] Hk1 Hk2; try done. by eapply Hu.
  - intros k b Hkb. assert (m !! k = Some b ∧ connection c ≠ Some k) as [Hmk Hck].
    { destruct (connection c) as [k'|]; [|done]. apply lookup_delete_Some in Hkb as [? ?]. naive_solver. }
    destruct (Hm _ _ Hmk) as (j & cj & Hj & Hcj). exists j, cj. split; [|done].
    rewrite lookup_insert_ne; [done|]. intros ->. rewrite Hi in Hj. naive_solver.
  - intros j [cj Hj]. apply lookup_insert_Some in Hj as [[-> _]|[_ Hj]]; eauto.
Qed.

Lemma tracked_contexts m h cs cs' n l : tracked m (mkStore h cs n l) → tracked m (mkStore h cs' n l).
Proof. done. Qed.

Lemma put_put i c1 ev1 c2 ev2 st : put i c2 ev2 (put i c1 ev1 st) = put i c2 (ev1 ++ ev2) st.
Proof. unfold put. simpl. by rewrite insert_insert_eq, (assoc_L (++)). Qed.

Lemma tracked_finalize m a i st : tracked m st → ∃ m', tracked m' (finalize a i st).1.
Proof.
  intros Ht. unfold finalize. destruct (heap st !! i) as [c|] eqn:Hi; [|by exists m].
  destruct (proj1 (proj2 Ht) _ _ Hi) as [Hw Hs]. pose proof (end_transaction_spec m a c Hw Hs) as He.
  destruct (end_transaction a c) as [[c1 ev] [u|e]].
  - destruct He as (Hst & Htx & Hk & _).
    assert (tracked (record m c1) (put i c1 ev st)) as Ht1
      by (eapply tracked_put; [done..|]; intros k; rewrite Hk; auto).
    destruct (tracked_close _ _ i c1 Ht1) as [m' Hm']; [by apply lookup_insert_eq|done|].
    exists m'. destruct (close_context c1) as [c2 ev2]. rewrite put_put in Hm'. exact Hm'.
  - destruct He as (Hst & -> & _). exists (record m c). simpl. by eapply tracked_put; eauto.
Qed.

Lemma tracked_create m r a st : tracked m st → tracked m (create_request_context r a st).1.
Proof.
  intros (Ha & Hc & Hu & Hm & Hf). unfold create_request_context, tracked. simpl.
  assert (heap st !! fresh_id st = None) as Hfr
    by (destruct (heap st !! fresh_id st) eqn:E; [specialize (Hf _ (mk_is_Some _ _ E)); lia|done]).
  split_and!; [done| | | |].
  - intros i c. rewrite lookup_insert_Some. intros [[<- <-]|[_ Hi]]; [|by eauto]. done.
  - intros j1 j2 c1 c2 k. rewrite !lookup_insert_Some.
    intros [[<- <-]|[Hn1 H1]] [[<- <-]|[Hn2 H2]] Hk1 Hk2; try done. by eapply Hu.
  - intros k b Hk. destruct (Hm _ _ Hk) as (i & c & Hi & Hck). exists i, c.
    rewrite lookup_insert_ne; [done|]. intros <-. congruence.
  - intros i [c Hi]. apply lookup_insert_Some in Hi as [[<- _]|[_ Hi]]; [lia|].
    assert (i < fresh_id st)%nat by eauto. lia.
Qed.

Lemma get_unregister r a m : (unregister r a m !! r ≫= λ l, l !! a) = None.
Proof.
  unfold unregister. destruct (m !! r) as [l|] eqn:E; [|by rewrite E].
  case_bool_decide; [by rewrite lookup_delete_eq|]. rewrite lookup_insert_eq. simpl. apply lookup_delete_eq.
Qed.

Lemma get_unregister_ne r a r' a' m :
  (r', a') ≠ (r, a) → (unregister r a m !! r' ≫= λ l, l !! a') = (m !! r' ≫= λ l, l !! a').
Proof.
  intros Hne. unfold unregister. destruct (m !! r) as [l|] eqn:E; [|done].
  destruct (decide (r' = r)) as [->|Hr].
  - assert (a' ≠ a) as Ha by congruence. case_bool_decide as Hd.
    + rewrite lookup_delete_eq, E. simpl. symmetry. rewrite <-(lookup_delete_ne l a a') by done. by rewrite Hd.
    + rewrite lookup_insert_eq, E. simpl. by rewrite lookup_delete_ne.
  - case_bool_decide; [by rewrite lookup_delete_ne|by rewrite lookup_insert_ne].
Qed.

(** The map knows contexts under their own names, and what it does not know any more holds nothing. *)
Record settled (st : Store) : Prop := {
  st_named r a i : get_request_context r a st = Some i →
    ∃ c, heap st !! i = Some c ∧ request_id c = r ∧ alias c = a;
  st_idle i c : heap st !! i = Some c → ¬ registered i st → connection c = None ∧ in_transaction c = false
}.

(** A context changes without its names. *)
Lemma settled_put i c c' ev st :
  settled st → heap st !! i = Some c → registered i st → request_id c' = request_id c → alias c' = alias c →
  settled (put i c' ev st).
Proof.
  intros [Hn Hi] Hc Hreg Hr Ha. clear tx_effect. split.
  - intros r a j Hj. destruct (Hn r a j Hj) as (cj & Hcj & H1 & H2). simpl.
    destruct (decide (j = i)) as [->|]; [rewrite lookup_insert_eq; naive_solver|rewrite lookup_insert_ne; eauto].
  - intros j cj. simpl. rewrite lookup_insert_Some. intros [[<- _]|[_ Hj]]; [done|]. by apply Hi.
Qed.

Lemma settled_get r a st m : settled st → tracked m st → settled (get_db r a st).1.
Proof.
  intros [Hn Hi] (_ & _ & _ & _ & Hf). unfold get_db. destruct (get_request_context r a st) as [i|] eqn:Hg; [by split|].
  assert (∀ r' a', get_request_context r' a' (create_request_context r a st).1 =
    if decide ((r', a') = (r, a)) then Some (fresh_id st) else get_request_context r' a' st) as Hget.
  { intros r' a'. unfold get_request_context, create_request_context. cbn [fst contexts].
    case_decide as Hd; [simplify_eq; by rewrite lookup_insert_eq; simpl; rewrite lookup_insert_eq|].
    destruct (decide (r' = r)) as [->|]; [|by rewrite lookup_insert_ne]. rewrite lookup_insert_eq. simpl.
    rewrite lookup_insert_ne by congruence. destruct (contexts st !! r); [done|]. simpl. by rewrite lookup_empty. }
  split.
  - intros r' a' j. rewrite Hget. case_decide as Hd.
    + intros [= <-]. injection Hd as -> ->. exists (context_new r a). split; [apply lookup_insert_eq|done].
    + intros Hj. destruct (Hn r' a' j Hj) as (c & Hc & ? & ?). exists c. simpl. rewrite lookup_insert_ne; [done|].
      intros <-. assert (fresh_id st < fresh_id st)%nat by eauto. lia.
  - intros j c. simpl. rewrite lookup_insert_Some. intros [[<- <-]|[_ Hj]] Hnr; [done|].
    apply (Hi j c Hj). intros (r' & a' & Hj'). apply Hnr. exists r', a'. rewrite Hget, decide_False; [done|]. congruence.
Qed.

Lemma settled_finalize m a i r al st :
  tracked m st → settled st → get_request_context r al st = Some i →
  settled (finalize a i st).1 ∧
  ∀ r' al' j, get_request_context r' al' st = Some j → j ≠ i → get_request_context r' al' (finalize a i st).1 = Some j.
Proof.
  intros Ht Hs Hg. destruct Hs as [Hn Hi]. destruct (Hn r al i Hg) as (c & Hc & <- & <-).
  unfold finalize. rewrite Hc. destruct (proj1 (proj2 Ht) i c Hc) as [Hw Hsy].
  pose proof (end_transaction_spec m a c Hw Hsy) as He. destruct (end_transaction a c) as [[c1 ev] [u|e]].
  2: { destruct He as (_ & -> & _). split; [|done]. eapply settled_put; [by split|done|by do 2 eexists|done..]. }
  destruct He as (_ & Htx & _). unfold close_context, take_connection. cbn [fst].
  assert (∀ r' al' j, get_request_context r' al' st = Some j → j ≠ i →
    (unregister (request_id c) (alias c) (contexts st) !! r' ≫= λ l, l !! al') = Some j) as Hkeep.
  { intros r' al' j Hj Hne. rewrite get_unregister_ne; [done|]. intros [= -> ->]. congruence. }
  split; [|exact Hkeep]. split.
  - intros r' al' j. unfold get_request_context. cbn [contexts heap put].
    destruct (decide ((r', al') = (request_id c, alias c))) as [[= -> ->]|Hne]; [by rewrite get_unregister|].
    rewrite get_unregister_ne by done. intros Hj. destruct (Hn r' al' j Hj) as (cj & Hcj & ? & ?).
    exists cj. rewrite lookup_insert_ne; [done|]. intros <-. rewrite Hc in Hcj. by simplify_eq.
  - intros j cj. cbn [heap put]. rewrite lookup_insert_Some. intros [[<- <-]|[Hne Hj]] Hnr; [done|].
    apply (Hi j cj Hj). intros (r' & al' & Hj'). apply Hnr. exists r', al'. by apply Hkeep.
Qed.

(** All contexts of a request: each is still registered when its turn comes. *)
Lemma finalize_each_ok a r l st m :
  tracked m st → settled st → NoDup l → (∀ i, i ∈ l → ∃ al, get_request_context r al st = Some i) →
  ∃ m', tracked m' (finalize_each a l st).1 ∧ settled (finalize_each a l st).1.
Proof.
  revert m st. induction l as [|i l IH]; intros m st Ht Hs Hnd Hl; cbn [finalize_each]; [by exists m|].
  apply NoDup_cons in Hnd as [Hni Hnd]. destruct (Hl i ltac:(set_solver)) as [al Hal].
  destruct (tracked_finalize m (a i) i st Ht) as [m' Ht'].
  destruct (settled_finalize m (a i) i r al st Ht Hs Hal) as [Hs' Hk].
  destruct (finalize (a i) i st) as [st' []]; cbn [fst] in *; [|by exists m'].
  eapply IH; [done..|]. intros j Hj. destruct (Hl j ltac:(set_solver)) as [al' Hal']. exists al'.
  apply Hk; [done|]. intros ->. done.
Qed.

Lemma registered_ids `{!HashIter string nat} st r (l : gmap string nat) :
  settled st → contexts st !! r = Some l →
  NoDup (hiter l).*2 ∧ ∀ i, i ∈ (hiter l).*2 → ∃ al, get_request_context r al st = Some i.
Proof.
  intros [Hn _] Hl. assert (∀ al i, (al, i) ∈ hiter l → get_request_context r al st = Some i) as Hin.
  { intros al i H. rewrite (hiter_perm l) in H. apply elem_of_map_to_list in H. unfold get_request_context. by rewrite Hl. }
  split.
  - assert (NoDup (hiter l)) as Hnd by (rewrite (hiter_perm l); apply NoDup_map_to_list).
    apply NoDup_fmap_2_strong; [|done]. intros [al i] [al' i'] H1 H2 Heq. simpl in Heq. subst i'.
    destruct (Hn r al i (Hin _ _ H1)) as (c & Hc & _ & <-). destruct (Hn r al' i (Hin _ _ H2)) as (c' & Hc' & _ & <-).
    rewrite Hc in Hc'. by simplify_eq.
  - intros i ([al i'] & -> & H)%list_elem_of_fmap. exists al. by apply Hin.
Qed.

Lemma tracked_drop m st i c :
  tracked m st → heap st !! i = Some c → connection c = None → tracked m (drop_context i c st).
Proof.
  intros (Ha & Hc & Hu & Hm & Hf) Hi Hk. unfold tracked, drop_context. cbn [heap log fresh_id contexts].
  rewrite Hk, app_nil_r. split_and!; [done| | | |].
  - intros j cj [_ Hj]%lookup_delete_Some. by apply (Hc j).
  - intros j1 j2 c1 c2 k [_ H1]%lookup_delete_Some [_ H2]%lookup_delete_Some. by apply Hu.
  - intros k b Hkb. destruct (Hm k b Hkb) as (j & cj & Hj & Hcj). exists j, cj. split; [|done].
    rewrite lookup_delete_ne; [done|]. intros ->. rewrite Hi in Hj. by simplify_eq.
  - intros j [cj [_ Hj]%lookup_delete_Some]. eauto.
Qed.

Lemma settled_drop st i c : settled st → heap st !! i = Some c → ¬ registered i st → settled (drop_context i c st).
Proof.
  intros [Hn Hi] Hc Hnr. split.
  - intros r a j Hj. destruct (Hn r a j Hj) as (cj & Hcj & ? & ?). exists cj. simpl. rewrite lookup_delete_ne; [done|].
    intros <-. apply Hnr. by exists r, a.
  - intros j cj. simpl. intros [_ Hj]%lookup_delete_Some. by apply Hi.
Qed.

Lemma run_call_names x a c : request_id (run_call x a c).1 = request_id c ∧ alias (run_call x a c).1 = alias c.
Proof.
  destruct x; cbn; try done; unfold begin, commit, rollback, query, execute, statement, ensure_connection, send_tx, send, take_connection;
    destruct (connection c) eqn:Ek, (in_transaction c) eqn:Et, (pool a) as [[]|] eqn:Ep, (reply a) eqn:Er; cbn;
    rewrite ?Ek, ?Et, ?Er; cbn; rewrite ?Ek, ?Et, ?Er; done.
Qed.

Lemma tracked_well_used `{!HashIter string nat} st : well_used st → ∃ m, tracked m st ∧ settled st.
Proof.
  intros Hr. refine (rtc_invariant _ (λ st, ∃ m, tracked m st ∧ settled st) _ _ _ Hr _).
  - clear. intros s s' (o & Hcare & Hs) (m & Ht & Hse). destruct Hs as [st r a|st i c x a Hi Hp|st r al a|st r a|st i c Hi Hnr].
    + exists m. split; [|by eapply settled_get]. unfold get_db.
      destruct (get_request_context r a st); [done|]. by apply tracked_create.
    + destruct Hcare as [Hreg Hpl]. destruct (tracked_call m st i c x a Hpl Ht Hi Hp) as [m' Ht']. exists m'.
      split; [done|]. by eapply settled_put; eauto; apply run_call_names.
    + unfold finalize_request_context. destruct (get_request_context r al st) as [i|] eqn:Hg; [|by exists m].
      destruct (tracked_finalize m a i st Ht) as [m' Ht']. exists m'. split; [done|]. by eapply settled_finalize.
    + unfold finalize_all_request_contexts. destruct (contexts st !! r) as [l|] eqn:Hl; [|by exists m].
      destruct (registered_ids st r l Hse Hl) as [Hnd Hin]. by eapply finalize_each_ok.
    + exists m. split; [|by apply settled_drop]. eapply tracked_drop; [done..|]. by eapply st_idle.
  - exists ∅. split; [|split; [done|by intros i c Hc]]. unfold tracked, store_new. simpl. split_and!; try done.
    by intros i [c Hc].
Qed.

(** C5: a request's database connections are used and returned cleanly.  In every run of calls,
    whatever the pool and the database answer, in which sessions are not used after their context was
    finalized and the statements of the user leave transactions to the session: connections are acquired
    once, used while held, transactions neither nest nor end without having begun, and no connection
    goes back to the pool inside a transaction, be it by a finalization or because the last session of
    a context goes; and the connections that are out are exactly those held by a context, each by one,
    inside a transaction iff the context says so, and the context is registered, so that a finalization
    will find it.  (Both conditions are needed: [reopened_leaks], [sql_begin_leaks].) *)
Theorem connections_clean `{!HashIter string nat} st :
  well_used st →
  ∃ m, accepts (log st) = Some m ∧
    (∀ k b, m !! k = Some b ↔
       ∃ i c, heap st !! i = Some c ∧ connection c = Some k ∧ in_transaction c = b) ∧
    (∀ i j ci cj k, heap st !! i = Some ci → heap st !! j = Some cj →
       connection ci = Some k → connection cj = Some k → i = j) ∧
    (∀ i c, heap st !! i = Some c → in_transaction c = true → is_Some (connection c)) ∧
    (∀ i c, heap st !! i = Some c → is_Some (connection c) →
       get_request_context (request_id c) (alias c) st = Some i).
Proof.
  intros Hr. destruct (tracked_well_used st Hr) as (m & (Ha & Hc & Hu & Hm & _) & Hn & Hi).
  exists m. split_and!; [done| |done|intros i c Hic; apply (Hc i c Hic)|].
  - intros k b. split.
    + intros Hk. destruct (Hm k b Hk) as (i & c & Hic & Hck). exists i, c. split_and!; [done..|].
      destruct (Hc i c Hic) as [_ Hs]. specialize (Hs k Hck). congruence.
    + intros (i & c & Hic & Hck & <-). by apply (Hc i c Hic).
  - intros i c Hic [k Hk]. destruct (get_request_context (request_id c) (alias c) st) as [j|] eqn:Hg.
    + destruct (decide (i = j)) as [->|Hne]; [done|exfalso].
      destruct (Hi i c Hic) as [Hnk _]; [|congruence].
      intros (r & a & Hia). destruct (Hn r a i Hia) as (c' & Hc' & <- & <-). rewrite Hic in Hc'. by simplify_eq.
    + exfalso. destruct (Hi i c Hic) as [Hnk _]; [|congruence].
      intros (r & a & Hia). destruct (Hn r a i Hia) as (c' & Hc' & <- & <-). rewrite Hic in Hc'. by simplify_eq.
Qed.
End protocol.

(** Calls and finalizations keep a context that is in a transaction with its connection, in every run. *)
Lemma run_call_wf x a c : wf c → wf (run_call x a c).1.
Proof.
  unfold wf. destruct x; cbn; try done; unfold begin, commit, rollback, query, execute, statement, ensure_connection, send_tx, send, take_connection;
    destruct (connection c) eqn:Ek, (in_transaction c) eqn:Et, (pool a) as [[]|] eqn:Ep, (reply a) eqn:Er; cbn;
    rewrite ?Ek, ?Et, ?Er; cbn; rewrite ?Ek, ?Et, ?Er; eauto.
Qed.

Lemma finalize_wf a i st :
  map_Forall (λ _ c, wf c) (heap st) → map_Forall (λ _ c, wf c) (heap (finalize a i st).1).
Proof.
  intros Hw. unfold finalize. destruct (heap st !! i) as [c|] eqn:Hi; [|done].
  pose proof (end_transaction_spec (λ _, None) (record ∅ c) a c (Hw _ _ Hi)) as He.
  destruct (end_transaction a c) as [[c1 ev] [u|e]]; cbn.
  - apply map_Forall_insert_2; [|done]. unfold wf. cbn. destruct He as (_ & -> & _); [|done].
    intros k Hk. unfold record. rewrite Hk. apply lookup_insert_eq.
  - apply map_Forall_insert_2; [|done]. destruct He as (_ & -> & _); [|by apply (Hw _ _ Hi)].
    intros k Hk. unfold record. rewrite Hk. apply lookup_insert_eq.
Qed.

Lemma wf_reachable `{!HashIter string nat} st i c : reachable st → heap st !! i = Some c → wf c.
Proof.
  intros Hr. revert i c. change (map_Forall (λ _ c, wf c) (heap st)).
  refine (rtc_invariant _ (λ st, map_Forall (λ _ c, wf c) (heap st)) _ _ _ Hr _); [|apply map_Forall_empty].
  clear. intros s s' (o & Hs) Hw. destruct Hs as [st r a|st i c x a Hi Hp|st r al a|st r a|st i c Hi Hnr].
  - unfold get_db. destruct (get_request_context r a st); [done|]. cbn. by apply map_Forall_insert_2.
  - cbn. apply map_Forall_insert_2; [|done]. apply run_call_wf. by apply (Hw i c).
  - unfold finalize_request_context. destruct (get_request_context r al st); [|done]. by apply finalize_wf.
  - unfold finalize_all_request_contexts. destruct (contexts st !! r) as [l|]; [|done].
    revert st Hw. induction (hiter l).*2 as [|i l0 IH]; intros st Hw; [done|]. cbn [finalize_each].
    pose proof (finalize_wf (a i) i st Hw). destruct (finalize (a i) i st) as [st' []]; [by apply IH|done].
  - cbn. by apply map_Forall_delete.
Qed.

(** C23: how a request's transaction ends.  Finalizing a context inside a transaction sends
    exactly one statement: COMMIT iff no error was recorded and auto-commit is on, else
    ROLLBACK.  If it succeeds (or there was no transaction) the connection is released, the
    context closed and taken from the registry; if the database refuses it, nothing else
    happens: the context keeps its connection and its place in the registry. *)
Theorem finalize_outcome `{!HashIter string nat} st i c a :
  reachable st → heap st !! i = Some c →
  let stmt := if negb (has_error c) && auto_commit c then COMMIT else ROLLBACK in
  let '(st', r) := finalize a i st in
  (in_transaction c = false ∨ is_ok (reply a) = true →
     r = Ok tt ∧
     (∃ c', heap st' = <[i := c']> (heap st) ∧ connection c' = None ∧ state c' = CtxClosed ∧
        in_transaction c' = false) ∧
     get_request_context (request_id c) (alias c) st' = None ∧
     log st' = log st ++
       match connection c with
       | Some k => (if in_transaction c then [Tx k stmt true] else []) ++ [Release k]
       | None => []
       end) ∧
  (∀ e, in_transaction c = true → reply a = Err e →
     is_ok r = false ∧ heap st' = heap st ∧ contexts st' = contexts st ∧
     ∃ k, connection c = Some k ∧ log st' = log st ++ [Tx k stmt false]).
Proof.
  intros Hr Hi. cbv zeta. pose proof (wf_reachable st i c Hr Hi) as Hw. unfold finalize. rewrite Hi.
  assert (sync (record ∅ c) c) as Hs by (intros k Hk; unfold record; rewrite Hk; apply lookup_insert_eq).
  pose proof (end_transaction_spec (λ _, None) (record ∅ c) a c Hw Hs) as He.
  pose proof (end_transaction_ok (record ∅ c) a c Hw Hs) as Hok.
  destruct (end_transaction a c) as [[c1 ev] [u|e]].
  - destruct He as ((_ & _ & _ & Hrid & Hal) & Htx & Hk & Hev).
    split; [|intros e Ht Hre; rewrite Ht, Hre in Hok; by destruct (proj1 Hok eq_refl)].
    intros _. unfold close_context, take_connection. simpl. rewrite Hk. split_and!; [done| |apply get_unregister|].
    + eexists. split; [reflexivity|done].
    + subst ev. destruct (in_transaction c) eqn:Et; [destruct (Hw Et) as [k ->]; done|].
      by destruct (connection c).
  - destruct He as (_ & -> & Ht & [e0 He0] & k & Hk & ->). simpl.
    split; [intros H; by apply Hok in H|]. intros e1 _ _. split_and!; [done|by apply insert_id|done|eauto].
Qed.

(** * Witnesses *)

Definition demo_answers : answers := mkAnswers (Some (Ok 1%positive)) (Ok 1).
Definition demo_store1 : Store := (get_db "req" "default" store_new).1.
Definition demo_ctx1 : DatabaseContext := context_new "req" "default".
Definition demo_ctx2 : DatabaseContext := (run_call Begin demo_answers demo_ctx1).1.
Definition demo_store2 : Store := put 0 demo_ctx2 (run_call Begin demo_answers demo_ctx1).2 demo_store1.

Definition demo_effect (sql : string) : option bool :=
  if String.eqb sql "BEGIN" then Some true else if String.eqb sql "COMMIT" then Some false else None.

(** Finalized, and then the session goes. *)
Definition demo_store3 : Store := (finalize (mkAnswers None (Ok 0)) 0 demo_store2).1.
Definition demo_ctx3 : DatabaseContext := (close_context (commit (mkAnswers None (Ok 0)) demo_ctx2).1.1).1.

Lemma demo_free : ∀ k, pool demo_answers = Some (Ok k) → free demo_store1 k.
Proof.
  intros k _ i c Hi. change (<[0%nat := demo_ctx1]> (∅ : gmap nat DatabaseContext) !! i = Some c) in Hi.
  apply lookup_insert_Some in Hi as [[_ <-]|[_ Hi]]; [done|]. by rewrite lookup_empty in Hi.
Qed.

Lemma demo_step_get : dstep (OGet "req" "default") store_new demo_store1.
Proof. apply D_get. Qed.
Lemma demo_step_begin : dstep (OCall 0 Begin demo_answers) demo_store1 demo_store2.
Proof. apply (D_call demo_store1 0 demo_ctx1 Begin demo_answers); [reflexivity|apply demo_free]. Qed.
Lemma demo_step_end : dstep (OFinalize "req" "default" (mkAnswers None (Ok 0))) demo_store2 demo_store3.
Proof. apply (D_finalize demo_store2 "req" "default" (mkAnswers None (Ok 0))). Qed.

Lemma demo_unregistered : ¬ registered 0 demo_store3.
Proof.
  intros (r & a & H). change ((∅ : gmap string (gmap string nat)) !! r ≫= (λ m, m !! a) = Some 0%nat) in H.
  by rewrite lookup_empty in H.
Qed.

Lemma demo_reachable : reachable demo_store2.
Proof. eapply rtc_l; [by eexists; apply demo_step_get|]. apply rtc_once. by eexists; apply demo_step_begin. Qed.

Lemma connections_clean_witness :
  let l := [Acquire 1%positive; Tx 1%positive BEGIN true; Tx 1%positive COMMIT true; Release 1%positive] in
  log (drop_context 0 demo_ctx3 demo_store3) = l ∧ is_Some (accepts demo_effect l).
Proof.
  cbv zeta. assert (well_used demo_effect (drop_context 0 demo_ctx3 demo_store3)) as Hw.
  { eapply rtc_l; [exists (OGet "req" "default"); split; [exact I|apply demo_step_get]|].
    eapply rtc_l; [exists (OCall 0 Begin demo_answers); split; [split; [by exists "req", "default"|exact I]|apply demo_step_begin]|].
    eapply rtc_l; [exists (OFinalize "req" "default" (mkAnswers None (Ok 0))); split; [exact I|apply demo_step_end]|].
    apply rtc_once. exists (ODrop 0). split; [exact I|]. by apply D_drop; [reflexivity|apply demo_unregistered]. }
  destruct (connections_clean demo_effect _ Hw) as (m & Hm & _). split; [reflexivity|]. exists m. exact Hm.
Defined.

(** A session kept after its context was finalized begins again, on a context that no finalization
    finds; when the session goes, its connection returns to the pool inside the transaction, whatever
    statements do. *)
Lemma reopened_leaks tx_effect :
  ∃ st, reachable st ∧ last (log st) = Some (Release 1%positive) ∧ accepts tx_effect (log st) = None.
Proof.
  set (c4 := (run_call Begin demo_answers demo_ctx3).1).
  set (st4 := put 0 c4 (run_call Begin demo_answers demo_ctx3).2 demo_store3).
  exists (drop_context 0 c4 st4). split; [|split; reflexivity].
  eapply rtc_l; [by eexists; apply demo_step_get|]. eapply rtc_l; [by eexists; apply demo_step_begin|].
  eapply rtc_l; [by eexists; apply demo_step_end|].
  eapply rtc_l; [eexists; apply (D_call demo_store3 0 demo_ctx3 Begin demo_answers); [reflexivity|]|].
  { intros k _ i c Hi. change (<[0%nat := demo_ctx3]> (<[0%nat := demo_ctx2]> (<[0%nat := demo_ctx1]> (∅ : gmap nat DatabaseContext))) !! i = Some c) in Hi.
    destruct (decide (0%nat = i)) as [<-|Hn];
      [rewrite lookup_insert_eq in Hi; by injection Hi as <-|by rewrite !lookup_insert_ne, lookup_empty in Hi]. }
  apply rtc_once. eexists. apply D_drop; [reflexivity|]. exact demo_unregistered.
Qed.

(** The text BEGIN is a statement like any other for a context: its transaction is still open when the
    finalization releases the connection. *)
Lemma sql_begin_leaks tx_effect :
  tx_effect "BEGIN" = Some true →
  ∃ st, reachable st ∧ last (log st) = Some (Release 1%positive) ∧ accepts tx_effect (log st) = None.
Proof.
  intros Hb. set (c2 := (run_call (Execute "BEGIN") demo_answers demo_ctx1).1).
  set (st2 := put 0 c2 (run_call (Execute "BEGIN") demo_answers demo_ctx1).2 demo_store1).
  exists (finalize (mkAnswers None (Ok 0)) 0 st2).1. split; [|split; [reflexivity|]].
  - eapply rtc_l; [by eexists; apply demo_step_get|].
    eapply rtc_l; [eexists; apply (D_call demo_store1 0 demo_ctx1 (Execute "BEGIN") demo_answers); [reflexivity|apply demo_free]|].
    apply rtc_once. eexists. apply (D_finalize st2 "req" "default" (mkAnswers None (Ok 0))).
  - change (log (finalize (mkAnswers None (Ok 0)) 0 st2).1)
      with [Acquire 1%positive; User 1%positive "BEGIN" true; Release 1%positive].
    unfold accepts, accepts_from. cbn. by rewrite Hb.
Qed.

Lemma finalize_outcome_witness :
  log (finalize (mkAnswers None (Ok 0)) 0 demo_store2).1 =
    [Acquire 1%positive; Tx 1%positive BEGIN true; Tx 1%positive COMMIT true; Release 1%positive] ∧
  log (finalize (mkAnswers None (Err "down")) 0 demo_store2).1 =
    [Acquire 1%positive; Tx 1%positive BEGIN true; Tx 1%positive COMMIT false].
Proof.
  pose proof (finalize_outcome demo_store2 0 demo_ctx2 (mkAnswers None (Ok 0)) demo_reachable eq_refl) as H1.
  pose proof (finalize_outcome demo_store2 0 demo_ctx2 (mkAnswers None (Err "down")) demo_reachable eq_refl) as H2.
  split.
  - destruct (finalize (mkAnswers None (Ok 0)) 0 demo_store2) as [st' r].
    destruct (proj1 H1 (or_intror eq_refl)) as (_ & _ & _ & H). exact H.
  - destruct (finalize (mkAnswers None (Err "down")) 0 demo_store2) as [st' r].
    destruct (proj2 H2 "down" eq_refl eq_refl) as (_ & _ & _ & k & [= <-] & H). exact H.
Defined.

(** Finalizing all contexts of a request stops at the first that fails: a later one keeps
    its open transaction and its connection. *)
Lemma finalize_all_stops_early :
  let a i := if (i =? 0)%nat then mkAnswers None (Err "down") else mkAnswers None (Ok 0) in
  let c1 := demo_ctx2 in
  let c2 := (run_call Begin (mkAnswers (Some (Ok 2%positive)) (Ok 0)) (context_new "req" "log")).1 in
  let st := mkStore {[0%nat := c1; 1%nat := c2]} {["req" := {["default" := 0%nat; "log" := 1%nat]}]} 2 [] in
  let '(st', r) := finalize_each a [0%nat; 1%nat] st in
  is_ok r = false ∧ heap st' !! 1%nat = Some c2 ∧ in_transaction c2 = true.
Proof. vm_compute. auto. Qed.

(** A session kept after its context was closed opens a new transaction on a context that
    no finalization will find. *)
Lemma closed_context_reopens :
  let st := (finalize (mkAnswers None (Ok 0)) 0 demo_store2).1 in
  match heap st !! 0%nat with
  | Some c =>
      state c = CtxClosed ∧
      let c' := (run_call Begin demo_answers c).1 in
      in_transaction c' = true ∧ get_request_context (request_id c') (alias c') st = None
  | None => False
  end.
Proof. vm_compute. auto. Qed.
