(* ===== verification/Executor.v ===== *)
(** The blocking executor (src/src/core/blocking_executor.rs): the chunked parallel map, and
    the pool of worker threads, its queue, the interpreter lock and the shutdown as a step
    relation. *)
From S2P Require Import Prelude F64.
From Stdlib Require Import SpecFloat.
From stdpp Require Import base gmap strings list sets relations.
Open Scope nat_scope.

(** * Parallel map *)

Section map.
Context {A B : Type} (f : A → result string B).











End map.

(** * The pool *)

(** Work items and threads are numbers. *)
Notation work := nat (only parsing).

(** A worker between the steps of [worker_loop]: about to look at the flag, inside
    [recv_timeout], holding an item or a failure and waiting for the interpreter lock,
    executing, deciding whether to stop, stopped. *)
Inductive worker_pc :=
| Polling | Receiving | Got (w : work) | Failing | Executing (w : work) | Testing | Exited.

#[export] Instance worker_pc_eq_dec : EqDecision worker_pc.
Proof. solve_decision. Defined.

(** A Python thread inside [run_sync], [run_parallel] or [map]: sending the items that are
    left with the lock held, or waiting for all its results without it. *)
Inductive caller_pc := Sending (left all : list work) | Waiting (all : list work).

Inductive holder := Caller (c : nat) | Worker (i : nat).

Record Pool := mkPool {
  queue : list work;
  bound : option nat;
  running : bool;
  gil : option holder;
  workers : gmap nat worker_pc;
  callers : gmap nat caller_pc;
  finished : list work
}.

Definition set_worker (i : nat) (p : worker_pc) (q : list work) (g : option holder) (s : Pool) : Pool :=
  mkPool q (bound s) (running s) g (<[i := p]> (workers s)) (callers s) (finished s).
Definition set_caller (c : nat) (p : caller_pc) (q : list work) (g : option holder) (s : Pool) : Pool :=
  mkPool q (bound s) (running s) g (workers s) (<[c := p]> (callers s)) (finished s).

(** Every worker starts polling; a queue size of zero is unbounded. *)
Definition pool_new (max_threads queue_size : nat) : Pool :=
  mkPool [] (if 0 <? queue_size then Some queue_size else None) true None
    (gset_to_gmap Polling (set_seq 0 max_threads)) ∅ [].

(** Without a number of threads the system's parallelism counts, or four. *)
Definition py_new (available_parallelism : option nat) (max_threads queue_size : nat) : Pool :=
  pool_new (if max_threads =? 0 then default 4 available_parallelism else max_threads) queue_size.

Definition has_room (s : Pool) : Prop :=
  match bound s with Some b => length (queue s) < b | None => True end.

Definition all_finished (all : list work) (s : Pool) : Prop := Forall (λ w, w ∈ finished s) all.

Inductive step : Pool → Pool → Prop :=
| E_enter s c all : gil s = None → running s = true → callers s !! c = None →
    step s (set_caller c (Sending all all) (queue s) (Some (Caller c)) s)
| E_send s c w left all : gil s = Some (Caller c) → callers s !! c = Some (Sending (w :: left) all) →
    has_room s → step s (set_caller c (Sending left all) (queue s ++ [w]) (gil s) s)
| E_detach s c all : gil s = Some (Caller c) → callers s !! c = Some (Sending [] all) →
    step s (set_caller c (Waiting all) (queue s) None s)
| E_return s c all : gil s = None → callers s !! c = Some (Waiting all) → all_finished all s →
    step s (mkPool (queue s) (bound s) (running s) None (workers s) (delete c (callers s)) (finished s))
| E_shutdown s : gil s = None →
    step s (mkPool (queue s) (bound s) false None (workers s) (callers s) (finished s))
| E_poll s i : workers s !! i = Some Polling →
    step s (set_worker i (if running s then Receiving else Failing) (queue s) (gil s) s)
| E_receive s i w q : workers s !! i = Some Receiving → queue s = w :: q →
    step s (set_worker i (Got w) q (gil s) s)
| E_timeout s i : workers s !! i = Some Receiving → queue s = [] →
    step s (set_worker i Failing (queue s) (gil s) s)
| E_attach s i w : workers s !! i = Some (Got w) → gil s = None →
    step s (set_worker i (Executing w) (queue s) (Some (Worker i)) s)
| E_execute s i w : workers s !! i = Some (Executing w) → gil s = Some (Worker i) →
    step s (mkPool (queue s) (bound s) (running s) None (<[i := Polling]> (workers s)) (callers s)
              (finished s ++ [w]))
| E_fail s i : workers s !! i = Some Failing → gil s = None →
    step s (set_worker i Testing (queue s) (Some (Worker i)) s)
| E_test s i : workers s !! i = Some Testing → gil s = Some (Worker i) →
    step s (set_worker i (if negb (running s) && (match queue s with [] => true | _ => false end)
                          then Exited else Polling) (queue s) None s).

Definition reachable (max_threads queue_size : nat) (s : Pool) : Prop :=
  rtc step (pool_new max_threads queue_size) s.

(** ** Shutdown *)

(** The flag is down and no worker is still inside [recv_timeout]. *)
Definition stopped (s : Pool) : Prop :=
  running s = false ∧ ∀ i, workers s !! i ≠ Some Receiving.

(** What a worker has taken out of the queue. *)
Definition in_hands (s : Pool) (w : work) : Prop :=
  ∃ i, workers s !! i = Some (Got w) ∨ workers s !! i = Some (Executing w).

(** What holds from [s] on: the queue only grows, only what was in hands finishes, and while
    something is queued no worker stops. *)
Definition stranded (s s' : Pool) : Prop :=
  stopped s' ∧ queue s `prefix_of` queue s' ∧
  (∀ w, w ∈ finished s' → w ∈ finished s ∨ in_hands s w) ∧
  (∀ w, in_hands s' w → in_hands s w) ∧
  (∀ i, queue s ≠ [] → workers s' !! i = Some Exited → workers s !! i = Some Exited).

Lemma stranded_refl s : stopped s → stranded s s.
Proof. intros H. unfold stranded. split_and!; auto. Qed.

Lemma stranded_trans s1 s2 s3 : stranded s1 s2 → stranded s2 s3 → stranded s1 s3.
Proof.
  intros (_ & Hq & Hf & Hh & He) (Hs' & Hq' & Hf' & Hh' & He'). unfold stranded. split_and!; [done| | | |].
  - by etrans.
  - intros w [Hw|Hw]%Hf'; [by apply Hf|right; by apply Hh].
  - auto.
  - intros i Hne Hi. apply He; [done|]. apply He'; [|done]. intros Hn. apply Hne.
    rewrite Hn in Hq. by apply prefix_nil_inv in Hq.
Qed.

(** Moving one worker out of a state in which it holds nothing. *)
Lemma stranded_set_worker s i p q g :
  stopped s → queue s `prefix_of` q → p ≠ Receiving → (∀ w, p = Got w ∨ p = Executing w → in_hands s w) →
  (p = Exited → queue s = []) →
  stranded s (set_worker i p q g s).
Proof.
  intros [Hr Hn] Hq Hp Hh He. unfold stranded, stopped, in_hands. simpl. split_and!; [done| |done|auto| |].
  - intros j. rewrite lookup_insert_Some. intros [[_ ->]|[_ Hj]]; [done|by eapply Hn].
  - intros w (j & Hj). rewrite !lookup_insert_Some in Hj.
    destruct Hj as [[[_ Hj]|[_ Hj]]|[[_ Hj]|[_ Hj]]]; [apply Hh; auto|exists j; auto|apply Hh; auto|exists j; auto].
  - intros j Hne. rewrite lookup_insert_Some. intros [[_ ->]|[_ Hj]]; [by destruct Hne; apply He|done].
Qed.

Lemma stranded_step s s' : stopped s → step s s' → stranded s s'.
Proof.
  intros Hs Hst. pose proof Hs as [Hr Hn].
  destruct Hst as [s c all Hg Hrun Hc|s c w left all Hg Hc Hroom|s c all Hg Hc|s c all Hg Hc Hf|s Hg|s i Hi
    |s i w q Hi Hq|s i Hi Hq|s i w Hi Hg|s i w Hi Hg|s i Hi Hg|s i Hi Hg].
  - congruence.
  - unfold stranded. simpl. split_and!; [done|by exists [w]|auto..].
  - unfold stranded. simpl. split_and!; [done|done|auto..].
  - unfold stranded. simpl. split_and!; [done|done|auto..].
  - unfold stranded, stopped. simpl. split_and!; [done|done|done|auto..].
  - rewrite Hr. apply stranded_set_worker; naive_solver.
  - by destruct (Hn i).
  - by destruct (Hn i).
  - apply stranded_set_worker; try naive_solver. intros w' [?|[= <-]]; [done|]. exists i. auto.
  - unfold stranded, stopped, in_hands. simpl. split_and!; [done| |done| | |].
    + intros j. rewrite lookup_insert_Some. intros [[_ ?]|[_ Hj]]; [done|by eapply Hn].
    + intros w' [Hw|Hw]%elem_of_app; [by left|]. right. exists i.
      apply list_elem_of_singleton in Hw as ->. auto.
    + intros w' (j & Hj). rewrite !lookup_insert_Some in Hj. exists j. naive_solver.
    + intros j _. rewrite lookup_insert_Some. intros [[_ ?]|[_ Hj]]; done.
  - apply stranded_set_worker; naive_solver.
  - apply stranded_set_worker; [done|done|by case_match| |].
    + intros w. case_match; intros [?|?]; done.
    + rewrite Hr. by destruct (queue s).
Qed.

Lemma stranded_steps s s' : stopped s → rtc step s s' → stranded s s'.
Proof.
  intros Hs. induction 1 as [s|s s1 s' H1 _ IH]; [by apply stranded_refl|].
  pose proof (stranded_step _ _ Hs H1) as Hst. eapply stranded_trans; [done|]. apply IH, Hst.
Qed.

(** A caller that waits for an unfinished item goes on waiting. *)
Lemma waiting_step s s' c all w :
  step s s' → callers s !! c = Some (Waiting all) → w ∈ all → w ∉ finished s →
  callers s' !! c = Some (Waiting all).
Proof.
  intros Hst Hc Hw Hf. destruct Hst; simpl; try done;
    match goal with
    | |- <[?c' := _]> _ !! _ = _ => destruct (decide (c = c')) as [->|]; [congruence|by rewrite lookup_insert_ne]
    | |- delete ?c' _ !! _ = _ => destruct (decide (c = c')) as [->|]; [|by rewrite lookup_delete_ne]
    end.
  exfalso. simplify_eq. unfold all_finished in *. rewrite Forall_forall in *. naive_solver.
Qed.

(** shutting down strands the queue.  Once the flag is down and the workers have left
    [recv_timeout], every queued item stays in the queue forever: it is never executed (unless
    it was already), whoever waits for it waits forever, and as long as anything is queued no
    worker stops. *)
Theorem shutdown_strands_queue s s' w :
  stopped s → rtc step s s' → w ∈ queue s → w ∉ finished s → ¬ in_hands s w →
  w ∈ queue s' ∧ w ∉ finished s' ∧
  (∀ c all, callers s !! c = Some (Waiting all) → w ∈ all → callers s' !! c = Some (Waiting all)) ∧
  (∀ i, workers s' !! i = Some Exited → workers s !! i = Some Exited).
Proof.
  intros Hs Hst Hw Hf Hh.
  assert (∀ t, rtc step s t → w ∈ queue t ∧ w ∉ finished t) as Hkeep.
  { intros t Ht. destruct (stranded_steps _ _ Hs Ht) as (_ & [l Hq] & Hfin & _). rewrite Hq.
    split; [set_solver|]. intros [?|?]%Hfin; done. }
  destruct (Hkeep s' Hst) as [Hq' Hf']. split_and!; [done|done| |].
  - intros c all Hc Hall. revert Hkeep Hc Hst. clear -Hall. intros Hkeep Hc Hst.
    induction Hst as [s|s s1 s' H1 Hst IH]; [done|]. apply IH.
    + intros t Ht. apply Hkeep. by eapply rtc_l.
    + destruct (Hkeep s1) as [_ Hnf1]; [by apply rtc_once|].
      destruct (Hkeep s) as [_ Hnf]; [done|]. by eapply waiting_step.
  - destruct (stranded_steps _ _ Hs Hst) as (_ & _ & _ & _ & He). intros i. apply He.
    intros Hn. rewrite Hn in Hw. by apply not_elem_of_nil in Hw.
Qed.

(** The wait of [shutdown], without the lock: at each round the clock is read, then the queue is
    looked at, while the other threads go on; a sleep takes at least five milliseconds. *)
Inductive shutdown_wait (deadline : Z) : Pool → Z → Pool → Z → Prop :=
| W_deadline s t : (deadline <= t)%Z → shutdown_wait deadline s t s t
| W_empty s t s' : (t < deadline)%Z → rtc step s s' → queue s' = [] → shutdown_wait deadline s t s' t
| W_sleep s t s1 s2 t2 s' t' :
    (t < deadline)%Z → rtc step s s1 → queue s1 ≠ [] → rtc step s1 s2 → (t + 5 <= t2)%Z →
    shutdown_wait deadline s2 t2 s' t' → shutdown_wait deadline s t s' t'.

(** [Duration::from_secs_f64] panics on a number that is negative or not finite or exceeds the range
    of seconds; the release profile aborts on a panic. *)
Definition duration_ok (secs : f64) : bool :=
  match secs with
  | SpecFloat.S754_zero _ => true
  | SpecFloat.S754_finite false _ _ => f64_lt secs (f64_of_Z (2 ^ 64))
  | _ => false
  end.

(** The wait of [shutdown] drains nothing.  Once the workers have left [recv_timeout] and something is
    queued it lasts until its deadline, however long that is, and what was queued is queued still. *)
Theorem shutdown_waits_in_vain deadline s t s' t' :
  stopped s → queue s ≠ [] → shutdown_wait deadline s t s' t' →
  (deadline <= t')%Z ∧ queue s `prefix_of` queue s' ∧ ∀ w, w ∈ finished s' → w ∈ finished s ∨ in_hands s w.
Proof.
  intros Hs Hq Hw. revert Hs Hq.
  assert (∀ s s', stopped s → queue s ≠ [] → rtc step s s' → stranded s s' ∧ queue s' ≠ []) as Hkeep.
  { clear. intros s s' Hs Hq Hst%stranded_steps; [|done]. split; [done|]. destruct Hst as (_ & [l Hl] & _).
    rewrite Hl. intros [? _]%app_eq_nil. done. }
  induction Hw as [s t Ht|s t s' _ Hst He|s t s1 s2 t2 s' t' _ H1 Hne H2 Ht _ IH]; intros Hs Hq.
  - split_and!; [done|done|auto].
  - by destruct (Hkeep s s' Hs Hq Hst).
  - destruct (Hkeep s s2) as [Hst Hq2]; [done|done|by etrans|].
    destruct Hst as (Hs2 & Hp & Hf & Hh & _). destruct (IH Hs2 Hq2) as (Hd & Hp' & Hf').
    split_and!; [done|by etrans|]. intros w [Hw|Hw]%Hf'; [by apply Hf|right; by apply Hh].
Qed.

(** The wait ends at the first round that finds the queue empty; what the workers hold may still be
    running. *)
Lemma shutdown_wait_end deadline s t s' t' :
  shutdown_wait deadline s t s' t' → rtc step s s' ∧ (t <= t')%Z ∧ ((deadline <= t')%Z ∨ queue s' = []).
Proof.
  induction 1 as [s t Ht|s t s' Ht Hst He|s t s1 s2 t2 s' t' Ht H1 Hne H2 Ht2 _ IH].
  - split_and!; [done|lia|by left].
  - split_and!; [done|lia|by right].
  - destruct IH as (Hr & Hle & Hend). split_and!; [|lia|done]. etrans; [exact H1|]. by etrans.
Qed.

(** ** The interpreter lock *)

(** A caller holds the lock inside [send] on a full queue, and every worker has an item and
    waits for the lock. *)
Definition jammed (s : Pool) : Prop :=
  ¬ has_room s ∧
  (∃ c w left all, gil s = Some (Caller c) ∧ callers s !! c = Some (Sending (w :: left) all)) ∧
  (∀ i p, workers s !! i = Some p → ∃ w, p = Got w).

Lemma eq_rtc (s s' : Pool) : s = s' → rtc step s s'.
Proof. intros ->. apply rtc_refl. Qed.

Lemma jammed_no_step s s' : jammed s → ¬ step s s'.
Proof.
  intros (Hroom & (c & w & left & all & Hg & Hc) & Hw) Hst.
  assert (∀ i p, workers s !! i = Some p → (∀ w, p ≠ Got w) → False) as Hw'.
  { intros i p Hi Hp. destruct (Hw i p Hi) as [? ?]. by eapply Hp. }
  destruct Hst as [s c' all' Hg'|s c' w' l' all' Hg' Hc' Hr|s c' all' Hg' Hc'|s c' all' Hg'|s Hg'|s i Hi
    |s i w' q Hi|s i Hi|s i w' Hi Hg'|s i w' Hi|s i Hi|s i Hi];
    first [congruence|by eapply Hw'].
Qed.

(** the executor can lock up.  A thread that submits to a full queue blocks with the
    interpreter lock held, which the workers need to finish what they took: from such a
    state nothing can happen any more, for any caller and any worker.  One call with as few
    as three more items than the queue of one worker holds gets there. *)
Theorem executor_deadlock :
  (∀ s s', jammed s → rtc step s s' → s' = s) ∧
  ∃ s, reachable 1 1 s ∧ jammed s ∧ running s = true.
Proof.
  split.
  - intros s s' Hj Hst. destruct Hst as [|s s1 s' H1 _]; [done|]. by destruct (jammed_no_step _ _ Hj H1).
  - exists (mkPool [1] (Some 1) true (Some (Caller 0)) {[0 := Got 0]} {[0 := Sending [2] [0; 1; 2]]} []).
    split; [|split; [split; [unfold has_room; simpl; lia|split; [by exists 0, 2, [], [0; 1; 2]|]]|done]].
    + unfold reachable.
      eapply rtc_l; [by apply (E_enter _ 0 [0; 1; 2])|].
      eapply rtc_l; [eapply (E_send _ 0 0 [1; 2]); [done|reflexivity|unfold has_room; simpl; lia]|].
      eapply rtc_l; [by apply (E_poll _ 0)|].
      eapply rtc_l; [eapply (E_receive _ 0 0 []); reflexivity|].
      eapply rtc_l; [eapply (E_send _ 0 1 [2]); [done|reflexivity|unfold has_room; simpl; lia]|].
      apply eq_rtc. unfold set_caller, set_worker, pool_new. simpl. f_equal; apply map_eq; intros [|i]; reflexivity.
    + intros i p. simpl. rewrite lookup_singleton_Some. intros [_ <-]. eauto.
Qed.

(** * Witnesses *)

(** A call was waiting for its item when another thread shut the pool down. *)
Definition demo_pool : Pool :=
  mkPool [1] None false None {[0 := Polling]} {[0 := Waiting [1]]} [].

Lemma demo_pool_reachable : reachable 1 0 demo_pool.
Proof.
  unfold reachable.
  eapply rtc_l; [by apply (E_enter _ 0 [1])|].
  eapply rtc_l; [eapply (E_send _ 0 1 []); [done|reflexivity|done]|].
  eapply rtc_l; [eapply (E_detach _ 0); [done|reflexivity]|].
  eapply rtc_l; [by apply E_shutdown|].
  apply eq_rtc. unfold set_caller, pool_new, demo_pool. simpl. f_equal; apply map_eq; intros [|i]; reflexivity.
Qed.

Lemma shutdown_strands_queue_witness :
  reachable 1 0 demo_pool ∧
  ∀ s', rtc step demo_pool s' → 1 ∈ queue s' ∧ callers s' !! 0 = Some (Waiting [1]).
Proof.
  split; [exact demo_pool_reachable|]. intros s' Hst.
  assert (stopped demo_pool) as Hs.
  { split; [done|]. intros i. simpl. rewrite lookup_singleton_Some. naive_solver. }
  assert (¬ in_hands demo_pool 1) as Hh.
  { intros (i & Hi). simpl in Hi. rewrite !lookup_singleton_Some in Hi. naive_solver. }
  destruct (shutdown_strands_queue demo_pool s' 1 Hs Hst ltac:(set_solver) ltac:(set_solver) Hh)
    as (Hq & _ & Hc & _).
  split; [exact Hq|]. apply Hc; [reflexivity|set_solver].
Defined.

Lemma shutdown_waits_in_vain_witness :
  ∀ s' t', shutdown_wait 30000 demo_pool 0 s' t' → (30000 <= t')%Z ∧ 1 ∈ queue s'.
Proof.
  intros s' t' Hw.
  assert (stopped demo_pool) as Hs.
  { split; [done|]. intros i. simpl. rewrite lookup_singleton_Some. naive_solver. }
  destruct (shutdown_waits_in_vain 30000 demo_pool 0 s' t' Hs ltac:(done) Hw) as (Hd & [l ->] & _).
  split; [exact Hd|set_solver].
Defined.

(** A negative timeout ends the process. *)
Example negative_timeout : duration_ok (f64_of_Z (-1)) = false ∧ duration_ok (f64_of_Z 30) = true.
Proof. done. Qed.

