(* ===== verification/Tasks.v ===== *)
(** Background tasks (src/src/core/tasks.rs): the queue, the table of results, cancellation
    and cleanup, and the workers as a step relation.  The handlers' outcomes and the clock
    readings are arguments of the steps; a worker marks a task as running and calls its handler in two
    steps, between which it waits for the interpreter lock. *)
From S2P Require Import Prelude F64.
From Stdlib Require Import SpecFloat.
From stdpp Require Import base gmap strings list sets relations.
Open Scope Z_scope.

(** * Tasks and results *)

Inductive TaskStatus := Pending | Running | Completed | Failed | Cancelled.

#[export] Instance TaskStatus_eq_dec : EqDecision TaskStatus.
Proof. solve_decision. Defined.

(** The model of the executor keeps the two numbers of an id; the code prints them, and the text
    determines them. *)
Notation task_id := (Z * Z)%type.

Definition generate_id (i : task_id) : string :=
  "task_" +:+ pad_zero 16 (lower_hex i.1) +:+ "_" +:+ pad_zero 8 (lower_hex i.2).

Lemma generate_id_inj i j :
  0 <= i.1 < 2 ^ 128 → 0 <= i.2 < 2 ^ 64 → 0 <= j.1 < 2 ^ 128 → 0 <= j.2 < 2 ^ 64 →
  generate_id i = generate_id j → i = j.
Proof.
  intros Hi1 Hi2 Hj1 Hj2 He%(f_equal (str_strip_prefix "task_")). unfold generate_id in He.
  rewrite !strip_prefix_app in He. injection He as He%(f_equal (str_split_once "_"%char)).
  assert (∀ z, 0 <= z → str_contains_char "_" (pad_zero 16 (lower_hex z)) = false) as Hno.
  { intros z Hz. eapply str_forall_not_contains; [|by apply pad_zero_digits]. done. }
  rewrite !str_app_cons, !str_app_nil_l, !str_split_once_app in He by (apply Hno; lia). injection He as H1 H2.
  apply (f_equal (unhex 0)) in H1, H2. rewrite !unhex_pad_zero, !unhex_lower_hex in H1, H2 by lia.
  destruct i, j. by simplify_eq/=.
Qed.

Record TaskResult := mkTaskResult {
  status : TaskStatus;
  result : option string;
  error : option string;
  started_at : option f64;
  completed_at : option f64
}.

Definition is_success (r : TaskResult) : bool := bool_decide (status r = Completed).
Definition is_failed (r : TaskResult) : bool := bool_decide (status r = Failed).
Definition is_pending (r : TaskResult) : bool :=
  bool_decide (status r = Pending) || bool_decide (status r = Running).

Definition pending_result : TaskResult := mkTaskResult Pending None None None None.

(** [BackgroundTask]: the delay in milliseconds; the handler is its id's. *)
Record BackgroundTask := mkBackgroundTask { id : task_id; delay : option Z }.

(** A worker between its steps: at the head of the loop, inside [recv_timeout], holding a
    task before the cancellation test, after it (sleeping for the delay), waiting for the
    interpreter lock with the task marked running, executing, and stopped. *)
Inductive worker_pc :=
| Looping | Receiving | Taken (t : BackgroundTask) | Sleeping (t : BackgroundTask)
| Marked (t : BackgroundTask) | Executing (t : BackgroundTask) | Stopped.

(** [sending]: tasks of callers blocked in [send]; [marked]: the tasks marked running; [executed]: the
    handlers called.  The queue size is positive (zero is a rendezvous channel, which this model does not serve). *)
Record TaskExecutor := mkTaskExecutor {
  queue : list BackgroundTask;
  capacity : nat;
  results : gmap task_id TaskResult;
  running : bool;
  counter : Z;
  workers : gmap nat worker_pc;
  sending : list BackgroundTask;
  marked : list task_id;
  executed : list task_id
}.

Definition executor_new (num_workers queue_size : nat) : TaskExecutor :=
  mkTaskExecutor [] queue_size ∅ true 0 (gset_to_gmap Looping (set_seq 0 num_workers)) [] [] [].

Definition set_results (r : gmap task_id TaskResult) (s : TaskExecutor) : TaskExecutor :=
  mkTaskExecutor (queue s) (capacity s) r (running s) (counter s) (workers s) (sending s) (marked s) (executed s).
Definition set_worker (i : nat) (p : worker_pc) (s : TaskExecutor) : TaskExecutor :=
  mkTaskExecutor (queue s) (capacity s) (results s) (running s) (counter s) (<[i := p]> (workers s))
    (sending s) (marked s) (executed s).

(** [submit] up to the send. *)
Definition submit (millis : Z) (d : option Z) (s : TaskExecutor) : TaskExecutor * task_id :=
  let i := (millis, counter s) in
  (mkTaskExecutor (queue s) (capacity s) (<[i := pending_result]> (results s)) (running s)
     (w64 (counter s + 1)) (workers s) (sending s ++ [mkBackgroundTask i d]) (marked s) (executed s), i).

Definition get_result (i : task_id) (s : TaskExecutor) : option TaskResult := results s !! i.

Definition is_complete (i : task_id) (s : TaskExecutor) : bool :=
  match results s !! i with
  | Some r => match status r with Completed | Failed | Cancelled => true | _ => false end
  | None => false
  end.

Definition with_status (st : TaskStatus) (r : TaskResult) : TaskResult :=
  mkTaskResult st (result r) (error r) (started_at r) (completed_at r).

Definition cancel (i : task_id) (s : TaskExecutor) : TaskExecutor * bool :=
  match results s !! i with
  | Some r =>
      if bool_decide (status r = Pending) then
        (set_results (<[i := with_status Cancelled r]> (results s)) s, true)
      else (s, false)
  | None => (s, false)
  end.

Definition pending_count (s : TaskExecutor) : nat := size (filter (λ kr, is_pending kr.2 = true) (results s)).
Definition completed_count (s : TaskExecutor) : nat := size (filter (λ kr, is_success kr.2 = true) (results s)).

(** [retain]: results without a completion time stay. *)
Definition kept (threshold : f64) (r : TaskResult) : bool :=
  match completed_at r with Some t => f64_gt t threshold | None => true end.
Definition cleanup (now : f64) (max_age_secs : Z) (s : TaskExecutor) : TaskExecutor :=
  set_results (filter (λ kr, kept (f64_sub now (f64_of_Z max_age_secs)) kr.2 = true) (results s)) s.

Definition shutdown (s : TaskExecutor) : TaskExecutor :=
  mkTaskExecutor (queue s) (capacity s) (results s) false (counter s) (workers s) (sending s) (marked s) (executed s).

(** * The worker *)

(** The cancellation test after a task was taken. *)
Definition cancelled (i : task_id) (s : TaskExecutor) : bool :=
  match results s !! i with Some r => bool_decide (status r = Cancelled) | None => false end.

(** [get_mut] before the execution, whatever the status is by then. *)
Definition mark_running (now : f64) (i : task_id) (s : TaskExecutor) : TaskExecutor :=
  match results s !! i with
  | Some r =>
      set_results (<[i := mkTaskResult Running (result r) (error r) (Some now) (completed_at r)]>
        (results s)) s
  | None => s
  end.

Definition mark_done (now : f64) (outcome : string + string) (i : task_id) (s : TaskExecutor)
    : TaskExecutor :=
  match results s !! i with
  | Some r =>
      set_results
        (<[i := match outcome with
                | inl res => mkTaskResult Completed (Some res) (error r) (started_at r) (Some now)
                | inr err => mkTaskResult Failed (result r) (Some err) (started_at r) (Some now)
                end]> (results s)) s
  | None => s
  end.

Definition log_mark (i : task_id) (s : TaskExecutor) : TaskExecutor :=
  mkTaskExecutor (queue s) (capacity s) (results s) (running s) (counter s) (workers s) (sending s)
    (marked s ++ [i]) (executed s).
Definition log_execution (i : task_id) (s : TaskExecutor) : TaskExecutor :=
  mkTaskExecutor (queue s) (capacity s) (results s) (running s) (counter s) (workers s) (sending s)
    (marked s) (executed s ++ [i]).

Inductive step : TaskExecutor → TaskExecutor → Prop :=
| T_submit s millis d : counter s + 1 < 2 ^ 64 → step s (submit millis d s).1
| T_enqueue s t1 t t2 : sending s = t1 ++ t :: t2 → (length (queue s) < capacity s)%nat →
    step s (mkTaskExecutor (queue s ++ [t]) (capacity s) (results s) (running s) (counter s)
              (workers s) (t1 ++ t2) (marked s) (executed s))
| T_cancel s i : step s (cancel i s).1
| T_cleanup s now age : step s (cleanup now age s)
| T_shutdown s : step s (shutdown s)
| T_loop s i : workers s !! i = Some Looping →
    step s (set_worker i (if running s then Receiving else Stopped) s)
| T_receive s i t q : workers s !! i = Some Receiving → queue s = t :: q →
    step s (set_worker i (Taken t)
      (mkTaskExecutor q (capacity s) (results s) (running s) (counter s) (workers s) (sending s) (marked s) (executed s)))
| T_timeout s i : workers s !! i = Some Receiving → step s (set_worker i Looping s)
| T_check s i t : workers s !! i = Some (Taken t) →
    step s (set_worker i (if cancelled (id t) s then Looping else Sleeping t) s)
| T_mark s i t now : workers s !! i = Some (Sleeping t) →
    step s (log_mark (id t) (mark_running now (id t) (set_worker i (Marked t) s)))
| T_call s i t : workers s !! i = Some (Marked t) →
    step s (log_execution (id t) (set_worker i (Executing t) s))
| T_finish s i t now outcome : workers s !! i = Some (Executing t) →
    step s (mark_done now outcome (id t) (set_worker i Looping s)).

Definition reachable (n q : nat) (s : TaskExecutor) : Prop := rtc step (executor_new n q) s.

(** * Invariant *)

Definition waiting (s : TaskExecutor) : list task_id := (id <$> sending s) ++ (id <$> queue s).

Definition task_of (p : worker_pc) : option BackgroundTask :=
  match p with Taken t | Sleeping t | Marked t | Executing t => Some t | _ => None end.

Definition unstarted (r : TaskResult) : Prop :=
  (status r = Pending ∨ status r = Cancelled) ∧ completed_at r = None.

Definition started (st : TaskStatus) : bool :=
  match st with Running | Completed | Failed => true | Pending | Cancelled => false end.

(** Every task is in one place; a task that was not started is unstarted in the table and
    one that executes, or waits to, is marked running there. *)
Record inv (s : TaskExecutor) : Prop := {
  i_nodup : NoDup (waiting s);
  i_wait x : x ∈ waiting s → x ∉ marked s ∧ ∃ r, results s !! x = Some r ∧ unstarted r;
  i_held i t : workers s !! i = Some (Taken t) ∨ workers s !! i = Some (Sleeping t) →
    id t ∉ waiting s ∧ id t ∉ marked s ∧ ∃ r, results s !! id t = Some r ∧ unstarted r;
  i_exec i t : workers s !! i = Some (Marked t) ∨ workers s !! i = Some (Executing t) →
    id t ∉ waiting s ∧ id t ∈ marked s ∧
    ∃ r, results s !! id t = Some r ∧ status r = Running ∧ completed_at r = None;
  i_uniq i j p q t u : workers s !! i = Some p → workers s !! j = Some q →
    task_of p = Some t → task_of q = Some u → id t = id u → i = j;
  i_once : NoDup (marked s);
  i_status x r : results s !! x = Some r → x ∈ marked s ↔ started (status r) = true;
  i_done x r : results s !! x = Some r → started (status r) = false → completed_at r = None;
  i_count x : x ∈ waiting s ∨ x ∈ marked s ∨ is_Some (results s !! x) → 0 <= x.2 < counter s;
  i_counter : 0 <= counter s < 2 ^ 64
}.

(** A change of the table that keeps what the places need. *)
Lemma inv_results s rs :
  inv s →
  (∀ x r, results s !! x = Some r → unstarted r → ∃ r', rs !! x = Some r' ∧ unstarted r') →
  (∀ i t r, workers s !! i = Some (Marked t) ∨ workers s !! i = Some (Executing t) → results s !! id t = Some r →
     status r = Running ∧ completed_at r = None →
     ∃ r', rs !! id t = Some r' ∧ status r' = Running ∧ completed_at r' = None) →
  (∀ x r', rs !! x = Some r' → ∃ r, results s !! x = Some r ∧ started (status r') = started (status r)) →
  (∀ x r', rs !! x = Some r' → started (status r') = false → completed_at r' = None) →
  inv (set_results rs s).
Proof.
  intros [I1 I2 I3 I4 I5 I6 I7 I8 I9 I10] H1 H2 H3 H4. constructor; simpl; try done.
  - intros x Hx. destruct (I2 x Hx) as (? & r & Hr & Hu). naive_solver.
  - intros i t Ht. destruct (I3 i t Ht) as (? & ? & r & Hr & Hu). naive_solver.
  - intros i t Ht. destruct (I4 i t Ht) as (? & ? & r & Hr & Hu). naive_solver.
  - intros x r' Hr'. destruct (H3 x r' Hr') as (r & Hr & Hst). rewrite Hst. by apply I7.
  - intros x [Hx|[Hx|[r' Hr']]]; [by apply I9; auto|by apply I9; auto|].
    destruct (H3 x r' Hr') as (r & Hr & _). apply I9. eauto.
Qed.

(** A worker moves without a task, or keeps one it was not executing. *)
Lemma inv_worker s i p p0 :
  inv s → workers s !! i = Some p0 →
  match p with
  | Looping | Receiving | Stopped => True
  | Taken t | Sleeping t => p0 = Taken t ∨ p0 = Sleeping t
  | Marked t | Executing t => p0 = Marked t ∨ p0 = Executing t
  end → inv (set_worker i p s).
Proof.
  intros [I1 I2 I3 I4 I5 I6 I7 I8 I9 I10] Hi Hp. constructor; simpl; try done.
  - intros j t. rewrite !lookup_insert_Some. 
    intros [[[<- ->]|[_ Hj]]|[[<- ->]|[_ Hj]]];
      [|by apply (I3 j); auto| |by apply (I3 j); auto]; apply (I3 i); destruct Hp; subst; auto.
  - intros j t. rewrite !lookup_insert_Some.
    intros [[[<- ->]|[_ Hj]]|[[<- ->]|[_ Hj]]];
      [|by apply (I4 j); auto| |by apply (I4 j); auto]; apply (I4 i); destruct Hp; subst; auto.
  - intros j k pj pk t u. rewrite !lookup_insert_Some.
    assert (∀ t, task_of p = Some t → task_of p0 = Some t) as Ht by (destruct p; naive_solver).
    intros [[<- <-]|[Hn1 Hj]] [[<- <-]|[Hn2 Hk]] H1 H2 Heq; [done| | |by eapply I5].
    + apply (I5 i k p0 pk t u); auto.
    + apply (I5 j i pj p0 t u); auto.
Qed.

Lemma inv_requeue s q sd :
  inv s → (id <$> sd) ++ (id <$> q) ≡ₚ waiting s →
  inv (mkTaskExecutor q (capacity s) (results s) (running s) (counter s) (workers s) sd (marked s) (executed s)).
Proof.
  intros [I1 I2 I3 I4 I5 I6 I7 I8 I9 I10] Hp.
  assert (∀ x, x ∈ (id <$> sd) ++ (id <$> q) ↔ x ∈ waiting s) as Hin by (intros x; by rewrite Hp).
  constructor; unfold waiting; simpl; try done.
  - by rewrite Hp.
  - intros x Hx%Hin. by apply I2.
  - intros i t Ht. destruct (I3 i t Ht) as (H1 & H2 & H3). split_and!; [by intros ?%Hin|done|done].
  - intros i t Ht. destruct (I4 i t Ht) as (H1 & H2 & H3). split_and!; [by intros ?%Hin|done|done].
  - intros x [Hx%Hin|Hx]; apply I9; auto.
Qed.

Lemma inv_submit s millis d : inv s → counter s + 1 < 2 ^ 64 → inv (submit millis d s).1.
Proof.
  intros [I1 I2 I3 I4 I5 I6 I7 I8 I9 I10] Hc. unfold submit. cbn [fst].
  set (x0 := (millis, counter s)).
  assert (∀ y, y ∈ waiting s ∨ y ∈ marked s ∨ is_Some (results s !! y) → y ≠ x0) as Hf.
  { intros y Hy ->. specialize (I9 _ Hy). simpl in I9. lia. }
  assert (∀ y, y ∈ waiting (submit millis d s).1 ↔ y ∈ waiting s ∨ y = x0) as Hw.
  { intros y. unfold waiting, submit. simpl. rewrite fmap_app. set_solver. }
  unfold submit in Hw. cbn [fst] in Hw. fold x0 in Hw.
  assert (∀ y r, results s !! y = Some r → <[x0 := pending_result]> (results s) !! y = Some r) as Hr.
  { intros y r Hy. rewrite lookup_insert_ne; [done|]. intros <-. by apply (Hf x0); [eauto|]. }
  assert (unstarted pending_result) as Hun by (split; [by left|done]).
  assert (w64 (counter s + 1) = counter s + 1) as Hw64 by (apply w64_id; unfold is_u64, u64_max; lia).
  constructor; cbn [marked results workers counter].
  - unfold waiting. simpl. rewrite fmap_app, <- (assoc_L (++)). simpl.
    rewrite <- Permutation_middle. constructor; [|done]. intros Hin. by apply (Hf x0); [left|].
  - intros y [Hy| ->]%Hw.
    + destruct (I2 y Hy) as (? & r & Hy' & Hu). split; [done|]. eauto.
    + split; [intros Hin; by apply (Hf x0); [auto|]|]. rewrite lookup_insert_eq. eauto.
  - intros i t Ht. destruct (I3 i t Ht) as (H1 & H2 & r & H3 & H4). split_and!; [|done|eauto].
    intros [?|Heq]%Hw; [done|]. by apply (Hf (id t)); [eauto|].
  - intros i t Ht. destruct (I4 i t Ht) as (H1 & H2 & r & H3 & H4). split_and!; [|done|eauto].
    intros [?|Heq]%Hw; [done|]. by apply (Hf (id t)); [eauto|].
  - done.
  - done.
  - intros y r. rewrite lookup_insert_Some. intros [[<- <-]|[_ Hy]]; [|by apply I7].
    simpl. split; [intros Hin; by destruct (Hf x0); [auto|]|done].
  - intros y r. rewrite lookup_insert_Some. intros [[<- <-]|[_ Hy]]; [done|by eapply I8].
  - intros y Hy. rewrite Hw64.
    assert ((y ∈ waiting s ∨ y ∈ marked s ∨ is_Some (results s !! y)) ∨ y = x0) as [H| ->].
    { destruct Hy as [[?|?]%Hw|[?|[r Hy]]]; auto. apply lookup_insert_Some in Hy as [[<- _]|[_ Hy]]; eauto 6. }
    + specialize (I9 y H). lia.
    + simpl. lia.
  - rewrite Hw64. lia.
Qed.

Lemma inv_receive s i t q :
  inv s → workers s !! i = Some Receiving → queue s = t :: q →
  inv (set_worker i (Taken t)
    (mkTaskExecutor q (capacity s) (results s) (running s) (counter s) (workers s) (sending s) (marked s) (executed s))).
Proof.
  intros [I1 I2 I3 I4 I5 I6 I7 I8 I9 I10] Hi Hq.
  assert (waiting s ≡ₚ id t :: (id <$> sending s) ++ (id <$> q)) as Hp.
  { unfold waiting. rewrite Hq. simpl. by rewrite Permutation_middle. }
  assert (id t ∈ waiting s) as Htw by (rewrite Hp; set_solver).
  rewrite Hp in I1. apply NoDup_cons in I1 as [Hnt I1].
  assert (∀ y, y ∈ (id <$> sending s) ++ (id <$> q) → y ∈ waiting s) as Hsub by (intros y Hy; rewrite Hp; set_solver).
  assert (∀ j p u, workers s !! j = Some p → task_of p = Some u → id u ≠ id t) as Hne.
  { intros j p u Hj Hu He. rewrite <- He in Htw. destruct p; simplify_eq/=;
      [by destruct (I3 j u); auto|by destruct (I3 j u); auto|by destruct (I4 j u); auto|by destruct (I4 j u); auto]. }
  destruct (I2 _ Htw) as (Hte & r & Hr & Hun).
  constructor; unfold waiting; simpl; try done.
  - intros y Hy. by apply I2, Hsub.
  - intros j u. rewrite !lookup_insert_Some.
    assert (∀ u, id u ≠ id t → id u ∉ waiting s → id u ∉ (id <$> sending s) ++ (id <$> q)) as Hnw
      by (intros ? _ Hn Hin; by apply Hn, Hsub).
    intros [[[<- [= <-]]|[_ Hj]]|[[<- ?]|[_ Hj]]]; [split_and!; eauto| |done|];
      (destruct (I3 j u) as (? & ? & ?); [auto|]; split_and!; [|done|done]; intros Hin; by apply H, Hsub).
  - intros j u. rewrite !lookup_insert_Some. intros Hj.
    destruct (I4 j u) as (H1 & H2 & H3); [naive_solver|]. split_and!; [|done|done]. intros Hin. by apply H1, Hsub.
  - intros j k pj pk u v. rewrite !lookup_insert_Some.
    intros [[<- <-]|[Hn1 Hj]] [[<- <-]|[Hn2 Hk]] H1 H2 Heq; [done| | |by eapply I5]; simplify_eq/=.
    + by destruct (Hne k pk v).
    + by destruct (Hne j pj u).
  - intros y [Hy|Hy]; apply I9; [left; by apply Hsub|by right].
Qed.

Lemma inv_cancel s i : inv s → inv (cancel i s).1.
Proof.
  intros Hinv. unfold cancel. destruct (results s !! i) as [r|] eqn:Hr; [|done].
  case_bool_decide as Hp; [|done]. cbn [fst].
  assert (completed_at r = None) as Hcn by (eapply i_done; [done..|by rewrite Hp]).
  apply inv_results; [done|..].
  - intros x r' Hx Hu. destruct (decide (i = x)) as [->|].
    + rewrite lookup_insert_eq. eexists. split; [done|]. split; [by right|done].
    + rewrite lookup_insert_ne; [|done]. by exists r'.
  - intros w t r' Hw Hx [Hst Hc]. rewrite lookup_insert_ne; [eauto|]. intros ->. congruence.
  - intros x r'. rewrite lookup_insert_Some. intros [[<- <-]|[_ Hx]]; [|eauto].
    exists r. split; [done|]. simpl. by rewrite Hp.
  - intros x r'. rewrite lookup_insert_Some. intros [[_ <-]|[_ Hx]] Hc; [done|by eapply i_done].
Qed.

Lemma inv_cleanup s now age : inv s → inv (cleanup now age s).
Proof.
  intros Hinv. unfold cleanup. apply inv_results; [done|..].
  - intros x r Hx Hu. exists r. split; [|done]. apply map_lookup_filter_Some_2; [done|].
    simpl. unfold kept. by rewrite (proj2 Hu).
  - intros w t r _ Hx [Hst Hc]. exists r. split; [|done]. apply map_lookup_filter_Some_2; [done|].
    simpl. unfold kept. by rewrite Hc.
  - intros x r [Hx _]%map_lookup_filter_Some. eauto.
  - intros x r [Hx _]%map_lookup_filter_Some. by eapply i_done.
Qed.

Lemma inv_mark s i t now :
  inv s → workers s !! i = Some (Sleeping t) →
  inv (log_mark (id t) (mark_running now (id t) (set_worker i (Marked t) s))).
Proof.
  intros [I1 I2 I3 I4 I5 I6 I7 I8 I9 I10] Hi.
  destruct (I3 i t) as (Hw & He & r & Hr & [Hst Hc]); [auto|].
  unfold mark_running. cbn [results set_worker]. rewrite Hr.
  assert (∀ j p u, j ≠ i → workers s !! j = Some p → task_of p = Some u → id u ≠ id t) as Hne.
  { intros j p u Hji Hj Hp Hid. apply Hji. by eapply (I5 j i p _ u t). }
  constructor; unfold waiting; simpl.
  - done.
  - intros x Hx. destruct (I2 x Hx) as (Hx1 & r' & Hr' & Hu).
    assert (x ≠ id t) by (intros ->; by apply Hw).
    split; [rewrite elem_of_app; set_solver|]. rewrite lookup_insert_ne; eauto.
  - intros j u. rewrite !lookup_insert_Some.
    intros Hj. assert (j ≠ i ∧ (workers s !! j = Some (Taken u) ∨ workers s !! j = Some (Sleeping u)))
      as [Hji Hj'] by naive_solver.
    destruct (I3 j u Hj') as (H1 & H2 & r' & H3 & H4).
    assert (id u ≠ id t) by (destruct Hj'; by eapply Hne).
    split_and!; [done|rewrite elem_of_app; set_solver|]. rewrite lookup_insert_ne; eauto.
  - intros j u. rewrite !lookup_insert_Some. intros Hj.
    assert ((j = i ∧ u = t) ∨ (j ≠ i ∧ (workers s !! j = Some (Marked u) ∨ workers s !! j = Some (Executing u))))
      as [[-> ->]|[Hji Hj']] by naive_solver.
    + split_and!; [done|set_solver|]. rewrite lookup_insert_eq. eauto.
    + destruct (I4 j u Hj') as (H1 & H2 & H3). split_and!; [done|set_solver|].
      rewrite lookup_insert_ne; [done|]. intros Heq. by destruct Hj'; eapply (Hne j _ u).
  - intros j k pj pk u v. rewrite !lookup_insert_Some.
    intros [[<- <-]|[Hn1 Hj]] [[<- <-]|[Hn2 Hk]] H1 H2 Heq; [done| | |by eapply I5]; simplify_eq/=;
      exfalso; by eapply Hne.
  - apply NoDup_app. split_and!; [done|intros x Hx ->%list_elem_of_singleton; done|apply NoDup_singleton].
  - intros x r'. rewrite lookup_insert_Some, elem_of_app, list_elem_of_singleton.
    intros [[<- <-]|[Hn Hx]]; [by simpl; tauto|]. rewrite <- (I7 x r' Hx). naive_solver.
  - intros x r'. rewrite lookup_insert_Some. intros [[<- <-]|[_ Hx]]; [done|by eapply I8].
  - intros x. rewrite (elem_of_app (marked s)), list_elem_of_singleton.
    assert (0 <= (id t).2 < counter s) by (apply I9; eauto).
    intros [?|[[?| ->]|[? [[<- _]|[_ ?]]%lookup_insert_Some]]]; [apply I9; auto|apply I9; auto|done|done|].
    apply I9; eauto.
  - done.
Qed.

Lemma inv_finish s i t now outcome :
  inv s → workers s !! i = Some (Executing t) → inv (mark_done now outcome (id t) (set_worker i Looping s)).
Proof.
  intros Hinv Hi. pose proof (inv_worker s i Looping _ Hinv Hi I) as Hinv'.
  destruct (i_exec s Hinv i t) as (Hw & He & r & Hr & Hst & Hc); [auto|].
  unfold mark_done. cbn [results set_worker]. rewrite Hr. apply inv_results; [done|..]; cbn [results set_worker].
  - intros x r' Hx Hu. rewrite lookup_insert_ne; [by eauto|]. intros <-. destruct Hu as [[|] _]; congruence.
  - intros j u r' Hj Hx Hu. rewrite lookup_insert_ne; [eauto|]. intros Heq.
    simpl in Hj. rewrite !lookup_insert_Some in Hj.
    assert (i ≠ j ∧ (workers s !! j = Some (Marked u) ∨ workers s !! j = Some (Executing u))) as [Hji Hj'] by naive_solver.
    apply Hji. by destruct Hj'; eapply (i_uniq s Hinv i j _ _ t u).
  - intros x r'. rewrite lookup_insert_Some. intros [[<- <-]|[_ Hx]]; [|eauto].
    exists r. split; [done|]. rewrite Hst. by destruct outcome.
  - intros x r'. rewrite lookup_insert_Some. intros [[_ <-]|[_ Hx]]; [by destruct outcome|by eapply i_done].
Qed.

Lemma inv_call s i t :
  inv s → workers s !! i = Some (Marked t) → inv (log_execution (id t) (set_worker i (Executing t) s)).
Proof. intros Hinv Hi. assert (inv (set_worker i (Executing t) s)) as [] by (eapply inv_worker; eauto). by constructor. Qed.

Lemma tasks_inv_step s s' : step s s' → inv s → inv s'.
Proof.
  intros Hs Hinv. destruct Hs.
  - by apply inv_submit.
  - apply inv_requeue; [done|]. unfold waiting. rewrite H, !fmap_app. simpl. solve_Permutation.
  - by apply inv_cancel.
  - by apply inv_cleanup.
  - destruct Hinv. by constructor.
  - eapply inv_worker; [done..|]. by destruct (running s).
  - by apply inv_receive.
  - by eapply inv_worker.
  - eapply inv_worker; [done..|]. destruct (cancelled (id t) s); auto.
  - by apply inv_mark.
  - by apply inv_call.
  - by apply inv_finish.
Qed.

Lemma inv_new n q : inv (executor_new n q).
Proof.
  assert (∀ i p, workers (executor_new n q) !! i = Some p → p = Looping) as Hl.
  { intros i p. simpl. rewrite lookup_gset_to_gmap_Some. naive_solver. }
  constructor; try (unfold waiting; simpl; set_solver).
  - apply NoDup_nil_2.
  - apply NoDup_nil_2.
  - intros x [?|[?|[? ?]]]; [set_solver|set_solver|done].
Qed.

(** ** Handlers called *)

(** The handlers that were called are those of the marked tasks but the ones that still wait for the
    interpreter lock. *)
Record called (s : TaskExecutor) : Prop := {
  cl_once : NoDup (executed s);
  cl_marked x : x ∈ executed s → x ∈ marked s;
  cl_wait i t : workers s !! i = Some (Marked t) → id t ∉ executed s;
  cl_exec i t : workers s !! i = Some (Executing t) → id t ∈ executed s;
  cl_rest x : x ∈ marked s → x ∈ executed s ∨ ∃ i t, workers s !! i = Some (Marked t) ∧ id t = x
}.

Lemma called_worker s i p p0 :
  called s → workers s !! i = Some p0 → (∀ t, p0 ≠ Marked t) → (∀ t, p ≠ Marked t ∧ p ≠ Executing t) →
  called (set_worker i p s).
Proof.
  intros [C1 C2 C3 C4 C5] Hi H0 Hp. constructor; simpl; try done.
  - intros j t. rewrite lookup_insert_Some. intros [[_ ->]|[_ ?]]; [by destruct (Hp t)|by eapply C3].
  - intros j t. rewrite lookup_insert_Some. intros [[_ ->]|[_ ?]]; [by destruct (Hp t)|by eapply C4].
  - intros x [?|(j & t & Hj & Ht)]%C5; [by left|]. right. exists j, t. split; [|done].
    rewrite lookup_insert_ne; [done|]. intros <-. rewrite Hi in Hj. simplify_eq. by destruct (H0 t).
Qed.

Lemma called_mark s i t now :
  inv s → called s → workers s !! i = Some (Sleeping t) →
  called (log_mark (id t) (mark_running now (id t) (set_worker i (Marked t) s))).
Proof.
  intros Hinv [C1 C2 C3 C4 C5] Hi. destruct (i_held s Hinv i t) as (_ & Hm & r & Hr & _); [auto|].
  unfold mark_running. cbn [results set_worker]. rewrite Hr. constructor; simpl; try done.
  - intros x Hx. apply elem_of_app. left. by apply C2.
  - intros j u. rewrite lookup_insert_Some. intros [[_ [= <-]]|[_ ?]]; [by intros ?%C2|by eapply C3].
  - intros j u. rewrite lookup_insert_Some. intros [[_ ?]|[_ ?]]; [done|by eapply C4].
  - intros x [[?|(j & u & Hj & Hu)]%C5| ->%list_elem_of_singleton]%elem_of_app; [by left|..]; right.
    + exists j, u. split; [|done]. rewrite lookup_insert_ne; [done|]. intros <-. congruence.
    + exists i, t. by rewrite lookup_insert_eq.
Qed.

Lemma called_call s i t :
  inv s → called s → workers s !! i = Some (Marked t) → called (log_execution (id t) (set_worker i (Executing t) s)).
Proof.
  intros Hinv [C1 C2 C3 C4 C5] Hi. pose proof (C3 i t Hi) as Hn. constructor; simpl.
  - apply NoDup_app. split_and!; [done|intros x Hx ->%list_elem_of_singleton; done|apply NoDup_singleton].
  - intros x [?| ->%list_elem_of_singleton]%elem_of_app; [by apply C2|]. apply (i_exec s Hinv i t). auto.
  - intros j u. rewrite lookup_insert_Some. intros [[_ ?]|[Hij Hj]]; [done|].
    rewrite elem_of_app, list_elem_of_singleton. intros [?|Heq]; [by eapply C3|].
    apply Hij. by eapply (i_uniq s Hinv i j _ _ t u).
  - intros j u. rewrite lookup_insert_Some, elem_of_app, list_elem_of_singleton.
    intros [[_ [= <-]]|[_ ?]]; [by right|left; by eapply C4].
  - intros x Hx. rewrite elem_of_app, list_elem_of_singleton.
    destruct (decide (x = id t)) as [|Hxt]; [auto|]. destruct (C5 x Hx) as [?|(j & u & Hj & Hu)]; [auto|].
    right. exists j, u. split; [|done]. rewrite lookup_insert_ne; [done|]. intros <-. rewrite Hi in Hj. by simplify_eq.
Qed.

Lemma called_results s rs : called s → called (set_results rs s).
Proof. intros []. by constructor. Qed.

Lemma called_step s s' : step s s' → inv s → called s → called s'.
Proof.
  intros Hs Hinv Hc. destruct Hs.
  - destruct Hc. by constructor.
  - destruct Hc. by constructor.
  - unfold cancel. destruct (results s !! i); [|done]. case_bool_decide; [|done]. by apply called_results.
  - by apply called_results.
  - destruct Hc. by constructor.
  - eapply called_worker; [done..|]. by destruct (running s).
  - assert (called (set_worker i (Taken t) s)) as [] by (by eapply called_worker). by constructor.
  - by eapply called_worker.
  - eapply called_worker; [done..|]. by destruct (cancelled (id t) s).
  - by apply called_mark.
  - by apply called_call.
  - unfold mark_done. assert (called (set_worker i Looping s)) by (by eapply called_worker).
    destruct (results _ !! id t); [by apply called_results|done].
Qed.

Lemma called_new n q : called (executor_new n q).
Proof.
  assert (∀ i p, workers (executor_new n q) !! i = Some p → p = Looping) as Hl.
  { intros i p. simpl. rewrite lookup_gset_to_gmap_Some. naive_solver. }
  constructor; try (simpl; set_solver); [apply NoDup_nil_2|by intros i t Hi%Hl..].
Qed.

Lemma inv_reachable n q s : reachable n q s → inv s ∧ called s.
Proof.
  intros Hs. eapply (rtc_invariant step (λ s, inv s ∧ called s)); [|exact Hs|split; [apply inv_new|apply called_new]].
  intros s1 s2 Hst [Hi Hc]. split; [by eapply tasks_inv_step|by eapply called_step].
Qed.

(** * What cancellation does *)

(** Cancelled in the table and not in the hands of a worker past the cancellation test. *)
Definition withdrawn (i : task_id) (s : TaskExecutor) : Prop :=
  inv s ∧ (∃ r, results s !! i = Some r ∧ status r = Cancelled) ∧
  ∀ w t, workers s !! w = Some (Sleeping t) → id t ≠ i.

Lemma withdrawn_results i s rs :
  withdrawn i s → inv (set_results rs s) → rs !! i = results s !! i → withdrawn i (set_results rs s).
Proof. intros (_ & H & Hw) Hinv Heq. split; [done|]. simpl. rewrite Heq. by split. Qed.

Lemma withdrawn_step i s s' : step s s' → withdrawn i s → withdrawn i s'.
Proof.
  intros Hs Hw. pose proof (tasks_inv_step _ _ Hs (proj1 Hw)) as Hinv'.
  destruct Hw as (Hinv & (r & Hr & Hst) & Hsl). destruct Hs; (split; [done|]); simpl in *; try by eauto.
  - split; [|done]. exists r. rewrite lookup_insert_ne; [done|]. intros <-.
    assert (0 <= (millis, counter s).2 < counter s) by (apply i_count; eauto). simpl in *. lia.
  - unfold cancel. destruct (results s !! i0) as [r0|] eqn:Hr0; [|by eauto].
    case_bool_decide; [|by eauto]. simpl. rewrite lookup_insert_ne; [by eauto|congruence].
  - split; [|done]. exists r. split; [|done]. apply map_lookup_filter_Some_2; [done|].
    unfold kept. simpl. rewrite (i_done s Hinv i r Hr); [done|by rewrite Hst].
  - split; [by eauto|]. intros w t. rewrite lookup_insert_Some.
    intros [[_ ?]|[_ ?]]; [by destruct (running s)|by eapply Hsl].
  - split; [by eauto|]. intros w u. rewrite lookup_insert_Some. intros [[_ ?]|[_ ?]]; [done|by eapply Hsl].
  - split; [by eauto|]. intros w u. rewrite lookup_insert_Some. intros [[_ ?]|[_ ?]]; [done|by eapply Hsl].
  - split; [by eauto|]. intros w u. rewrite lookup_insert_Some. intros [[_ Hu]|[_ ?]]; [|by eapply Hsl].
    intros <-. unfold cancelled in Hu. destruct (decide (id t = id u)) as [Heq|]; [|by destruct (_ : bool); simplify_eq].
    rewrite Heq, Hr, bool_decide_true in Hu by done. done.
  - assert (id t ≠ i) as Hne by by eapply Hsl.
    unfold mark_running. destruct (results _ !! id t); simpl; (split; [|intros w u; rewrite lookup_insert_Some;
      intros [[_ ?]|[_ ?]]; [done|by eapply Hsl]]); [rewrite lookup_insert_ne|]; eauto.
  - split; [by eauto|]. intros w u. rewrite lookup_insert_Some. intros [[_ ?]|[_ ?]]; [done|by eapply Hsl].
  - assert (id t ≠ i) as Hne.
    { intros <-. destruct (i_exec s Hinv i0 t (or_intror H)) as (_ & _ & r' & Hr' & Hst' & _). congruence. }
    unfold mark_done. destruct (results _ !! id t); simpl; (split; [|intros w u; rewrite lookup_insert_Some;
      intros [[_ ?]|[_ ?]]; [done|by eapply Hsl]]); [rewrite lookup_insert_ne|]; eauto.
Qed.

Lemma withdrawn_unmarked i s : withdrawn i s → i ∉ marked s.
Proof.
  intros (Hinv & (r & Hr & Hst) & _) Hin. apply (i_status s Hinv i r Hr) in Hin. by rewrite Hst in Hin.
Qed.

Lemma cancel_success s i :
  (cancel i s).2 = true → ∃ r, results s !! i = Some r ∧ status r = Pending ∧
  (cancel i s).1 = set_results (<[i := with_status Cancelled r]> (results s)) s.
Proof. unfold cancel. destruct (results s !! i) as [r|]; [|done]. case_bool_decide; [|done]. eauto. Qed.

(** A worker that sleeps for the delay of a task goes on to execute it, whatever the table says. *)
Lemma sleeping_executes s w t r now done_at res :
  workers s !! w = Some (Sleeping t) → results s !! id t = Some r →
  ∃ s', rtc step s s' ∧ executed s' = executed s ++ [id t] ∧
    results s' !! id t = Some (mkTaskResult Completed (Some res) (error r) (Some now) (Some done_at)).
Proof.
  intros Hw Hr.
  set (s0 := log_mark (id t) (mark_running now (id t) (set_worker w (Marked t) s))).
  set (s1 := log_execution (id t) (set_worker w (Executing t) s0)).
  exists (mark_done done_at (inl res) (id t) (set_worker w Looping s1)). split; [|].
  - eapply rtc_l; [by eapply T_mark|]. eapply rtc_l; [apply (T_call s0 w)|apply rtc_once, T_finish].
    + unfold s0, mark_running. cbn [results set_worker]. rewrite Hr. simpl. by rewrite lookup_insert_eq.
    + simpl. by rewrite lookup_insert_eq.
  - unfold s1, s0, mark_done, mark_running. cbn [results set_worker log_execution log_mark]. rewrite Hr.
    cbn [results set_results set_worker]. rewrite lookup_insert_eq. simpl.
    by rewrite lookup_insert_eq.
Qed.

(** [cancel] answers true exactly for a pending task.  If no worker is sleeping for that
    task's delay, the cancellation holds: from then on, whatever the workers and the other
    callers do, the handler is never called and the table keeps saying Cancelled (cleanup
    included).  If a worker is sleeping on it, the answer true is not kept: the worker tests for
    cancellation only before it sleeps, so it can mark the task running, call the handler and
    leave it Completed. *)
Theorem cancel_outcome n q s i :
  reachable n q s → (cancel i s).2 = true →
  ((∀ w t, workers s !! w = Some (Sleeping t) → id t ≠ i) →
     ∀ s', rtc step (cancel i s).1 s' →
     i ∉ executed s' ∧ ∃ r, get_result i s' = Some r ∧ status r = Cancelled) ∧
  (∀ w t (now done_at : f64) (res : string), workers s !! w = Some (Sleeping t) → id t = i →
     ∃ s', rtc step (cancel i s).1 s' ∧ i ∈ executed s' ∧ is_complete i s' = true ∧
       (status <$> get_result i s') = Some Completed).
Proof.
  intros Hreach Hc. pose proof (inv_reachable n q s Hreach) as [Hs _].
  destruct (cancel_success s i Hc) as (r & Hr & Hp & Heq). split.
  - intros Hsl s' Hs'. assert (reachable n q s') as [_ Hcl]%inv_reachable.
    { unfold reachable in *. etrans; [exact Hreach|]. eapply rtc_l; [apply (T_cancel s i)|exact Hs']. }
    assert (withdrawn i s') as Hw.
    { eapply (rtc_invariant step (withdrawn i)); [apply withdrawn_step|done|].
      split; [by apply inv_cancel|]. rewrite Heq. simpl. split; [|done].
      eexists. by rewrite lookup_insert_eq. }
    split; [by intros ?%(cl_marked s' Hcl)%withdrawn_unmarked|]. by destruct Hw as (_ & ? & _).
  - intros w t now done_at res Hw <-.
    destruct (sleeping_executes (cancel (id t) s).1 w t (with_status Cancelled r) now done_at res)
      as (s' & Hrtc & He & Hr').
    + by rewrite Heq.
    + rewrite Heq. simpl. by rewrite lookup_insert_eq.
    + exists s'. unfold is_complete, get_result. rewrite Hr', He. split_and!; [done|set_solver|done|done].
Qed.

(** A task submitted, received and past the cancellation test. *)
Definition sleeping_state : TaskExecutor :=
  let t := mkBackgroundTask (7, 0) (Some 100) in
  set_worker 0 (Sleeping t) (mkTaskExecutor [] 4 {[ (7, 0) := pending_result ]} true 1 ∅ [] [] []).

Lemma sleeping_reachable : reachable 1 4 sleeping_state.
Proof.
  set (t := mkBackgroundTask (7, 0) (Some 100)).
  eapply rtc_l; [apply (T_submit _ 7 (Some 100)); done|].
  eapply rtc_l; [eapply (T_enqueue _ [] t []); [reflexivity|simpl; lia]|].
  eapply rtc_l; [eapply (T_loop _ 0); reflexivity|].
  eapply rtc_l; [eapply (T_receive _ 0 t []); reflexivity|].
  eapply rtc_l; [eapply (T_check _ 0 t); reflexivity|].
  apply reflexive_eq. vm_compute. reflexivity.
Qed.

Lemma cancel_outcome_witness :
  (∃ s', rtc step (cancel (7, 0) sleeping_state).1 s' ∧ (7, 0) ∈ executed s' ∧
     is_complete (7, 0) s' = true ∧ (status <$> get_result (7, 0) s') = Some Completed) ∧
  (∀ s', rtc step (cancel (7, 0) (submit 7 None (executor_new 1 4)).1).1 s' → (7, 0) ∉ executed s').
Proof.
  split.
  - apply (proj2 (cancel_outcome 1 4 sleeping_state (7, 0) sleeping_reachable eq_refl) 0%nat
      (mkBackgroundTask (7, 0) (Some 100)) (f64_of_Z 1) (f64_of_Z 2) "ok"); reflexivity.
  - intros s' Hs'.
    apply (cancel_outcome 1 4 (submit 7 None (executor_new 1 4)).1 (7, 0)); [|done|intros w t Hw|done].
    2: by apply lookup_gset_to_gmap_Some in Hw as [_ ?].
    apply rtc_once. by apply T_submit.
Defined.

(** ** The states of a task *)

Definition transition (a b : TaskStatus) : bool :=
  match a, b with
  | Pending, Running | Pending, Cancelled | Cancelled, Running
  | Running, Completed | Running, Failed => true
  | _, _ => false
  end.

Lemma status_step s s' x r :
  step s s' → inv s → results s !! x = Some r →
  match results s' !! x with
  | Some r' => status r' = status r ∨ transition (status r) (status r') = true
  | None => started (status r) = true ∧ is_Some (completed_at r)
  end.
Proof.
  intros Hs Hinv Hr. destruct Hs; simpl; try (rewrite Hr; by left).
  - rewrite lookup_insert_ne; [rewrite Hr; by left|]. intros <-.
    assert (0 <= (millis, counter s).2 < counter s) by (apply i_count; eauto). simpl in *. lia.
  - unfold cancel. destruct (results s !! i) as [r0|] eqn:Hr0; [|simpl; rewrite Hr; by left].
    case_bool_decide as Hp; simpl; [|rewrite Hr; by left].
    destruct (decide (i = x)) as [->|]; [rewrite lookup_insert_eq|rewrite lookup_insert_ne, Hr; auto].
    simplify_eq. simpl. right. by rewrite Hp.
  - destruct (filter _ _ !! x) as [r'|] eqn:Hf.
    + apply map_lookup_filter_Some in Hf as [? _]. left. congruence.
    + rewrite map_lookup_filter_None in Hf. destruct Hf as [Hf|Hf]; [congruence|].
      specialize (Hf r Hr). simpl in Hf. unfold kept in Hf.
      destruct (completed_at r) as [c|] eqn:Hc; [|done]. split; [|done].
      destruct (started (status r)) eqn:Hst; [done|]. by rewrite (i_done s Hinv x r Hr Hst) in Hc.
  - destruct (i_held s Hinv i t) as (_ & _ & r' & Hr' & [Hst _]); [auto|].
    unfold mark_running. cbn [results set_worker]. rewrite Hr'. simpl.
    destruct (decide (id t = x)) as [<-|]; [rewrite lookup_insert_eq|rewrite lookup_insert_ne, Hr; auto].
    simplify_eq. right. by destruct Hst as [-> | ->].
  - destruct (i_exec s Hinv i t (or_intror H)) as (_ & _ & r' & Hr' & Hst & _).
    unfold mark_done. cbn [results set_worker]. rewrite Hr'. simpl.
    destruct (decide (id t = x)) as [<-|]; [rewrite lookup_insert_eq|rewrite lookup_insert_ne, Hr; auto].
    simplify_eq. right. rewrite Hst. by destruct outcome.
Qed.

(** C9: no task is executed twice.  Under any interleaving of submissions, cancellations,
    cleanups, shutdown and worker steps the status of a task only moves from Pending to Running or
    Cancelled, from Cancelled to Running (a task cancelled during its delay), and from Running to
    Completed or Failed; only tasks that completed or failed are ever removed; and the handler
    of a task in the table was called exactly when its status is Completed or Failed, or Running and
    no worker waits to call it: a worker marks the task before it waits for the interpreter lock. *)
Theorem task_lifecycle n q s s' :
  reachable n q s → step s s' →
  NoDup (executed s') ∧
  (∀ x r, results s !! x = Some r →
     match results s' !! x with
     | Some r' => status r' = status r ∨ transition (status r) (status r') = true
     | None => started (status r) = true ∧ is_Some (completed_at r)
     end) ∧
  (∀ x r, results s' !! x = Some r →
     x ∈ executed s' ↔
       status r = Completed ∨ status r = Failed ∨
       (status r = Running ∧ ∀ w t, workers s' !! w = Some (Marked t) → id t ≠ x)).
Proof.
  intros [Hs Hc]%inv_reachable Hst. pose proof (tasks_inv_step _ _ Hst Hs) as Hs'.
  pose proof (called_step _ _ Hst Hs Hc) as Hc'. split_and!.
  - apply (cl_once s' Hc').
  - intros x r. by apply status_step.
  - intros x r Hr. pose proof (i_status s' Hs' x r Hr) as Hi. split.
    + intros Hx. assert (started (status r) = true) as Hsr by (apply Hi, (cl_marked s' Hc' x Hx)).
      destruct (status r) eqn:E; try done; auto. right; right. split; [done|].
      intros w t Hw <-. by apply (cl_wait s' Hc' w t Hw).
    + intros Hr'. assert (x ∈ marked s') as Hm by (apply Hi; destruct Hr' as [->|[->|[-> _]]]; done).
      destruct (cl_rest s' Hc' x Hm) as [|(w & t & Hw & <-)]; [done|exfalso].
      destruct (i_exec s' Hs' w t (or_introl Hw)) as (_ & _ & r' & Hr'' & Hrun & _). rewrite Hr in Hr''. simplify_eq.
      destruct Hr' as [H|[H|[_ H]]]; [congruence|congruence|]. by apply (H w t).
Qed.

(** A task through a worker: submitted, taken, marked, called and completed. *)
Definition demo_task : BackgroundTask := mkBackgroundTask (7, 0) (Some 100).
Definition marked_state : TaskExecutor :=
  log_mark (7, 0) (mark_running (f64_of_Z 1) (7, 0) (set_worker 0 (Marked demo_task) sleeping_state)).
Definition called_state : TaskExecutor := log_execution (7, 0) (set_worker 0 (Executing demo_task) marked_state).
Definition completed_state : TaskExecutor :=
  mark_done (f64_of_Z 2) (inl "ok") (7, 0) (set_worker 0 Looping called_state).

Lemma task_lifecycle_witness :
  (status <$> results marked_state !! (7, 0)) = Some Running ∧ (7, 0) ∉ executed marked_state ∧
  (status <$> results completed_state !! (7, 0)) = Some Completed ∧ (7, 0) ∈ executed completed_state ∧
  NoDup (executed completed_state).
Proof.
  assert (step sleeping_state marked_state) as H1 by (apply (T_mark sleeping_state 0 demo_task (f64_of_Z 1)); reflexivity).
  assert (step marked_state called_state) as H2 by (apply (T_call marked_state 0 demo_task); reflexivity).
  assert (step called_state completed_state) as H3
    by (apply (T_finish called_state 0 demo_task (f64_of_Z 2) (inl "ok")); reflexivity).
  destruct (task_lifecycle 1 4 sleeping_state marked_state sleeping_reachable H1) as (_ & _ & Hm).
  destruct (task_lifecycle 1 4 called_state completed_state) as (Hn & _ & Hc);
    [eapply rtc_r; [eapply rtc_r; [exact sleeping_reachable|exact H1]|exact H2]|exact H3|].
  split_and!; [reflexivity| |reflexivity| |exact Hn].
  - intros Hin. destruct (proj1 (Hm (7, 0) _ eq_refl) Hin) as [H|[H|[_ H]]]; [discriminate..|].
    by apply (H 0%nat demo_task).
  - apply (Hc (7, 0) (mkTaskResult Completed (Some "ok") None (Some (f64_of_Z 1)) (Some (f64_of_Z 2)))); [reflexivity|].
    by left.
Defined.
