(* ===== verification/Text.v ===== *)
(** Text helpers (src/src/utils/str_utils.rs).  A [&str] is its list of chars, a char its Unicode
    scalar value; the Unicode tables are a class. *)
From S2P Require Import Prelude.
From stdpp Require Import base gmap strings list.
Open Scope Z_scope.

(** * Chars *)

Notation char := Z (only parsing).
Notation text := (list Z) (only parsing).

Definition between (a b c : char) : bool := (a <=? c) && (c <=? b).
Definition is_digit (c : char) : bool := between 48 57 c.
Definition is_upper_ascii (c : char) : bool := between 65 90 c.
Definition is_lower_ascii (c : char) : bool := between 97 122 c.
Definition is_ascii_alphanumeric (c : char) : bool := is_digit c || is_upper_ascii c || is_lower_ascii c.
Definition ascii_lower (c : char) : char := if is_upper_ascii c then c + 32 else c.
Definition ascii_upper (c : char) : char := if is_lower_ascii c then c - 32 else c.

(** [char::len_utf8]. *)
Definition len_utf8 (c : char) : Z :=
  if c <? 128 then 1 else if c <? 2048 then 2 else if c <? 65536 then 3 else 4.
Definition byte_len (s : text) : Z := foldr (λ c n, len_utf8 c + n) 0 s.

(** An ASCII literal. *)
Definition lit (s : string) : text := byte_of_ascii <$> String.list_ascii_of_string s.

(** The tables behind [char::is_alphabetic] and the case methods: on ASCII they are the ASCII
    classes. *)
Class Unicode := {
  is_alphabetic : char → bool;
  is_whitespace : char → bool;
  is_uppercase : char → bool;
  is_lowercase : char → bool;
  char_uppercase : char → text;
  char_lowercase : char → text;
  is_uppercase_ascii c : 0 <= c < 128 → is_uppercase c = is_upper_ascii c;
  is_lowercase_ascii c : 0 <= c < 128 → is_lowercase c = is_lower_ascii c;
  char_uppercase_ascii c : 0 <= c < 128 → char_uppercase c = [ascii_upper c];
  char_lowercase_ascii c : 0 <= c < 128 → char_lowercase c = [ascii_lower c]
}.

(** The instance for Latin-1 text. *)
#[refine] Instance latin_Unicode : Unicode := {
  is_alphabetic c := is_upper_ascii c || is_lower_ascii c || (between 192 255 c && negb (c =? 215) && negb (c =? 247));
  is_whitespace c := between 9 13 c || (c =? 32) || (c =? 133) || (c =? 160);
  is_uppercase c := is_upper_ascii c || (between 192 222 c && negb (c =? 215));
  is_lowercase c := is_lower_ascii c || (between 223 255 c && negb (c =? 247));
  char_uppercase c := [if between 224 254 c && negb (c =? 247) then c - 32 else ascii_upper c];
  char_lowercase c := [if between 192 222 c && negb (c =? 215) then c + 32 else ascii_lower c]
}.
Proof.
  all: intros c Hc; unfold between; try f_equal.
  - rewrite (proj2 (Z.leb_gt 192 c)) by lia. by rewrite orb_false_r.
  - rewrite (proj2 (Z.leb_gt 223 c)) by lia. by rewrite orb_false_r.
  - by rewrite (proj2 (Z.leb_gt 224 c)) by lia.
  - by rewrite (proj2 (Z.leb_gt 192 c)) by lia.
Defined.

Section text.
Context `{Unicode}.

(** * Slugs *)

Definition transliterate_char (c : char) : text :=
  if between 224 229 c || between 192 197 c then lit "a"
  else if (c =? 230) || (c =? 198) then lit "ae"
  else if (c =? 231) || (c =? 199) then lit "c"
  else if between 232 235 c || between 200 203 c then lit "e"
  else if between 236 239 c || between 204 207 c then lit "i"
  else if (c =? 240) || (c =? 208) then lit "d"
  else if (c =? 241) || (c =? 209) then lit "n"
  else if between 242 246 c || (c =? 248) || between 210 214 c || (c =? 216) then lit "o"
  else if between 249 252 c || between 217 220 c then lit "u"
  else if (c =? 253) || (c =? 255) || (c =? 221) || (c =? 376) then lit "y"
  else if (c =? 254) || (c =? 222) then lit "th"
  else if c =? 223 then lit "ss"
  else if (c =? 273) || (c =? 272) then lit "d"
  else [].

Definition ends_with (suffix s : text) : bool :=
  bool_decide (suffix = drop (length s - length suffix) s) && (length suffix <=? length s)%nat.

(** The loop of [slugify] over the chars: the result so far and whether a separator ends it. *)
Fixpoint slug_loop (separator s result : text) (last_was_sep : bool) : text :=
  match s with
  | [] => result
  | ch :: s' =>
      if is_ascii_alphanumeric ch then slug_loop separator s' (result ++ [ascii_lower ch]) false
      else if is_alphabetic ch then
        match transliterate_char ch with
        | [] => slug_loop separator s' result last_was_sep
        | a => slug_loop separator s' (result ++ a) false
        end
      else if negb last_was_sep && negb (bool_decide (result = [])) then
        slug_loop separator s' (result ++ separator) true
      else slug_loop separator s' result last_was_sep
  end.

Definition slugify (s separator : text) : text :=
  let result := slug_loop separator s [] true in
  if ends_with separator result then take (length result - length separator) result else result.

(** * Truncation and masking *)

Definition truncate (s : text) (max_len : Z) (suffix : text) : text :=
  let char_count := Z.of_nat (length s) in
  if char_count <=? max_len then s
  else
    let suffix_len := Z.of_nat (length suffix) in
    let keep := sat_sub max_len suffix_len in
    take (Z.to_nat keep) s ++ suffix.

Definition star : char := 42.

(** The sum and the difference are of [usize]. *)
Definition mask_inner (s : text) (keep_start keep_end : Z) : text :=
  let n := Z.of_nat (length s) in
  if n <=? w64 (keep_start + keep_end) then replicate (length s) star
  else imap (λ i c, if (Z.of_nat i <? keep_start) || (w64 (n - keep_end) <=? Z.of_nat i) then c else star) s.

Definition mask_string : text → Z → Z → text := mask_inner.

(** [split_once] at the first at-sign. *)
Fixpoint split_once (c : char) (s : text) : option (text * text) :=
  match s with
  | [] => None
  | d :: s' => if d =? c then Some ([], s')
               else match split_once c s' with Some (a, b) => Some (d :: a, b) | None => None end
  end.

Definition mask_email (email : text) : text :=
  match split_once 64 email with
  | None => replicate (Z.to_nat (byte_len email)) star
  | Some (local, domain) => mask_inner local 1 1 ++ [64] ++ domain
  end.

Definition mask_phone (phone : text) (keep_last : Z) : text :=
  let digits := filter (λ c, is_digit c = true) phone in
  let len := Z.of_nat (length digits) in
  if len <=? keep_last then digits
  else
    let n := Z.to_nat (len - keep_last) in
    replicate n star ++ drop n digits.

(** * Case conversion *)

Definition underscore : char := 95.

Fixpoint snake_loop (s result : text) (cap_next : bool) : text :=
  match s with
  | [] => result
  | ch :: s' =>
      if ch =? underscore then snake_loop s' result true
      else if cap_next then snake_loop s' (result ++ char_uppercase ch) false
      else snake_loop s' (result ++ [ch]) cap_next
  end.
Definition snake_to_camel (s : text) (upper_first : bool) : text := snake_loop s [] upper_first.

(** [prev] is [chars[i - 1]], absent for [i = 0]. *)
Fixpoint camel_loop (prev : option char) (s result : text) : text :=
  match s with
  | [] => result
  | ch :: s' =>
      if is_uppercase ch then
        let prev_lower := match prev with Some p => is_lowercase p | None => false end in
        let next_lower := match s' with d :: _ => is_lowercase d | [] => false end in
        let sep := bool_decide (is_Some prev) && (prev_lower || next_lower) in
        camel_loop (Some ch) s' (result ++ (if sep then [underscore] else []) ++ char_lowercase ch)
      else camel_loop (Some ch) s' (result ++ [ch])
  end.
Definition camel_to_snake (s : text) : text := camel_loop None s [].

(** A Python dict in insertion order; [set_item] replaces in place. *)
Fixpoint set_item {V} (k : text) (v : V) (d : list (text * V)) : list (text * V) :=
  match d with
  | [] => [(k, v)]
  | (k', v') :: d' => if bool_decide (k = k') then (k', v) :: d' else (k', v') :: set_item k v d'
  end.
Definition keys_to_camel {V} (data : list (text * V)) (upper_first : bool) : list (text * V) :=
  foldl (λ out kv, set_item (snake_to_camel kv.1 upper_first) kv.2 out) [] data.
Definition keys_to_snake {V} (data : list (text * V)) : list (text * V) :=
  foldl (λ out kv, set_item (camel_to_snake kv.1) kv.2 out) [] data.

(** * Padding and counting *)

Definition pad_char_of (pad_char : text) : char := match pad_char with c :: _ => c | [] => 32 end.
Definition padding (s : text) (width : Z) (pad_char : text) : text :=
  replicate (Z.to_nat (width - Z.of_nat (length s))) (pad_char_of pad_char).
Definition pad_left (s : text) (width : Z) (pad_char : text) : text :=
  if width <=? Z.of_nat (length s) then s else padding s width pad_char ++ s.
Definition pad_right (s : text) (width : Z) (pad_char : text) : text :=
  if width <=? Z.of_nat (length s) then s else s ++ padding s width pad_char.

(** [split_whitespace().count()]: [inside] is whether the previous char belonged to a word. *)
Fixpoint word_loop (inside : bool) (s : text) : Z :=
  match s with
  | [] => 0
  | ch :: s' => if is_whitespace ch then word_loop false s'
                else (if inside then 0 else 1) + word_loop true s'
  end.
Definition word_count (s : text) : Z := word_loop false s.

Definition is_url_safe (s : text) : bool :=
  forallb (λ c, is_ascii_alphanumeric c || (c =? 45) || (c =? underscore) || (c =? 46) || (c =? 126)) s.
End text.

Example slugify_example : slugify (lit "  Hello World!  2026 ") (lit "-") = lit "hello-world-2026".
Proof. reflexivity. Qed.

Example slugify_accents :
  slugify (lit "caf" ++ [233] ++ lit " & r" ++ [233] ++ lit "sum" ++ [233]) (lit "_") = lit "cafe_resume".
Proof. reflexivity. Qed.

Example camel_example : camel_to_snake (lit "HTTPSRequest") = lit "https_request".
Proof. reflexivity. Qed.

Example mask_email_example : mask_email (lit "user@example.com") = lit "u**r@example.com".
Proof. reflexivity. Qed.

(** * What a slug is *)

Section slug.
Context `{Unicode}.

Definition slug_char (c : char) : bool := is_digit c || is_lower_ascii c.

(** What one char of a word contributes. *)
Definition slug_piece (ch : char) : text :=
  if is_ascii_alphanumeric ch then [ascii_lower ch] else transliterate_char ch.

Definition push_word (w : text) (ws : list text) : list text := match w with [] => ws | _ => w :: ws end.

(** The reference: the maximal runs of letters and digits, transliterated, without those of which
    nothing is left; [cur] is the run being read. *)
Fixpoint slug_words (cur s : text) : list text :=
  match s with
  | [] => push_word cur []
  | ch :: s' =>
      if is_ascii_alphanumeric ch || is_alphabetic ch then slug_words (cur ++ slug_piece ch) s'
      else push_word cur (slug_words [] s')
  end.

Fixpoint join (sep : text) (ws : list text) : text :=
  match ws with
  | [] => []
  | [w] => w
  | w :: ws' => w ++ sep ++ join sep ws'
  end.

Lemma join_snoc sep ws w :
  join sep (ws ++ [w]) = match ws with [] => w | _ => join sep ws ++ sep ++ w end.
Proof.
  induction ws as [|v ws IH]; [done|]. destruct ws as [|u ws]; [done|].
  change ((v :: u :: ws) ++ [w]) with (v :: ((u :: ws) ++ [w])). cbn [join]. rewrite IH.
  destruct ws; simpl; by rewrite <- !(assoc_L (++)).
Qed.

Lemma transliterate_slug ch : forallb slug_char (transliterate_char ch) = true.
Proof. unfold transliterate_char. repeat case_match; reflexivity. Qed.

Lemma slug_piece_slug ch : forallb slug_char (slug_piece ch) = true.
Proof.
  unfold slug_piece. destruct (is_ascii_alphanumeric ch) eqn:Ha; [|apply transliterate_slug].
  simpl. rewrite andb_true_r. unfold is_ascii_alphanumeric, slug_char, ascii_lower in *.
  destruct (is_upper_ascii ch) eqn:Hu.
  - assert (is_lower_ascii (ch + 32) = true) as ->; [|by rewrite orb_true_r].
    unfold is_upper_ascii, is_lower_ascii, between in *. bool_to_prop. apply andb_true_iff. split; apply Z.leb_le; lia.
  - by rewrite orb_false_r in Ha.
Qed.

Lemma slug_words_spec s cur :
  forallb slug_char cur = true →
  Forall (λ w, w ≠ [] ∧ forallb slug_char w = true) (slug_words cur s).
Proof.
  assert (∀ w ws, forallb slug_char w = true →
    Forall (λ w, w ≠ [] ∧ forallb slug_char w = true) ws →
    Forall (λ w, w ≠ [] ∧ forallb slug_char w = true) (push_word w ws)) as Hpush.
  { intros [|c w] ws Hw Hws; [done|]. by constructor. }
  revert cur. induction s as [|ch s IH]; intros cur Hc; simpl; [by apply Hpush|].
  case_match; [apply IH|by apply Hpush, IH].
  rewrite forallb_app, Hc. apply slug_piece_slug.
Qed.

(** What the loop's result is, after the words [ws] and inside the word [cur]. *)
Definition slug_so_far (sep : text) (ws : list text) (cur : text) : text :=
  match cur, ws with
  | [], [] => []
  | [], _ => join sep ws ++ sep
  | _, _ => join sep (ws ++ [cur])
  end.

Lemma slug_so_far_word sep ws cur p :
  p ≠ [] → slug_so_far sep ws cur ++ p = slug_so_far sep ws (cur ++ p).
Proof.
  intros Hp. unfold slug_so_far. destruct cur as [|c cur]; simpl.
  - destruct p as [|d p]; [done|]. rewrite join_snoc. destruct ws; [done|]. by rewrite (assoc_L (++)).
  - rewrite !join_snoc. destruct ws; simpl; [done|]. rewrite <- !(assoc_L (++)). done.
Qed.

Lemma slug_so_far_nil sep ws cur : sep ≠ [] → cur ≠ [] → slug_so_far sep ws cur ≠ [].
Proof.
  intros Hs Hc. destruct cur as [|c cur]; [done|]. simpl. rewrite join_snoc.
  destruct ws; [done|]. intros [_ [_ Hn]%app_eq_nil]%app_eq_nil. done.
Qed.

(** At the end a separator may be left behind, and nothing else. *)
Lemma slug_loop_spec sep s ws cur :
  sep ≠ [] →
  ∃ ws' cur', slug_loop sep s (slug_so_far sep ws cur) (bool_decide (cur = [])) = slug_so_far sep ws' cur' ∧
    ws ++ slug_words cur s = ws' ++ push_word cur' [].
Proof.
  intros Hsep. revert ws cur. induction s as [|ch s IH]; intros ws cur; simpl; [by exists ws, cur|].
  assert (∀ p, p ≠ [] → bool_decide (cur ++ p = []) = false) as Hne.
  { intros p Hp. apply bool_decide_eq_false. by intros [_ ?]%app_eq_nil. }
  unfold slug_piece. destruct (is_ascii_alphanumeric ch); simpl.
  - rewrite slug_so_far_word by done. rewrite <- (Hne [ascii_lower ch]) by done. apply IH.
  - destruct (is_alphabetic ch).
    + destruct (transliterate_char ch) as [|a p] eqn:Ht; [rewrite app_nil_r; apply IH|].
      rewrite slug_so_far_word by done. rewrite <- (Hne (a :: p)) by done. apply IH.
    + destruct cur as [|c cur]; [by apply (IH ws [])|].
      rewrite (bool_decide_false (slug_so_far _ _ _ = [])) by (by apply slug_so_far_nil).
      cbn [bool_decide negb andb push_word].
      destruct (IH (ws ++ [c :: cur]) []) as (ws' & cur' & Heq & Hw).
      exists ws', cur'. split; [|by rewrite <- Hw, <- (assoc_L (++))].
      rewrite <- Heq, (bool_decide_false (c :: cur = [])), (bool_decide_true ([] = [])) by done.
      cbn [negb andb]. f_equal. unfold slug_so_far.
      destruct (ws ++ [c :: cur]) eqn:E; [by apply app_eq_nil in E as [_ ?]|done].
Qed.

Lemma text_ends_with_app s suffix : ends_with suffix (s ++ suffix) = true.
Proof.
  unfold ends_with. rewrite length_app, Nat.add_sub, drop_app_length. apply andb_true_iff.
  split; [by apply bool_decide_eq_true|apply Nat.leb_le; lia].
Qed.

Lemma ends_with_last suffix s c d : last suffix = Some c → last s = Some d → c ≠ d → ends_with suffix s = false.
Proof.
  intros Hc Hd Hne. apply not_true_iff_false. intros [Hs _]%andb_true_iff. apply bool_decide_eq_true in Hs.
  assert (last s = Some c); [|congruence].
  rewrite <- (take_drop (length s - length suffix) s), <- Hs. by rewrite last_app, Hc.
Qed.

(** for a separator that does not end in a letter or digit a slug is its words joined by
    single separators: the text's maximal runs of letters and digits, lowercased and
    transliterated, without the runs of which nothing is left.  The words are not empty and
    consist of ASCII lowercase letters and digits only, so a slug never begins or ends with a
    separator and never has two in a row. *)
Theorem slugify_words s sep c :
  last sep = Some c → slug_char c = false →
  slugify s sep = join sep (slug_words [] s) ∧
  Forall (λ w, w ≠ [] ∧ forallb slug_char w = true) (slug_words [] s).
Proof.
  intros Hl Hc. assert (sep ≠ []) as Hsep by (by intros ->).
  split; [|by apply slug_words_spec].
  destruct (slug_loop_spec sep s [] [] Hsep) as (ws & cur & Heq & Hw). simpl in Hw.
  unfold slugify. change (slug_loop sep s [] true) with (slug_loop sep s (slug_so_far sep [] []) (bool_decide (@nil Z = []))).
  rewrite Heq. destruct cur as [|d cur].
  - rewrite Hw. simpl. rewrite app_nil_r. destruct ws as [|w ws].
    + cbn [slug_so_far join]. destruct (ends_with sep []); [by rewrite take_nil|done].
    + rewrite text_ends_with_app, length_app, Nat.add_sub. by rewrite take_app_length.
  - rewrite Hw. cbn [slug_so_far push_word].
    assert (Forall (λ w, w ≠ [] ∧ forallb slug_char w = true) (ws ++ [d :: cur])) as Hall
      by (change (ws ++ [d :: cur]) with (ws ++ push_word (d :: cur) []); rewrite <- Hw; by apply slug_words_spec).
    apply Forall_app in Hall as [_ [[_ Hd] _]%Forall_cons].
    assert (∃ e, last (d :: cur) = Some e ∧ slug_char e = true) as (e & Hle & He).
    { destruct (last (d :: cur)) as [e|] eqn:E; [|by apply last_None in E]. exists e. split; [done|].
      apply last_Some_elem_of in E. rewrite forallb_forall in Hd. apply Hd. by apply list_elem_of_In. }
    rewrite (ends_with_last sep _ c e Hl); [done| |by intros ->; congruence].
    rewrite join_snoc. destruct ws; [done|]. rewrite (assoc_L (++)), last_app, Hle. done.
Qed.
End slug.

(** * Masking *)

Section mask.
Context `{Unicode}.

(** masking shows at most the [keep_start] first and [keep_end] last chars, and nothing of a
    text no longer than their sum; the length is kept.  The bounds are added without a check:
    when the sum exceeds the machine word the test compares with what is left of it, and a text no
    longer than [keep_start] is then returned unmasked. *)
Theorem mask_bounds s keep_start keep_end :
  is_u64 keep_start → is_u64 keep_end → Z.of_nat (length s) <= u64_max →
  length (mask_string s keep_start keep_end) = length s ∧
  (keep_start + keep_end <= u64_max → ∀ i c, s !! i = Some c →
     mask_string s keep_start keep_end !! i =
       Some (if (keep_start + keep_end <? Z.of_nat (length s)) &&
                ((Z.of_nat i <? keep_start) || (Z.of_nat (length s) - keep_end <=? Z.of_nat i))
             then c else star)) ∧
  (u64_max < keep_start + keep_end → w64 (keep_start + keep_end) < Z.of_nat (length s) <= keep_start →
     mask_string s keep_start keep_end = s).
Proof.
  intros Hs He Hn. unfold mask_string, mask_inner. split_and!.
  - case_match; [apply length_replicate|apply length_imap].
  - intros Hsum i c Hi. unfold is_u64 in *. rewrite w64_id by (unfold is_u64; lia).
    pose proof (lookup_lt_Some _ _ _ Hi) as Hlt.
    destruct (Z.leb_spec (Z.of_nat (length s)) (keep_start + keep_end)) as [Hle|Hgt].
    + rewrite (proj2 (Z.ltb_ge _ _)) by lia. by rewrite lookup_replicate_2.
    + rewrite list_lookup_imap, Hi, (proj2 (Z.ltb_lt (keep_start + keep_end) _)) by lia.
      rewrite w64_id by (unfold is_u64; lia). done.
  - intros _ [Hw Hle]. rewrite (proj2 (Z.leb_gt _ _)) by lia.
    apply list_eq. intros i. rewrite list_lookup_imap. destruct (s !! i) as [c|] eqn:Hi; [|done]. simpl.
    pose proof (lookup_lt_Some _ _ _ Hi). by rewrite (proj2 (Z.ltb_lt _ _)) by lia.
Qed.

(** A suffix longer than the limit makes the result longer than the limit. *)
Lemma truncate_length s max_len suffix :
  0 <= max_len < Z.of_nat (length s) →
  Z.of_nat (length (truncate s max_len suffix)) = Z.max max_len (Z.of_nat (length suffix)).
Proof.
  intros Hm. unfold truncate, sat_sub. rewrite (proj2 (Z.leb_gt _ _)) by lia.
  rewrite length_app, length_take. lia.
Qed.

Lemma mask_phone_length phone keep_last :
  0 <= keep_last → length (mask_phone phone keep_last) = length (filter (λ c, is_digit c = true) phone).
Proof.
  intros Hk. unfold mask_phone. set (d := filter _ phone).
  destruct (Z.leb_spec (Z.of_nat (length d)) keep_last); [done|].
  rewrite length_app, length_replicate, length_drop. lia.
Qed.

Lemma pad_left_length s width pad : 0 <= width →
  Z.of_nat (length (pad_left s width pad)) = Z.max width (Z.of_nat (length s)).
Proof.
  intros Hw. unfold pad_left, padding. destruct (Z.leb_spec width (Z.of_nat (length s))); [lia|].
  rewrite length_app, length_replicate. lia.
Qed.
End mask.

(** The examples of the documentation show ten stars. *)
Example mask_phone_example : mask_phone (lit "+1-800-555-1234") 4 = lit "*******1234".
Proof. reflexivity. Qed.
Example mask_string_example : mask_string (lit "secret-value") 2 2 = lit "se********ue".
Proof. reflexivity. Qed.

Lemma mask_bounds_witness :
  mask_string (lit "secret") 1 2 !! 3%nat = Some star ∧ mask_string (lit "secret") u64_max 1 = lit "secret".
Proof.
  split.
  - apply (proj1 (proj2 (mask_bounds (lit "secret") 1 2 ltac:(done) ltac:(done) ltac:(done)))) with (c := 114);
      [done|reflexivity].
  - apply (proj2 (proj2 (mask_bounds (lit "secret") u64_max 1 ltac:(done) ltac:(done) ltac:(done)))); done.
Defined.

Lemma slugify_words_witness :
  slugify (lit "  Hello World! ") (lit "-") = join (lit "-") (slug_words [] (lit "  Hello World! ")).
Proof. apply (slugify_words _ _ 45); reflexivity. Defined.

(** * Names *)

Section names.
Context `{Unicode}.

(** A word of a snake-case name whose first two chars are lowercase letters. *)
Definition name_word (w : text) : Prop :=
  ∃ c d r, w = c :: d :: r ∧ is_lower_ascii c = true ∧ is_lower_ascii d = true ∧
    Forall (λ x, is_lower_ascii x = true ∨ is_digit x = true) r.

Definition name_char (x : char) : Prop := is_lower_ascii x = true ∨ is_digit x = true.

Definition capitalize (w : text) : text := match w with c :: r => ascii_upper c :: r | [] => [] end.

Lemma name_char_range x : name_char x → 0 <= x < 128 ∧ x ≠ underscore ∧ is_upper_ascii x = false.
Proof.
  unfold name_char, is_lower_ascii, is_digit, is_upper_ascii, between, underscore. intros [?|?]; bool_to_prop;
    (split_and!; [lia|lia|lia|]); apply not_true_iff_false; intros ?; bool_to_prop; lia.
Qed.

Lemma snake_loop_app s1 s2 r b :
  Forall name_char s1 → snake_loop (s1 ++ s2) r false = snake_loop s2 (r ++ s1) false ∧
  ∀ c, name_char c → snake_loop (c :: s1 ++ s2) r b = snake_loop s2 (r ++ (if b then ascii_upper c else c) :: s1) false.
Proof.
  revert r. assert (∀ r, Forall name_char s1 → snake_loop (s1 ++ s2) r false = snake_loop s2 (r ++ s1) false) as Hp.
  { induction s1 as [|c s1 IH]; intros r Hs; simpl; [by rewrite app_nil_r|].
    apply Forall_cons in Hs as [Hc Hs]. destruct (name_char_range c Hc) as (_ & Hu & _).
    rewrite (proj2 (Z.eqb_neq _ _)) by done. rewrite IH by done. by rewrite <- (assoc_L (++)). }
  intros r Hs. split; [by apply Hp|]. intros c Hc. destruct (name_char_range c Hc) as (? & Hu & _). simpl.
  rewrite (proj2 (Z.eqb_neq _ _)) by done.
  destruct b; [rewrite char_uppercase_ascii by done|]; rewrite Hp by done; by rewrite <- (assoc_L (++)).
Qed.

Lemma name_word_chars w : name_word w → Forall name_char w.
Proof. intros (c & d & r & -> & Hc & Hd & Hr). constructor; [by left|constructor; [by left|done]]. Qed.

(** [snake_to_camel] concatenates the capitalized words. *)
Lemma snake_words ws r b w :
  name_word w → Forall name_word ws →
  snake_loop (join [underscore] (w :: ws)) r b =
    r ++ (if b then capitalize w else w) ++ concat (capitalize <$> ws).
Proof.
  revert w r b. induction ws as [|v ws IH]; intros w r b Hw Hws.
  - simpl. destruct Hw as (c & d & t & -> & Hc & Hd & Ht).
    destruct (snake_loop_app (d :: t) [] r b) as [_ Heq]; [constructor; [by left|done]|].
    rewrite app_nil_r in Heq. rewrite Heq by (by left). by destruct b; rewrite app_nil_r.
  - apply Forall_cons in Hws as [Hv Hws]. cbn [join].
    destruct Hw as (c & d & t & -> & Hc & Hd & Ht).
    destruct (snake_loop_app (d :: t) ([underscore] ++ join [underscore] (v :: ws)) r b) as [_ Heq];
      [constructor; [by left|done]|].
    rewrite <- app_comm_cons, Heq by (by left). cbn [app snake_loop]. rewrite Z.eqb_refl.
    rewrite IH by done. destruct b; cbn [capitalize fmap list_fmap concat]; rewrite <- !(assoc_L (++)); done.
Qed.

Lemma lower_is_lower x : is_lower_ascii x = true → is_lowercase x = true ∧ is_uppercase x = false.
Proof.
  intros Hx. assert (name_char x) as Hc by (by left). destruct (name_char_range x Hc) as (Hr & _ & Hu).
  by rewrite is_lowercase_ascii, is_uppercase_ascii.
Qed.

Lemma camel_loop_lower prev c s r :
  is_uppercase c = false → camel_loop prev (c :: s) r = camel_loop (Some c) s (r ++ [c]).
Proof. intros Hc. simpl. by rewrite Hc. Qed.

Lemma camel_loop_word s1 s2 p r :
  Forall name_char s1 →
  camel_loop (Some p) (s1 ++ s2) r = camel_loop (Some (default p (last s1))) s2 (r ++ s1).
Proof.
  revert p r. induction s1 as [|c s1 IH]; intros p r Hs; [simpl; by rewrite app_nil_r|].
  apply Forall_cons in Hs as [Hc Hs]. destruct (name_char_range c Hc) as (Hr & _ & Hu).
  rewrite last_cons. cbn [app camel_loop]. rewrite is_uppercase_ascii, Hu, IH by done.
  rewrite <- (assoc_L (++)). by destruct (last s1).
Qed.

Lemma upper_of_lower c : is_lower_ascii c = true →
  0 <= ascii_upper c < 128 ∧ is_upper_ascii (ascii_upper c) = true ∧ ascii_lower (ascii_upper c) = c.
Proof.
  intros Hc. unfold ascii_upper. rewrite Hc. unfold ascii_lower.
  assert (is_upper_ascii (c - 32) = true) as Hu.
  { unfold is_lower_ascii, is_upper_ascii, between in *. bool_to_prop. apply andb_true_iff. split; apply Z.leb_le; lia. }
  rewrite Hu. split; [|split; [done|lia]]. unfold is_upper_ascii, between in Hu. bool_to_prop. lia.
Qed.

Lemma camel_words ws p r :
  Forall name_word ws →
  camel_loop (Some p) (concat (capitalize <$> ws)) r = r ++ concat ((λ w, underscore :: w) <$> ws).
Proof.
  revert p r. induction ws as [|w ws IH]; intros p r Hws; simpl; [by rewrite app_nil_r|].
  apply Forall_cons in Hws as [(c & d & t & -> & Hc & Hd & Ht) Hws]. cbn [capitalize app].
  destruct (upper_of_lower c Hc) as (Hr & Hu & Hl). cbn [camel_loop].
  rewrite is_uppercase_ascii, Hu, char_lowercase_ascii, Hl by done.
  rewrite (proj1 (lower_is_lower d Hd)), orb_true_r. cbn [bool_decide andb].
  rewrite (bool_decide_true _) by done. cbn [andb app].
  etrans; [apply (camel_loop_word (d :: t)); constructor; [by left|done]|]. rewrite IH by done.
  rewrite <- !(assoc_L (++)). done.
Qed.

Lemma join_underscore w ws : join [underscore] (w :: ws) = w ++ concat ((λ v, underscore :: v) <$> ws).
Proof.
  revert w. induction ws as [|v ws IH]; intros w; [by rewrite app_nil_r|].
  change (join [underscore] (w :: v :: ws)) with (w ++ [underscore] ++ join [underscore] (v :: ws)). by rewrite IH.
Qed.

(** a snake-case name of words that begin with two letters survives the conversion to camel
    case, with or without a capital first letter, and back. *)
Theorem camel_roundtrip w ws upper_first :
  name_word w → Forall name_word ws →
  camel_to_snake (snake_to_camel (join [underscore] (w :: ws)) upper_first) = join [underscore] (w :: ws).
Proof.
  intros Hw Hws. unfold snake_to_camel. rewrite snake_words by done. rewrite join_underscore.
  destruct Hw as (c & d & t & -> & Hc & Hd & Ht).
  assert (Forall name_char (d :: t)) as Hdt by (constructor; [by left|done]).
  unfold camel_to_snake. destruct upper_first; cbn [app capitalize].
  - cbn [camel_loop]. destruct (upper_of_lower c Hc) as (Hr & Hu & Hl).
    rewrite is_uppercase_ascii, Hu, char_lowercase_ascii, Hl by done. cbn [andb app].
    etrans; [by apply (camel_loop_word (d :: t))|]. by rewrite camel_words.
  - rewrite camel_loop_lower by apply (lower_is_lower c Hc).
    etrans; [by apply (camel_loop_word (d :: t))|]. by rewrite camel_words.
Qed.
End names.

(** One-letter words run together, and different names may meet in one. *)
Example camel_one_letter :
  camel_to_snake (snake_to_camel (lit "a_b_c") false) = lit "a_bc".
Proof. reflexivity. Qed.

Lemma keys_to_camel_loses :
  keys_to_camel [(lit "user_name", 1); (lit "user__name", 2)] false = [(lit "userName", 2)].
Proof. reflexivity. Qed.

Lemma camel_roundtrip_witness :
  camel_to_snake (snake_to_camel (join [underscore] [lit "user"; lit "first"; lit "id2"]) false) =
    lit "user_first_id2".
Proof.
  assert (∀ w, (λ w, match w with c :: d :: r => is_lower_ascii c && is_lower_ascii d &&
    forallb (λ x, is_lower_ascii x || is_digit x) r | _ => false end) w = true → name_word w) as Hok.
  { intros [|c [|d r]]; try done. intros H. bool_to_prop. exists c, d, r. split_and!; [done..|].
    apply Forall_forall. intros x Hx. rewrite forallb_forall in H0. apply orb_true_iff, H0. by apply list_elem_of_In. }
  apply (camel_roundtrip (lit "user") [lit "first"; lit "id2"] false).
  - by apply Hok.
  - by repeat (constructor; [by apply Hok|]).
Defined.
