(* ===== verification/Crypto.v ===== *)
(** Token, digest and signature helpers (src/src/utils/crypto.rs).  The base64 crate, the
    hashes and the signature schemes are classes with their documented laws; base64 has an
    executable instance. *)
From S2P Require Import Prelude Method Routing Request Chain BasicAuth.
From stdpp Require Import base gmap strings list.
Open Scope Z_scope.

(** * Third-party code *)

(** An engine of the base64 crate: decoding inverts encoding and accepts only what encoding
    produces (trailing bits and padding are checked). *)
Record Engine := mkEngine {
  engine_encode : string → string;
  engine_decode : string → option string;
  engine_dec_enc s : engine_decode (engine_encode s) = Some s;
  engine_canonical e s : engine_decode e = Some s → engine_encode s = e
}.

(** [general_purpose::STANDARD] and [URL_SAFE_NO_PAD]; the URL-safe alphabet has no dot. *)
Class Base64 := {
  STANDARD : Engine;
  URL_SAFE_NO_PAD : Engine;
  url_safe_no_dot s : str_contains_char "." (engine_encode URL_SAFE_NO_PAD s) = false
}.

(** A signature scheme: RSA PKCS#1 v1.5 with SHA-256 or ECDSA on P-256.  The keys are read from PEM
    text, with the message of the error that the code reports. *)
Class Scheme := {
  SecretKey : Type;
  PublicKey : Type;
  Signature : Type;
  secret_of_pem : string → result string SecretKey;
  public_of_pem : string → result string PublicKey;
  key_pair : SecretKey → PublicKey → Prop;
  sign : SecretKey → string → Signature;
  verify : PublicKey → string → Signature → bool;
  to_bytes : Signature → string;
  from_bytes : string → result string Signature;
  from_to_bytes s : from_bytes (to_bytes s) = Ok s;
  verify_sign sk pk m : key_pair sk pk → verify pk m (sign sk m) = true
}.

(** SHA-256 and HMAC-SHA-256: 32 bytes. *)
Class Hashes := {
  sha256 : string → string;
  hmac_sha256 : string → string → string;
  sha256_length d : String.length (sha256 d) = 32%nat;
  hmac_sha256_length k d : String.length (hmac_sha256 k d) = 32%nat
}.

(** * Tokens *)

Definition token_alphabet : string :=
  "ABCDEFGHIJKLMNOPQRSTUVWXYZabcdefghijklmnopqrstuvwxyz0123456789-_".

Fixpoint string_of_chars (l : list ascii) : string :=
  match l with [] => "" | c :: l' => String c (string_of_chars l') end.

(** The indices are the generator's draws from [0..64]. *)
Definition random_token (draws : list Z) : string :=
  string_of_chars ((λ i, default "A"%char (String.get (Z.to_nat i) token_alphabet)) <$> draws).

(** * Digests *)

Definition hex_digit (n : Z) : ascii :=
  default "0"%char (String.get (Z.to_nat n) "0123456789abcdef").

(** The fold with [{:02x}]. *)
Definition hex_byte (b : ascii) : string :=
  let z := byte_of_ascii b in String (hex_digit (z / 16)) (String (hex_digit (z mod 16)) "").
Fixpoint hex_loop (bytes s : string) : string :=
  match bytes with
  | EmptyString => s
  | String b bytes' => hex_loop bytes' (s +:+ hex_byte b)
  end.
Definition hex_encode (bytes : string) : string := hex_loop bytes "".

Section digests.
Context `{Hashes}.
Definition hmac_sha256_hex (key data : string) : string := hex_encode (hmac_sha256 key data).
Definition hmac_sha256_bytes (key data : string) : string := hmac_sha256 key data.
Definition sha256_hex (data : string) : string := hex_encode (sha256 data).
End digests.

(** The accumulator is a [u8]; the loop runs over all pairs. *)
Fixpoint compare_loop (acc : Z) (a b : string) : Z :=
  match a, b with
  | String x a', String y b' =>
      compare_loop (Z.lor acc (Z.lxor (byte_of_ascii x) (byte_of_ascii y))) a' b'
  | _, _ => acc
  end.
Definition secure_compare (a b : string) : bool :=
  if negb (str_len a =? str_len b) then false else compare_loop 0 a b =? 0.

(** * Base64 and JSON web tokens *)

Section jwt.
Context `{B64 : Base64} `{U8 : Utf8}.

Definition b64_encode : string → string := engine_encode STANDARD.
Definition b64_decode : string → option string := engine_decode STANDARD.
Definition b64url_encode : string → string := engine_encode URL_SAFE_NO_PAD.
Definition b64url_decode : string → option string := engine_decode URL_SAFE_NO_PAD.

Context `{S : Scheme}.

Definition dot : string := ".".

(** [jwt_sign_rs256] and [jwt_sign_es256] differ in the header and the scheme. *)
Definition jwt_sign (header payload_json pem_key : string) : result string string :=
  let signing_input := b64url_encode header +:+ dot +:+ b64url_encode payload_json in
  pem ← (if valid_utf8 pem_key then Ok pem_key else Err "Invalid PEM encoding");
  sk ← secret_of_pem pem;
  Ok (signing_input +:+ dot +:+ b64url_encode (to_bytes (sign sk signing_input))).

(** [splitn(3, '.')] with three parts. *)
Definition splitn3 (token : string) : option (string * string * string) :=
  match str_split_once "." token with
  | Some (a, rest) => match str_split_once "." rest with Some (b, c) => Some (a, b, c) | None => None end
  | None => None
  end.

Definition jwt_verify (token pem_key : string) : result string string :=
  '(h, p, s) ← ok_or (splitn3 token) "Invalid JWT format";
  let signing_input := h +:+ dot +:+ p in
  pem ← (if valid_utf8 pem_key then Ok pem_key else Err "Invalid PEM encoding");
  pk ← public_of_pem pem;
  sig_bytes ← ok_or (b64url_decode s) "Invalid signature encoding";
  signature ← from_bytes sig_bytes;
  _ ← (if verify pk signing_input signature then Ok tt else Err "JWT signature verification failed");
  payload_bytes ← ok_or (b64url_decode p) "Invalid payload encoding";
  if valid_utf8 payload_bytes then Ok payload_bytes else Err "Invalid payload UTF-8".

Definition rs256_header : string :=
  "{" +:+ String dquote "alg" +:+ String dquote ":" +:+ String dquote "RS256" +:+ String dquote "," +:+
  String dquote "typ" +:+ String dquote ":" +:+ String dquote "JWT" +:+ String dquote "}".
Definition es256_header : string :=
  "{" +:+ String dquote "alg" +:+ String dquote ":" +:+ String dquote "ES256" +:+ String dquote "," +:+
  String dquote "typ" +:+ String dquote ":" +:+ String dquote "JWT" +:+ String dquote "}".

Definition jwt_sign_rs256 : string → string → result string string := jwt_sign rs256_header.
Definition jwt_sign_es256 : string → string → result string string := jwt_sign es256_header.
Definition jwt_verify_rs256 : string → string → result string string := jwt_verify.
Definition jwt_verify_es256 : string → string → result string string := jwt_verify.

Lemma splitn3_parts h p s :
  str_contains_char "." h = false → str_contains_char "." p = false →
  splitn3 (h +:+ dot +:+ p +:+ dot +:+ s) = Some (h, p, s).
Proof.
  intros Hh Hp. unfold splitn3. rewrite (proj2 (split_once_spec "." _ h (p +:+ dot +:+ s))) by done.
  by rewrite (proj2 (split_once_spec "." _ p s)).
Qed.

(** C20: a token verifies exactly when it is three parts separated by its first two dots, the third
    part is the URL-safe base64 of a signature that the scheme accepts for the first two parts
    as they stand, and the second part decodes to UTF-8 text, which is the result.  The first
    part, the header that names the algorithm, is never decoded. *)
Theorem jwt_verify_spec token pem payload :
  jwt_verify token pem = Ok payload ↔
  ∃ h p s pk sg, token = h +:+ dot +:+ p +:+ dot +:+ s ∧
    str_contains_char "." h = false ∧ str_contains_char "." p = false ∧
    valid_utf8 pem = true ∧ public_of_pem pem = Ok pk ∧
    b64url_decode s ≫= (λ b, match from_bytes b with Ok g => Some g | Err _ => None end) = Some sg ∧
    verify pk (h +:+ dot +:+ p) sg = true ∧
    b64url_decode p = Some payload ∧ valid_utf8 payload = true.
Proof.
  unfold jwt_verify. split.
  - destruct (splitn3 token) as [[[h p] s]|] eqn:Hs; simpl; [|done].
    unfold splitn3 in Hs. destruct (str_split_once "." token) as [[a rest]|] eqn:H1; [|done].
    destruct (str_split_once "." rest) as [[b c]|] eqn:H2; [|done]. simplify_eq/=.
    apply split_once_spec in H1 as [-> Hh]. apply split_once_spec in H2 as [-> Hp].
    destruct (valid_utf8 pem) eqn:Hu; simpl; [|done].
    destruct (public_of_pem pem) as [pk|] eqn:Hk; simpl; [|done].
    destruct (b64url_decode s) as [sb|] eqn:Hb; simpl; [|done].
    destruct (from_bytes sb) as [g|] eqn:Hg; simpl; [|done].
    destruct (verify pk _ g) eqn:Hv; simpl; [|done].
    destruct (b64url_decode p) as [pb|] eqn:Hpb; simpl; [|done].
    destruct (valid_utf8 pb) eqn:Hpu; simpl; [|done]. intros [= <-].
    exists h, p, s, pk, g. rewrite Hb. simpl. rewrite Hg. by split_and!.
  - intros (h & p & s & pk & sg & -> & Hh & Hp & Hu & Hk & Hs & Hv & Hpb & Hpu).
    rewrite splitn3_parts by done. simpl. rewrite Hu. simpl. rewrite Hk. simpl.
    destruct (b64url_decode s) as [sb|]; simpl in *; [|done].
    destruct (from_bytes sb) as [g|]; simpl in *; [|done]. simplify_eq.
    rewrite Hv. simpl. rewrite Hpb. simpl. by rewrite Hpu.
Qed.

(** what is signed verifies: with the keys of a pair, whatever the header, a signed token
    gives back the payload. *)
Theorem jwt_roundtrip header payload sk_pem pk_pem sk pk :
  valid_utf8 sk_pem = true → secret_of_pem sk_pem = Ok sk →
  valid_utf8 pk_pem = true → public_of_pem pk_pem = Ok pk →
  key_pair sk pk → valid_utf8 payload = true →
  ∃ token, jwt_sign header payload sk_pem = Ok token ∧ jwt_verify token pk_pem = Ok payload.
Proof.
  intros Hu Hs Hu' Hp Hk Hpl. unfold jwt_sign. rewrite Hu. simpl. rewrite Hs. simpl. eexists. split; [done|].
  unfold jwt_verify. rewrite <- !(assoc_L String.append).
  rewrite splitn3_parts by apply url_safe_no_dot. simpl. rewrite Hu'. simpl. rewrite Hp. simpl.
  unfold b64url_decode, b64url_encode. rewrite !engine_dec_enc. simpl. rewrite from_to_bytes. simpl.
  rewrite verify_sign by done. simpl. by rewrite Hpl.
Qed.
End jwt.

(** * Comparison and hexadecimal *)

Lemma byte_of_ascii_inj a b : byte_of_ascii a = byte_of_ascii b → a = b.
Proof.
  unfold byte_of_ascii. intros Heq%N2Z.inj. by rewrite <- (ascii_N_embedding a), Heq, ascii_N_embedding.
Qed.

(** The accumulator is zero exactly when it was zero and all compared bytes agree. *)
Lemma compare_loop_zero a b acc :
  0 <= acc → String.length a = String.length b → compare_loop acc a b = 0 ↔ acc = 0 ∧ a = b.
Proof.
  revert b acc. induction a as [|x a IH]; intros [|y b] acc Hacc Hl; simplify_eq/=; [tauto|].
  assert (0 <= Z.lxor (byte_of_ascii x) (byte_of_ascii y)) as Hx.
  { apply Z.lxor_nonneg. pose proof (byte_of_ascii_range x). pose proof (byte_of_ascii_range y). lia. }
  rewrite IH by (rewrite ?Z.lor_nonneg; lia || done). rewrite Z.lor_eq_0_iff, Z.lxor_eq_0_iff.
  split; [intros [[-> ?%byte_of_ascii_inj] ->]; by subst|intros [-> [= -> ->]]; done].
Qed.

Lemma secure_compare_spec a b : secure_compare a b = true ↔ a = b.
Proof.
  unfold secure_compare, str_len. destruct (Z.eqb_spec (Z.of_nat (String.length a)) (Z.of_nat (String.length b))); simpl.
  - rewrite Z.eqb_eq, compare_loop_zero by lia. tauto.
  - split; [done|]. by intros ->.
Qed.

(** A reader of lowercase hexadecimal. *)
Definition hex_value (c : ascii) : option Z := position c "0123456789abcdef".
Fixpoint hex_decode (s : string) : option string :=
  match s with
  | EmptyString => Some EmptyString
  | String h (String l s') =>
      match hex_value h, hex_value l, hex_decode s' with
      | Some a, Some b, Some r => Some (String (byte (a * 16 + b)) r)
      | _, _, _ => None
      end
  | _ => None
  end.

Lemma hex_value_digit n : 0 <= n < 16 → hex_value (hex_digit n) = Some n.
Proof.
  intros Hn. apply (forallb_range (λ v, bool_decide (hex_value (hex_digit v) = Some v))) in Hn;
    [by apply bool_decide_eq_true in Hn|]. vm_compute. reflexivity.
Qed.

Lemma hex_loop_app b s : hex_loop b s = s +:+ hex_loop b "".
Proof.
  revert s. induction b as [|c b IH]; intros s; cbn [hex_loop]; [by rewrite str_app_nil_r|].
  rewrite IH, (IH ("" +:+ hex_byte c)), str_app_nil_l. by rewrite (assoc_L String.append).
Qed.

Lemma hex_encode_cons c b : hex_encode (String c b) = hex_byte c +:+ hex_encode b.
Proof. unfold hex_encode. cbn [hex_loop]. by rewrite hex_loop_app, str_app_nil_l. Qed.

(** the hexadecimal digests: two lowercase digits per byte, from which the bytes are
    recovered, so that comparing two digests (in constant time or not) compares the hashes. *)
Theorem hex_roundtrip b :
  hex_decode (hex_encode b) = Some b ∧ String.length (hex_encode b) = (2 * String.length b)%nat ∧
  ∀ b', secure_compare (hex_encode b) (hex_encode b') = true ↔ b = b'.
Proof.
  assert (∀ b, hex_decode (hex_encode b) = Some b) as Hr.
  { clear b. intros b. induction b as [|c b IH]; [done|]. rewrite hex_encode_cons. unfold hex_byte.
    rewrite !str_app_cons, str_app_nil_l. cbn [hex_decode].
    pose proof (byte_of_ascii_range c) as Hc.
    rewrite !hex_value_digit, IH by (split; [apply Z.div_pos || apply Z.mod_pos_bound; lia|]; try (apply Z.div_lt_upper_bound; lia); apply Z.mod_pos_bound; lia).
    rewrite (Z.mul_comm _ 16), <- Z.div_mod by lia. by rewrite byte_byte_of_ascii. }
  split; [done|]. split.
  - induction b as [|c b IH]; [done|]. rewrite hex_encode_cons, str_length_app, IH. simpl. lia.
  - intros b'. rewrite secure_compare_spec. split; [|by intros ->].
    intros Heq%(f_equal hex_decode). rewrite !Hr in Heq. by simplify_eq.
Qed.

(** Every draw gives a URL-safe character. *)
Lemma random_token_length draws : String.length (random_token draws) = length draws.
Proof. unfold random_token. induction draws as [|d l IH]; [done|]. rewrite fmap_cons. cbn [string_of_chars String.length length]. by rewrite IH. Qed.

(** * The executable engine *)

Definition to_url (c : ascii) : ascii := if Ascii.eqb c "+" then "-" else if Ascii.eqb c "/" then "_" else c.
Definition of_url (c : ascii) : ascii := if Ascii.eqb c "-" then "+" else if Ascii.eqb c "_" then "/" else c.
Definition url_encode (s : string) : string := str_map to_url (trim_end_char "=" (base64_encode s)).

(** Decoding checks that encoding gives the text back. *)
Definition checked (enc : string → string) (dec : string → option string) (e : string) : option string :=
  match dec e with Some s => if String.eqb (enc s) e then Some s else None | None => None end.

Definition in_alphabet (c : ascii) : bool := bool_decide (is_Some (position c alphabet)).

Lemma decode_loop_alphabet s buffer bits r :
  decode_loop buffer bits s = Some r → str_forall in_alphabet s = true.
Proof.
  revert buffer bits r. induction s as [|c s IH]; intros buffer bits r; [done|].
  cbn [decode_loop str_forall]. destruct (position c alphabet) as [v|] eqn:E; [|done]. cbn [mbind option_bind].
  intros Hd. apply andb_true_iff. split; [apply bool_decide_eq_true; by rewrite E|].
  case_match; [|by eapply IH]. destruct (decode_loop _ _ s) eqn:Hs; [|done]. by eapply IH.
Qed.

Lemma of_to_url c : in_alphabet c = true → of_url (to_url c) = c.
Proof. destruct c as [[] [] [] [] [] [] [] []]; vm_compute; done. Qed.

Lemma to_url_no_dot c : in_alphabet c = true → Ascii.eqb (to_url c) "." = false.
Proof. destruct c as [[] [] [] [] [] [] [] []]; vm_compute; done. Qed.

(** What encoding leaves before the padding. *)
Lemma encode_body s :
  ∃ body, trim_end_char "=" (base64_encode s) = body ∧ str_forall in_alphabet body = true ∧
    base64_decode body = Some s.
Proof.
  destruct (encode_decompose s) as (body & pad & He & Hp & Hb & Hd). exists body.
  rewrite He, trim_padding by done. split; [done|]. split; [by eapply decode_loop_alphabet|].
  unfold base64_decode. rewrite <- (str_app_nil_r body), trim_padding by done. done.
Qed.

Lemma of_to_url_str s : str_forall in_alphabet s = true → str_map of_url (str_map to_url s) = s.
Proof. induction s as [|c s IH]; [done|]. cbn [str_forall str_map]. intros H. bool_to_prop. by rewrite of_to_url, IH. Qed.

Lemma checked_encode enc dec s : dec (enc s) = Some s → checked enc dec (enc s) = Some s.
Proof. intros H. unfold checked. by rewrite H, String.eqb_refl. Qed.

Lemma checked_canonical enc dec e s : checked enc dec e = Some s → enc s = e.
Proof. unfold checked. destruct (dec e); [|done]. destruct (String.eqb_spec (enc s0) e); [by intros [= <-]|done]. Qed.

Definition standard_engine : Engine :=
  mkEngine base64_encode (checked base64_encode base64_decode)
    (λ s, checked_encode _ _ s (base64_roundtrip s)) (checked_canonical _ _).

Lemma url_decode_encode s : base64_decode (str_map of_url (url_encode s)) = Some s.
Proof.
  destruct (encode_body s) as (body & He & Hb & Hd). unfold url_encode. by rewrite He, of_to_url_str.
Qed.

Definition url_engine : Engine :=
  mkEngine url_encode (checked url_encode (λ e, base64_decode (str_map of_url e)))
    (λ s, checked_encode url_encode (λ e, base64_decode (str_map of_url e)) s (url_decode_encode s)) (checked_canonical _ _).

#[refine] Instance rfc4648_Base64 : Base64 := { STANDARD := standard_engine; URL_SAFE_NO_PAD := url_engine }.
Proof.
  intros s. destruct (encode_body s) as (body & He & Hb & _). cbn [engine_encode url_engine]. unfold url_encode.
  rewrite He. clear -Hb. induction body as [|c body IH]; [done|]. cbn [str_forall str_map str_contains_char] in *.
  bool_to_prop. by rewrite to_url_no_dot, IH.
Defined.

(** A toy scheme: a signature is the key and the text. *)
#[refine] Instance toy_Scheme : Scheme := {
  SecretKey := string; PublicKey := string; Signature := string;
  secret_of_pem s := Ok s; public_of_pem s := Ok s; key_pair sk pk := sk = pk;
  sign sk m := sk +:+ m; verify pk m g := String.eqb g (pk +:+ m);
  to_bytes g := g; from_bytes b := Ok b
}.
Proof. { done. } intros sk pk m ->. apply String.eqb_refl. Defined.

Lemma jwt_roundtrip_witness :
  ∃ token, jwt_sign rs256_header "{}" "key" = Ok token ∧ jwt_verify token "key" = Ok "{}".
Proof. apply (jwt_roundtrip (S := toy_Scheme) rs256_header "{}" "key" "key" ("key" : string) ("key" : string)); reflexivity. Defined.
