(* ===== verification/Paginate.v ===== *)
(** Pagination and cursors (src/src/utils/pagination.rs) and relative times
    (src/src/utils/time_utils.rs). *)
From S2P Require Import Prelude Method Routing Request Chain BasicAuth Crypto.
From Stdlib Require Import Zify.
From stdpp Require Import base gmap strings list.
Open Scope Z_scope.

(** * Pages *)

Record PageInfo := mkPageInfo {
  total : Z;
  page : Z;
  per_page : Z;
  total_pages : Z;
  has_next : bool;
  has_prev : bool;
  offset : Z;
  from_item : Z;
  to_item : Z
}.

(** [Ord::clamp] panics when the bounds are crossed. *)
Definition clamp (x lo hi : Z) : option Z :=
  if hi <? lo then None else Some (if x <? lo then lo else if hi <? x then hi else x).

(** [None] is a panic. *)
Definition paginate (tot pg per : Z) : option PageInfo :=
  per ← clamp per 1 10000;
  let pages := if tot =? 0 then 1 else w64 (w64 (tot + per) - 1) / per in
  pg ← clamp pg 1 pages;
  let off := w64 ((pg - 1) * per) in
  let '(from, to) := if tot =? 0 then (0, 0) else (off + 1, Z.min (w64 (off + per)) tot) in
  Some (mkPageInfo tot pg per pages (pg <? pages) (1 <? pg) off from to).

Definition to_dict (i : PageInfo) : list (string * (Z + bool)) :=
  [("total", inl (total i)); ("page", inl (page i)); ("per_page", inl (per_page i));
   ("total_pages", inl (total_pages i)); ("has_next", inr (has_next i)); ("has_prev", inr (has_prev i));
   ("offset", inl (offset i)); ("from", inl (from_item i)); ("to", inl (to_item i))].

Lemma clamp_some x lo hi : lo <= hi → clamp x lo hi = Some (Z.max lo (Z.min x hi)).
Proof.
  intros Hl. unfold clamp. rewrite (proj2 (Z.ltb_ge hi lo)) by done.
  destruct (Z.ltb_spec x lo); [f_equal; lia|]. destruct (Z.ltb_spec hi x); f_equal; lia.
Qed.

(** [usize] does not overflow while the total is not within a page of the maximum. *)
Lemma paginate_eq tot pg per :
  is_u64 tot → let pp := Z.max 1 (Z.min per 10000) in
  tot + pp - 1 <= u64_max →
  let pages := if tot =? 0 then 1 else (tot + pp - 1) / pp in
  let p := Z.max 1 (Z.min pg pages) in
  1 <= pages ∧ (0 < tot → (pages - 1) * pp < tot <= pages * pp) ∧
  paginate tot pg per = Some (mkPageInfo tot p pp pages (p <? pages) (1 <? p) ((p - 1) * pp)
    (if tot =? 0 then 0 else (p - 1) * pp + 1) (if tot =? 0 then 0 else Z.min (p * pp) tot)).
Proof.
  intros Ht pp Hov pages p. assert (1 <= pp <= 10000) as Hpp by lia. unfold is_u64, u64_max in *.
  assert (0 < tot → (pages - 1) * pp < tot <= pages * pp) as Hpages.
  { intros H0. unfold pages. rewrite (proj2 (Z.eqb_neq tot 0)) by lia.
    pose proof (Z.div_mod (tot + pp - 1) pp ltac:(lia)). pose proof (Z.mod_pos_bound (tot + pp - 1) pp ltac:(lia)). nia. }
  assert (1 <= pages) as H1.
  { unfold pages. destruct (Z.eqb_spec tot 0); [done|]. apply Z.div_le_lower_bound; lia. }
  split; [done|]. split; [done|]. unfold paginate. rewrite clamp_some by done. fold pp. cbn [mbind option_bind].
  assert (w64 (w64 (tot + pp) - 1) = tot + pp - 1) as ->.
  { unfold w64. rewrite Zminus_mod_idemp_l. apply Z.mod_small. lia. }
  fold pages. rewrite clamp_some by done. fold p. cbn [mbind option_bind].
  destruct (Z.eqb_spec tot 0) as [->|H0].
  - assert (pages = 1) as -> by done. assert (p = 1) as -> by lia. done.
  - assert ((p - 1) * pp < tot) as Hoff by (specialize (Hpages ltac:(lia)); nia).
    assert (0 <= (p - 1) * pp) by nia.
    rewrite (w64_id ((p - 1) * pp)), w64_id by (unfold is_u64, u64_max; lia).
    repeat f_equal. lia.
Qed.

(** C39: the pages partition the items.  When the total and a page exceed 2^64 the number of
    pages wraps to zero and the call panics.  Otherwise the page is within the total number of
    pages, starts at item [offset + 1], is not empty unless there are no items, and has at most
    [per_page] items; and every item from 1 to the total is on exactly one page. *)
Theorem paginate_partition tot pg per :
  is_u64 tot → is_u64 pg →
  let pp := Z.max 1 (Z.min per 10000) in
  (u64_max + 1 < tot + pp → paginate tot pg per = None) ∧
  (tot + pp - 1 <= u64_max →
   (∃ i, paginate tot pg per = Some i ∧ 1 <= page i <= total_pages i ∧ per_page i = pp ∧
      (has_next i = true ↔ page i < total_pages i) ∧ (has_prev i = true ↔ 1 < page i) ∧
      (0 < tot → from_item i = offset i + 1 ∧ from_item i <= to_item i <= tot ∧ to_item i - from_item i < pp)) ∧
   ∀ k, 1 <= k <= tot →
     ∃ p, 1 <= p ∧ ∀ q, is_u64 q →
       (∃ i, paginate tot q per = Some i ∧ page i = q ∧ from_item i <= k <= to_item i) ↔ q = p).
Proof.
  intros Ht Hp pp. split.
  - intros Hov. unfold paginate. rewrite clamp_some by done. fold pp. cbn [mbind option_bind].
    assert (1 <= pp <= 10000) by lia. unfold is_u64, u64_max in *. rewrite (proj2 (Z.eqb_neq tot 0)) by lia.
    assert (w64 (w64 (tot + pp) - 1) / pp = 0) as ->; [|done].
    unfold w64. rewrite Zminus_mod_idemp_l.
    assert ((tot + pp - 1) mod 2 ^ 64 = tot + pp - 1 - 2 ^ 64) as ->.
    { symmetry. apply (Z.mod_unique _ _ 1); lia. }
    apply Z.div_small. lia.
  - intros Hov. assert (1 <= pp <= 10000) as Hpp by lia. split.
    + destruct (paginate_eq tot pg per Ht Hov) as (H1 & H2 & Heq). fold pp in H1, H2, Heq.
      set (pages := if tot =? 0 then 1 else (tot + pp - 1) / pp) in *.
      eexists. split; [exact Heq|]. cbn [page total_pages per_page has_next has_prev from_item to_item offset].
      rewrite !Z.ltb_lt. split; [lia|]. split; [done|]. split; [done|]. split; [done|].
      intros H0. rewrite (proj2 (Z.eqb_neq tot 0)) by lia. specialize (H2 H0).
      split; [done|]. split; [nia|lia].
    + intros k Hk. exists ((k - 1) / pp + 1).
      pose proof (Z.div_mod (k - 1) pp ltac:(lia)) as Hd. pose proof (Z.mod_pos_bound (k - 1) pp ltac:(lia)) as Hm.
      set (d := (k - 1) / pp) in *. assert (0 <= d) by (apply Z.div_pos; lia). split; [lia|].
      intros q Hq. destruct (paginate_eq tot q per Ht Hov) as (H1 & H2 & Heq). fold pp in H1, H2, Heq.
      set (pages := if tot =? 0 then 1 else (tot + pp - 1) / pp) in *.
      rewrite (proj2 (Z.eqb_neq tot 0)) in Heq by lia. specialize (H2 ltac:(lia)). split.
      * intros (i & Hi & Hpg & Hfrom). rewrite Heq in Hi. injection Hi as <-.
        cbn [page from_item to_item] in *. rewrite Hpg in Hfrom. nia.
      * intros ->. eexists. split; [exact Heq|]. cbn [page from_item to_item].
        assert (d + 1 <= pages) by nia. replace (Z.max 1 (Z.min (d + 1) pages)) with (d + 1) by lia.
        split; [done|]. split; [lia|]. nia.
Qed.

Lemma paginate_partition_witness :
  paginate u64_max 1 20 = None ∧
  ∃ p, 1 <= p ∧ ∀ q, is_u64 q →
    (∃ i, paginate 95 q 10 = Some i ∧ page i = q ∧ from_item i <= 34 <= to_item i) ↔ q = p.
Proof.
  split.
  - apply (proj1 (paginate_partition u64_max 1 20 ltac:(done) ltac:(done))). done.
  - apply (proj2 (proj2 (paginate_partition 95 1 10 ltac:(done) ltac:(done)) ltac:(done))). done.
Defined.

Example paginate_example : to_dict <$> paginate 95 2 10 =
  Some [("total", inl 95); ("page", inl 2); ("per_page", inl 10); ("total_pages", inl 10);
        ("has_next", inr true); ("has_prev", inr true); ("offset", inl 10); ("from", inl 11); ("to", inl 20)].
Proof. reflexivity. Qed.

(** * Cursors *)

(** [u64::to_be_bytes] and [u64::from_be_bytes]. *)
Fixpoint be_bytes (n : nat) (z : Z) : string :=
  match n with
  | O => EmptyString
  | S n' => String (byte (z / 256 ^ Z.of_nat n')) (be_bytes n' z)
  end.
Fixpoint from_be_bytes (acc : Z) (s : string) : Z :=
  match s with
  | EmptyString => acc
  | String a s' => from_be_bytes (acc * 256 + byte_of_ascii a) s'
  end.

Lemma byte_of_ascii_byte z : byte_of_ascii (byte z) = z mod 256.
Proof.
  unfold byte, byte_of_ascii. pose proof (Z.mod_pos_bound z 256 ltac:(lia)).
  rewrite N_ascii_embedding by lia. lia.
Qed.

Lemma length_be_bytes n z : String.length (be_bytes n z) = n.
Proof. induction n as [|n IH]; [done|]. simpl. by rewrite IH. Qed.

Lemma from_be_bytes_split n z acc :
  0 <= z → from_be_bytes acc (be_bytes n z) = acc * 256 ^ Z.of_nat n + z mod 256 ^ Z.of_nat n.
Proof.
  intros Hz. revert acc. induction n as [|n IH]; intros acc; cbn [be_bytes from_be_bytes].
  - change (256 ^ Z.of_nat 0) with 1. rewrite Z.mod_1_r. lia.
  - rewrite IH, byte_of_ascii_byte, Nat2Z.inj_succ, Z.pow_succ_r by lia.
    rewrite (Z.mul_comm 256), Z.rem_mul_r by lia. lia.
Qed.

Lemma be_bytes_combine s acc :
  0 <= acc → be_bytes (String.length s) (from_be_bytes acc s) = s.
Proof.
  revert acc. induction s as [|a s IH]; intros acc Hacc; [done|]. cbn [String.length be_bytes from_be_bytes].
  pose proof (byte_of_ascii_range a). rewrite IH by lia. f_equal.
  assert (∀ s b, 0 <= b → from_be_bytes b s / 256 ^ Z.of_nat (String.length s) = b) as Hdiv.
  { clear. induction s as [|a s IH]; intros b Hb; cbn [String.length from_be_bytes]; [by rewrite Z.div_1_r|].
    pose proof (byte_of_ascii_range a).
    rewrite Nat2Z.inj_succ, Z.pow_succ_r, (Z.mul_comm 256), <- Z.div_div, IH by lia. 
    rewrite Z.div_add_l, (Z.div_small (byte_of_ascii a)) by lia. lia. }
  rewrite Hdiv by lia. unfold byte. rewrite Z.add_comm, Z.mod_add by lia.
  rewrite Z.mod_small by lia. by rewrite <- (byte_byte_of_ascii a) at 2; unfold byte; rewrite Z.mod_small by lia.
Qed.

Lemma from_be_bytes_range s : 0 <= from_be_bytes 0 s < 256 ^ Z.of_nat (String.length s).
Proof.
  assert (∀ s b, 0 <= b → b * 256 ^ Z.of_nat (String.length s) <= from_be_bytes b s < (b + 1) * 256 ^ Z.of_nat (String.length s)) as H.
  { clear. induction s as [|a s IH]; intros b Hb; cbn [String.length from_be_bytes]; [lia|].
    pose proof (byte_of_ascii_range a). specialize (IH (b * 256 + byte_of_ascii a) ltac:(lia)).
    rewrite Nat2Z.inj_succ, Z.pow_succ_r by lia. nia. }
  specialize (H s 0 ltac:(lia)). lia.
Qed.

Section cursor.
Context `{B64 : Base64}.

Definition encode_cursor (off : Z) : string := b64url_encode (be_bytes 8 off).

Definition decode_cursor (cursor : string) : Z :=
  match b64url_decode cursor with
  | Some b => if Nat.eqb (String.length b) 8 then from_be_bytes 0 b else 0
  | None => 0
  end.

(** cursors: every offset comes back from its cursor, the decoder gives an offset for any
    text, and no text but the cursor of an offset decodes to it, except zero, which is also
    the answer for text that is not a cursor. *)
Theorem cursor_roundtrip off :
  is_u64 off →
  decode_cursor (encode_cursor off) = off ∧
  ∀ c, is_u64 (decode_cursor c) ∧ (decode_cursor c = off → off ≠ 0 → c = encode_cursor off).
Proof.
  intros Ho. unfold is_u64, u64_max in *. split.
  - unfold decode_cursor, encode_cursor, b64url_decode, b64url_encode. rewrite engine_dec_enc, length_be_bytes.
    cbn [Nat.eqb]. rewrite from_be_bytes_split by lia. apply Z.mod_small. change (256 ^ Z.of_nat 8) with (2 ^ 64). lia.
  - intros c. unfold decode_cursor, encode_cursor, b64url_decode, b64url_encode.
    destruct (engine_decode URL_SAFE_NO_PAD c) as [b|] eqn:Hd; [|split; [lia|congruence]].
    destruct (Nat.eqb_spec (String.length b) 8) as [Hl|]; [|split; [lia|congruence]].
    pose proof (from_be_bytes_range b) as Hr. rewrite Hl in Hr. change (256 ^ Z.of_nat 8) with (2 ^ 64) in Hr.
    split; [lia|]. intros <- _. rewrite <- Hl at 1. rewrite be_bytes_combine by lia.
    symmetry. by apply engine_canonical.
Qed.
End cursor.

(** The documentation's example shows another text for 40. *)
Example encode_cursor_40 : encode_cursor 40 = "AAAAAAAAACg".
Proof. vm_compute. reflexivity. Qed.

Lemma cursor_roundtrip_witness : decode_cursor (encode_cursor 40) = 40.
Proof. apply (proj1 (cursor_roundtrip 40 ltac:(done))). Defined.

(** * Times *)

(** Clock readings are arguments; [i64] arithmetic wraps. *)
Definition ms_to_sec (ms : Z) : Z := Z.quot ms 1000.
Definition sec_to_ms (sec : Z) : Z := i64 (sec * 1000).
Definition elapsed_ms (now start_ms : Z) : Z := i64 (now - start_ms).

Definition plural (n : Z) (unit_name : string) : string :=
  if n =? 1 then "1 " +:+ unit_name else dec n +:+ " " +:+ unit_name +:+ "s".

Definition relative_label (abs : Z) : string :=
  if abs <? 60 then dec abs +:+ " seconds"
  else if abs <? 3600 then plural (abs / 60) "minute"
  else if abs <? 86400 then plural (abs / 3600) "hour"
  else if abs <? 86400 * 30 then plural (abs / 86400) "day"
  else if abs <? 86400 * 365 then plural (abs / (86400 * 30)) "month"
  else plural (abs / (86400 * 365)) "year".

Definition format_relative (diff_secs : Z) : string :=
  let abs := Z.abs diff_secs in
  if abs <? 10 then "just now"
  else
    let '(prefix, suffix) := if 0 <? diff_secs then ("", " ago") else ("in ", "") in
    prefix +:+ relative_label abs +:+ suffix.

Definition relative_time (now ts_secs : Z) : string := format_relative (i64 (now - ts_secs)).

(** The units of the labels, in seconds. *)
Definition units : list (string * Z) :=
  [("second", 1); ("minute", 60); ("hour", 3600); ("day", 86400); ("month", 86400 * 30); ("year", 86400 * 365)].

(** a relative time names the whole number of units that have passed, or are to come,
    in the largest unit that is at least one, with a plural for every other number than one; within
    ten seconds it is just now. *)
Theorem relative_time_units now ts :
  - 2 ^ 63 <= now - ts < 2 ^ 63 →
  (relative_time now ts = "just now" ∧ Z.abs (now - ts) < 10) ∨
  ∃ name size n, (name, size) ∈ units ∧ 1 <= n ∧ n * size <= Z.abs (now - ts) < (n + 1) * size ∧
    (∀ name' size', (name', size') ∈ units → size < size' → Z.abs (now - ts) < size') ∧
    let label := plural n name in
    relative_time now ts = if ts <? now then label +:+ " ago" else "in " +:+ label.
Proof.
  intros Hd. unfold relative_time. assert (i64 (now - ts) = now - ts) as -> by (unfold i64; rewrite Z.mod_small; lia).
  unfold format_relative. set (a := Z.abs (now - ts)).
  destruct (Z.ltb_spec a 10) as [|H10]; [by left|right].
  assert (∃ name size n, (name, size) ∈ units ∧ 1 <= n ∧ n * size <= a < (n + 1) * size ∧
    (∀ name' size', (name', size') ∈ units → size < size' → a < size') ∧ relative_label a = plural n name) as
    (name & size & n & H1 & H2 & H3 & H4 & H5).
  { unfold relative_label.
    assert (∀ name size, 0 < size → (name, size) ∈ units → size <= a →
      (∀ name' size', (name', size') ∈ units → size < size' → a < size') →
      ∃ name0 size0 n, (name0, size0) ∈ units ∧ 1 <= n ∧ n * size0 <= a < (n + 1) * size0 ∧
      (∀ name' size', (name', size') ∈ units → size0 < size' → a < size') ∧
      plural (a / size) name = plural n name0) as Hu.
    { intros name size Hs Hin Hle Hmax. exists name, size, (a / size).
      pose proof (Z.div_mod a size ltac:(lia)). pose proof (Z.mod_pos_bound a size Hs).
      assert (1 <= a / size) by (apply Z.div_le_lower_bound; lia).
      split_and!; [done|done|lia|lia|done|done]. }
    assert (∀ name' size', (name', size') ∈ units → size' = 1 ∨ size' = 60 ∨ size' = 3600 ∨ size' = 86400 ∨
      size' = 86400 * 30 ∨ size' = 86400 * 365) as Hunits.
    { intros name' size'. unfold units. rewrite !elem_of_cons, elem_of_nil. naive_solver. }
    repeat match goal with |- context [?x <? ?y] => destruct (Z.ltb_spec x y) end;
      [|apply Hu; [lia| |lia|intros ? ? ?%Hunits ?; lia]; unfold units; set_solver..].
    destruct (Hu "second" 1) as (n0 & s0 & m & H1' & H2' & H3' & H4' & H5'); [lia|unfold units; set_solver|lia|
      intros ? ? ?%Hunits ?; lia|].
    exists n0, s0, m. split; [done|]. split; [done|]. split; [done|]. split; [done|]. rewrite <- H5', Z.div_1_r. unfold plural.
    by rewrite (proj2 (Z.eqb_neq a 1)) by lia. }
  exists name, size, n. split; [done|]. split; [done|]. split; [done|]. split; [done|]. rewrite H5.
  destruct (Z.ltb_spec 0 (now - ts)), (Z.ltb_spec ts now); try lia; [done|]. by rewrite str_app_nil_r.
Qed.

Example relative_time_example : relative_time 10000 6300 = "1 hour ago".
Proof. vm_compute. reflexivity. Qed.

Lemma relative_time_units_witness :
  ∃ name size n, (name, size) ∈ units ∧ n * size <= 3700 < (n + 1) * size ∧
    relative_time 10000 6300 = plural n name +:+ " ago".
Proof.
  destruct (relative_time_units 10000 6300 ltac:(lia)) as [[_ H]|(name & size & n & H1 & _ & H3 & _ & H5)];
    [by vm_compute in H|]. by exists name, size, n.
Defined.

(** * The clock and dates *)

(** [SystemTime::now()] relative to the epoch, in nanoseconds: [None] before it. *)
Definition now_ms (since_epoch : option Z) : Z := match since_epoch with Some d => i64 (d / 1000000) | None => 0 end.
Definition now_sec (since_epoch : option Z) : Z := match since_epoch with Some d => i64 (d / 1000000000) | None => 0 end.

(** What is used of chrono: instants, dates without a zone, and their texts.  A text printed with a
    full date, a time with milliseconds and a final Z is a text of RFC 3339, for years of four
    digits, and names the same second. *)
Class Chrono := {
  utc : Type;
  naive : Type;
  naive_date : Type;
  from_timestamp : Z → option utc;
  timestamp : utc → Z;
  format_utc : string → utc → string;
  parse_from_rfc3339 : string → option utc;
  naive_parse : string → string → option naive;
  date_parse : string → string → option naive_date;
  from_utc_datetime : naive → utc;
  midnight : naive_date → naive;
  four_digit_years t : -62135596800 <= t < 253402300800 →
    ∃ d, from_timestamp t = Some d ∧ timestamp d = t ∧
      ∃ d', parse_from_rfc3339 (format_utc "%Y-%m-%dT%H:%M:%S%.3fZ" d) = Some d' ∧ timestamp d' = t
}.

Section dates.
Context `{CR : Chrono}.

Definition now_iso (now : utc) : string := format_utc "%Y-%m-%dT%H:%M:%S%.3fZ" now.

Definition format_timestamp (ts_secs : Z) : string :=
  match from_timestamp ts_secs with
  | Some dt => format_utc "%Y-%m-%dT%H:%M:%S%.3fZ" dt
  | None => "invalid timestamp"
  end.

(** The first of three formats that fits. *)
Fixpoint try_formats (fmts : list string) (s : string) : option naive :=
  match fmts with
  | [] => None
  | fmt :: fmts' => match naive_parse s fmt with Some ndt => Some ndt | None => try_formats fmts' s end
  end.

Definition parse_iso (s : string) : option Z :=
  match parse_from_rfc3339 s with
  | Some dt => Some (timestamp dt)
  | None =>
      match try_formats ["%Y-%m-%dT%H:%M:%S%.f"; "%Y-%m-%dT%H:%M:%S"; "%Y-%m-%d %H:%M:%S"] s with
      | Some ndt => Some (timestamp (from_utc_datetime ndt))
      | None => nd ← date_parse s "%Y-%m-%d"; Some (timestamp (from_utc_datetime (midnight nd)))
      end
  end.

(** A printed time stamp of the years 1 to 9999 is read back. *)
Theorem timestamp_roundtrip t : -62135596800 <= t < 253402300800 → parse_iso (format_timestamp t) = Some t.
Proof.
  intros Ht. destruct (four_digit_years t Ht) as (d & Hd & _ & d' & Hp & Ht').
  unfold parse_iso, format_timestamp. by rewrite Hd, Hp, Ht'.
Qed.
End dates.
