(* ===== verification/StaticFiles.v ===== *)
(** Static files (src/src/fast_path/static_files.rs).  The file system is an argument: what is at
    a path, read when a file is loaded. *)
From S2P Require Import Prelude.
From stdpp Require Import base gmap strings list.
Open Scope Z_scope.

(** * The file system *)

(** A regular file: its bytes, its modification time in seconds when it has one, whether it can
    be opened, read and mapped. *)
Inductive node :=
| Directory
| Regular (content : string) (modified : option Z) (readable : bool).

Notation Fs := (string → option node).

(** [Path::join] of a relative path. *)
Fixpoint last_char (s : string) : option ascii :=
  match s with
  | EmptyString => None
  | String c EmptyString => Some c
  | String _ s' => last_char s'
  end.
Definition join_path (root path : string) : string :=
  match last_char root with
  | None => path
  | Some c => if Ascii.eqb c "/" then root +:+ path else root +:+ "/" +:+ path
  end.

(** [Path::extension]: of the last component, after its last dot, unless that dot begins it. *)
Definition file_name (path : string) : string :=
  default "" (last (filter (λ c, c ≠ "" ∧ c ≠ ".") (str_split "/" path))).
Definition extension (path : string) : string :=
  let parts := str_split "." (file_name path) in
  if bool_decide (file_name path = "..") then ""
  else match parts with
       | [] | [_] => ""
       | ["" ; _] => ""
       | _ => default "" (last parts)
       end.

(** * Handler *)

Record CachedFile := mkCachedFile { data : string; content_type : string; size : Z; etag : string }.

Inductive StaticFileError := NotFound | InvalidPath | IoError | TooLarge.

Definition display (e : StaticFileError) : string :=
  match e with
  | NotFound => "File not found"
  | InvalidPath => "Invalid path"
  | IoError => "I/O error"
  | TooLarge => "File too large"
  end.

Record StaticFileHandler := mkStaticFileHandler {
  root_path : string;
  cache : gmap string CachedFile;
  max_cache_size : Z;
  max_file_size : Z;
  prefix : string;
  index_file : string;
  spa_mode : bool;
  cache_max_age : option Z
}.

Definition handler_new (root : string) : StaticFileHandler :=
  mkStaticFileHandler root ∅ 1000 (50 * 1024 * 1024) "/static" "index.html" false None.

Definition with_limits (c f : Z) (h : StaticFileHandler) : StaticFileHandler :=
  mkStaticFileHandler (root_path h) (cache h) c f (prefix h) (index_file h) (spa_mode h) (cache_max_age h).
Definition with_prefix (p : string) (h : StaticFileHandler) : StaticFileHandler :=
  mkStaticFileHandler (root_path h) (cache h) (max_cache_size h) (max_file_size h) p (index_file h)
    (spa_mode h) (cache_max_age h).
Definition with_spa (b : bool) (h : StaticFileHandler) : StaticFileHandler :=
  mkStaticFileHandler (root_path h) (cache h) (max_cache_size h) (max_file_size h) (prefix h) (index_file h)
    b (cache_max_age h).
Definition with_cache_max_age (s : Z) (h : StaticFileHandler) : StaticFileHandler :=
  mkStaticFileHandler (root_path h) (cache h) (max_cache_size h) (max_file_size h) (prefix h) (index_file h)
    (spa_mode h) (Some s).
Definition set_cache (c : gmap string CachedFile) (h : StaticFileHandler) : StaticFileHandler :=
  mkStaticFileHandler (root_path h) c (max_cache_size h) (max_file_size h) (prefix h) (index_file h)
    (spa_mode h) (cache_max_age h).
Definition clear_cache (h : StaticFileHandler) : StaticFileHandler := set_cache ∅ h.

Definition normalize_path (path : string) : result StaticFileError string :=
  let path := trim_start_char "/" path in
  if str_contains ".." path then Err InvalidPath else Ok path.

Section serving.
Context `{RS : RustStr}.

Definition guess_content_type (path : string) : string :=
  let ext := to_lowercase (extension path) in
  let is_one := existsb (String.eqb ext) in
  if is_one ["html"; "htm"] then "text/html; charset=utf-8"
  else if is_one ["css"] then "text/css; charset=utf-8"
  else if is_one ["js"; "mjs"] then "application/javascript; charset=utf-8"
  else if is_one ["json"] then "application/json; charset=utf-8"
  else if is_one ["png"] then "image/png"
  else if is_one ["jpg"; "jpeg"] then "image/jpeg"
  else if is_one ["gif"] then "image/gif"
  else if is_one ["svg"] then "image/svg+xml"
  else if is_one ["ico"] then "image/x-icon"
  else if is_one ["woff"] then "font/woff"
  else if is_one ["woff2"] then "font/woff2"
  else if is_one ["ttf"] then "font/ttf"
  else if is_one ["eot"] then "application/vnd.ms-fontobject"
  else if is_one ["pdf"] then "application/pdf"
  else if is_one ["txt"] then "text/plain; charset=utf-8"
  else if is_one ["xml"] then "application/xml; charset=utf-8"
  else if is_one ["mp4"] then "video/mp4"
  else if is_one ["webm"] then "video/webm"
  else if is_one ["mp3"] then "audio/mpeg"
  else if is_one ["wav"] then "audio/wav"
  else if is_one ["zip"] then "application/zip"
  else "application/octet-stream".

Definition make_etag (sz : Z) (modified : option Z) : string :=
  String dquote (lower_hex sz +:+ "-" +:+ lower_hex (Z.max 0 (default 0 modified)) +:+ String dquote "").

Definition load_file (fs : Fs) (h : StaticFileHandler) (path : string) : result StaticFileError CachedFile :=
  let full_path := join_path (root_path h) path in
  match fs full_path with
  | Some (Regular content modified readable) =>
      if negb readable then Err IoError
      else if max_file_size h <? str_len content then Err TooLarge
      else Ok (mkCachedFile content (guess_content_type full_path) (str_len content)
                 (make_etag (str_len content) modified))
  | Some Directory | None => Err NotFound
  end.

Definition serve (fs : Fs) (path : string) (h : StaticFileHandler)
    : StaticFileHandler * result StaticFileError CachedFile :=
  match normalize_path path with
  | Err e => (h, Err e)
  | Ok clean_path =>
      match cache h !! clean_path with
      | Some cached => (h, Ok cached)
      | None =>
          match load_file fs h clean_path with
          | Err e => (h, Err e)
          | Ok file =>
              (if Z.of_nat (base.size (cache h)) <? max_cache_size h
               then set_cache (<[clean_path := file]> (cache h)) h else h, Ok file)
          end
      end
  end.

(** [py_new]: the directory has to exist. *)
Definition py_new (fs : Fs) (directory pre index : string) (spa : bool) (age : option Z)
    : result string StaticFileHandler :=
  match fs directory with
  | Some Directory =>
      Ok (mkStaticFileHandler directory ∅ 1000 (50 * 1024 * 1024) pre index spa age)
  | _ => Err ("Directory does not exist: " +:+ directory)
  end.

(** The file a request path names. *)
Definition requested (h : StaticFileHandler) (path : string) : string :=
  let file_path := trim_start_char "/" (default path (str_strip_prefix (prefix h) path)) in
  if str_is_empty file_path then index_file h else file_path.

(** Body, content type, etag and status. *)
Notation response := (string * string * string * Z)%type.
Definition found (f : CachedFile) (st : Z) : response :=
  (if st =? 304 then "" else data f, content_type f, etag f, st).

Definition serve_file (fs : Fs) (path : string) (if_none_match : option string) (h : StaticFileHandler)
    : StaticFileHandler * result string response :=
  match serve fs (requested h path) h with
  | (h', Ok cached) =>
      (h', Ok (found cached (match if_none_match with
                             | Some inm => if String.eqb inm (etag cached) then 304 else 200
                             | None => 200
                             end)))
  | (h', Err NotFound) =>
      if spa_mode h then
        match serve fs (index_file h) h' with
        | (h'', Ok cached) => (h'', Ok (found cached 200))
        | (h'', Err _) => (h'', Err "index.html not found")
        end
      else (h', Err (display NotFound))
  | (h', Err e) => (h', Err (display e))
  end.
End serving.

(** * Serving without a cache *)

Section fresh.
Context `{RS : RustStr}.

Definition load_fresh (fs : Fs) (h : StaticFileHandler) (path : string) : result StaticFileError CachedFile :=
  clean_path ← normalize_path path; load_file fs h clean_path.

Definition serve_fresh (fs : Fs) (h : StaticFileHandler) (path : string) (if_none_match : option string)
    : result string (string * string * string * Z) :=
  match load_fresh fs h (requested h path) with
  | Ok f => Ok (found f (match if_none_match with
                         | Some inm => if String.eqb inm (etag f) then 304 else 200
                         | None => 200
                         end))
  | Err NotFound =>
      if spa_mode h then
        match load_fresh fs h (index_file h) with
        | Ok f => Ok (found f 200)
        | Err _ => Err "index.html not found"
        end
      else Err (display NotFound)
  | Err e => Err (display e)
  end.

(** The cache holds what loading gives, within its bound, and the configuration is [h0]'s. *)
Definition cache_ok (fs : Fs) (h0 h : StaticFileHandler) : Prop :=
  h = set_cache (cache h) h0 ∧ map_Forall (λ k f, load_file fs h0 k = Ok f) (cache h) ∧
  Z.of_nat (base.size (cache h)) <= Z.max 0 (max_cache_size h0).

Lemma cache_ok_new fs h : cache_ok fs h (clear_cache h).
Proof. split; [done|]. split; [apply map_Forall_empty|]. cbn [cache clear_cache set_cache]. rewrite map_size_empty. lia. Qed.

Lemma serve_ok fs h0 h path :
  cache_ok fs h0 h → cache_ok fs h0 (serve fs path h).1 ∧ (serve fs path h).2 = load_fresh fs h0 path.
Proof.
  intros (Hh & Hc & Hs). unfold serve, load_fresh. destruct (normalize_path path) as [k|e]; [|done]. cbn [mbind result_bind].
  destruct (cache h !! k) as [f|] eqn:Hk.
  - split; [done|]. simpl. symmetry. by apply Hc.
  - assert (load_file fs h k = load_file fs h0 k) as -> by (by rewrite Hh).
    destruct (load_file fs h0 k) as [f|e] eqn:Hl; [|done]. split; [|done]. cbn [fst].
    assert (max_cache_size h = max_cache_size h0) as -> by (by rewrite Hh).
    destruct (Z.ltb_spec (Z.of_nat (base.size (cache h))) (max_cache_size h0)); [|done]. split_and!.
    + rewrite Hh. done.
    + cbn [cache set_cache]. by apply map_Forall_insert_2.
    + cbn [cache set_cache]. rewrite map_size_insert_None by done. lia.
Qed.

Lemma serve_file_ok fs h0 h path inm :
  cache_ok fs h0 h →
  cache_ok fs h0 (serve_file fs path inm h).1 ∧ (serve_file fs path inm h).2 = serve_fresh fs h0 path inm.
Proof.
  intros Hok. unfold serve_file, serve_fresh.
  assert (requested h path = requested h0 path) as -> by (destruct Hok as [-> _]; done).
  assert (spa_mode h = spa_mode h0) as -> by (destruct Hok as [-> _]; done).
  assert (index_file h = index_file h0) as -> by (destruct Hok as [-> _]; done).
  destruct (serve_ok fs h0 h (requested h0 path) Hok) as [Hok' Hr].
  destruct (serve fs (requested h0 path) h) as [h' r]. cbn [fst snd] in *. rewrite <- Hr.
  destruct r as [f|[]]; try done. destruct (spa_mode h0); [|done].
  destruct (serve_ok fs h0 h' (index_file h0) Hok') as [Hok'' Hr'].
  destruct (serve fs (index_file h0) h') as [h'' r']. cbn [fst snd] in *. rewrite <- Hr'. by destruct r'.
Qed.

Fixpoint serve_all (fs : Fs) (reqs : list (string * option string)) (h : StaticFileHandler)
    : StaticFileHandler * list (result string (string * string * string * Z)) :=
  match reqs with
  | [] => (h, [])
  | (path, inm) :: reqs' =>
      let '(h1, r) := serve_file fs path inm h in
      let '(h2, rs) := serve_all fs reqs' h1 in
      (h2, r :: rs)
  end.

(** C21: while the files do not change the cache is invisible: any sequence of requests, from a
    handler with an empty cache, is answered as if every file were loaded anew, errors, conditional
    requests and the fallback to the index included, and the cache never holds more files than
    its limit. *)
Theorem static_cache_transparent fs h reqs :
  (serve_all fs reqs (clear_cache h)).2 = (λ r, serve_fresh fs h r.1 r.2) <$> reqs ∧
  Z.of_nat (base.size (cache (serve_all fs reqs (clear_cache h)).1)) <= Z.max 0 (max_cache_size h).
Proof.
  assert (∀ h1, cache_ok fs h h1 →
    (serve_all fs reqs h1).2 = (λ r, serve_fresh fs h r.1 r.2) <$> reqs ∧ cache_ok fs h (serve_all fs reqs h1).1) as H.
  { induction reqs as [|[path inm] reqs IH]; intros h1 Hok; [done|]. cbn [serve_all].
    destruct (serve_file_ok fs h h1 path inm Hok) as [Hok' Hr].
    destruct (serve_file fs path inm h1) as [h2 r]. cbn [fst snd] in *.
    destruct (IH h2 Hok') as [Hrs Hok'']. destruct (serve_all fs reqs h2) as [h3 rs]. cbn [fst snd] in *.
    split; [|done]. rewrite fmap_cons. by rewrite Hr, Hrs. }
  destruct (H _ (cache_ok_new fs h)) as [Hr (_ & _ & Hs)]. done.
Qed.

(** * Confinement *)

Lemma Ok_inj {E A} (a b : A) : @Ok E A a = Ok b → a = b.
Proof. by intros [= ->]. Qed.

Lemma starts_with_cons a p s : starts_with (String a p) (String a s) = starts_with p s.
Proof. unfold starts_with. simpl. by destruct (ascii_dec a a). Qed.

Lemma split_head_prefix c s p ps : str_split c s = p :: ps → starts_with p s = true.
Proof.
  revert p ps. induction s as [|a s IH]; intros p ps; cbn [str_split]; [by intros [= <- _]|].
  destruct (Ascii.eqb a c); [by intros [= <- _]|].
  destruct (str_split c s) as [|q qs]; intros [= <- _].
  - rewrite starts_with_cons. by destruct s.
  - rewrite starts_with_cons. by eapply IH.
Qed.

Lemma split_piece_contained c s p : p ∈ str_split c s → str_contains p s = true.
Proof.
  induction s as [|a s IH]; cbn [str_split str_contains].
  - intros ->%list_elem_of_singleton. done.
  - destruct (Ascii.eqb a c).
    + rewrite elem_of_cons. intros [->|Hp]; [done|]. by rewrite IH, orb_true_r.
    + destruct (str_split c s) as [|q qs] eqn:E.
      * intros ->%list_elem_of_singleton. rewrite starts_with_cons. by destruct s.
      * rewrite elem_of_cons. intros [->|Hp].
        -- rewrite starts_with_cons. by rewrite (split_head_prefix c s q qs).
        -- rewrite IH by (by right). by rewrite orb_true_r.
Qed.

Lemma trim_start_first c s a s' : trim_start_char c s = String a s' → a ≠ c.
Proof.
  induction s as [|b s IH]; simpl; [done|]. destruct (Ascii.eqb_spec b c); [done|]. by intros [= -> _].
Qed.

(** A path below the root: relative, and no component goes up. *)
Definition below (rel : string) : Prop :=
  starts_with "/" rel = false ∧ Forall (λ c, c ≠ "..") (str_split "/" rel).

Lemma normalize_below path rel : normalize_path path = Ok rel → below rel.
Proof.
  unfold normalize_path. destruct (str_contains ".." _) eqn:Hc; [done|]. intros [= <-]. split.
  - destruct (trim_start_char "/" path) as [|a s] eqn:E; [done|]. apply trim_start_first in E.
    unfold starts_with. cbn [String.prefix]. by destruct (ascii_dec "/" a) as [<-|].
  - apply Forall_forall. intros c Hin ->. apply split_piece_contained in Hin. congruence.
Qed.

Lemma load_fresh_below fs h path f :
  load_fresh fs h path = Ok f →
  ∃ rel modified, below rel ∧ fs (join_path (root_path h) rel) = Some (Regular (data f) modified true) ∧
    str_len (data f) <= max_file_size h.
Proof.
  unfold load_fresh, load_file. destruct (normalize_path path) as [rel|] eqn:Hn; [|done]. cbn [mbind result_bind].
  destruct (fs _) as [[|content modified readable]|] eqn:Hf; [done| |done].
  destruct readable; [|done]. cbn [negb]. destruct (Z.ltb_spec (max_file_size h) (str_len content)); [done|].
  intros [= <-]. exists rel, modified. split; [by eapply normalize_below|]. done.
Qed.

(** C10: nothing outside the root is served: every answer's body is the content of a readable
    regular file no larger than the limit, at a relative path without a component [..] under the
    root, or empty for a 304. *)
Theorem static_confined fs h reqs body ctype etg st :
  Ok (body, ctype, etg, st) ∈ (serve_all fs reqs (clear_cache h)).2 →
  ∃ rel content modified, below rel ∧
    fs (join_path (root_path h) rel) = Some (Regular content modified true) ∧
    str_len content <= max_file_size h ∧
    ((st = 200 ∧ body = content) ∨ (st = 304 ∧ body = "")).
Proof.
  rewrite (proj1 (static_cache_transparent fs h reqs)). rewrite list_elem_of_fmap.
  intros ([path inm] & Heq & _). cbn [fst snd] in Heq. unfold serve_fresh in Heq. symmetry in Heq.
  assert (∀ p f s, load_fresh fs h p = Ok f → s = 200 ∨ s = 304 → found f s = (body, ctype, etg, st) →
    ∃ rel content modified, below rel ∧ fs (join_path (root_path h) rel) = Some (Regular content modified true) ∧
      str_len content <= max_file_size h ∧ ((st = 200 ∧ body = content) ∨ (st = 304 ∧ body = ""))) as Hf.
  { intros p f s (rel & m & Hb & Hfs & Hsz)%load_fresh_below Hs Hfd. exists rel, (data f), m.
    split_and!; [done..|]. unfold found in Hfd. injection Hfd as <- _ _ <-. destruct Hs as [-> | ->]; auto. }
  destruct (load_fresh fs h (requested h path)) as [f|e] eqn:Hl.
  - apply Ok_inj in Heq. eapply Hf; [exact Hl| |exact Heq]. destruct inm; [|by left]. case_match; auto.
  - destruct e; try done. destruct (spa_mode h); [|done].
    destruct (load_fresh fs h (index_file h)) as [f|] eqn:Hi; [|done]. apply Ok_inj in Heq.
    eapply Hf; [exact Hi|by left|exact Heq].
Qed.
End fresh.

(** A cached file is served from then on, whatever happens to the file. *)
Lemma cached_forever `{RustStr} fs h path k f :
  normalize_path path = Ok k → cache h !! k = Some f → serve fs path h = (h, Ok f).
Proof. intros Hn Hk. unfold serve. by rewrite Hn, Hk. Qed.

(** The prefix is not a path component. *)
Lemma prefix_not_segment : requested (handler_new "/srv") "/staticapp.js" = "app.js".
Proof. reflexivity. Qed.

Definition demo_fs : Fs := λ p,
  if String.eqb p "/srv" then Some Directory
  else if String.eqb p "/srv/app.js" then Some (Regular "x" (Some 255) true) else None.

Example static_example :
  (serve_file demo_fs "/static/app.js" None (handler_new "/srv")).2 =
    Ok ("x", "application/javascript; charset=utf-8", String dquote ("1-ff" +:+ String dquote ""), 200).
Proof. reflexivity. Qed.

Lemma static_confined_witness :
  ∃ rel content modified, below rel ∧ demo_fs (join_path "/srv" rel) = Some (Regular content modified true) ∧
    content = "x".
Proof.
  destruct (static_confined demo_fs (handler_new "/srv") [("/static/app.js", None)] "x"
    "application/javascript; charset=utf-8" (String dquote ("1-ff" +:+ String dquote "")) 200)
    as (rel & content & modified & H1 & H2 & _ & [[_ H3]|[? _]]).
  - vm_compute. left.
  - by exists rel, content, modified.
  - done.
Defined.
