(* ===== verification/Metrics.v ===== *)
(** The metrics registry (src/src/telemetry/mod.rs): counters, gauges and histograms by name and
    label, and the text exposition.  Each call runs alone; the printing of an [f64] is a
    parameter. *)
From S2P Require Import Prelude F64.
From Stdlib Require Import SpecFloat.
From stdpp Require Import base gmap strings list.
Open Scope Z_scope.

(** * Metrics *)

Definition counter_new : Z := 0.
Definition inc_by (n c : Z) : Z := w64 (c + n).

Definition f64_zero : f64 := S754_zero false.
Definition f64_one : f64 := f64_of_Z 1.
Definition infinity : f64 := S754_infinity false.

Definition gauge_new : f64 := f64_zero.
Definition gauge_set_to (v _old : f64) : f64 := v.
Definition inc (g : f64) : f64 := f64_add g f64_one.
Definition decr (g : f64) : f64 := f64_sub g f64_one.

Record Histogram := mkHistogram { buckets : list (f64 * Z); sum : f64; count : Z }.

Definition histogram_new (bucket_bounds : list f64) : Histogram :=
  mkHistogram (((λ b, (b, 0)) <$> bucket_bounds) ++ [(infinity, 0)]) f64_zero 0.

Definition observe (value : f64) (h : Histogram) : Histogram :=
  mkHistogram
    ((λ bc : f64 * Z, if SFleb value bc.1 then (bc.1, w64 (bc.2 + 1)) else bc) <$> buckets h)
    (f64_add (sum h) value) (w64 (count h + 1)).

(** * The registry *)

Notation keyed V := (gmap string (gmap string V)).

Record MetricsRegistry := mkMetricsRegistry {
  counters : keyed Z;
  gauges : keyed f64;
  histograms : keyed Histogram;
  help_texts : gmap string string;
  histogram_buckets : list f64
}.

(** The decimal fractions of the default bounds, correctly rounded. *)
Definition default_bounds : list f64 :=
  (λ p : Z * Z, f64_div (f64_of_Z p.1) (f64_of_Z p.2)) <$>
    [(5, 1000); (1, 100); (25, 1000); (5, 100); (1, 10); (25, 100); (5, 10); (1, 1); (25, 10); (5, 1); (10, 1)].

Definition registry_new : MetricsRegistry := mkMetricsRegistry ∅ ∅ ∅ ∅ default_bounds.

(** [entry(name).or_default().entry(label).or_insert_with(new)], then the update. *)
Definition update_entry {V} (new : V) (f : V → V) (name label : string) (m : keyed V) : keyed V :=
  let metric_map := default ∅ (m !! name) in
  <[name := <[label := f (default new (metric_map !! label))]> metric_map]> m.

Definition label_key (labels : option string) : string := default "" labels.

Definition counter_inc (name : string) (labels : option string) (value : Z) (r : MetricsRegistry)
    : MetricsRegistry :=
  mkMetricsRegistry (update_entry counter_new (inc_by value) name (label_key labels) (counters r))
    (gauges r) (histograms r) (help_texts r) (histogram_buckets r).

Definition with_gauge (f : f64 → f64) (name : string) (labels : option string) (r : MetricsRegistry)
    : MetricsRegistry :=
  mkMetricsRegistry (counters r) (update_entry gauge_new f name (label_key labels) (gauges r))
    (histograms r) (help_texts r) (histogram_buckets r).
Definition gauge_set (name : string) (v : f64) (labels : option string) : MetricsRegistry → MetricsRegistry :=
  with_gauge (gauge_set_to v) name labels.
Definition gauge_inc (name : string) (labels : option string) : MetricsRegistry → MetricsRegistry :=
  with_gauge inc name labels.
Definition gauge_dec (name : string) (labels : option string) : MetricsRegistry → MetricsRegistry :=
  with_gauge decr name labels.

Definition histogram_observe (name : string) (value : f64) (labels : option string) (r : MetricsRegistry)
    : MetricsRegistry :=
  mkMetricsRegistry (counters r) (gauges r)
    (update_entry (histogram_new (histogram_buckets r)) (observe value) name (label_key labels) (histograms r))
    (help_texts r) (histogram_buckets r).

Definition set_help (name help : string) (r : MetricsRegistry) : MetricsRegistry :=
  mkMetricsRegistry (counters r) (gauges r) (histograms r) (<[name := help]> (help_texts r))
    (histogram_buckets r).

(** * Exposition *)

Section render.
Context (show_f64 : f64 → string).
Context `{HN : ∀ V, HashIter string V}.

Definition nl : string := String lf "".

Definition header_lines (kind name : string) (r : MetricsRegistry) : string :=
  match help_texts r !! name with
  | Some help => "# HELP " +:+ name +:+ " " +:+ help +:+ nl
  | None => ""
  end +:+ "# TYPE " +:+ name +:+ " " +:+ kind +:+ nl.

Definition sample_line (name labels value : string) : string :=
  (if str_is_empty labels then name else name +:+ "{" +:+ labels +:+ "}") +:+ " " +:+ value +:+ nl.

Definition bucket_line (name label_prefix : string) (bc : f64 * Z) : string :=
  let le := match bc.1 with S754_infinity _ => "+Inf" | b => show_f64 b end in
  name +:+ "_bucket{" +:+ label_prefix +:+ "le=" +:+ String dquote (le +:+ String dquote "} ") +:+
    dec bc.2 +:+ nl.

Definition histogram_lines (name labels : string) (h : Histogram) : string :=
  let label_prefix := if str_is_empty labels then "" else labels +:+ "," in
  str_join "" (bucket_line name label_prefix <$> buckets h) +:+
  sample_line (name +:+ "_sum") labels (show_f64 (sum h)) +:+
  sample_line (name +:+ "_count") labels (dec (count h)).

Definition render_kind {V} (kind : string) (line : string → string → V → string) (m : keyed V)
    (r : MetricsRegistry) : string :=
  str_join "" ((λ e : string * gmap string V,
    header_lines kind e.1 r +:+ str_join "" ((λ l : string * V, line e.1 l.1 l.2) <$> hiter e.2)) <$> hiter m).

Definition render (r : MetricsRegistry) : string :=
  render_kind "counter" (λ n l v, sample_line n l (dec v)) (counters r) r +:+
  render_kind "gauge" (λ n l v, sample_line n l (show_f64 v)) (gauges r) r +:+
  render_kind "histogram" histogram_lines (histograms r) r.
End render.

(** * What a registry holds *)

Definition get {V} (m : keyed V) (name label : string) : option V := m !! name ≫= (.!! label).

Lemma get_update_entry {V} (new : V) f m n l n' l' :
  get (update_entry new f n l m) n' l' =
    if bool_decide (n = n' ∧ l = l') then Some (f (default new (get m n l))) else get m n' l'.
Proof.
  unfold get, update_entry. destruct (decide (n = n')) as [<-|Hn].
  - rewrite lookup_insert_eq. simpl. destruct (decide (l = l')) as [<-|Hl].
    + rewrite lookup_insert_eq, bool_decide_true by done. by destruct (m !! n).
    + rewrite lookup_insert_ne, bool_decide_false by naive_solver. destruct (m !! n); [done|]. apply lookup_empty.
  - rewrite lookup_insert_ne, bool_decide_false by naive_solver. done.
Qed.

Inductive op :=
| CounterInc (name : string) (labels : option string) (value : Z)
| GaugeSet (name : string) (v : f64) (labels : option string)
| GaugeInc (name : string) (labels : option string)
| GaugeDec (name : string) (labels : option string)
| Observe (name : string) (value : f64) (labels : option string)
| SetHelp (name help : string).

Definition run_op (r : MetricsRegistry) (o : op) : MetricsRegistry :=
  match o with
  | CounterInc n l v => counter_inc n l v r
  | GaugeSet n v l => gauge_set n v l r
  | GaugeInc n l => gauge_inc n l r
  | GaugeDec n l => gauge_dec n l r
  | Observe n v l => histogram_observe n v l r
  | SetHelp n h => set_help n h r
  end.
Definition run_ops (ops : list op) (r : MetricsRegistry) : MetricsRegistry := foldl run_op r ops.

(** What the operations did to one metric, in order. *)
Section history.
Context (name label : string).

Definition mine (n : string) (l : option string) : bool := bool_decide (n = name ∧ label_key l = label).

Definition increments (ops : list op) : list Z :=
  omap (λ o, match o with CounterInc n l v => if mine n l then Some v else None | _ => None end) ops.
Definition gauge_steps (ops : list op) : list (f64 → f64) :=
  omap (λ o, match o with
             | GaugeSet n v l => if mine n l then Some (gauge_set_to v) else None
             | GaugeInc n l => if mine n l then Some inc else None
             | GaugeDec n l => if mine n l then Some decr else None
             | _ => None
             end) ops.
Definition observations (ops : list op) : list f64 :=
  omap (λ o, match o with Observe n v l => if mine n l then Some v else None | _ => None end) ops.
End history.

(** How many of the observed values a bucket counts. *)
Definition at_most (b : f64) (vs : list f64) : Z := Z.of_nat (length (filter (λ v, SFleb v b = true) vs)).

Definition histogram_of (bounds vs : list f64) : Histogram :=
  mkHistogram ((λ b, (b, w64 (at_most b vs))) <$> (bounds ++ [infinity])) (foldl f64_add f64_zero vs)
    (w64 (Z.of_nat (length vs))).

Lemma observe_histogram_of bounds vs v :
  observe v (histogram_of bounds vs) = histogram_of bounds (vs ++ [v]).
Proof.
  unfold observe, histogram_of. cbn [buckets sum count]. f_equal.
  - rewrite <- list_fmap_compose. apply list_fmap_ext. intros _ b _. cbn.
    unfold at_most. rewrite filter_app, length_app, filter_cons, filter_nil.
    destruct (SFleb v b); [|by rewrite decide_False, Nat.add_0_r by done].
    rewrite decide_True by done. cbn [length]. unfold w64. rewrite Zplus_mod_idemp_l. by rewrite Nat2Z.inj_add.
  - by rewrite foldl_app.
  - unfold w64. rewrite Zplus_mod_idemp_l, length_app. f_equal. simpl. lia.
Qed.

Lemma histogram_of_nil bounds : histogram_of bounds [] = histogram_new bounds.
Proof. unfold histogram_of, histogram_new. rewrite fmap_app. done. Qed.

Lemma histogram_buckets_run ops r : histogram_buckets (run_ops ops r) = histogram_buckets r.
Proof. revert r. induction ops as [|o ops IH]; intros r; [done|]. simpl. rewrite IH. by destruct o. Qed.

Definition some_if {A B} (l : list A) (x : B) : option B := match l with [] => None | _ => Some x end.

Lemma default_some_if {A B} (F : list A → B) l x : F [] = x → default x (some_if l (F l)) = F l.
Proof. intros <-. by destruct l. Qed.

(** C24: the registry is one independent metric per kind, name and label.  After any calls a
    counter holds the sum of its increments modulo 2^64, a gauge the result of its operations in
    order, and a histogram the running sum, the number of observations, and in each bucket the
    number of values at most its bound; a metric exists exactly if it was used, a missing label is
    the empty label, and no call touches another metric. *)
Theorem registry_refines ops name label :
  let r := run_ops ops registry_new in
  let incs := increments name label ops in
  let steps := gauge_steps name label ops in
  let vs := observations name label ops in
  get (counters r) name label = some_if incs (w64 (foldr Z.add 0 incs)) ∧
  get (gauges r) name label = some_if steps (foldl (λ g f, f g) gauge_new steps) ∧
  get (histograms r) name label = some_if vs (histogram_of default_bounds vs).
Proof.
  induction ops as [|o ops IH] using rev_ind; [done|].
  assert (∀ l1 l2, foldr Z.add 0 (l1 ++ l2) = foldr Z.add 0 l1 + foldr Z.add 0 l2) as Hsum.
  { clear. induction l1 as [|x l1 IH]; intros l2; simpl; [done|]. rewrite IH. lia. }
  assert (∀ A B (l : list A) a (x : B), some_if (l ++ [a]) x = Some x) as Hsome by (by intros A B []).
  unfold run_ops, increments, gauge_steps, observations in *. rewrite foldl_app, !omap_app.
  cbn [foldl omap list_omap]. pose proof (histogram_buckets_run ops registry_new) as Hb. unfold run_ops in Hb.
  set (r := foldl run_op registry_new ops) in *. destruct IH as (IHc & IHg & IHh).
  assert (∀ V (new : V) f n l m, get (update_entry new f n (label_key l) m) name label =
    if mine name label n l then Some (f (default new (get m name label))) else get m name label) as Hget.
  { intros V new f n l m. rewrite get_update_entry. unfold mine. case_bool_decide as Hm; [|done].
    by destruct Hm as [-> ->]. }
  destruct o; cbn [run_op counters gauges histograms counter_inc gauge_set gauge_inc gauge_dec
    with_gauge histogram_observe set_help]; unfold gauge_set, gauge_inc, gauge_dec, with_gauge;
    cbn [counters gauges histograms]; rewrite ?app_nil_r; try (by split_and!);
    rewrite ?Hget; (destruct (mine name label name0 labels); [|rewrite ?app_nil_r; by split_and!]);
    rewrite ?Hsome; (split; [|split]); try done.
  - rewrite IHc, (default_some_if (λ l, w64 (foldr Z.add 0 l))), Hsum by done.
    f_equal. unfold inc_by, w64. rewrite Zplus_mod_idemp_l. f_equal. simpl. lia.
  - rewrite IHg, (default_some_if (foldl _ gauge_new)), foldl_app by done. done.
  - rewrite IHg, (default_some_if (foldl _ gauge_new)), foldl_app by done. done.
  - rewrite IHg, (default_some_if (foldl _ gauge_new)), foldl_app by done. done.
  - rewrite IHh, (default_some_if (histogram_of default_bounds)); [by rewrite observe_histogram_of|].
    by rewrite Hb, histogram_of_nil.
Qed.

(** * Buckets *)

(** The order of the finite and infinite values. *)
Lemma SFleb_trans a b c : SFleb a b = true → SFleb b c = true → SFleb a c = true.
Proof.
  unfold SFleb, SFcompare.
  destruct a as [| [] | |[] ma ea], b as [| [] | |[] mb eb], c as [| [] | |[] mc ec]; try done;
    repeat match goal with |- context [Z.compare ?x ?y] => destruct (Z.compare_spec x y) end; subst;
    repeat match goal with |- context [Pos.compare_cont ?o ?x ?y] => change (Pos.compare_cont o x y) with (Pos.compare x y) end;
    repeat match goal with |- context [Pos.compare ?x ?y] => destruct (Pos.compare_spec x y) end; subst;
    simpl; try done; try lia.
Qed.

Lemma SFleb_infinity v : SFleb v infinity = true ↔ v ≠ S754_nan.
Proof. by destruct v as [[]|[]| |[] ? ?]. Qed.

Lemma at_most_le b1 b2 vs : SFleb b1 b2 = true → at_most b1 vs <= at_most b2 vs.
Proof.
  intros Hb. unfold at_most, f64 in *. induction vs as [|v vs IH]; [done|]. rewrite !filter_cons.
  destruct (decide (SFleb v b1 = true)) as [H1|H1]; destruct (decide (SFleb v b2 = true)) as [H2|H2];
    cbn [length]; [lia| |lia|lia].
  destruct H2. by eapply SFleb_trans.
Qed.

Lemma at_most_length b vs : 0 <= at_most b vs <= Z.of_nat (length vs).
Proof. unfold at_most, f64 in *. pose proof (length_filter (λ v, SFleb v b = true) vs). lia. Qed.

Lemma at_most_infinity vs : at_most infinity vs = Z.of_nat (length vs) ↔ S754_nan ∉ vs.
Proof.
  unfold at_most, f64 in *. induction vs as [|v vs IH]; [set_solver|]. rewrite filter_cons, elem_of_cons.
  pose proof (at_most_length infinity vs) as Hle. unfold at_most, f64 in Hle.
  destruct (decide (SFleb v infinity = true)) as [Hv|Hv]; cbn [length].
  - apply SFleb_infinity in Hv. rewrite !Nat2Z.inj_succ. rewrite Z.succ_inj_wd, IH. naive_solver.
  - rewrite SFleb_infinity in Hv. split; [lia|]. intros Hn. exfalso. apply Hv. intros ->. apply Hn. by left.
Qed.

Lemma observe_all bounds vs :
  foldl (λ h v, observe v h) (histogram_new bounds) vs = histogram_of bounds vs.
Proof.
  induction vs as [|v vs IH] using rev_ind; [symmetry; apply histogram_of_nil|].
  rewrite foldl_app, IH. apply observe_histogram_of.
Qed.

(** a histogram is cumulative: a bucket with a larger bound counts at least as many values, no
    bucket counts more than there were, and the last bucket, the one without bound, counts all
    of them unless a NaN was observed: a NaN is counted in the total and in no bucket. *)
Theorem histogram_cumulative bounds vs :
  Z.of_nat (length vs) <= u64_max →
  let h := foldl (λ h v, observe v h) (histogram_new bounds) vs in
  count h = Z.of_nat (length vs) ∧
  (∀ b1 c1 b2 c2, (b1, c1) ∈ buckets h → (b2, c2) ∈ buckets h → SFleb b1 b2 = true → c1 <= c2 <= count h) ∧
  ∃ c, last (buckets h) = Some (infinity, c) ∧ (c = count h ↔ S754_nan ∉ vs).
Proof.
  intros Hn. cbn zeta. rewrite observe_all. unfold histogram_of. cbn [buckets count].
  assert (∀ b, w64 (at_most b vs) = at_most b vs) as Hw.
  { intros b. pose proof (at_most_length b vs). apply w64_id. unfold is_u64. lia. }
  rewrite w64_id by (unfold is_u64; lia). split; [done|]. split.
  - intros b1 c1 b2 c2. rewrite !list_elem_of_fmap. intros (? & [= -> ->] & _) (? & [= -> ->] & _) Hb.
    rewrite !Hw. split; [by apply at_most_le|apply at_most_length].
  - eexists. rewrite fmap_app, last_app. cbn. split; [done|]. rewrite Hw. apply at_most_infinity.
Qed.

Lemma histogram_cumulative_witness :
  let h := foldl (λ h v, observe v h) (histogram_new [f64_of_Z 1; f64_of_Z 5]) [f64_of_Z 1; S754_nan; f64_of_Z 3] in
  count h = 3 ∧ ∃ c, last (buckets h) = Some (infinity, c) ∧ c ≠ count h.
Proof.
  destruct (histogram_cumulative [f64_of_Z 1; f64_of_Z 5] [f64_of_Z 1; S754_nan; f64_of_Z 3] ltac:(done))
    as (H1 & _ & c & H2 & H3).
  split; [exact H1|]. exists c. split; [exact H2|]. rewrite H3. intros Hn. apply Hn. set_solver.
Defined.

(** Label text is copied as it is: a line break in it starts a new sample. *)
Lemma label_forges_sample :
  sample_line "hits" ("a" +:+ nl +:+ "admin 1" +:+ nl) "0" = "hits{a" +:+ nl +:+ "admin 1" +:+ nl +:+ "} 0" +:+ nl.
Proof. reflexivity. Qed.

Example metrics_example :
  render (λ _, "0") (run_ops [SetHelp "hits" "requests"; CounterInc "hits" None 2; CounterInc "hits" None 3] registry_new) =
    "# HELP hits requests" +:+ nl +:+ "# TYPE hits counter" +:+ nl +:+ "hits 5" +:+ nl.
Proof. vm_compute. reflexivity. Qed.
