(* ===== verification/PyValue.v ===== *)
(** Python values as the native code receives them, with the conversions that PyO3's [extract]
    makes: the shared data of the JSON, context and parameter converters. *)
From S2P Require Import Prelude F64.
From Stdlib Require Import SpecFloat.
From stdpp Require Import base gmap strings list.
Open Scope Z_scope.

(** Dates and times are what [datetime] stores: year, month, day, hour, minute, second and
    microsecond.  [PIter] is an iterable that is not a sequence (a set, a generator); [POther] an
    object of another type with what [__index__] and [__float__] give, its [__dict__], and, when it is
    a sequence (a range, bytearray, deque, memoryview, array, or any object with [__getitem__]), what
    iterating over it gives.  Instances of subclasses of the built-in types, strings with lone
    surrogates and NumPy's booleans, which PyO3 reads as the built-in values, are not modelled. *)
Inductive py :=
| PNone
| PBool (b : bool)
| PInt (z : Z)
| PFloat (f : f64)
| PStr (s : string)
| PBytes (b : string)
| PDict (items : list (py * py))
| PList (items : list py)
| PTuple (items : list py)
| PIter (items : list py)
| PDateTime (y mo d h mi s us : Z)
| PDate (y mo d : Z)
| PTime (h mi s us : Z)
| POther (o : nat) (index : option Z) (float : option f64) (attrs : option (list (string * py)))
    (seq : option (list py)).

(** Finite nesting: a self-containing list makes the converters recurse until the stack ends. *)

Definition in_i64 (z : Z) : bool := (- 2 ^ 63 <=? z) && (z <? 2 ^ 63).
Definition in_u64 (z : Z) : bool := (0 <=? z) && (z <? 2 ^ 64).
Definition in_u8 (z : Z) : bool := (0 <=? z) && (z <? 256).

(** [__index__]. *)
Definition as_index (v : py) : option Z :=
  match v with
  | PBool b => Some (if b then 1 else 0)
  | PInt z => Some z
  | POther _ index _ _ _ => index
  | _ => None
  end.

Definition extract_string (v : py) : option string := match v with PStr s => Some s | _ => None end.
Definition extract_bool (v : py) : option bool := match v with PBool b => Some b | _ => None end.
Definition extract_i64 (v : py) : option Z := z ← as_index v; if in_i64 z then Some z else None.
Definition extract_u64 (v : py) : option Z := z ← as_index v; if in_u64 z then Some z else None.

(** An [int] converts to the nearest float and overflows beyond the largest. *)
Definition float_of_int (z : Z) : option f64 :=
  match f64_of_Z z with S754_infinity _ => None | f => Some f end.
Definition extract_f64 (v : py) : option f64 :=
  match v with
  | PFloat f => Some f
  | POther _ index (Some f) _ _ => Some f
  | _ => as_index v ≫= float_of_int
  end.

(** [Vec<u8>]: bytes, and every sequence but a string whose elements are integers below 256. *)
Definition extract_u8 (v : py) : option ascii :=
  z ← as_index v; if in_u8 z then Some (chr z) else None.
Fixpoint bytes_of (l : list py) : option string :=
  match l with
  | [] => Some ""
  | v :: l' => match extract_u8 v, bytes_of l' with Some a, Some s => Some (String a s) | _, _ => None end
  end.
Definition extract_bytes (v : py) : option string :=
  match v with
  | PBytes b => Some b
  | PList l | PTuple l | POther _ _ _ _ (Some l) => bytes_of l
  | _ => None
  end.

(** [dict.set_item] with a string key. *)
Fixpoint dict_set (k : string) (v : py) (d : list (py * py)) : list (py * py) :=
  match d with
  | [] => [(PStr k, v)]
  | (PStr k', v') :: d' => if String.eqb k k' then (PStr k', v) :: d' else (PStr k', v') :: dict_set k v d'
  | kv :: d' => kv :: dict_set k v d'
  end.

Lemma dict_set_new k v (d : list (string * py)) :
  k ∉ d.*1 →
  dict_set k v ((λ e : string * py, (PStr e.1, e.2)) <$> d) =
    ((λ e : string * py, (PStr e.1, e.2)) <$> d) ++ [(PStr k, v)].
Proof.
  induction d as [|[k' v'] d IH]; intros Hk; [done|]. rewrite fmap_cons in Hk.
  apply not_elem_of_cons in Hk as [Hne Hk]. rewrite !fmap_cons. cbn [dict_set fst snd app].
  rewrite (proj2 (String.eqb_neq _ _)) by done. by rewrite IH.
Qed.
