(* ===== verification/Json.v ===== *)
(** JSON and Python values (src/src/utils/json.rs, and [json_to_py] of
    src/src/database/row_converter.rs).  Parsing and printing of JSON text are the crates'. *)
From S2P Require Import Prelude F64 PyValue.
From Stdlib Require Import SpecFloat.
From stdpp Require Import base gmap strings list sorting.
Open Scope Z_scope.

(** * Values *)

(** serde_json's [Value]: an integer number is an [i64] or a [u64]; an object is a [BTreeMap],
    here its entries in the order of the keys. *)
Inductive json :=
| JNull
| JBool (b : bool)
| JInt (z : Z)
| JFloat (f : f64)
| JString (s : string)
| JArray (l : list json)
| JObject (m : list (string * json)).

Fixpoint json_ind' (P : json → Prop) (Hnull : P JNull) (Hbool : ∀ b, P (JBool b)) (Hint : ∀ z, P (JInt z))
    (Hfloat : ∀ f, P (JFloat f)) (Hstr : ∀ s, P (JString s))
    (Harr : ∀ l, Forall P l → P (JArray l)) (Hobj : ∀ m, Forall (λ kv, P kv.2) m → P (JObject m))
    (v : json) : P v :=
  let rec := json_ind' P Hnull Hbool Hint Hfloat Hstr Harr Hobj in
  match v with
  | JNull => Hnull
  | JBool b => Hbool b
  | JInt z => Hint z
  | JFloat f => Hfloat f
  | JString s => Hstr s
  | JArray l => Harr l ((fix go l : Forall P l :=
      match l with [] => Forall_nil_2 _ | x :: l' => Forall_cons_2 _ _ _ (rec x) (go l') end) l)
  | JObject m => Hobj m ((fix go m : Forall (λ kv, P kv.2) m :=
      match m with [] => Forall_nil_2 _ | x :: m' => Forall_cons_2 _ _ _ (rec x.2) (go m') end) m)
  end.

(** [BTreeMap::insert]. *)
Fixpoint map_insert {V} (k : string) (v : V) (m : list (string * V)) : list (string * V) :=
  match m with
  | [] => [(k, v)]
  | (k', v') :: m' =>
      match String.compare k k' with
      | Lt => (k, v) :: m
      | Eq => (k, v) :: m'
      | Gt => (k', v') :: map_insert k v m'
      end
  end.

(** [Number::as_i64], [as_u64] and [as_f64]. *)
Definition as_i64 (v : json) : option Z :=
  match v with JInt z => if in_i64 z then Some z else None | _ => None end.
Definition as_u64 (v : json) : option Z :=
  match v with JInt z => if in_u64 z then Some z else None | _ => None end.
Definition as_f64 (v : json) : option f64 :=
  match v with JInt z => Some (f64_of_Z z) | JFloat f => Some f | _ => None end.

(** * To Python *)

(** A number tries [i64], [u64] and [f64] in turn. *)
Definition number_to_py (v : json) : py :=
  match as_i64 v with
  | Some i => PInt i
  | None => match as_u64 v with
            | Some u => PInt u
            | None => match as_f64 v with Some f => PFloat f | None => PInt 0 end
            end
  end.

Definition dict_of (m : list (string * py)) : list (py * py) :=
  foldl (λ d kv, dict_set kv.1 kv.2 d) [] m.

Fixpoint json_value_to_py (v : json) : py :=
  match v with
  | JNull => PNone
  | JBool b => PBool b
  | JInt _ | JFloat _ => number_to_py v
  | JString s => PStr s
  | JArray l => PList (List.map json_value_to_py l)
  | JObject m => PDict (dict_of (List.map (λ kv, (kv.1, json_value_to_py kv.2)) m))
  end.

(** The converter of database rows has no [u64]. *)
Definition row_number_to_py (v : json) : py :=
  match as_i64 v with
  | Some i => PInt i
  | None => match as_f64 v with Some f => PFloat f | None => PNone end
  end.
Fixpoint row_json_to_py (v : json) : py :=
  match v with
  | JNull => PNone
  | JBool b => PBool b
  | JInt _ | JFloat _ => row_number_to_py v
  | JString s => PStr s
  | JArray l => PList (List.map row_json_to_py l)
  | JObject m => PDict (dict_of (List.map (λ kv, (kv.1, row_json_to_py kv.2)) m))
  end.

(** * From Python *)

Section from_python.
Context (py_str : py → string).
Context `{U8 : Utf8}.

Definition key_string (k : py) : string := match k with PStr s => s | _ => py_str k end.

Definition is_finite_f64 (f : f64) : bool :=
  match f with S754_zero _ | S754_finite _ _ _ => true | _ => false end.

Definition int_to_json (z : Z) : json :=
  if in_i64 z || in_u64 z then JInt z else JString (py_str (PInt z)).

(** The chain of type tests; bytes, and a tuple or other sequence whose elements are all integers below
    256, become text. *)
Fixpoint py_to_json_value (v : py) : json :=
  let arr := List.map py_to_json_value in
  match v with
  | PNone => JNull
  | PBool b => JBool b
  | PInt z => int_to_json z
  | PFloat f => if is_finite_f64 f then JFloat f else JNull
  | PStr s => JString s
  | PDict items =>
      JObject (foldl (λ m kv, map_insert kv.1 kv.2 m) []
        (List.map (λ kv, (key_string kv.1, py_to_json_value kv.2)) items))
  | PList l => JArray (arr l)
  | PBytes b => JString (if valid_utf8 b then b else from_utf8_lossy b)
  | PTuple l =>
      match bytes_of l with
      | Some b => JString (if valid_utf8 b then b else from_utf8_lossy b)
      | None => JArray (arr l)
      end
  | PIter l => JArray (arr l)
  | POther _ _ _ _ (Some l) =>
      match bytes_of l with
      | Some b => JString (if valid_utf8 b then b else from_utf8_lossy b)
      | None => JArray (arr l)
      end
  | POther _ _ _ (Some attrs) None =>
      JObject (foldl (λ m (kv : string * json), if starts_with "_" kv.1 then m else map_insert kv.1 kv.2 m) []
        (List.map (λ kv, (kv.1, py_to_json_value kv.2)) attrs))
  | POther _ _ _ None None | PDateTime _ _ _ _ _ _ _ | PDate _ _ _ | PTime _ _ _ _ => JString (py_str v)
  end.

(** * Text *)

(** The parser and the printers of simd-json and serde_json. *)
Context (from_slice : string → result string json) (to_vec to_string to_string_pretty : json → result string string).

Definition parse_json_to_py (bytes : string) : result string py :=
  match from_slice bytes with
  | Ok value => Ok (json_value_to_py value)
  | Err e => Err ("JSON parse error: " +:+ e)
  end.

Definition serialize_with (print : json → result string string) (obj : py) : result string string :=
  match print (py_to_json_value obj) with
  | Ok s => Ok s
  | Err e => Err ("JSON serialization error: " +:+ e)
  end.
Definition serialize_py_to_json : py → result string string := serialize_with to_vec.
Definition serialize_py_to_json_string : py → result string string := serialize_with to_string.
Definition serialize_py_to_json_pretty : py → result string string := serialize_with to_string_pretty.
End from_python.

(** * The round trip *)

(** What the parser produces: integers of 64 bits, finite floats, objects in key order. *)
Inductive wf : json → Prop :=
| W_null : wf JNull
| W_bool b : wf (JBool b)
| W_int z : in_i64 z || in_u64 z = true → wf (JInt z)
| W_float f : is_finite_f64 f = true → wf (JFloat f)
| W_string s : wf (JString s)
| W_array l : Forall wf l → wf (JArray l)
| W_object m : Forall (λ kv, wf kv.2) m → StronglySorted (λ a b, String.compare a.1 b.1 = Lt) m → wf (JObject m).

Lemma compare_lt_neq a b : String.compare a b = Lt → a ≠ b.
Proof. intros H ->. pose proof (String.compare_antisym b b) as Ha. by rewrite H in Ha. Qed.

(** Keys in ascending order go to the end, of a tree and of a dict. *)
Lemma map_insert_last {V} k (v : V) m :
  Forall (λ e, String.compare e.1 k = Lt) m → map_insert k v m = m ++ [(k, v)].
Proof.
  induction 1 as [|[k' v'] m Hk Hm IH]; [done|]. simpl in *.
  rewrite String.compare_antisym, Hk. simpl. by rewrite IH.
Qed.

Lemma sorted_insert {V} (m m0 : list (string * V)) :
  StronglySorted (λ a b, String.compare a.1 b.1 = Lt) (m0 ++ m) →
  foldl (λ m kv, map_insert kv.1 kv.2 m) m0 m = m0 ++ m.
Proof.
  revert m0. induction m as [|[k v] m IH]; intros m0 Hs; simpl; [by rewrite app_nil_r|].
  rewrite map_insert_last.
  - rewrite IH; by rewrite <- (assoc_L (++)).
  - apply Forall_forall. intros e He. by apply (StronglySorted_app_1_elem_of _ _ _ e (k, v) Hs He); left.
Qed.

Lemma sorted_dict (m m0 : list (string * py)) :
  NoDup ((m0 ++ m).*1) →
  foldl (λ d kv, dict_set kv.1 kv.2 d) ((λ e : string * py, (PStr e.1, e.2)) <$> m0) m =
    (λ e : string * py, (PStr e.1, e.2)) <$> (m0 ++ m).
Proof.
  revert m0. induction m as [|[k v] m IH]; intros m0 Hd; simpl; [by rewrite app_nil_r|].
  rewrite dict_set_new.
  - rewrite <- (fmap_app _ m0 [(k, v)] : _ = (_ <$> m0) ++ [(PStr k, v)]).
    rewrite IH by (by rewrite <- (assoc_L (++))). by rewrite <- (assoc_L (++)).
  - rewrite fmap_app, fmap_cons in Hd. apply NoDup_app in Hd as (_ & Hd & _).
    intros Hin. apply (Hd _ Hin). simpl. by left.
Qed.

Lemma sorted_keys_nodup {V} (m : list (string * V)) :
  StronglySorted (λ a b, String.compare a.1 b.1 = Lt) m → NoDup m.*1.
Proof.
  induction 1 as [|[k v] m Hm IH Hk]; [by apply NoDup_nil|]. rewrite fmap_cons. apply NoDup_cons.
  split; [|done]. simpl. intros ([k' v'] & -> & Hin)%list_elem_of_fmap. rewrite Forall_forall in Hk.
  by apply (compare_lt_neq _ _ (Hk _ Hin)).
Qed.

(** The values survive. *)
Lemma value_roundtrip `{U8 : Utf8} py_str v :
  wf v → py_to_json_value py_str (json_value_to_py v) = v.
Proof.
  induction v as [| | | | |l IH|m IH] using json_ind'; intros Hv; inversion Hv as [| |? Hz|? Hf| |? Hl|? Hm Hsort]; subst; simpl.
  - done.
  - done.
  - unfold number_to_py, as_i64, as_u64. simpl. unfold int_to_json.
    destruct (in_i64 z) eqn:Hi; simpl; [unfold int_to_json; by rewrite Hi|].
    destruct (in_u64 z) eqn:Hu; simpl; [unfold int_to_json; by rewrite Hi, Hu|done].
  - unfold number_to_py. simpl. by rewrite Hf.
  - done.
  - f_equal. rewrite List.map_map. rewrite <- (List.map_id l) at 2. apply List.map_ext_in. intros x Hx.
    rewrite Forall_forall in IH, Hl. apply IH; [|apply Hl]; by apply list_elem_of_In.
  - f_equal. unfold dict_of.
    set (m' := List.map (λ kv, (kv.1, json_value_to_py kv.2)) m).
    assert (NoDup m'.*1) as Hnd.
    { assert (m'.*1 = m.*1) as ->; [|by apply sorted_keys_nodup].
      unfold m'. clear. induction m as [|[k v] m IHm]; [done|]. cbn [List.map]. rewrite !fmap_cons. by rewrite IHm. }
    pose proof (sorted_dict m' [] Hnd) as Hd. simpl in Hd. rewrite Hd. clear Hd.
    assert (List.map (λ kv, (key_string py_str kv.1, py_to_json_value py_str kv.2))
      ((λ e : string * py, (PStr e.1, e.2)) <$> m') = m) as ->.
    { unfold m'. clear -IH Hm. induction m as [|[k v] m IHm]; [done|].
      apply Forall_cons in IH as [Hv IH]. apply Forall_cons in Hm as [Hw Hm].
      cbn [List.map]. rewrite fmap_cons. cbn [List.map fst snd key_string]. rewrite (IHm IH Hm).
      cbn [snd] in Hv, Hw. by rewrite (Hv Hw). }
    by apply (sorted_insert m []).
Qed.

(** C25: A JSON value read into Python and converted back is the same value: integers of the whole
    signed and unsigned 64-bit range, floats, nested arrays, and objects with their keys; so a text
    that the parser reads and the printer prints again as it was comes back unchanged. *)
Theorem json_roundtrip `{U8 : Utf8} py_str from_slice to_vec v bytes :
  wf v →
  py_to_json_value py_str (json_value_to_py v) = v ∧
  (from_slice bytes = Ok v → to_vec v = Ok bytes →
   ∃ p, parse_json_to_py from_slice bytes = Ok p ∧ serialize_py_to_json py_str to_vec p = Ok bytes).
Proof.
  intros Hw. split; [by apply value_roundtrip|]. intros Hp Ht. exists (json_value_to_py v).
  unfold parse_json_to_py, serialize_py_to_json, serialize_with. rewrite Hp. split; [done|].
  by rewrite value_roundtrip, Ht.
Qed.

Definition demo_json : json :=
  JObject [("id", JInt (2 ^ 63)); ("tags", JArray [JString "a"; JNull; JBool true])].

Lemma json_roundtrip_witness : py_to_json_value (λ _, "") (json_value_to_py demo_json) = demo_json.
Proof.
  apply (json_roundtrip (λ _, "") (λ _, Err "") (λ _, Err "") demo_json ""). repeat (constructor || reflexivity).
Defined.

(** A tuple of small integers, and the empty one, become text. *)
Lemma tuple_becomes_text :
  py_to_json_value (λ _, "") (PTuple [PInt 104; PInt 105]) = JString "hi" ∧
  py_to_json_value (λ _, "") (PTuple []) = JString "".
Proof. split; reflexivity. Qed.

(** In a row, integers above the signed range become floats, and meet. *)
Lemma row_json_loses : row_json_to_py (JInt (2 ^ 63)) = row_json_to_py (JInt (2 ^ 63 + 1)).
Proof. vm_compute. reflexivity. Qed.

(** Private attributes of objects are left out, and so are keys that meet. *)
Example object_attributes :
  py_to_json_value (λ _, "1") (POther 0 None None (Some [("_x", PInt 1); ("y", PInt 2)]) None) = JObject [("y", JInt 2)] ∧
  py_to_json_value (λ _, "1") (PDict [(PInt 1, PStr "a"); (PStr "1", PStr "b")]) = JObject [("1", JString "b")].
Proof. split; reflexivity. Qed.
