(* ===== verification/RowConv.v ===== *)
(** Statement parameters and result rows (src/src/database/row_converter.rs).  The wire formats of
    postgres-types and the decimal crate are parameters, except the big-endian integers. *)
From S2P Require Import Prelude F64 PyValue Json Method Routing Request Chain BasicAuth Crypto Paginate.
From Stdlib Require Import SpecFloat.
From stdpp Require Import base gmap strings list.
Open Scope Z_scope.

(** * Types and parameters *)

Inductive pg_type :=
| BOOL | INT2 | INT4 | INT8 | FLOAT4 | FLOAT8 | NUMERIC | TEXT | VARCHAR | BPCHAR | NAME | BYTEA
| DATE | TIME | TIMESTAMP | TIMESTAMPTZ | JSON | JSONB
| OtherType (name : string).

#[export] Instance pg_type_eq_dec : EqDecision pg_type.
Proof. solve_decision. Defined.

(** Dates and times are their fields; a decimal is its text. *)
Record naive_date := mkDate { year : Z; month : Z; day : Z }.
Record naive_time := mkTime { hour : Z; minute : Z; second : Z; nano : Z }.

Inductive DynParam :=
| Null
| Bool (b : bool)
| I16 (v : Z)
| I32 (v : Z)
| I64 (v : Z)
| F32 (v : f64)
| F64 (v : f64)
| Decimal (v : string)
| Text (v : string)
| Bytes (v : string)
| Date (v : naive_date)
| Time (v : naive_time)
| Timestamp (d : naive_date) (t : naive_time)
| Json (v : json).

(** What the drivers write for typed values. *)
Class PgFormat := {
  write_bool : bool → string;
  write_f32 : f64 → string;
  write_f64 : f64 → string;
  write_decimal : string → string;
  write_date : naive_date → string;
  write_time : naive_time → string;
  write_timestamp : naive_date → naive_time → string;
  write_json : pg_type → json → string;
  decimal_of_f32 : f64 → option string;
  decimal_of_f64 : f64 → option string
}.

(** The [as i16] and [as i32] casts. *)
Definition signed (bits z : Z) : Z := (z + 2 ^ (bits - 1)) mod 2 ^ bits - 2 ^ (bits - 1).
Definition as_i16 : Z → Z := signed 16.
Definition as_i32 : Z → Z := signed 32.

(** Integers are written in two's complement, most significant byte first. *)
Definition write_int (bytes : nat) (z : Z) : string := be_bytes bytes (z mod 2 ^ (8 * Z.of_nat bytes)).

(** [as f32]: rounding to 24 bits. *)
Definition to_f32 (f : f64) : f64 :=
  match f with
  | S754_finite s m e => binary_normalize 24 128 (if s then Z.neg m else Z.pos m) e s
  | _ => f
  end.

Definition is_type (t : pg_type) (ts : list pg_type) : bool := bool_decide (t ∈ ts).

Section params.
Context `{PF : PgFormat}.

(** [None] is SQL NULL. *)
Definition to_sql (ty : pg_type) (p : DynParam) : option string :=
  match p with
  | Null => None
  | Bool v => Some (write_bool v)
  | I16 v => Some (match ty with
                   | INT2 => write_int 2 v
                   | INT4 => write_int 4 v
                   | INT8 => write_int 8 v
                   | _ => write_int 2 v
                   end)
  | I32 v => Some (match ty with
                   | INT2 => write_int 2 (as_i16 v)
                   | INT4 => write_int 4 v
                   | INT8 => write_int 8 v
                   | _ => write_int 4 v
                   end)
  | I64 v => Some (match ty with
                   | INT2 => write_int 2 (as_i16 v)
                   | INT4 => write_int 4 (as_i32 v)
                   | INT8 => write_int 8 v
                   | _ => write_int 8 v
                   end)
  | F32 v => Some (match ty with
                   | FLOAT4 => write_f32 v
                   | FLOAT8 => write_f64 v
                   | NUMERIC => write_decimal (default "0" (decimal_of_f32 v))
                   | _ => write_f32 v
                   end)
  | F64 v => Some (match ty with
                   | FLOAT4 => write_f32 (to_f32 v)
                   | FLOAT8 => write_f64 v
                   | NUMERIC => write_decimal (default "0" (decimal_of_f64 v))
                   | _ => write_f64 v
                   end)
  | Decimal v => Some (write_decimal v)
  | Text v => Some v
  | Bytes v => Some v
  | Date v => Some (write_date v)
  | Time v => Some (write_time v)
  | Timestamp d t => Some (write_timestamp d t)
  | Json v => Some (write_json ty v)
  end.

Definition type_name (t : pg_type) : string := match t with OtherType n => n | _ => "" end.

Definition accepts (ty : pg_type) : bool :=
  is_type ty [BOOL; INT2; INT4; INT8; FLOAT4; FLOAT8; NUMERIC; TEXT; VARCHAR; BYTEA; DATE; TIME;
              TIMESTAMP; TIMESTAMPTZ; JSON; JSONB]
  || String.eqb (type_name ty) "text" || String.eqb (type_name ty) "varchar"
  || String.eqb (type_name ty) "numeric".

(** [json.dumps], serde_json's parser and [str] are parameters. *)
Context (json_dumps : py → result string string) (json_from_str : string → option json)
  (py_str : py → string).

Definition convert_param (v : py) : result string DynParam :=
  match v with
  | PNone => Ok Null
  | _ =>
      match extract_bool v, extract_i64 v, extract_f64 v, extract_string v with
      | Some b, _, _, _ => Ok (Bool b)
      | None, Some i, _, _ => Ok (I64 i)
      | None, None, Some f, _ => Ok (F64 f)
      | None, None, None, Some s => Ok (Text s)
      | None, None, None, None =>
          match v with
          | PDateTime y mo d h mi s us => Ok (Timestamp (mkDate y mo d) (mkTime h mi s (us * 1000)))
          | PDate y mo d => Ok (Date (mkDate y mo d))
          | PTime h mi s us => Ok (Time (mkTime h mi s (us * 1000)))
          | PDict _ | PList _ =>
              json_str ← json_dumps v;
              Ok (Json (default JNull (json_from_str json_str)))
          | _ => match extract_bytes v with
                 | Some b => Ok (Bytes b)
                 | None => Ok (Text (py_str v))
                 end
          end
      end
  end.

Definition convert_params_from_py : list py → result string (list DynParam) := mapM convert_param.
End params.

(** * Rows *)

(** The Rust types the rows are read into. *)
Inductive rs_type :=
| R_bool | R_i16 | R_i32 | R_i64 | R_f32 | R_f64 | R_String | R_bytes | R_NaiveDate | R_NaiveTime
| R_NaiveDateTime | R_Json | R_Decimal.

(** [FromSql]: which column types a Rust type reads, and what it reads from the bytes, as the
    Python value made of it; chrono's naive date-time reads [TIMESTAMP] only. *)
Class FromSql := {
  from_sql_accepts : rs_type → pg_type → bool;
  from_sql : rs_type → pg_type → string → result string py;
  naive_datetime_accepts t : from_sql_accepts R_NaiveDateTime t = bool_decide (t = TIMESTAMP)
}.

(** A column: name, type, and the value's bytes unless NULL. *)
Record column := mkColumn { col_name : string; col_type : pg_type; raw : option string }.

Section rows.
Context `{FS : FromSql}.
(** [decimal.Decimal] of a text. *)
Context (py_decimal : py → result string py).

Definition try_get (r : rs_type) (c : column) : result string (option py) :=
  if from_sql_accepts r (col_type c) then
    match raw c with
    | None => Ok None
    | Some b => v ← from_sql r (col_type c) b; Ok (Some v)
    end
  else Err "error retrieving column".

Definition value_or_none (r : rs_type) (c : column) : py :=
  match try_get r c with Ok (Some v) => v | Ok None | Err _ => PNone end.

Definition column_value (c : column) : result string py :=
  match col_type c with
  | BOOL => Ok (value_or_none R_bool c)
  | INT2 => Ok (value_or_none R_i16 c)
  | INT4 => Ok (value_or_none R_i32 c)
  | INT8 => Ok (value_or_none R_i64 c)
  | FLOAT4 => Ok (value_or_none R_f32 c)
  | FLOAT8 => Ok (value_or_none R_f64 c)
  | TEXT | VARCHAR | BPCHAR | NAME => Ok (value_or_none R_String c)
  | BYTEA => Ok (value_or_none R_bytes c)
  | DATE => Ok (value_or_none R_NaiveDate c)
  | TIME => Ok (value_or_none R_NaiveTime c)
  | TIMESTAMP | TIMESTAMPTZ => Ok (value_or_none R_NaiveDateTime c)
  | JSON | JSONB => Ok (value_or_none R_Json c)
  | NUMERIC =>
      match try_get R_Decimal c with
      | Ok (Some v) => py_decimal v
      | Ok None => Ok PNone
      | Err _ => Ok (value_or_none R_String c)
      end
  | OtherType _ => Ok (value_or_none R_String c)
  end.

Fixpoint row_loop (cs : list column) (dict : list (py * py)) : result string (list (py * py)) :=
  match cs with
  | [] => Ok dict
  | c :: cs' => v ← column_value c; row_loop cs' (dict_set (col_name c) v dict)
  end.
Definition row_to_py_dict (row : list column) : result string py :=
  d ← row_loop row []; Ok (PDict d).

(** A column of type TIMESTAMPTZ always reads as None. *)
Lemma timestamptz_reads_none c : col_type c = TIMESTAMPTZ → column_value c = Ok PNone.
Proof.
  intros Ht. unfold column_value, value_or_none, try_get. rewrite Ht, naive_datetime_accepts.
  by rewrite bool_decide_false.
Qed.
End rows.

(** * Integers in the database *)

(** The bytes of the integer types, and how the server reads them. *)
Definition int_width (ty : pg_type) : option nat :=
  match ty with INT2 => Some 2%nat | INT4 => Some 4%nat | INT8 => Some 8%nat | _ => None end.
Definition read_int (b : string) : Z := signed (8 * str_len b) (from_be_bytes 0 b).

Lemma signed_mod bits z : 0 < bits → signed bits (z mod 2 ^ bits) = signed bits z.
Proof. intros Hb. unfold signed. by rewrite Zplus_mod_idemp_l. Qed.

Lemma signed_id bits z : 0 < bits → signed bits z = z ↔ - 2 ^ (bits - 1) <= z < 2 ^ (bits - 1).
Proof.
  intros Hb. assert (2 ^ bits = 2 * 2 ^ (bits - 1)) as H2 by (rewrite <- Z.pow_succ_r by lia; f_equal; lia).
  unfold signed. assert (0 < 2 ^ (bits - 1)) by (apply Z.pow_pos_nonneg; lia).
  pose proof (Z.mod_pos_bound (z + 2 ^ (bits - 1)) (2 ^ bits) ltac:(lia)). split; [lia|].
  intros Hz. rewrite Z.mod_small by lia. lia.
Qed.

Lemma signed_signed small big z :
  0 < small <= big → signed small (signed big z) = signed small z.
Proof.
  intros [Hs Hb]. unfold signed at 1 3. f_equal.
  assert (2 ^ big = 2 ^ small * 2 ^ (big - small)) as Hp by (rewrite <- Z.pow_add_r by lia; f_equal; lia).
  assert (∃ k, signed big z = z + k * 2 ^ big) as [k ->].
  { unfold signed. exists (- ((z + 2 ^ (big - 1)) / 2 ^ big)).
    pose proof (Z.div_mod (z + 2 ^ (big - 1)) (2 ^ big) ltac:(apply Z.pow_nonzero; lia)). lia. }
  rewrite Hp. replace (z + k * (2 ^ small * 2 ^ (big - small)) + 2 ^ (small - 1))
    with (z + 2 ^ (small - 1) + k * 2 ^ (big - small) * 2 ^ small) by ring.
  by rewrite Z.mod_add by (apply Z.pow_nonzero; lia).
Qed.

Lemma write_int_spec n z :
  (0 < n)%nat →
  String.length (write_int n z) = n ∧ read_int (write_int n z) = signed (8 * Z.of_nat n) z.
Proof.
  intros Hn. unfold write_int, read_int, str_len. rewrite length_be_bytes. split; [done|].
  assert (256 ^ Z.of_nat n = 2 ^ (8 * Z.of_nat n)) as H256 by (rewrite Z.pow_mul_r by lia; done).
  rewrite from_be_bytes_split, H256, Z.mul_0_l, Z.add_0_l, Z.mod_mod, signed_mod;
    [done|lia|apply Z.pow_nonzero; lia|apply Z.mod_pos_bound, Z.pow_pos_nonneg; lia].
Qed.

(** C34: what becomes of an integer parameter: a Python integer of the signed 64-bit range arrives at
    a SMALLINT, INTEGER or BIGINT column as an integer of the column's width, and it is the
    same integer exactly when it fits; one that does not fit is silently replaced by its residue,
    since the cast leaves the server nothing to reject. *)
Theorem sql_int_bounds `{PF : PgFormat} dumps parse py_str ty w v :
  int_width ty = Some w → in_i64 v = true →
  ∃ p b, convert_param dumps parse py_str (PInt v) = Ok p ∧ to_sql ty p = Some b ∧
    String.length b = w ∧ read_int b = signed (8 * Z.of_nat w) v ∧
    (read_int b = v ↔ - 2 ^ (8 * Z.of_nat w - 1) <= v < 2 ^ (8 * Z.of_nat w - 1)).
Proof.
  intros Hw Hv. exists (I64 v). unfold convert_param, extract_i64. simpl. rewrite Hv. simpl.
  assert (∀ z, signed (8 * Z.of_nat w) z = signed (8 * Z.of_nat w) v → (0 < w)%nat →
    String.length (write_int w z) = w ∧ read_int (write_int w z) = signed (8 * Z.of_nat w) v ∧
    (read_int (write_int w z) = v ↔ - 2 ^ (8 * Z.of_nat w - 1) <= v < 2 ^ (8 * Z.of_nat w - 1))) as Hz.
  { intros z Hz Hp. destruct (write_int_spec w z Hp) as [Hl Hr]. rewrite Hr, Hz. split; [done|]. split; [done|].
    apply signed_id. lia. }
  destruct ty; simplify_eq/=; eexists; (split; [done|]); (split; [done|]); apply Hz; try lia.
  - by apply signed_signed.
  - by apply signed_signed.
Qed.

#[refine] Instance text_PgFormat : PgFormat := {
  write_bool b := if b then "1" else "0"; write_f32 _ := ""; write_f64 _ := ""; write_decimal s := s;
  write_date _ := ""; write_time _ := ""; write_timestamp _ _ := ""; write_json _ _ := "";
  decimal_of_f32 _ := None; decimal_of_f64 _ := None
}.
Defined.

(** 70000 for a SMALLINT column is stored as 4464. *)
Lemma sql_int_bounds_witness :
  ∃ b, to_sql INT2 (I64 70000) = Some b ∧ read_int b = 4464 ∧ read_int b ≠ 70000.
Proof.
  destruct (sql_int_bounds (λ _, Ok "") (λ _, None) (λ _, "") INT2 2 70000 eq_refl eq_refl)
    as (p & b & Hp & Hb & _ & Hr & Hi).
  injection Hp as <-. exists b. split; [exact Hb|]. rewrite Hr. split; [reflexivity|].
  vm_compute. discriminate.
Defined.

(** Larger integers become floats, which may meet; a dict that [json.dumps] writes with a NaN
    does not parse and is stored as a JSON null. *)
Lemma big_int_param dumps parse py_str :
  convert_param dumps parse py_str (PInt (2 ^ 63)) = convert_param dumps parse py_str (PInt (2 ^ 63 + 1)).
Proof. vm_compute. reflexivity. Qed.

Lemma unparsable_json_param dumps parse py_str d text :
  dumps (PDict d) = Ok text → parse text = None →
  convert_param dumps parse py_str (PDict d) = Ok (Json JNull).
Proof. intros Hd Hp. unfold convert_param. simpl. rewrite Hd. simpl. by rewrite Hp. Qed.
