(* ===== verification/Context.v ===== *)
(** Request contexts and dependency injection (src/src/core/context.rs).  Factories are Python
    callables: a call may change the world and may fail. *)
From S2P Require Import Prelude F64 PyValue.
From Stdlib Require Import SpecFloat.
From stdpp Require Import base gmap strings list.
Open Scope Z_scope.

(** * Values *)

Inductive DIValue :=
| DString (s : string)
| DInt (i : Z)
| DFloat (f : f64)
| DBool (b : bool)
| DBytes (b : string)
| DPyObject (o : py)
| DDict (m : list (string * DIValue))
| DList (l : list DIValue)
| DNone.

Definition as_string (v : DIValue) : option string := match v with DString s => Some s | _ => None end.
Definition as_int (v : DIValue) : option Z := match v with DInt i => Some i | _ => None end.
Definition as_float (v : DIValue) : option f64 := match v with DFloat f => Some f | _ => None end.
Definition as_bool (v : DIValue) : option bool := match v with DBool b => Some b | _ => None end.

Fixpoint into_py (v : DIValue) : py :=
  match v with
  | DString s => PStr s
  | DInt i => PInt i
  | DFloat f => PFloat f
  | DBool b => PBool b
  | DBytes b => PBytes b
  | DPyObject o => o
  | DDict m => PDict (foldl (λ d kv, dict_set kv.1 kv.2 d) [] (List.map (λ kv, (kv.1, into_py kv.2)) m))
  | DList l => PList (List.map into_py l)
  | DNone => PNone
  end.

(** The first extraction that succeeds. *)
Definition from_py (obj : py) : DIValue :=
  match obj with
  | PNone => DNone
  | _ =>
      match extract_string obj, extract_bool obj, extract_i64 obj, extract_f64 obj, extract_bytes obj with
      | Some s, _, _, _, _ => DString s
      | None, Some b, _, _, _ => DBool b
      | None, None, Some i, _, _ => DInt i
      | None, None, None, Some f, _ => DFloat f
      | None, None, None, None, Some b => DBytes b
      | None, None, None, None, None => DPyObject obj
      end
  end.

(** * Context *)

(** One handle of a context (a clone would share the values and roles). *)
Record Context_ := mkContext {
  values : gmap string DIValue;
  user_id : option string;
  is_authenticated : bool;
  roles : list string;
  request_id : string;
  start_time : Z
}.

(** The request id is the hash of the nanoseconds since the reading one line before. *)
Definition context_new (id_of_nanos : Z → string) (now elapsed_nanos : Z) : Context_ :=
  mkContext ∅ None false [] (id_of_nanos elapsed_nanos) now.

Definition with_values (f : gmap string DIValue → gmap string DIValue) (c : Context_) : Context_ :=
  mkContext (f (values c)) (user_id c) (is_authenticated c) (roles c) (request_id c) (start_time c).

Definition set_value (key : string) (v : DIValue) : Context_ → Context_ := with_values (<[key := v]>).
Definition set_string (key s : string) : Context_ → Context_ := set_value key (DString s).
Definition set_int (key : string) (i : Z) : Context_ → Context_ := set_value key (DInt i).
Definition set_bool (key : string) (b : bool) : Context_ → Context_ := set_value key (DBool b).
Definition set (key : string) (value : py) : Context_ → Context_ := set_value key (from_py value).
Definition get_value (key : string) (c : Context_) : option DIValue := values c !! key.
Definition get (key : string) (c : Context_) : py :=
  match values c !! key with Some v => into_py v | None => PNone end.
Definition has (key : string) (c : Context_) : bool := bool_decide (is_Some (values c !! key)).
Definition remove (key : string) (c : Context_) : Context_ * bool := (with_values (delete key) c, has key c).
Definition keys `{!HashIter string DIValue} (c : Context_) : list string := (hiter (values c)).*1.

Definition set_auth (u : string) (r : list string) (c : Context_) : Context_ :=
  mkContext (values c) (Some u) true r (request_id c) (start_time c).
Definition clear_auth (c : Context_) : Context_ :=
  mkContext (values c) None false [] (request_id c) (start_time c).
Definition has_role (r : string) (c : Context_) : bool := bool_decide (r ∈ roles c).

(** The four fixed entries replace values of the same name. *)
Definition to_dict `{!HashIter string DIValue} (c : Context_) : list (py * py) :=
  let d := foldl (λ d kv, dict_set kv.1 (into_py kv.2) d) [] (hiter (values c)) in
  let d := dict_set "user_id" (match user_id c with Some u => PStr u | None => PNone end) d in
  let d := dict_set "is_authenticated" (PBool (is_authenticated c)) d in
  let d := dict_set "roles" (PList (PStr <$> roles c)) d in
  dict_set "request_id" (PStr (request_id c)) d.

(** * Container *)

Section container.
(** The Python callables and the world their calls change. *)
Context {callable W : Type} (call0 : callable → W → W * result string py).
Context `{HV : !HashIter string DIValue} `{HC : !HashIter string callable}.

Record DIContainer := mkDIContainer {
  singletons : gmap string DIValue;
  factories : gmap string callable
}.

Definition container_new : DIContainer := mkDIContainer ∅ ∅.

Definition set_singleton (name : string) (v : DIValue) (c : DIContainer) : DIContainer :=
  mkDIContainer (<[name := v]> (singletons c)) (factories c).
Definition singleton (name : string) (value : py) : DIContainer → DIContainer := set_singleton name (from_py value).
Definition factory (name : string) (f : callable) (c : DIContainer) : DIContainer :=
  mkDIContainer (singletons c) (<[name := f]> (factories c)).
Definition get_singleton_value (name : string) (c : DIContainer) : option DIValue := singletons c !! name.
Definition get_singleton (name : string) (c : DIContainer) : py :=
  match singletons c !! name with Some v => into_py v | None => PNone end.

(** The loop over the factories: the first failure ends it. *)
Fixpoint call_factories (fs : list (string * callable)) (ctx : Context_) (w : W) : W * result string Context_ :=
  match fs with
  | [] => (w, Ok ctx)
  | (name, f) :: fs' =>
      match call0 f w with
      | (w', Ok r) => call_factories fs' (set_value name (from_py r) ctx) w'
      | (w', Err e) => (w', Err e)
      end
  end.

Definition create_context (new : Context_) (c : DIContainer) (w : W) : W * result string Context_ :=
  let ctx := foldl (λ ctx kv, set_value kv.1 kv.2 ctx) new (hiter (singletons c)) in
  call_factories (hiter (factories c)) ctx w.

Definition container_has (name : string) (c : DIContainer) : bool :=
  bool_decide (is_Some (singletons c !! name)) || bool_decide (is_Some (factories c !! name)).

(** The second [remove] is not evaluated when the first finds something. *)
Definition container_remove (name : string) (c : DIContainer) : DIContainer * bool :=
  match singletons c !! name with
  | Some _ => (mkDIContainer (delete name (singletons c)) (factories c), true)
  | None => (mkDIContainer (singletons c) (delete name (factories c)), bool_decide (is_Some (factories c !! name)))
  end.
End container.
Arguments DIContainer : clear implicits.

(** * What survives the container *)

Definition is_none {A} (o : option A) : bool := match o with None => true | Some _ => false end.

(** The values that come back as they went in. *)
Definition preserved (v : py) : bool :=
  match v with
  | PInt z => in_i64 z || is_none (float_of_int z)
  | PList l | PTuple l => is_none (bytes_of l)
  | POther _ index float _ seq =>
      is_none float &&
      match index with Some z => negb (in_i64 z) && is_none (float_of_int z) | None => true end &&
      match seq with Some l => is_none (bytes_of l) | None => true end
  | _ => true
  end.

(** C16: a value put into a context or container comes back as the same Python value exactly
    when it is none of these: an integer beyond 64 bits that a float can hold (it becomes that float), a
    list, tuple or other sequence (a range, bytearray, deque) whose elements are all integers below 256,
    the empty one included (it becomes bytes), and an object that converts to a number (it becomes that
    number).  The values are those of [py]: instances of the built-in types themselves, not of their
    subclasses, and objects of other types. *)
Theorem di_roundtrip v : into_py (from_py v) = v ↔ preserved v = true.
Proof.
  destruct v as [|b|z|f|s|b|d|l|l|l| | | |o index float attrs seq]; try done; unfold from_py, extract_i64; simpl.
  - destruct (in_i64 z) eqn:Hi; simpl; [done|].  destruct (float_of_int z); done.
  - destruct (bytes_of l); done.
  - destruct (bytes_of l); done.
  - destruct index as [z|]; simpl.
    + destruct (in_i64 z) eqn:Hi; simpl; [by rewrite andb_false_r|].
      destruct float; simpl; [done|]. destruct (float_of_int z); simpl; [done|].
      destruct seq as [l|]; [|done]. by destruct (bytes_of l).
    + destruct float; [done|]. destruct seq as [l|]; [|done]. by destruct (bytes_of l).
Qed.

(** * What a context holds *)

Section creation.
Context {callable W : Type} (call0 : callable → W → W * result string py).
Context `{HV : !HashIter string DIValue} `{HC : !HashIter string callable}.

Lemma set_values_spec (l : list (string * DIValue)) ctx name :
  NoDup l.*1 →
  values (foldl (λ ctx kv, set_value kv.1 kv.2 ctx) ctx l) !! name =
    match list_to_map (M := gmap string DIValue) l !! name with Some v => Some v | None => values ctx !! name end.
Proof.
  revert ctx. induction l as [|[k v] l IH]; intros ctx Hl; [simpl; by rewrite lookup_empty|].
  rewrite fmap_cons in Hl. apply NoDup_cons in Hl as [Hk Hl]. cbn [foldl]. rewrite IH by done. simpl in *.
  destruct (decide (k = name)) as [<-|Hn].
  - rewrite lookup_insert_eq, not_elem_of_list_to_map_1 by done. by rewrite lookup_insert_eq.
  - by rewrite !lookup_insert_ne by done.
Qed.

(** What the identity of a context is made of. *)
Definition same_identity (a b : Context_) : Prop :=
  user_id a = user_id b ∧ is_authenticated a = is_authenticated b ∧ roles a = roles b ∧ request_id a = request_id b.

Lemma set_values_identity (l : list (string * DIValue)) ctx :
  same_identity (foldl (λ ctx kv, set_value kv.1 kv.2 ctx) ctx l) ctx.
Proof. revert ctx. induction l as [|kv l IH]; intros ctx; [done|]. simpl. destruct (IH (set_value kv.1 kv.2 ctx)) as (?&?&?&?). done. Qed.

Lemma call_factories_ok fs ctx w w' ctx' :
  NoDup fs.*1 → call_factories call0 fs ctx w = (w', Ok ctx') →
  same_identity ctx' ctx ∧
  ∀ name, match list_to_map (M := gmap string callable) fs !! name with
          | None => values ctx' !! name = values ctx !! name
          | Some f => ∃ w0 w1 r, call0 f w0 = (w1, Ok r) ∧ values ctx' !! name = Some (from_py r)
          end.
Proof.
  revert ctx w. induction fs as [|[k f] fs IH]; intros ctx w Hnd.
  - intros [= <- <-]. split; [done|]. intros name. simpl. by rewrite lookup_empty.
  - rewrite fmap_cons in Hnd. apply NoDup_cons in Hnd as [Hk Hnd]. cbn [call_factories].
    destruct (call0 f w) as [w1 [r|e]] eqn:Hf; [|done]. intros Hc. destruct (IH _ _ Hnd Hc) as [Hid Hv].
    split; [by destruct Hid as (?&?&?&?)|]. intros name. simpl in *. specialize (Hv name).
    destruct (decide (k = name)) as [<-|Hn].
    + rewrite lookup_insert_eq. rewrite not_elem_of_list_to_map_1 in Hv by done.
      exists w, w1, r. split; [done|]. rewrite Hv. simpl. by rewrite lookup_insert_eq.
    + rewrite lookup_insert_ne by done. destruct (list_to_map fs !! name); [done|].
      rewrite Hv. simpl. by rewrite lookup_insert_ne.
Qed.

Lemma call_factories_err fs ctx w w' e :
  call_factories call0 fs ctx w = (w', Err e) → ∃ name f w0, (name, f) ∈ fs ∧ call0 f w0 = (w', Err e).
Proof.
  revert ctx w. induction fs as [|[k f] fs IH]; intros ctx w; [done|]. cbn [call_factories].
  destruct (call0 f w) as [w1 [r|e1]] eqn:Hf.
  - intros Hc. destruct (IH _ _ Hc) as (n & g & w0 & Hin & Hg). exists n, g, w0. split; [by right|done].
  - intros [= <- <-]. exists k, f, w. split; [by left|done].
Qed.

(** [create_context], in whatever order the maps are visited: a new context has, for every name
    with a factory, the value that factory returned, for every other name of a singleton that singleton,
    nothing else, and the identity it was created with; if any call fails the whole creation
    fails with that call's error. *)
Theorem create_context_spec new c w w' res :
  values new = ∅ → create_context call0 new c w = (w', res) →
  match res with
  | Ok ctx =>
      same_identity ctx new ∧
      ∀ name, match factories c !! name with
              | Some f => ∃ w0 w1 r, call0 f w0 = (w1, Ok r) ∧ get_value name ctx = Some (from_py r)
              | None => get_value name ctx = singletons c !! name
              end
  | Err e => ∃ name f w0, factories c !! name = Some f ∧ call0 f w0 = (w', Err e)
  end.
Proof.
  intros Hnew. unfold create_context. set (ctx0 := foldl _ new _). intros Hc. destruct res as [ctx|e].
  - apply call_factories_ok in Hc as [Hid Hv]; [|apply NoDup_fst_hiter].
    destruct (set_values_identity (hiter (singletons c)) new) as (H1 & H2 & H3 & H4). fold ctx0 in H1, H2, H3, H4.
    split; [destruct Hid as (?&?&?&?); split_and!; congruence|]. intros name. specialize (Hv name).
    assert (∀ V `{!HashIter string V} (m : gmap string V), list_to_map (hiter m) = m) as Hm.
    { intros V ? m. apply map_eq. intros k. apply option_eq. intros v.
      rewrite <- elem_of_list_to_map by apply NoDup_fst_hiter. by rewrite elem_of_hiter. }
    rewrite Hm in Hv. destruct (factories c !! name) as [f|]; [done|]. unfold get_value. rewrite Hv.
    unfold ctx0. rewrite set_values_spec, Hm, Hnew, lookup_empty by apply NoDup_fst_hiter.
    by destruct (singletons c !! name).
  - apply call_factories_err in Hc as (name & f & w0 & Hin & Hf). exists name, f, w0.
    split; [by apply elem_of_hiter|done].
Qed.

(** Removing a name that is both a singleton and a factory leaves the factory. *)
Lemma remove_keeps_factory name v f (c : DIContainer callable) :
  singletons c !! name = Some v → factories c !! name = Some f →
  (container_remove name c).2 = true ∧ container_has name (container_remove name c).1 = true.
Proof.
  intros Hs Hf. unfold container_remove, container_has. rewrite Hs. simpl. rewrite Hf. split; [done|]. apply orb_true_r.
Qed.
End creation.

(** Contexts created with the same interval between two clock readings share their id. *)
Lemma request_ids_meet id_of_nanos now now' elapsed :
  request_id (context_new id_of_nanos now elapsed) = request_id (context_new id_of_nanos now' elapsed).
Proof. done. Qed.

Example list_becomes_bytes :
  into_py (from_py (PList [PInt 104; PInt 105])) = PBytes "hi" ∧
  (** [range(104, 106)] *)
  into_py (from_py (POther 0 None None None (Some [PInt 104; PInt 105]))) = PBytes "hi".
Proof. split; reflexivity. Qed.

Definition demo_container : DIContainer Z := factory "n" 7 (singleton "a" (PStr "x") container_new).

Lemma create_context_spec_witness :
  ∃ ctx, create_context (λ z w, (w, Ok (PInt z))) (context_new (λ _, "id") 0 5) demo_container tt = (tt, Ok ctx) ∧
    get_value "a" ctx = Some (DString "x").
Proof.
  destruct (create_context (λ z w, (w, Ok (PInt z))) (context_new (λ _, "id") 0 5) demo_container tt)
    as [[] [ctx|e]] eqn:E; [|by vm_compute in E]. exists ctx. split; [done|].
  exact (proj2 (create_context_spec (λ z w, (w, Ok (PInt z))) (context_new (λ _, "id") 0 5) demo_container tt tt
    (Ok ctx) eq_refl E) "a").
Defined.
