(* ===== verification/PgPool.v ===== *)
(** Connection pools (src/src/database/pool.rs): pool configuration, connection URLs and the
    global registry.  The pools themselves are deadpool's; what the code keeps of them is their
    configuration and whether they were closed. *)
From S2P Require Import Prelude.
From stdpp Require Import base gmap strings list.
Open Scope Z_scope.

(** * Configuration *)

Record PoolConfig := mkPoolConfig {
  url : string;
  max_size : Z;
  min_idle : option Z;
  connect_timeout_secs : Z;
  idle_timeout_secs : option Z;
  max_lifetime_secs : option Z;
  test_before_acquire : bool;
  keepalive_secs : option Z
}.

Definition pool_config_default : PoolConfig :=
  mkPoolConfig "" 16 (Some 2) 30 (Some 600) (Some 1800) false None.

(** The Python constructor: [None] is an argument left out. *)
Definition pool_config_new (u : string) (ms mi ct it ml : option Z) (tb : option bool) (ka : option Z) : PoolConfig :=
  mkPoolConfig u (default 16 ms) mi (default 30 ct) it ml (default false tb) ka.

(** deadpool's configuration, as far as the code sets it. *)
Inductive RecyclingMethod := Fast | Verified.
Record Timeouts := mkTimeouts { wait : option Z; create : option Z; recycle : option Z }.
Record Config := mkConfig {
  user : option string;
  password : option string;
  host : option string;
  port : option Z;
  dbname : option string;
  manager : option RecyclingMethod;
  pool : option (Z * Timeouts);
  keepalives : option bool;
  keepalives_idle : option Z
}.

(** [str::parse::<u16>]. *)
Definition parse_u16 (s : string) : option Z :=
  n ← parse_u64 s; if n <=? 65535 then Some n else None.

Definition strip_scheme (u : string) : option string :=
  match str_strip_prefix "postgresql://" u with
  | Some r => Some r
  | None => str_strip_prefix "postgres://" u
  end.

Definition user_password (auth : string) : string * option string :=
  match str_split_once ":" auth with Some (u, p) => (u, Some p) | None => (auth, None) end.
Definition host_and_port (host_port : string) : string * option Z :=
  match str_split_once ":" host_port with Some (h, p) => (h, parse_u16 p) | None => (host_port, Some 5432) end.

(** [split('?').next()] is the text before the first question mark. *)
Definition before_query (db : string) : string :=
  match str_split "?" db with d :: _ => d | [] => db end.

Definition parse_url (u : string) : result string Config :=
  rest ← ok_or (strip_scheme u) "Invalid PostgreSQL URL format";
  '(auth, rest) ← ok_or (str_split_once "@" rest) "Missing @ in URL";
  '(host_port, db) ← ok_or (str_split_once "/" rest) "Missing database name in URL";
  Ok (mkConfig (Some (user_password auth).1) (user_password auth).2
        (Some (host_and_port host_port).1) (host_and_port host_port).2
        (Some (before_query db)) (Some Fast) None None None).

(** The settings of [initialize_sync_with_alias] on top of the URL's. *)
Definition apply_config (config : PoolConfig) (cfg : Config) : Config :=
  mkConfig (user cfg) (password cfg) (host cfg) (port cfg) (dbname cfg)
    (Some (if test_before_acquire config then Verified else Fast))
    (Some (max_size config, mkTimeouts (Some (connect_timeout_secs config)) (Some (connect_timeout_secs config)) (Some 5)))
    (match keepalive_secs config with Some _ => Some true | None => keepalives cfg end)
    (match keepalive_secs config with Some k => Some k | None => keepalives_idle cfg end).

(** * The registry *)

Record Pool_ := mkPool { conf : Config; closed : bool }.

(** Every pool created, by number, and [GLOBAL_POOLS], whose values are handles. *)
Record Pools := mkPools { created : list Pool_; names : gmap string nat }.
Definition no_pools : Pools := mkPools [] ∅.

Definition close_pool (p : nat) (st : Pools) : Pools :=
  mkPools (alter (λ x, mkPool (conf x) true) p (created st)) (names st).

Section registry.
(** [Config::create_pool]: an error, or a pool of that configuration. *)
Context (create_pool : Config → option string).
Context `{HI : !HashIter string nat}.

Definition initialize_sync_with_alias (config : PoolConfig) (alias : string) (st : Pools) : Pools * result string unit :=
  match names st !! alias with
  | Some _ => (st, Err ("Connection pool for alias '" +:+ alias +:+ "' already initialized"))
  | None =>
      match parse_url (url config) with
      | Err e => (st, Err e)
      | Ok cfg =>
          let cfg := apply_config config cfg in
          match create_pool cfg with
          | Some e => (st, Err ("Failed to create pool: " +:+ e))
          | None => (mkPools (created st ++ [mkPool cfg false]) (<[alias := length (created st)]> (names st)), Ok tt)
          end
      end
  end.
Definition initialize_sync (config : PoolConfig) : Pools → Pools * result string unit :=
  initialize_sync_with_alias config "default".

Definition get_pool_by_alias (alias : string) (st : Pools) : option nat := names st !! alias.
Definition get_pool : Pools → option nat := get_pool_by_alias "default".

Definition is_initialized_with_alias (alias : string) (st : Pools) : bool :=
  match get_pool_by_alias alias st with Some _ => true | None => false end.
Definition is_initialized : Pools → bool := is_initialized_with_alias "default".

Definition close_alias (alias : string) (st : Pools) : Pools :=
  match names st !! alias with
  | Some p => close_pool p (mkPools (created st) (delete alias (names st)))
  | None => st
  end.
Definition close_default : Pools → Pools := close_alias "default".
Definition close_all (st : Pools) : Pools :=
  foldl (λ st kv, close_pool kv.2 st) (mkPools (created st) ∅) (hiter (names st)).

Inductive call :=
| Initialize (config : PoolConfig) (alias : string)
| CloseAlias (alias : string)
| CloseAll.

Definition run (c : call) (st : Pools) : Pools :=
  match c with
  | Initialize config alias => (initialize_sync_with_alias config alias st).1
  | CloseAlias alias => close_alias alias st
  | CloseAll => close_all st
  end.
End registry.

(** [PoolStatus]: three numbers asked of the pool. *)
Record PoolStatus := mkPoolStatus { size : Z; available : Z; status_max_size : Z }.
Definition pool_status_by_alias (status : nat → PoolStatus) (alias : string) (st : Pools) : option PoolStatus :=
  status <$> get_pool_by_alias alias st.
Definition pool_status (status : nat → PoolStatus) : Pools → option PoolStatus :=
  pool_status_by_alias status "default".
Definition pool_status_repr (s : PoolStatus) : string :=
  "PoolStatus(size=" +:+ dec (size s) +:+ ", available=" +:+ dec (available s) +:+ ", max_size="
    +:+ dec (status_max_size s) +:+ ")".

(** * What a URL says *)

(** The grammar: a scheme, a user, an optional password, a host, an optional port, a database and
    an optional query. *)
Record url_parts := mkParts {
  u_scheme : string;
  u_user : string;
  u_password : option string;
  u_host : string;
  u_port : option string;
  u_db : string;
  u_query : option string
}.

Definition opt_part (sep : ascii) (o : option string) : string :=
  match o with Some s => String sep s | None => "" end.
Definition print_url (p : url_parts) : string :=
  u_scheme p +:+ (u_user p +:+ opt_part ":" (u_password p)) +:+ String "@"
  ((u_host p +:+ opt_part ":" (u_port p)) +:+ String "/" (u_db p +:+ opt_part "?" (u_query p))).

Definition lacks (c : ascii) (s : string) : Prop := str_contains_char c s = false.
Definition lacks_opt (c : ascii) (o : option string) : Prop := match o with Some s => lacks c s | None => True end.

Definition ok_parts (p : url_parts) : Prop :=
  (u_scheme p = "postgresql://" ∨ u_scheme p = "postgres://") ∧
  lacks "@" (u_user p) ∧ lacks ":" (u_user p) ∧ lacks_opt "@" (u_password p) ∧
  lacks "/" (u_host p) ∧ lacks ":" (u_host p) ∧ lacks_opt "/" (u_port p) ∧ lacks "?" (u_db p).

Definition config_of (p : url_parts) : Config :=
  mkConfig (Some (u_user p)) (u_password p) (Some (u_host p))
    (match u_port p with Some s => parse_u16 s | None => Some 5432 end) (Some (u_db p)) (Some Fast) None None None.

(** Splitting at the first separator inverts [opt_part]. *)
Lemma opt_part_inv sep s l o :
  s = l +:+ opt_part sep o ∧ lacks sep l ↔
  match str_split_once sep s with Some (a, b) => l = a ∧ o = Some b | None => l = s ∧ o = None end.
Proof.
  unfold lacks. destruct (str_split_once sep s) as [[a b]|] eqn:Hs.
  - apply split_once_spec in Hs as [-> Ha]. split.
    + intros [He Hl]. destruct o as [x|]; simpl in He.
      * assert (str_split_once sep (a +:+ String sep b) = str_split_once sep (l +:+ String sep x)) as Hq by (by rewrite He).
        rewrite !str_split_once_app in Hq by done. by injection Hq as -> ->.
      * rewrite str_app_nil_r in He. rewrite <- He, str_contains_char_app in Hl. simpl in Hl.
        by rewrite Ascii.eqb_refl, orb_true_r in Hl.
    + by intros [-> ->].
  - apply split_once_none in Hs. split.
    + intros [He Hl]. destruct o as [x|]; simpl in He.
      * subst s. rewrite str_contains_char_app in Hs. simpl in Hs. by rewrite Ascii.eqb_refl, orb_true_r in Hs.
      * by rewrite str_app_nil_r in He.
    + intros [-> ->]. simpl. by rewrite str_app_nil_r.
Qed.

Lemma strip_scheme_spec u r :
  strip_scheme u = Some r ↔ ∃ s, (s = "postgresql://" ∨ s = "postgres://") ∧ u = s +:+ r.
Proof.
  unfold strip_scheme. destruct (str_strip_prefix "postgresql://" u) as [x|] eqn:H1.
  - apply strip_prefix_spec in H1 as ->. split.
    + intros [= <-]. eauto.
    + intros (s & [-> | ->] & He); [|done]. f_equal. injection He. done.
  - rewrite strip_prefix_spec. split; [intros ->; eauto|]. intros (s & [-> | ->] & ->); [|done].
    by rewrite strip_prefix_app in H1.
Qed.

Lemma before_query_spec db : ∃ q, db = before_query db +:+ opt_part "?" q ∧ lacks "?" (before_query db).
Proof.
  unfold before_query. destruct (str_split_once "?" db) as [[a b]|] eqn:Hs.
  - apply split_once_spec in Hs as [-> Ha]. exists (Some b). by rewrite str_split_app.
  - apply split_once_none in Hs. exists None. rewrite str_split_none by done. simpl. by rewrite str_app_nil_r.
Qed.

Lemma before_query_part db q : lacks "?" db → before_query (db +:+ opt_part "?" q) = db.
Proof.
  intros Hl. unfold before_query. destruct q; simpl; [by rewrite str_split_app|].
  by rewrite str_app_nil_r, str_split_none.
Qed.

Lemma lacks_part c sep l o : c ≠ sep → lacks c l → lacks_opt c o → lacks c (l +:+ opt_part sep o).
Proof.
  intros Hc Hl Ho. unfold lacks. rewrite str_contains_char_app. destruct o; simpl in *; rewrite Hl; [|done].
  by rewrite (proj2 (Ascii.eqb_neq _ _)).
Qed.

Lemma lacks_part_inv c sep l o : lacks c (l +:+ opt_part sep o) → lacks c l ∧ lacks_opt c o.
Proof.
  unfold lacks. rewrite str_contains_char_app. intros [-> H]%orb_false_iff. split; [done|].
  destruct o; simpl in *; [|done]. by apply orb_false_iff in H as [_ ?].
Qed.

Lemma parse_url_reads u cfg : parse_url u = Ok cfg → ∃ p, ok_parts p ∧ u = print_url p ∧ cfg = config_of p.
Proof.
  unfold parse_url. destruct (strip_scheme u) as [r|] eqn:H1; [|done]. destruct (str_split_once "@" r) as [[auth rest]|] eqn:H2; simpl; [|by rewrite H2].
  rewrite H2. simpl. destruct (str_split_once "/" rest) as [[hp db]|] eqn:H3; simpl; [|done]. intros [= <-].
  apply strip_scheme_spec in H1 as (sch & Hsch & ->). apply split_once_spec in H2 as [-> Ha].
  apply split_once_spec in H3 as [-> Hh]. destruct (before_query_spec db) as (q & Hq & Hl).
  unfold user_password, host_and_port.
  pose proof (proj2 (opt_part_inv ":" auth (user_password auth).1 (user_password auth).2)) as Hup.
  pose proof (proj2 (opt_part_inv ":" hp (host_and_port hp).1
    (match str_split_once ":" hp with Some (_, p) => Some p | None => None end))) as Hhp.
  unfold user_password in Hup. unfold host_and_port in Hhp.
  destruct Hup as [Hup Hup']; [by destruct (str_split_once ":" auth) as [[? ?]|]|].
  destruct Hhp as [Hhp Hhp']; [by destruct (str_split_once ":" hp) as [[? ?]|]|].
  exists (mkParts sch (user_password auth).1 (user_password auth).2 (host_and_port hp).1
    (match str_split_once ":" hp with Some (_, p) => Some p | None => None end) (before_query db) q).
  unfold user_password, host_and_port. unfold ok_parts, print_url, config_of; simpl.
  rewrite <- Hup, <- Hhp, <- Hq. rewrite Hup in Ha. rewrite Hhp in Hh.
  apply lacks_part_inv in Ha as [? ?]. apply lacks_part_inv in Hh as [? ?].
  split_and!; try done.
  by destruct (str_split_once ":" hp) as [[? ?]|].
Qed.

Lemma parse_url_print p : ok_parts p → parse_url (print_url p) = Ok (config_of p).
Proof.
  intros (Hs & Hu1 & Hu2 & Hp & Hh1 & Hh2 & Hpo & Hd). unfold parse_url, print_url.
  set (auth := u_user p +:+ _). set (hp := u_host p +:+ _). set (db := u_db p +:+ _).
  rewrite (proj2 (strip_scheme_spec _ (auth +:+ String "@" (hp +:+ String "/" db)))) by eauto. simpl.
  rewrite (str_split_once_app "@" auth) by by apply lacks_part. simpl.
  rewrite (str_split_once_app "/" hp) by by apply lacks_part. simpl.
  unfold config_of. f_equal. unfold db. rewrite before_query_part by done.
  pose proof (proj1 (opt_part_inv ":" auth (u_user p) (u_password p)) (conj eq_refl Hu2)) as Ha.
  pose proof (proj1 (opt_part_inv ":" hp (u_host p) (u_port p)) (conj eq_refl Hh2)) as Hq.
  unfold user_password, host_and_port.
  destruct (str_split_once ":" auth) as [[a b]|], (str_split_once ":" hp) as [[c d]|];
    destruct Ha as [-> ->], Hq as [-> ->]; done.
Qed.

(** [parse_url] accepts exactly the texts of the grammar and reads their parts: the user up to the
    first colon, the password up to the first at sign, the host up to the first colon or slash, the
    database up to the first question mark; a port that is not a 16-bit number is dropped. *)
Theorem parse_url_spec u cfg : parse_url u = Ok cfg ↔ ∃ p, ok_parts p ∧ u = print_url p ∧ cfg = config_of p.
Proof. split; [apply parse_url_reads|]. intros (p & Hp & -> & ->). by apply parse_url_print. Qed.

(** A password with an at sign cannot be written: percent signs are not decoded. *)
Lemma password_has_no_at u cfg pw : parse_url u = Ok cfg → password cfg = Some pw → str_contains_char "@" pw = false.
Proof. intros (p & Hp & -> & ->)%parse_url_reads. simpl. intros Hpw. destruct Hp as (_&_&_&Ha&_). by rewrite Hpw in Ha. Qed.

Example encoded_password :
  password <$> parse_url "postgresql://u:p%40ss@h:99999/db" = Ok (Some "p%40ss") ∧
  port <$> parse_url "postgresql://u:p%40ss@h:99999/db" = Ok None.
Proof. split; reflexivity. Qed.

(** * No pool is lost *)

(** Names stand for different pools, and a pool is open exactly while a name stands for it. *)
Record tracked (st : Pools) : Prop := {
  open_named p x : created st !! p = Some x → closed x = false ↔ ∃ a, names st !! a = Some p;
  named_created a p : names st !! a = Some p → (p < length (created st))%nat;
  named_once a b p : names st !! a = Some p → names st !! b = Some p → a = b
}.

Lemma tracked_initialize create_pool config alias st :
  tracked st → tracked (initialize_sync_with_alias create_pool config alias st).1.
Proof.
  intros Ht. unfold initialize_sync_with_alias. destruct (names st !! alias) as [?|] eqn:Hn; [done|].
  destruct (parse_url (url config)) as [cfg|]; [|done]. destruct (create_pool _); [done|]. simpl.
  destruct Ht as [Ho Hc Hu].
  assert (∀ a, names st !! a = Some (length (created st)) → False) as Hfresh by (intros a ?%Hc; lia).
  split; simpl.
  - intros p x [Hp|[Hl Hx]]%lookup_snoc_Some.
    + destruct Hp as [Hlt Hp]. rewrite (Ho p x Hp). split; intros [a Ha].
      * exists a. rewrite lookup_insert_ne by congruence. done.
      * apply lookup_insert_Some in Ha as [[_ <-]|[_ Ha]]; [lia|eauto].
    + subst. simpl. split; [|done]. intros _. exists alias. by rewrite lookup_insert_eq.
  - intros a p [[_ <-]|[_ Ha%Hc]]%lookup_insert_Some; rewrite length_app; simpl; lia.
  - intros a b p [[<- <-]|[Hna Ha]]%lookup_insert_Some [[<- Hb]|[Hnb Hb]]%lookup_insert_Some; subst; [done| | |by apply (Hu a b p)].
    + by destruct (Hfresh b).
    + by destruct (Hfresh a).
Qed.

Lemma tracked_close_alias alias st : tracked st → tracked (close_alias alias st).
Proof.
  intros [Ho Hc Hu]. unfold close_alias. destruct (names st !! alias) as [p0|] eqn:Hn; [|done]. split; simpl.
  - intros p x Hx. destruct (decide (p = p0)) as [->|Hne].
    + rewrite list_lookup_alter_eq in Hx. apply fmap_Some in Hx as (y & Hy & ->). simpl.
      split; [done|]. intros [a [Hna Ha]%lookup_delete_Some]. destruct Hna. by apply (Hu _ _ _ Hn Ha).
    + rewrite list_lookup_alter_ne in Hx by done. rewrite (Ho p x Hx). split; intros [a Ha]; exists a.
      * apply lookup_delete_Some. split; [congruence|done].
      * by apply lookup_delete_Some in Ha as [_ Ha].
  - intros a p [_ Ha%Hc]%lookup_delete_Some. by rewrite length_alter.
  - intros a b p [_ Ha]%lookup_delete_Some [_ Hb]%lookup_delete_Some. by apply (Hu a b p).
Qed.

Lemma close_each_spec (l : list (string * nat)) st p x :
  created (foldl (λ st kv, close_pool kv.2 st) st l) !! p = Some x →
  names (foldl (λ st kv, close_pool kv.2 st) st l) = names st ∧
  ∃ y, created st !! p = Some y ∧ conf x = conf y ∧ closed x = closed y || bool_decide (p ∈ l.*2).
Proof.
  revert st. induction l as [|[a q] l IH]; intros st Hx; cbn [foldl] in *.
  - split; [done|]. exists x. by rewrite bool_decide_false, orb_false_r by (by intros ?%elem_of_nil).
  - destruct (IH _ Hx) as (Hn & y & Hy & Hcf & Hcl). split; [done|]. simpl in Hy.
    destruct (decide (p = q)) as [->|Hne].
    + rewrite list_lookup_alter_eq in Hy. apply fmap_Some in Hy as (z & Hz & ->). exists z. split_and!; try done.
      rewrite Hcl. simpl. symmetry. apply orb_true_intro. right. apply bool_decide_eq_true. by left.
    + rewrite list_lookup_alter_ne in Hy by done. exists y. split_and!; try done. rewrite Hcl. f_equal.
      apply bool_decide_ext. rewrite fmap_cons, elem_of_cons. naive_solver.
Qed.

Lemma close_each_names (l : list (string * nat)) st :
  names (foldl (λ st kv, close_pool kv.2 st) st l) = names st.
Proof. revert st. induction l as [|kv l IH]; intros st; [done|]. simpl. by rewrite IH. Qed.

Lemma tracked_close_all `{HI : !HashIter string nat} st : tracked st → tracked (close_all st).
Proof.
  intros [Ho Hc Hu]. unfold close_all. split.
  - intros p x Hx. apply close_each_spec in Hx as (Hn & y & Hy & _ & Hcl). rewrite Hn. simpl in *. rewrite Hcl.
    split; [|by intros [a Ha]]. intros [Hop Hin]%orb_false_iff. apply bool_decide_eq_false in Hin.
    apply (Ho _ _ Hy) in Hop as [a Ha]. destruct Hin. apply list_elem_of_fmap. exists (a, p).
    split; [done|]. by apply elem_of_hiter.
  - intros a p. rewrite close_each_names. done.
  - intros a b p. rewrite close_each_names. done.
Qed.

(** After any sequence of calls a pool is open exactly while an alias stands for it, no two aliases
    share one, so closing an alias or everything leaves no open pool behind; and an
    initialization that fails changes nothing, one that succeeds registers a new open pool with
    the configuration of its URL and settings. *)
Theorem pools_tracked `{HI : !HashIter string nat} create_pool (cs : list call) st :
  st = foldl (λ st c, run create_pool c st) no_pools cs →
  tracked st ∧
  ∀ config alias, match initialize_sync_with_alias create_pool config alias st with
    | (st', Err _) => st' = st
    | (st', Ok _) =>
        names st !! alias = None ∧
        ∃ p cfg, get_pool_by_alias alias st' = Some p ∧ created st !! p = None ∧
          parse_url (url config) = Ok cfg ∧ created st' !! p = Some (mkPool (apply_config config cfg) false)
    end.
Proof.
  intros ->. split.
  - assert (∀ st, tracked st → tracked (foldl (λ st c, run create_pool c st) st cs)) as H.
    { induction cs as [|c cs IH]; intros st Ht; [done|]. simpl. apply IH.
      destruct c; [by apply tracked_initialize|by apply tracked_close_alias|by apply tracked_close_all]. }
    apply H. split; simpl; [by intros [|p] x|by intros a p ?%lookup_empty_Some|by intros a b p ?%lookup_empty_Some].
  - intros config alias. unfold initialize_sync_with_alias, get_pool_by_alias.
    destruct (names _ !! alias) eqn:Hn; [done|]. destruct (parse_url (url config)) as [cfg|]; [|done].
    destruct (create_pool _); [done|]. simpl. split; [done|].
    eexists _, cfg. rewrite lookup_insert_eq. split_and!; [done|by apply lookup_ge_None_2|done|].
    by apply list_lookup_middle.
Qed.

Definition demo_config : PoolConfig :=
  pool_config_new "postgres://u:p@h/db" None None None None None None None.
Definition demo_calls : list call :=
  [Initialize demo_config "a"; Initialize demo_config "a"; Initialize demo_config "b"; CloseAlias "a"].

Lemma pools_tracked_witness :
  tracked (foldl (λ st c, run (λ _, None) c st) no_pools demo_calls) ∧
  closed <$> created (foldl (λ st c, run (λ _, None) c st) no_pools demo_calls) = [true; false].
Proof. split; [exact (proj1 (pools_tracked (λ _, None) demo_calls _ eq_refl))|vm_compute; reflexivity]. Defined.
