(* ===== verification/DbOps.v ===== *)
(** Statements in a transaction (src/src/database/operation.rs, transaction.rs, connection.rs and
    config.rs) and the multi-driver pool (any_pool.rs).  sqlx is a parameter: which column types a
    Rust type reads, and what the database answers, as a function of what was sent before. *)
From S2P Require Import Prelude F64 PyValue Json RowConv.
From stdpp Require Import base gmap strings list.
Open Scope Z_scope.

(** A call returns a value or an error to Python, or panics, which aborts the process. *)
Inductive outcome (A : Type) := Returns (r : result string A) | Panics.
Arguments Returns {A} _.
Arguments Panics {A}.

(** * Row streams *)

Record RowStream := mkStream { chunks : list (list py); current_index : nat; exhausted : bool }.
Definition stream_new (cs : list (list py)) : RowStream := mkStream cs O false.

Definition next (s : RowStream) : RowStream * option (list py) :=
  if (length (chunks s) <=? current_index s)%nat then (mkStream (chunks s) (current_index s) true, None)
  else (mkStream (chunks s) (S (current_index s)) (exhausted s), chunks s !! current_index s).
Definition is_exhausted : RowStream → bool := exhausted.
Definition chunk_count (s : RowStream) : nat := length (chunks s).

(** * Parameters *)

Inductive SqlxParam :=
| SNull
| SString (s : string)
| SBool (b : bool)
| SI64 (z : Z)
| SF64 (f : f64)
| STimestamp (d : naive_date) (t : naive_time)
| SDate (d : naive_date)
| STime (t : naive_time)
| SJson (v : json).

Section binder.
(** Python's [str] and serde_json's parser. *)
Context (py_str : py → string) (json_from_str : string → option json) (type_repr : py → string).

(** A dict or list is printed with [str], not with [json.dumps]. *)
Definition bind_parameter (p : py) : result string SqlxParam :=
  match p with
  | PNone => Ok SNull
  | PStr s => Ok (SString s)
  | PBool b => Ok (SBool b)
  | PInt _ => match extract_i64 p with Some i => Ok (SI64 i) | None => Err "Python int too large to convert to C long" end
  | PFloat f => Ok (SF64 f)
  | PDateTime y mo d h mi s us => Ok (STimestamp (mkDate y mo d) (mkTime h mi s (us * 1000)))
  | PDate y mo d => Ok (SDate (mkDate y mo d))
  | PTime h mi s us => Ok (STime (mkTime h mi s (us * 1000)))
  | PDict _ | PList _ => Ok (SJson (default JNull (json_from_str (py_str p))))
  | _ => Err ("Unsupported parameter type: " +:+ type_repr p)
  end.
Definition bind_parameters : list py → result string (list SqlxParam) := mapM bind_parameter.

(** What [str] writes for a dict with a string key is not JSON: JSON strings have double quotes. *)
Lemma dict_binds_null items :
  (∀ s, starts_with "{'" s = true → json_from_str s = None) →
  starts_with "{'" (py_str (PDict items)) = true → bind_parameter (PDict items) = Ok (SJson JNull).
Proof. intros Hj Hs. simpl. by rewrite Hj. Qed.
End binder.

(** * Rows *)

Inductive sqlx_type :=
| X_i32 | X_i64 | X_String | X_f64 | X_bool | X_NaiveDateTime | X_NaiveDate | X_NaiveTime
| X_Json | X_VecString | X_VecI32.

(** The column types of postgres that sqlx documents for a Rust type, extensions aside. *)
Definition documented (r : sqlx_type) : list pg_type :=
  match r with
  | X_i32 => [INT4]
  | X_i64 => [INT8]
  | X_String => [TEXT; NAME; BPCHAR; VARCHAR]
  | X_f64 => [FLOAT8]
  | X_bool => [BOOL]
  | X_NaiveDateTime => [TIMESTAMP]
  | X_NaiveDate => [DATE]
  | X_NaiveTime => [TIME]
  | X_Json => [JSON; JSONB]
  | X_VecString | X_VecI32 => []
  end.

Class SqlxRow := {
  compatible : sqlx_type → pg_type → bool;
  decode : sqlx_type → pg_type → string → result string py;
  decode_json : pg_type → string → result string json;
  compatible_documented r t : compatible r t = true → t ∈ documented r ∨ ∃ n, t = OtherType n
}.

Section rows.
Context `{SR : SqlxRow}.
Context (json_to_string : json → result string string).

Definition try_get (r : sqlx_type) (c : column) (raw : string) : option py :=
  if compatible r (col_type c) then
    match decode r (col_type c) raw with Ok v => Some v | Err _ => None end
  else None.
Definition try_get_json (c : column) (raw : string) : option json :=
  if compatible X_Json (col_type c) then
    match decode_json (col_type c) raw with Ok v => Some v | Err _ => None end
  else None.

Fixpoint first_of (rs : list sqlx_type) (c : column) (raw : string) : option py :=
  match rs with
  | [] => None
  | r :: rs' => match try_get r c raw with Some v => Some v | None => first_of rs' c raw end
  end.

(** The chain of attempts; a JSON value is handed out as its text. *)
Definition result_value (c : column) : result string py :=
  match raw c with
  | None => Ok PNone
  | Some b =>
      match first_of [X_i32; X_i64; X_String; X_f64; X_bool; X_NaiveDateTime; X_NaiveDate; X_NaiveTime] c b with
      | Some v => Ok v
      | None =>
          match try_get_json c b with
          | Some j => s ← json_to_string j; Ok (PStr s)
          | None => Ok (default PNone (first_of [X_VecString; X_VecI32] c b))
          end
      end
  end.

Fixpoint result_loop (cs : list column) (dict : list (py * py)) : result string (list (py * py)) :=
  match cs with
  | [] => Ok dict
  | c :: cs' => v ← result_value c; result_loop cs' (dict_set (col_name c) v dict)
  end.
Definition bind_result (row : list column) : result string py := d ← result_loop row []; Ok (PDict d).

(** Small integers, single floats, decimals, bytes and times with a zone read as [None]. *)
Lemma unread_types c :
  col_type c ∈ [INT2; FLOAT4; NUMERIC; BYTEA; TIMESTAMPTZ] → result_value c = Ok PNone.
Proof.
  intros Ht. unfold result_value. destruct (raw c) as [b|]; [|done].
  assert (∀ r, compatible r (col_type c) = false) as Hc.
  { intros r. destruct (compatible r (col_type c)) eqn:He; [|done]. apply compatible_documented in He as [He|[n He]].
    - exfalso. revert He. repeat (apply elem_of_cons in Ht as [->|Ht]; [destruct r; simpl; set_solver|]).
      by apply elem_of_nil in Ht.
    - rewrite He in Ht. exfalso. set_solver. }
  simpl. unfold try_get_json, try_get. by rewrite !Hc.
Qed.

(** * Transactions *)

Notation row := (list column).

Context (py_str : py → string) (json_from_str : string → option json) (type_repr : py → string).
Notation bind_params := (bind_parameters py_str json_from_str type_repr).

Inductive event :=
| Statement (query : string) (params : list SqlxParam)
| Commit
| Rollback.

(** The answers, given everything sent on the connection so far: rows affected; the rows of a
    query and the error after them, if any. *)
Context (rows_affected : list event → result string Z) (rows_of : list event → list row * option string).
(** Whether the driver's [commit] or [rollback] succeeds, given everything sent up to it. *)
Context (acknowledged : list event → bool).

(** The shared cell [Arc<Mutex<Option<Transaction>>>] and what was sent on its connection. *)
Record Transaction := mkTx { open : bool; sent : list event }.
Definition from_transaction : Transaction := mkTx true [].

Definition execute (query : string) (params : list py) (tx : Transaction) : Transaction * outcome Z :=
  match bind_params params with
  | Err e => (tx, Returns (Err e))
  | Ok b =>
      if open tx then
        let h := sent tx ++ [Statement query b] in (mkTx true h, Returns (rows_affected h))
      else (tx, Panics)
  end.

Definition fetch_all (query : string) (params : list py) (tx : Transaction) : Transaction * outcome (list py) :=
  match bind_params params with
  | Err e => (tx, Returns (Err e))
  | Ok b =>
      if open tx then
        let h := sent tx ++ [Statement query b] in
        (mkTx true h, Returns (match rows_of h with
                               | (rs, None) => mapM bind_result rs
                               | (_, Some e) => Err e
                               end))
      else (tx, Panics)
  end.

Fixpoint stream_loop (rs : list row) (err : option string) (chunk_size : Z) (cs : list (list py)) (current : list py)
    : result string (list (list py)) :=
  match rs with
  | [] =>
      match err with
      | Some e => Err e
      | None => Ok (match current with [] => cs | _ => cs ++ [current] end)
      end
  | r :: rs' =>
      v ← bind_result r;
      let current := current ++ [v] in
      if chunk_size <=? Z.of_nat (length current) then stream_loop rs' err chunk_size (cs ++ [current]) []
      else stream_loop rs' err chunk_size cs current
  end.

(** The transaction is taken out of the cell and dropped at the end, which rolls it back. *)
Definition stream_data (query : string) (params : list py) (chunk_size : Z) (tx : Transaction)
    : Transaction * outcome RowStream :=
  match bind_params params with
  | Err e => (tx, Returns (Err e))
  | Ok b =>
      if open tx then
        let h := sent tx ++ [Statement query b] in
        let '(rs, err) := rows_of h in
        (mkTx false (h ++ [Rollback]), Returns (stream_new <$> stream_loop rs err chunk_size [] []))
      else (tx, Panics)
  end.

(** [slice::chunks]. *)
Fixpoint slice_chunks {A} (fuel n : nat) (l : list A) : list (list A) :=
  match fuel with
  | O => []
  | S fuel' => match l with [] => [] | _ => take n l :: slice_chunks fuel' n (drop n l) end
  end.

Fixpoint run_sets (query : string) (sets : list (list py)) (total : Z) (tx : Transaction) : Transaction * result string Z :=
  match sets with
  | [] => (tx, Ok total)
  | params :: sets' =>
      match bind_params params with
      | Err e => (tx, Err e)
      | Ok b =>
          let h := sent tx ++ [Statement query b] in
          match rows_affected h with
          | Ok n => run_sets query sets' (w64 (total + n)) (mkTx true h)
          | Err e => (mkTx true h, Err e)
          end
      end
  end.
Fixpoint run_batches (query : string) (batches : list (list (list py))) (total : Z) (tx : Transaction)
    : Transaction * result string Z :=
  match batches with
  | [] => (tx, Ok total)
  | b :: batches' =>
      match run_sets query b total tx with
      | (tx', Ok t) => run_batches query batches' t tx'
      | (tx', Err e) => (tx', Err e)
      end
  end.

Definition bulk_change (query : string) (sets : list (list py)) (batch_size : nat) (tx : Transaction)
    : Transaction * outcome Z :=
  if open tx then
    match batch_size with
    | O => (tx, Panics)
    | _ => let '(tx', r) := run_batches query (slice_chunks (length sets) batch_size sets) 0 tx in (tx', Returns r)
    end
  else (tx, Returns (Err "No active transaction")).

(** The driver's transaction is taken out of the cell; when its [commit] or [rollback] fails it is
    still open where it is dropped, and its [Drop] sends a ROLLBACK.  The result of the driver is
    dropped by [.ok()]. *)
Definition end_with (e : event) (tx : Transaction) : Transaction * outcome unit :=
  if open tx then
    let h := sent tx ++ [e] in
    (mkTx false (if acknowledged h then h else h ++ [Rollback]), Returns (Ok tt))
  else (tx, Panics).
Definition commit : Transaction → Transaction * outcome unit := end_with Commit.
Definition rollback : Transaction → Transaction * outcome unit := end_with Rollback.

(** * Batches *)

Lemma concat_chunks {A} fuel n (l : list A) : (0 < n)%nat → (length l <= fuel)%nat → concat (slice_chunks fuel n l) = l.
Proof.
  intros Hn. revert l. induction fuel as [|fuel IH]; intros l Hl; [by destruct l; [|simpl in Hl; lia]|].
  destruct l as [|x l]; [done|]. cbn [slice_chunks]. cbn [concat]. rewrite IH; [by rewrite take_drop|].
  rewrite length_drop. simpl in *. lia.
Qed.

Lemma run_sets_app query a b total tx :
  run_sets query (a ++ b) total tx =
    match run_sets query a total tx with (tx', Ok t) => run_sets query b t tx' | (tx', Err e) => (tx', Err e) end.
Proof.
  revert total tx. induction a as [|x a IH]; intros total tx; [done|]. simpl.
  destruct (bind_params x); [|done]. destruct (rows_affected _); [apply IH|done].
Qed.

Lemma run_batches_concat query bs total tx : run_batches query bs total tx = run_sets query (concat bs) total tx.
Proof.
  revert total tx. induction bs as [|b bs IH]; intros total tx; [done|]. simpl. rewrite run_sets_app.
  destruct (run_sets query b total tx) as [tx' [t|e]]; [apply IH|done].
Qed.

(** The reference: one call of [execute] after another, until one fails. *)
Fixpoint execute_each (query : string) (sets : list (list py)) (total : Z) (tx : Transaction) : Transaction * outcome Z :=
  match sets with
  | [] => (tx, Returns (Ok total))
  | params :: sets' =>
      match execute query params tx with
      | (tx', Returns (Ok n)) => execute_each query sets' (w64 (total + n)) tx'
      | (tx', Returns (Err e)) => (tx', Returns (Err e))
      | (tx', Panics) => (tx', Panics)
      end
  end.

Lemma run_sets_each query sets total tx :
  open tx = true →
  execute_each query sets total tx = ((run_sets query sets total tx).1, Returns (run_sets query sets total tx).2).
Proof.
  revert total tx. induction sets as [|x sets IH]; intros total tx Ho; [done|]. simpl. unfold execute.
  destruct (bind_params x); [|done]. rewrite Ho. destruct (rows_affected _); [by apply IH|done].
Qed.

(** C33: On an open transaction [bulk_change] is the sequence of single [execute]s, whatever the batch
    size (the same statements, in order, the same total modulo 2^64, the same first error, after which
    nothing more is sent), except for batch size 0, which panics. *)
Theorem bulk_is_sequential query sets batch_size tx :
  open tx = true →
  bulk_change query sets batch_size tx =
    match batch_size with O => (tx, Panics) | S _ => execute_each query sets 0 tx end.
Proof.
  intros Ho. unfold bulk_change. rewrite Ho. destruct batch_size as [|n]; [done|].
  rewrite run_batches_concat, concat_chunks by lia. rewrite run_sets_each by done.
  by destruct (run_sets query sets 0 tx).
Qed.

(** * The life of a transaction *)

Inductive call :=
| Execute (query : string) (params : list py)
| FetchAll (query : string) (params : list py)
| StreamData (query : string) (params : list py) (chunk_size : Z)
| BulkChange (query : string) (sets : list (list py)) (batch_size : nat)
| CallCommit
| CallRollback.

Definition panics {A} (o : outcome A) : bool := match o with Panics => true | Returns _ => false end.
Definition run_call (c : call) (tx : Transaction) : option Transaction :=
  let keep {A} (r : Transaction * outcome A) := if panics r.2 then None else Some r.1 in
  match c with
  | Execute q ps => keep (execute q ps tx)
  | FetchAll q ps => keep (fetch_all q ps tx)
  | StreamData q ps n => keep (stream_data q ps n tx)
  | BulkChange q sets n => keep (bulk_change q sets n tx)
  | CallCommit => keep (commit tx)
  | CallRollback => keep (rollback tx)
  end.
Fixpoint run_calls (cs : list call) (tx : Transaction) : option Transaction :=
  match cs with [] => Some tx | c :: cs' => run_call c tx ≫= run_calls cs' end.

Definition is_statement (e : event) : bool := match e with Statement _ _ => true | _ => false end.

(** Where the Python object is collected with the transaction still in its cell. *)
Definition drop_transaction (tx : Transaction) : Transaction :=
  if open tx then mkTx false (sent tx ++ [Rollback]) else tx.

(** How a transaction ended after the statements [stmts]: by an end the driver acknowledged, by one it
    refused and the ROLLBACK of its [Drop], or by that ROLLBACK alone. *)
Inductive ended (stmts : list event) : list event → Prop :=
| Acknowledged e : is_statement e = false → acknowledged (stmts ++ [e]) = true → ended stmts [e]
| Refused e : is_statement e = false → acknowledged (stmts ++ [e]) = false → ended stmts [e; Rollback]
| Dropped : ended stmts [Rollback].

(** Open, nothing but statements was sent; closed, they were followed by one such end. *)
Definition well_ended (tx : Transaction) : Prop :=
  ∃ stmts, Forall (λ e, is_statement e = true) stmts ∧
    if open tx then sent tx = stmts else ∃ es, ended stmts es ∧ sent tx = stmts ++ es.

Definition is_commit (e : event) : bool := match e with Commit => true | _ => false end.

Lemma ended_commits stmts es :
  Forall (λ e, is_statement e = true) stmts → ended stmts es → (length (List.filter is_commit (stmts ++ es)) <= 1)%nat.
Proof.
  intros Hs He. rewrite List.filter_app, length_app.
  assert (List.filter is_commit stmts = []) as -> by (clear He; induction Hs as [|[] l Hx Hl IH]; by simpl in *).
  by destruct He as [[]|[]|]; simpl; try lia.
Qed.

Lemma well_ended_open h : Forall (λ e, is_statement e = true) h → well_ended (mkTx true h).
Proof. intros Hh. by exists h. Qed.

Lemma open_statements tx : well_ended tx → open tx = true → Forall (λ e, is_statement e = true) (sent tx).
Proof. intros (s & Hs & He) Ho. rewrite Ho in He. by rewrite He. Qed.

Lemma run_sets_ended query sets total tx :
  well_ended tx → open tx = true →
  well_ended (run_sets query sets total tx).1 ∧ open (run_sets query sets total tx).1 = true.
Proof.
  revert total tx. induction sets as [|x sets IH]; intros total tx Hw Ho; [done|]. simpl.
  destruct (bind_params x) as [b|]; [|done].
  assert (well_ended (mkTx true (sent tx ++ [Statement query b]))) as Hw'.
  { apply well_ended_open, Forall_app. split; [by apply open_statements|by repeat constructor]. }
  destruct (rows_affected _); [by apply IH|done].
Qed.

Lemma run_call_ended c tx tx' : run_call c tx = Some tx' → well_ended tx → well_ended tx' ∧ (open tx = false → tx' = tx).
Proof.
  intros Hr Hw. pose proof (open_statements tx Hw) as Hst.
  assert (∀ q b, open tx = true → well_ended (mkTx true (sent tx ++ [Statement q b]))) as Hex.
  { intros q b Ho. apply well_ended_open, Forall_app. split; [auto|by repeat constructor]. }
  assert (∀ e, is_statement e = false → open tx = true →
    well_ended (mkTx false (if acknowledged (sent tx ++ [e]) then sent tx ++ [e] else (sent tx ++ [e]) ++ [Rollback]))) as Hend.
  { intros e He Ho. exists (sent tx). split; [auto|]. simpl. destruct (acknowledged _) eqn:Ha.
    - exists [e]. by split; [apply Acknowledged|].
    - exists [e; Rollback]. by split; [apply Refused|rewrite <- (assoc_L (++))]. }
  destruct c as [q ps|q ps|q ps n|q sets [|n]| |]; simpl in Hr;
    unfold execute, fetch_all, stream_data, bulk_change, commit, rollback, end_with in Hr;
    destruct (open tx) eqn:Ho; try (destruct (bind_params ps) as [b|]); simpl in Hr; simplify_eq; try (split; [by auto|done]).
  - destruct (rows_of _) as [rs err]. simpl in Hr. simplify_eq. split; [|done].
    exists (sent tx ++ [Statement q b]). split; [apply Forall_app; split; [auto|by repeat constructor]|].
    by exists [Rollback]; split; [apply Dropped|].
  - destruct (run_batches _ _ _ _) as [tx2 r] eqn:Hb. simpl in Hr. simplify_eq.
    rewrite run_batches_concat in Hb. split; [|done].
    by destruct (run_sets_ended q (concat (slice_chunks (length sets) (S n) sets)) 0 tx Hw Ho) as [Hw' _]; rewrite Hb in Hw'.
Qed.

Lemma run_calls_ended cs tx tx' : run_calls cs tx = Some tx' → well_ended tx → well_ended tx'.
Proof.
  revert tx. induction cs as [|c cs IH]; intros tx Hr Hw; [by simplify_eq/=|]. simpl in Hr.
  destruct (run_call c tx) as [tx1|] eqn:Hc; [|done]. apply (IH tx1); [done|]. by apply (run_call_ended _ _ _ Hc Hw).
Qed.

Lemma drop_ended tx : well_ended tx → well_ended (drop_transaction tx).
Proof.
  intros Hw. unfold drop_transaction. destruct (open tx) eqn:Ho; [|done].
  exists (sent tx). split; [by apply open_statements|]. by exists [Rollback]; split; [apply Dropped|].
Qed.

Lemma well_ended_commits tx : well_ended tx → (length (List.filter is_commit (sent tx)) <= 1)%nat.
Proof.
  intros (stmts & Hs & He). destruct (open tx).
  - rewrite He. pose proof (ended_commits stmts _ Hs (Dropped stmts)) as H.
    rewrite List.filter_app, length_app in H. simpl in *. lia.
  - destruct He as (es & Hes & ->). by apply ended_commits.
Qed.

(** C14: In every sequence of calls that does not panic the connection sees statements and then, if the
    transaction has ended, one end and nothing after it: a COMMIT or ROLLBACK that the driver
    acknowledged, or one that it refused followed by the one ROLLBACK of the driver's [Drop], or that
    ROLLBACK alone, and it has ended once the object is collected; so there is never a second COMMIT.
    [commit] and [rollback] on an open transaction return normally whether or not the driver
    acknowledges them, [stream_data] rolls back, and afterwards every call that needs the transaction
    panics. *)
Theorem transaction_ends_once cs tx :
  run_calls cs from_transaction = Some tx →
  well_ended tx ∧ well_ended (drop_transaction tx) ∧ open (drop_transaction tx) = false ∧
  (length (List.filter is_commit (sent tx)) <= 1)%nat ∧
  (∀ e c, open tx = true → (e, c) ∈ [(Commit, CallCommit); (Rollback, CallRollback)] →
    (end_with e tx).2 = Returns (Ok tt) ∧
    ∃ tx', run_call c tx = Some tx' ∧ open tx' = false ∧
      sent tx' = sent tx ++ (if acknowledged (sent tx ++ [e]) then [e] else [e; Rollback])) ∧
  (open tx = false →
    run_call CallCommit tx = None ∧ run_call CallRollback tx = None ∧
    ∀ q ps b, bind_params ps = Ok b → run_call (Execute q ps) tx = None ∧ run_call (FetchAll q ps) tx = None) ∧
  (∀ q ps b n, open tx = true → bind_params ps = Ok b →
    ∃ tx', run_call (StreamData q ps n) tx = Some tx' ∧ open tx' = false ∧
      sent tx' = sent tx ++ [Statement q b; Rollback]).
Proof.
  intros Hr. pose proof (run_calls_ended cs _ _ Hr (well_ended_open [] (Forall_nil_2 _))) as Hw. split_and!.
  - done.
  - by apply drop_ended.
  - unfold drop_transaction. by destruct (open tx) eqn:Ho.
  - by apply well_ended_commits.
  - intros e c Ho [[= -> ->]|[[= -> ->]|[]%elem_of_nil]%elem_of_cons]%elem_of_cons;
      simpl; unfold commit, rollback, end_with; rewrite Ho; (split; [done|]; eexists; split; [done|]; split; [done|]); simpl;
      case_match; [done|by rewrite <- (assoc_L (++))|done|by rewrite <- (assoc_L (++))].
  - intros Ho. simpl. unfold commit, rollback, end_with, execute, fetch_all. rewrite Ho. split_and!; [done|done|].
    intros q ps b Hb. by rewrite Hb.
  - intros q ps b n Ho Hb. simpl. unfold stream_data. rewrite Hb, Ho. destruct (rows_of _) as [rs err]. simpl.
    eexists. split_and!; [done|done|]. simpl. by rewrite <- (assoc_L (++)).
Qed.

(** A COMMIT that the server refuses is reported as a success. *)
Lemma commit_reports_success tx : open tx = true → (commit tx).2 = Returns (Ok tt).
Proof. intros Ho. unfold commit, end_with. by rewrite Ho. Qed.

(** * Streaming *)

Lemma stream_loop_err rs e n cs current vs : mapM bind_result rs = Ok vs → stream_loop rs (Some e) n cs current = Err e.
Proof.
  revert cs current vs. induction rs as [|r rs IH]; intros cs current vs Hv; [done|]. simpl in *.
  destruct (bind_result r) as [v|]; [|done]. simpl in *.
  destruct (mapM bind_result rs) as [vs'|] eqn:Hm; [|done]. by case_match; eapply IH.
Qed.

Definition chunk_length (n : Z) : Z := Z.max 1 n.

(** Full chunks, then perhaps a shorter one. *)
Definition chunked (n : Z) (cs : list (list py)) : Prop :=
  ∃ full last, cs = full ++ last ∧ Forall (λ c, Z.of_nat (length c) = chunk_length n) full ∧
    (last = [] ∨ ∃ c, last = [c] ∧ 0 < Z.of_nat (length c) < chunk_length n).

Lemma stream_loop_ok rs n cs current vs :
  mapM bind_result rs = Ok vs → Z.of_nat (length current) < chunk_length n →
  Forall (λ c, Z.of_nat (length c) = chunk_length n) cs →
  ∃ out, stream_loop rs None n cs current = Ok out ∧ chunked n out ∧ concat out = concat cs ++ current ++ vs.
Proof.
  unfold chunk_length. revert cs current vs. induction rs as [|r rs IH]; intros cs current vs Hv Hc Hcs; simpl in *.
  - injection Hv as <-. rewrite app_nil_r. destruct current as [|x current].
    + exists cs. split_and!; [done| |by rewrite app_nil_r]. exists cs, []. rewrite app_nil_r. auto.
    + eexists. split_and!; [done| |by rewrite concat_app; simpl; rewrite app_nil_r].
      exists cs, [x :: current]. split_and!; [done|done|]. right. eexists. split; [done|].
      unfold chunk_length. simpl in *. lia.
  - destruct (bind_result r) as [v|]; [|done]. simpl in *.
    destruct (mapM bind_result rs) as [vs'|] eqn:Hm; [|done]. simpl in Hv. injection Hv as <-.
    assert (length (current ++ [v]) = S (length current)) as Hl by (rewrite length_app; simpl; lia).
    destruct (n <=? _) eqn:Hn; bool_to_prop.
    + destruct (IH (cs ++ [current ++ [v]]) [] vs' eq_refl) as (out & Ho & Hch & Hcat); [simpl; lia| |].
      { apply Forall_app. split; [done|]. repeat constructor. lia. }
      exists out. split_and!; [done|done|]. rewrite Hcat, concat_app. simpl. by rewrite app_nil_r, <- !(assoc_L (++)).
    + destruct (IH cs (current ++ [v]) vs' eq_refl) as (out & Ho & Hch & Hcat); [lia|done|].
      exists out. split_and!; [done|done|]. rewrite Hcat. by rewrite <- !(assoc_L (++)).
Qed.

(** [j] calls of [__next__]. *)
Fixpoint nexts (j : nat) (s : RowStream) : RowStream * list (option (list py)) :=
  match j with
  | O => (s, [])
  | S j' => let '(s1, x) := next s in let '(s2, xs) := nexts j' s1 in (s2, x :: xs)
  end.

Lemma nexts_spec j s :
  (current_index s <= length (chunks s))%nat →
  (nexts j s).2 = (λ i, chunks s !! i) <$> seq (current_index s) j ∧
  is_exhausted (nexts j s).1 = exhausted s || (length (chunks s) <? current_index s + j)%nat.
Proof.
  revert s. induction j as [|j IH]; intros s Hs; simpl.
  - split; [done|]. destruct (Nat.ltb_spec (length (chunks s)) (current_index s + 0)); [lia|]. by rewrite orb_false_r.
  - unfold next. destruct (Nat.leb_spec (length (chunks s)) (current_index s)) as [Hle|Hgt].
    + destruct (IH (mkStream (chunks s) (current_index s) true) Hs) as [H1 H2]. destruct (nexts j _) as [s2 xs] eqn:Hn.
      simpl in *. split.
      * f_equal; [by symmetry; apply lookup_ge_None_2|]. rewrite H1. apply list_eq. intros i.
        rewrite !list_lookup_fmap. destruct (decide (i < j)%nat).
        -- rewrite !lookup_seq_lt by lia. simpl. f_equal. rewrite !lookup_ge_None_2 by lia. done.
        -- rewrite !lookup_seq_ge by lia. done.
      * rewrite H2. destruct (Nat.ltb_spec (length (chunks s)) (current_index s + S j)); [|lia]. by rewrite orb_true_r.
    + destruct (IH (mkStream (chunks s) (S (current_index s)) (exhausted s))) as [H1 H2]; [simpl; lia|].
      destruct (nexts j _) as [s2 xs] eqn:Hn. simpl in *. split; [by rewrite H1|]. rewrite H2. do 2 f_equal. lia.
Qed.

(** [stream_data] on a result without errors: iterating the stream yields every row once, in order, in
    chunks that are all full (a chunk size of 0 counts as 1) except perhaps a last, shorter,
    non-empty one; then [None] for ever, and [is_exhausted] holds only after the first [None].  A
    database error after any number of rows fails the whole call. *)
Theorem stream_data_spec query params n tx b rs err vs :
  open tx = true → bind_params params = Ok b → rows_of (sent tx ++ [Statement query b]) = (rs, err) →
  mapM bind_result rs = Ok vs →
  match err with
  | Some e => (stream_data query params n tx).2 = Returns (Err e)
  | None =>
      ∃ cs, (stream_data query params n tx).2 = Returns (Ok (stream_new cs)) ∧ chunked n cs ∧ concat cs = vs ∧
        ∀ j, (nexts j (stream_new cs)).2 = (λ i, cs !! i) <$> seq 0 j ∧
             is_exhausted (nexts j (stream_new cs)).1 = (length cs <? j)%nat
  end.
Proof.
  intros Ho Hb Hr Hv. unfold stream_data. rewrite Hb, Ho, Hr. simpl. destruct err as [e|].
  - by erewrite stream_loop_err.
  - destruct (stream_loop_ok rs n [] [] vs Hv) as (cs & -> & Hc & Hcat); [unfold chunk_length; simpl; lia|done|].
    exists cs. split_and!; [done|done|done|]. intros j. apply (nexts_spec j (stream_new cs)). simpl. lia.
Qed.
End rows.

(** * Connections *)

Record DatabaseConfig := mkDbConfig {
  db_url : string;
  max_connections : Z;
  min_connections : Z;
  idle_timeout : Z;
  options : option (list (string * string))
}.
Definition default_postgres (u : string) : DatabaseConfig := mkDbConfig u 10 1 600 None.

(** [PgPoolOptions] as set by the code: the idle timeout is also the acquire timeout. *)
Record PoolOptions := mkPoolOptions {
  o_max : Z; o_min : Z; o_idle : option Z; o_acquire : Z
}.

Section connections.
Context {options Pool : Type} (parse_options : string → result string options)
  (connect : PoolOptions → options → result string Pool) (begin : Pool → result string unit).

Definition create_postgres_pool (c : DatabaseConfig) : result string Pool :=
  o ← parse_options (db_url c);
  connect (mkPoolOptions (max_connections c) (min_connections c) (Some (idle_timeout c)) (idle_timeout c)) o.

(** [unwrap] in the constructor and in [transaction]. *)
Definition connection_new (c : DatabaseConfig) : outcome Pool :=
  match create_postgres_pool c with Ok p => Returns (Ok p) | Err _ => Panics end.
Definition connection_transaction (p : Pool) : outcome Transaction :=
  match begin p with Ok _ => Returns (Ok from_transaction) | Err _ => Panics end.
Definition begin_transaction (p : Pool) : option Transaction :=
  match begin p with Ok _ => Some from_transaction | Err _ => None end.
End connections.

(** * The multi-driver pool *)

(** The Rust types its rows are read into, and the driver's reading of a non-null value. *)
Inductive any_type := A_bool | A_i64 | A_f64 | A_String | A_bytes.
Record any_column := mkAnyColumn { any_name : string; any_type_name : string; any_raw : option string }.

Section any_pool.
Context (any_decode : any_type → any_column → string → result string py).

Definition any_try_get (t : any_type) (c : any_column) : option py :=
  match any_raw c with
  | None => None
  | Some b => match any_decode t c b with Ok v => Some v | Err _ => None end
  end.

Definition any_target (type_name : string) : any_type :=
  let among ts := bool_decide (type_name ∈ ts) in
  if among ["BOOLEAN"; "BOOL"] then A_bool
  else if among ["INT2"; "SMALLINT"; "TINYINT"; "INT"; "INTEGER"; "INT4"; "INT8"; "BIGINT"] then A_i64
  else if among ["FLOAT4"; "FLOAT8"; "REAL"; "DOUBLE"; "FLOAT"] then A_f64
  else if among ["TEXT"; "VARCHAR"; "CHAR"; "BPCHAR"; "NAME"; "TINYTEXT"; "MEDIUMTEXT"; "LONGTEXT"] then A_String
  else if among ["BLOB"; "BYTEA"; "BINARY"; "VARBINARY"; "TINYBLOB"; "MEDIUMBLOB"; "LONGBLOB"] then A_bytes
  else A_String.

Definition any_value (c : any_column) : py := default PNone (any_try_get (any_target (any_type_name c)) c).

Definition any_row_to_dict (row : list any_column) : py :=
  PDict (foldl (λ d c, dict_set (any_name c) (any_value c) d) [] row).

(** The database: a function of the statement and its text parameters. *)
Context (any_fetch_all : string → list string → result string (list (list any_column)))
  (any_fetch_one : string → list string → result string (list any_column))
  (any_run : string → list string → result string Z).

Definition any_query (sql : string) (params : option (list string)) : result string py :=
  rows ← any_fetch_all sql (default [] params); Ok (PList (any_row_to_dict <$> rows)).
Definition any_query_one (sql : string) (params : option (list string)) : result string py :=
  row ← any_fetch_one sql (default [] params); Ok (any_row_to_dict row).
Definition any_execute (sql : string) (params : option (list string)) : result string Z :=
  any_run sql (default [] params).
End any_pool.

(** * Examples *)

#[refine] Instance documented_SqlxRow : SqlxRow := {
  compatible r t := bool_decide (t ∈ documented r);
  decode r t raw := Ok (match r with X_i32 | X_i64 => PInt (read_int raw) | _ => PStr raw end);
  decode_json _ raw := Ok (JString raw)
}.
Proof. intros r t H%bool_decide_eq_true. by left. Defined.

Definition demo_bind : list py → result string (list SqlxParam) := bind_parameters (λ _, "") (λ _, None) (λ _, "").
Definition demo_row (n : Z) : list column := [mkColumn "n" INT4 (Some (write_int 4 n))].
Definition demo_rows (h : list event) : list (list column) * option string := ([demo_row 1; demo_row 2; demo_row 3], None).

Definition demo_call (ack : list event → bool) : call → Transaction → option Transaction :=
  run_call (λ _, Ok "") (λ _, "") (λ _, None) (λ _, "") (λ _, Ok 1) demo_rows ack.
Definition demo_calls (ack : list event → bool) (cs : list call) : option Transaction :=
  run_calls (λ _, Ok "") (λ _, "") (λ _, None) (λ _, "") (λ _, Ok 1) demo_rows ack cs from_transaction.

Lemma bulk_is_sequential_witness :
  bulk_change (λ _, "") (λ _, None) (λ _, "") (λ h, Ok (Z.of_nat (length h))) "q" [[PInt 1]; [PInt 2]; [PInt 3]] 2 from_transaction =
    (mkTx true [Statement "q" [SI64 1]; Statement "q" [SI64 2]; Statement "q" [SI64 3]], Returns (Ok 6)).
Proof. rewrite bulk_is_sequential; reflexivity. Defined.

Lemma transaction_ends_once_witness :
  (∃ tx, demo_calls (λ _, true) [Execute "a" [PStr "x"]; StreamData "b" [] 2] = Some tx ∧
    sent tx = [Statement "a" [SString "x"]; Statement "b" []; Rollback] ∧ demo_call (λ _, true) CallCommit tx = None) ∧
  (∃ tx, demo_calls (λ _, false) [Execute "a" []; CallCommit] = Some tx ∧
    sent tx = [Statement "a" []; Commit; Rollback] ∧ demo_call (λ _, false) CallCommit tx = None).
Proof.
  split.
  - eexists. split; [reflexivity|]. split; [reflexivity|].
    destruct (transaction_ends_once (λ _, Ok "") (λ _, "") (λ _, None) (λ _, "") (λ _, Ok 1) demo_rows (λ _, true)
      [Execute "a" [PStr "x"]; StreamData "b" [] 2] _ eq_refl) as (_ & _ & _ & _ & _ & H & _). exact (proj1 (H eq_refl)).
  - eexists. split; [reflexivity|]. split; [reflexivity|].
    destruct (transaction_ends_once (λ _, Ok "") (λ _, "") (λ _, None) (λ _, "") (λ _, Ok 1) demo_rows (λ _, false)
      [Execute "a" []; CallCommit] _ eq_refl) as (_ & _ & _ & _ & _ & H & _). exact (proj1 (H eq_refl)).
Defined.

Lemma stream_data_spec_witness :
  ∃ cs, (stream_data (λ _, Ok "") (λ _, "") (λ _, None) (λ _, "") demo_rows "q" [] 2 from_transaction).2 =
      Returns (Ok (stream_new cs)) ∧ length cs = 2%nat.
Proof.
  destruct (stream_data_spec (λ _, Ok "") (λ _, "") (λ _, None) (λ _, "") demo_rows "q" [] 2 from_transaction []
    [demo_row 1; demo_row 2; demo_row 3] None
    [PDict [(PStr "n", PInt 1)]; PDict [(PStr "n", PInt 2)]; PDict [(PStr "n", PInt 3)]])
    as (cs & Hs & _); try reflexivity.
  exists cs. split; [exact Hs|]. vm_compute in Hs. injection Hs as <-. reflexivity.
Defined.

Example batch_size_zero : (bulk_change (λ _, "") (λ _, None) (λ _, "") (λ _, Ok 1) "q" [] 0 from_transaction).2 = Panics.
Proof. reflexivity. Qed.
