(* ===== verification/Supervisor.v ===== *)
(** The parent process (src/src/core/server.rs and src/src/core/multiprocess.rs, Unix): forking the
    workers, the signal loop, reloads and the end; and the signal thread of a worker
    (src/src/core/worker.rs).  Times are nanoseconds. *)
From S2P Require Import Prelude Method Routing Request Chain Log Reload.
From stdpp Require Import base gmap strings list.
Open Scope Z_scope.

Definition secs (s : Z) : Z := s * 1000000000.
Definition millis (m : Z) : Z := m * 1000000.

Inductive sig := SIGINT | SIGTERM | SIGUSR1 | SIGUSR2 | SIGKILL.

#[export] Instance sig_eq_dec : EqDecision sig.
Proof. solve_decision. Defined.

(** * The operating system *)

(** A forked worker: when it was forked, what was sent to it, and whether its end was waited for. *)
Record proc := mkProc { birth : Z; received : list (Z * sig); reaped : bool }.

(** Process ids are not used twice. *)
Record OS := mkOS { clock : Z; next_pid : Z; procs : gmap Z proc }.

(** What the model leaves open: when a process with this birth and these signals ends, where SIGKILL
    always ends it; how much time passes between two steps of the parent; which of the ended
    children [waitpid(-1)] finds; whether the socket can be bound. *)
Class Kernel := {
  ends : Z → Z → list (Z * sig) → option Z;
  lag : Z → N;
  pick : list Z → option Z;
  can_bind : Z → bool;
  sigkill_ends p b sigs t : (t, SIGKILL) ∈ sigs → is_Some (ends p b sigs);
  pick_in l p : pick l = Some p → p ∈ l
}.

Section parent.
Context `{KN : Kernel}.

Definition pass (d : Z) (w : OS) : OS := mkOS (clock w + d) (next_pid w) (procs w).
(** Reading the clock and sleeping take at least as long as they say. *)
Definition read_clock (w : OS) : OS * Z :=
  let w' := pass (Z.of_N (lag (clock w))) w in (w', clock w').
Definition sleep (d : Z) (w : OS) : OS := pass (d + Z.of_N (lag (clock w))) w.

Definition with_procs (f : gmap Z proc → gmap Z proc) (w : OS) : OS := mkOS (clock w) (next_pid w) (f (procs w)).
Definition set_reaped (p : Z) : OS → OS := with_procs (alter (λ x, mkProc (birth x) (received x) true) p).

Definition fork (w : OS) : OS * Z :=
  (mkOS (clock w) (next_pid w + 1) (<[next_pid w := mkProc (clock w) [] false]> (procs w)), next_pid w).

(** A signal to a process that was waited for has no effect. *)
Definition kill (s : sig) (p : Z) (w : OS) : OS :=
  with_procs (alter (λ x, if reaped x then x else mkProc (birth x) (received x ++ [(clock w, s)]) false) p) w.
Definition kill_all (s : sig) (pids : list Z) (w : OS) : OS := foldl (λ w p, kill s p w) w pids.

Definition ended (w : OS) (p : Z) (x : proc) : bool :=
  match ends p (birth x) (received x) with Some e => e <=? clock w | None => false end.

(** [waitpid] with [WNOHANG]: the pid, 0 while it runs, -1 when there is no such child. *)
Definition waitpid_nohang (p : Z) (w : OS) : OS * Z :=
  match procs w !! p with
  | Some x => if reaped x then (w, -1) else if ended w p x then (set_reaped p w, p) else (w, 0)
  | None => (w, -1)
  end.

(** Without it: [None] is waiting for ever. *)
Definition waitpid (p : Z) (w : OS) : option OS :=
  match procs w !! p with
  | Some x =>
      if reaped x then Some w
      else match ends p (birth x) (received x) with
           | Some e => Some (set_reaped p (mkOS (Z.max (clock w) e) (next_pid w) (procs w)))
           | None => None
           end
  | None => Some w
  end.

Definition waitpid_any (w : OS) : OS * Z :=
  let alive := filter (λ kv : Z * proc, reaped kv.2 = false) (map_to_list (procs w)) in
  match alive with
  | [] => (w, -1)
  | _ => match pick (fst <$> filter (λ kv : Z * proc, ended w kv.1 kv.2 = true) alive) with
         | Some p => (set_reaped p w, p)
         | None => (w, 0)
         end
  end.

(** * multiprocess.rs *)

(** [fork] succeeds; a failure panics in the parent. *)
Fixpoint spawn_workers (num_workers : nat) (w : OS) : OS * list Z :=
  match num_workers with
  | O => (w, [])
  | S n => let '(w1, p) := fork w in let '(w2, ps) := spawn_workers n w1 in (w2, p :: ps)
  end.

(** The polling loop of one worker; [true] is [waited]. *)
Fixpoint poll (fuel : nat) (check_start remaining p : Z) (w : OS) : OS * bool :=
  match fuel with
  | O => (w, false)
  | S fuel' =>
      let '(w, t) := read_clock w in
      if t - check_start <? remaining then
        let '(w, result) := waitpid_nohang p w in
        if result =? p then (w, true)
        else if result =? -1 then (w, true)
        else poll fuel' check_start remaining p (sleep (millis 10) w)
      else (w, false)
  end.
Definition poll_fuel (remaining : Z) : nat := Z.to_nat (remaining / millis 10 + 2).

Definition wait_timeout : Z := secs 5.

Definition wait_one (start : Z) (p : Z) (w : OS) : option OS :=
  let '(w, t) := read_clock w in
  let remaining := sat_sub wait_timeout (t - start) in
  if remaining =? 0 then waitpid p (kill SIGKILL p w)
  else
    let '(w, check_start) := read_clock w in
    match poll (poll_fuel remaining) check_start remaining p w with
    | (w', true) => Some w'
    | (w', false) => waitpid p (kill SIGKILL p w')
    end.

Fixpoint wait_each (start : Z) (pids : list Z) (w : OS) : option OS :=
  match pids with
  | [] => Some w
  | p :: pids' => w' ← wait_one start p w; wait_each start pids' w'
  end.
Definition wait_for_workers (pids : list Z) (w : OS) : option OS :=
  let '(w, start) := read_clock w in wait_each start pids w.

Definition terminate_workers : list Z → OS → OS := kill_all SIGTERM.

(** * The signal loop of [Server::start] *)

(** The statics that the handler sets; they keep their values between two calls of [start]. *)
Record flags := mkFlags { GRACEFUL_RELOAD : bool; HOT_RELOAD : bool; SHUTDOWN : bool }.

Definition handle_signal (fl : flags) (s : sig) : flags :=
  match s with
  | SIGUSR1 => mkFlags true (HOT_RELOAD fl) (SHUTDOWN fl)
  | SIGUSR2 => mkFlags (GRACEFUL_RELOAD fl) true (SHUTDOWN fl)
  | _ => mkFlags (GRACEFUL_RELOAD fl) (HOT_RELOAD fl) true
  end.

Inductive ending := Stopped | Reloaded (new_pids : list Z) | SocketError.

Section server.
Context (num_processes : nat) (drain_secs : Z).

(** Forking the new workers, then waiting for them. *)
Definition respawn (w : OS) : option (OS * ending) :=
  if can_bind (clock w) then
    let '(w, new_pids) := spawn_workers num_processes w in
    w ← wait_for_workers new_pids w;
    Some (w, Reloaded new_pids)
  else Some (w, SocketError).

Definition graceful_reload (pids : list Z) (w : OS) : option (OS * ending) :=
  let w := sleep (secs drain_secs) (kill_all SIGUSR1 pids w) in
  w ← wait_for_workers pids (terminate_workers pids w);
  respawn w.

Definition hot_reload (pids : list Z) (w : OS) : option (OS * ending) :=
  w ← wait_for_workers pids (kill_all SIGKILL pids w);
  respawn w.

(** One round: the flags afterwards and how the loop was left, if it was. *)
Definition loop_step (fl : flags) (pids : list Z) (w : OS) : option (OS * flags * option ending) :=
  if GRACEFUL_RELOAD fl then
    '(w, e) ← graceful_reload pids w;
    Some (w, mkFlags false (HOT_RELOAD fl) (SHUTDOWN fl), Some e)
  else if HOT_RELOAD fl then
    '(w, e) ← hot_reload pids w;
    Some (w, mkFlags (GRACEFUL_RELOAD fl) false (SHUTDOWN fl), Some e)
  else if SHUTDOWN fl then
    Some (terminate_workers pids (sleep (secs 2) (kill_all SIGUSR1 pids w)), fl, Some Stopped)
  else
    let '(w, p) := waitpid_any w in
    if 0 <? p then Some (terminate_workers pids w, fl, Some Stopped)
    else Some (sleep (millis 50) w, fl, None).

(** [arrive i] are the signals that come in before round [i]; without fuel the loop still runs. *)
Fixpoint signal_loop (fuel i : nat) (arrive : nat → list sig) (fl : flags) (pids : list Z) (w : OS)
    : option (OS * flags * option ending) :=
  match fuel with
  | O => Some (w, fl, None)
  | S fuel' =>
      '(w, fl, e) ← loop_step (foldl handle_signal fl (arrive i)) pids w;
      match e with
      | Some e => Some (w, fl, Some e)
      | None => signal_loop fuel' (S i) arrive fl pids w
      end
  end.

(** [start]: an error when the socket cannot be bound, at the beginning or in a reload. *)
Definition start (fuel : nat) (arrive : nat → list sig) (fl : flags) (w : OS) : option (OS * flags * option (result string unit)) :=
  if can_bind (clock w) then
    let '(w, pids) := spawn_workers num_processes w in
    '(w, fl, e) ← signal_loop fuel 0 arrive fl pids w;
    match e with
    | None => Some (w, fl, None)
    | Some SocketError => Some (w, fl, Some (Err "bind"))
    | Some _ => w ← wait_for_workers pids w; Some (w, fl, Some (Ok tt))
    end
  else Some (w, fl, Some (Err "bind")).
End server.
End parent.

(** * The server object *)

(** The classes of the Python module's middleware. *)
Inductive py_class :=
| RequestId | Cors | SecurityHeaders | Compression | RateLimit | Timeout | LogMw | BasicAuth
| CircuitBreaker | Cache | OtherClass.

Definition accepted (c : py_class) : bool :=
  match c with
  | RequestId | Cors | SecurityHeaders | Compression | RateLimit | Timeout | LogMw | BasicAuth => true
  | CircuitBreaker | Cache | OtherClass => false
  end.

Section server_object.
Context {RouterT W : Type} (router_default : RouterT) (log_default : LogConfig).

(** [chain_shared]: a clone of the chain's [Arc] exists, as during [start]. *)
Record Server := mkServer {
  router : RouterT;
  http2 : bool;
  rust_middleware : MiddlewareChain W;
  chain_shared : bool;
  reload_config : ReloadConfig;
  log_config : LogConfig
}.

Definition server_new : Server := mkServer router_default false chain_new false reload_config_default log_default.
Definition set_log_config (c : LogConfig) (s : Server) : Server :=
  mkServer (router s) (http2 s) (rust_middleware s) (chain_shared s) (reload_config s) c.
Definition set_router (r : RouterT) (s : Server) : Server :=
  mkServer r (http2 s) (rust_middleware s) (chain_shared s) (reload_config s) (log_config s).
Definition enable_http2 (s : Server) : Server :=
  mkServer (router s) true (rust_middleware s) (chain_shared s) (reload_config s) (log_config s).
Definition set_reload_config (c : ReloadConfig) (s : Server) : Server :=
  mkServer (router s) (http2 s) (rust_middleware s) (chain_shared s) c (log_config s).
Definition set_rust_middleware_chain (c : MiddlewareChain W) (s : Server) : Server :=
  mkServer (router s) (http2 s) c false (reload_config s) (log_config s).

(** [Arc::get_mut] fails on a shared chain, and [expect] panics. *)
Definition edit_chain (f : MiddlewareChain W → MiddlewareChain W) (s : Server) : option Server :=
  if chain_shared s then None
  else Some (mkServer (router s) (http2 s) (f (rust_middleware s)) false (reload_config s) (log_config s)).
Definition register_boxed_middleware (m : RustMiddleware W) : Server → option Server := edit_chain (use_before m).
Definition use_rust_middleware (m : RustMiddleware W) : Server → option Server := edit_chain (use_before m).
Definition use_rust_middleware_after (m : RustMiddleware W) : Server → option Server := edit_chain (use_after m).

(** [None] is the panic. *)
Definition use_middleware (c : py_class) (inner : RustMiddleware W) (s : Server) : option (Server * result string unit) :=
  if accepted c then s' ← register_boxed_middleware inner s; Some (s', Ok tt)
  else Some (s, Err "Middleware must be a Rust middleware type (CORS, SecurityHeaders, RequestId, etc.)").
Definition middleware_stats (s : Server) : nat * nat * nat := stats (rust_middleware s).

(** The circuit breaker and the response cache cannot be used. *)
Lemma breaker_not_accepted (inner : RustMiddleware W) s :
  ∃ e, use_middleware CircuitBreaker inner s = Some (s, Err e) ∧ use_middleware Cache inner s = Some (s, Err e).
Proof. by eexists. Qed.
End server_object.

(** * The signal thread of a worker *)

(** What it does before the server is told to stop, and for how long it sleeps. *)
Definition on_signal `{NT : Notify} (s : sig) (rm : ReloadManager) : ReloadManager * Z :=
  match s with
  | SIGUSR1 => (start_drain rm, secs (drain_timeout_secs (config rm)))
  | SIGUSR2 => (signal_hot_reload rm, 0)
  | _ => (start_drain rm, secs 2)
  end.

Definition pause (drain_secs : Z) (s : sig) : Z :=
  match s with SIGUSR1 => secs drain_secs | SIGUSR2 => 0 | _ => secs 2 end.

(** The thread looks at its flag every 50 ms; the last signal by then counts, later ones do not
    matter; 100 ms after the pause the event loop stops and the process exits. *)
Definition first_of (P : sig → bool) (sigs : list (Z * sig)) : option (Z * sig) :=
  head (List.filter (λ ts, P ts.2) sigs).
Definition caught (s : sig) : bool := negb (bool_decide (s = SIGKILL)).

Definition thread_ends (drain_secs b : Z) (sigs : list (Z * sig)) : option Z :=
  '(t0, s0) ← first_of caught sigs;
  let noticed := b + millis 50 * ((t0 - b + millis 50 - 1) / millis 50) in
  let s := default s0 (snd <$> last (List.filter (λ ts, caught ts.2 && (ts.1 <=? noticed)) sigs)) in
  Some (noticed + pause drain_secs s + millis 100).

Definition worker_ends (drain_secs : Z) (p b : Z) (sigs : list (Z * sig)) : option Z :=
  match first_of (λ s, bool_decide (s = SIGKILL)) sigs, thread_ends drain_secs b sigs with
  | Some (t, _), Some e => Some (Z.min t e)
  | Some (t, _), None => Some t
  | None, e => e
  end.

(** Workers that run until a signal, on an idle machine. *)
#[refine] Instance idle_Kernel (drain_secs : Z) : Kernel := {
  ends := worker_ends drain_secs;
  lag _ := 0%N;
  pick l := head l;
  can_bind _ := true
}.
Proof.
  - intros p b sigs t Hin. unfold worker_ends, first_of.
    destruct (head (List.filter (λ ts, bool_decide (ts.2 = SIGKILL)) sigs)) as [[t' s]|] eqn:Hf.
    + destruct (thread_ends _ _ _); eauto.
    + exfalso. apply head_None in Hf. assert ((t, SIGKILL) ∈ List.filter (λ ts : Z * sig, bool_decide (ts.2 = SIGKILL)) sigs) as Hin'.
      { apply list_elem_of_In, filter_In. split; [by apply list_elem_of_In|done]. }
      rewrite Hf in Hin'. by apply elem_of_nil in Hin'.
  - intros [|x l] p; [done|]. intros [= <-]. by left.
Defined.

Definition boot : OS := mkOS 0 100 ∅.
Definition no_flags : flags := mkFlags false false false.
Definition one_signal (s : sig) (i : nat) : list sig := if (i =? 3)%nat then [s] else [].
Definition signals_of (r : option (OS * flags * option (result string unit))) : list (Z * list (Z * sig) * bool) :=
  match r with Some (w, _, _) => (λ kv : Z * proc, (kv.1, received kv.2, reaped kv.2)) <$> map_to_list (procs w) | None => [] end.

(** * What the parent does to its children *)

Section children.
Context `{KN : Kernel}.

Definition gone (w : OS) (p : Z) : Prop := ∀ x, procs w !! p = Some x → reaped x = true.

(** Without forks: no child appears or disappears, one that was waited for stays as it is, and the
    signals received only grow; children outside of [ps] are not touched. *)
Record evolves (ps : list Z) (w w' : OS) : Prop := {
  ev_next : next_pid w' = next_pid w;
  ev_clock : clock w <= clock w';
  ev_dom p : is_Some (procs w' !! p) ↔ is_Some (procs w !! p);
  ev_gone p x : procs w !! p = Some x → reaped x = true → procs w' !! p = Some x;
  ev_other p : p ∉ ps → procs w' !! p = procs w !! p
}.

Lemma evolves_refl ps w w' :
  next_pid w' = next_pid w → clock w <= clock w' → procs w' = procs w → evolves ps w w'.
Proof. intros Hn Hc Hp. split; [done|done| |by rewrite Hp|by rewrite Hp]. by intros p; rewrite Hp. Qed.

Lemma evolves_trans ps w1 w2 w3 : evolves ps w1 w2 → evolves ps w2 w3 → evolves ps w1 w3.
Proof.
  intros [N1 C1 D1 G1 O1] [N2 C2 D2 G2 O2]. split.
  - congruence.
  - lia.
  - intros p. by rewrite D2, D1.
  - intros p x Hx Hr. by apply G2; [apply G1|].
  - intros p Hp. by rewrite O2, O1.
Qed.

Lemma evolves_pass ps d w w' : 0 <= d → evolves ps (pass d w) w' → evolves ps w w'.
Proof. intros Hd He. apply (evolves_trans _ _ (pass d w)); [|done]. apply evolves_refl; [done|simpl; lia|done]. Qed.

Lemma evolves_weaken ps qs w w' : ps ⊆ qs → evolves ps w w' → evolves qs w w'.
Proof. intros Hs [N C D G O]. split; [done|done|done|done|]. intros p Hp. apply O. set_solver. Qed.

Lemma evolves_gone ps w w' p : evolves ps w w' → gone w p → gone w' p.
Proof.
  intros [N C D G O] Hg x' Hx'. destruct (procs w !! p) as [x|] eqn:Hx.
  - rewrite (G p x Hx (Hg x Hx)) in Hx'. injection Hx' as <-. by apply Hg.
  - destruct (proj1 (D p)) as [y Hy]; [eauto|congruence].
Qed.

(** Every primitive alters one child, unless it was waited for. *)
Lemma evolves_alter (f : proc → proc) p w w' :
  next_pid w' = next_pid w → clock w <= clock w' → procs w' = alter f p (procs w) →
  (∀ x, procs w !! p = Some x → reaped x = true → f x = x) → evolves [p] w w'.
Proof.
  intros Hn Hc Hp Hf. split; [done|done| | |].
  - intros q. rewrite Hp. rewrite lookup_alter_is_Some. done.
  - intros q x Hx Hr. rewrite Hp. destruct (decide (q = p)) as [->|Hne].
    + rewrite lookup_alter_eq, Hx. simpl. by rewrite (Hf x Hx Hr).
    + by rewrite lookup_alter_ne.
  - intros q Hq. rewrite Hp, lookup_alter_ne; [done|]. intros ->. apply Hq. by left.
Qed.

Lemma evolves_kill s p w : evolves [p] w (kill s p w).
Proof. eapply evolves_alter; [done|simpl; lia|done|]. simpl. intros x _ Hr. by rewrite Hr. Qed.

Lemma evolves_kill_all s ps w : evolves ps w (kill_all s ps w).
Proof.
  assert (∀ qs, ps ⊆ qs → ∀ w, evolves qs w (kill_all s ps w)) as H; [|by apply H].
  intros qs. induction ps as [|p ps IH]; intros Hs w0; [by apply evolves_refl|].
  apply (evolves_trans _ _ (kill s p w0)); [|apply IH; set_solver].
  apply (evolves_weaken [p]); [set_solver|apply evolves_kill].
Qed.

Lemma evolves_nohang p w : evolves [p] w (waitpid_nohang p w).1.
Proof.
  unfold waitpid_nohang. destruct (procs w !! p) as [x|] eqn:Hx; [|by apply evolves_refl].
  destruct (reaped x) eqn:Hr; [by apply evolves_refl|]. destruct (ended w p x); [|by apply evolves_refl].
  eapply evolves_alter; [done|simpl; lia|done|]. intros y Hy. rewrite Hx in Hy. injection Hy as <-. by rewrite Hr.
Qed.

(** What became of a child that was waited for: killed, or ended by itself. *)
Definition outcome_of (w w' : OS) (p : Z) : Prop :=
  ∀ x, procs w !! p = Some x → reaped x = false →
  ∃ x', procs w' !! p = Some x' ∧ birth x' = birth x ∧ reaped x' = true ∧
    ((∃ t, received x' = received x ++ [(t, SIGKILL)]) ∨
     received x' = received x ∧ ∃ e, ends p (birth x) (received x) = Some e ∧ e <= clock w').

Lemma nohang_result p w w' r :
  0 < p → waitpid_nohang p w = (w', r) →
  if (r =? p) || (r =? -1) then gone w' p ∧ outcome_of w w' p else w' = w.
Proof.
  intros Hp. unfold waitpid_nohang. destruct (procs w !! p) as [x|] eqn:Hx.
  - destruct (reaped x) eqn:Hr.
    + intros [= <- <-]. rewrite orb_true_r. split; [intros y Hy; by simplify_eq|]. intros y Hy Hry; congruence.
    + destruct (ended w p x) eqn:He; intros [= <- <-].
      * rewrite Z.eqb_refl. simpl. split.
        -- intros y. simpl. rewrite lookup_alter_eq, Hx. by intros [= <-].
        -- intros y Hy Hry. rewrite Hx in Hy. injection Hy as <-. exists (mkProc (birth x) (received x) true). simpl.
           rewrite lookup_alter_eq, Hx. split_and!; try done. right. split; [done|].
           unfold ended in He. destruct (ends _ _ _) as [e|]; [|done]. exists e. split; [done|]. by apply Z.leb_le.
      * rewrite (proj2 (Z.eqb_neq 0 p)) by lia. done.
  - intros [= <- <-]. rewrite orb_true_r. split; intros y Hy; congruence.
Qed.

Lemma poll_spec fuel cs rem p w w' b :
  0 < p → poll fuel cs rem p w = (w', b) →
  evolves [p] w w' ∧ if b then gone w' p ∧ outcome_of w w' p else procs w' = procs w.
Proof.
  intros Hp. revert w. induction fuel as [|fuel IH]; intros w; simpl.
  - intros [= <- <-]. split; [by apply evolves_refl|done].
  - set (w1 := pass _ w). destruct (_ - cs <? rem).
    + destruct (waitpid_nohang p w1) as [w2 r] eqn:Hw. pose proof (nohang_result p w1 w2 r Hp Hw) as Hres.
      pose proof (evolves_nohang p w1) as Hev. rewrite Hw in Hev. simpl in Hev.
      apply evolves_pass in Hev; [|lia].
      destruct (r =? p) eqn:Hr1; [intros [= <- <-]; by split|].
      destruct (r =? -1) eqn:Hr2; [intros [= <- <-]; by split|]. simpl in Hres. subst w2.
      intros Hpo. destruct (IH _ Hpo) as [He Hb]. split; [|by destruct b].
      eapply evolves_pass, evolves_pass; [| |exact He]; unfold millis; lia.
    + intros [= <- <-]. split; [apply evolves_refl; [done|simpl; lia|done]|done].
Qed.

(** The kernel's law: killing and waiting ends. *)
Lemma kill_wait p w : ∃ w', waitpid p (kill SIGKILL p w) = Some w' ∧ evolves [p] w w' ∧ gone w' p ∧ outcome_of w w' p.
Proof.
  pose proof (evolves_kill SIGKILL p w) as Hk. unfold waitpid. simpl. rewrite lookup_alter_eq.
  destruct (procs w !! p) as [x|] eqn:Hx; simpl.
  - destruct (reaped x) eqn:Hr.
    + rewrite Hr. eexists. split_and!; [done|done| |].
      * apply (evolves_gone _ _ _ _ Hk). intros y Hy. by simplify_eq.
      * intros y Hy ?. congruence.
    + simpl. destruct (sigkill_ends p (birth x) (received x ++ [(clock w, SIGKILL)]) (clock w)) as [e He].
      { apply elem_of_app. right. by left. }
      rewrite He. eexists. split_and!; [done| | |].
      * eapply evolves_trans; [exact Hk|]. eapply evolves_alter; [done|simpl; lia|done|].
        intros y. simpl. rewrite lookup_alter_eq, Hx. simpl. rewrite Hr. by intros [= <-].
      * intros y. simpl. rewrite !lookup_alter_eq, Hx. simpl. by intros [= <-].
      * intros y Hy Hry. rewrite Hx in Hy. injection Hy as <-. eexists. simpl. rewrite !lookup_alter_eq, Hx. simpl. rewrite Hr. simpl.
        split_and!; [done|done|done|]. left. by exists (clock w).
  - eexists. split_and!; [done|done| |].
    + apply (evolves_gone _ _ _ _ Hk). intros y Hy. congruence.
    + intros y Hy. congruence.
Qed.

Lemma outcome_after ps w w1 w2 p : evolves ps w w1 → p ∉ ps → outcome_of w1 w2 p → outcome_of w w2 p.
Proof. intros He Hp Ho x Hx Hr. apply Ho; [|done]. by rewrite (ev_other _ _ _ He p Hp). Qed.

Lemma outcome_procs w w1 w2 p : procs w1 = procs w → outcome_of w1 w2 p → outcome_of w w2 p.
Proof. intros He Ho x Hx Hr. apply Ho; [by rewrite He|done]. Qed.

Lemma wait_one_spec start p w :
  0 < p → ∃ w', wait_one start p w = Some w' ∧ evolves [p] w w' ∧ gone w' p ∧ outcome_of w w' p.
Proof.
  intros Hp. unfold wait_one. simpl. set (w1 := pass _ w). destruct (sat_sub _ _ =? 0) eqn:Hrem.
  - destruct (kill_wait p w1) as (w' & Hw & He & Hg & Ho). exists w'. split_and!; [done| |done|by apply (outcome_procs w w1)].
    eapply evolves_pass; [|exact He]. lia.
  - set (w2 := pass _ w1). destruct (poll _ _ _ _ _) as [w3 b] eqn:Hpo. apply poll_spec in Hpo as [He Hb]; [|done].
    do 2 (apply evolves_pass in He; [|lia]).
    destruct b.
    + exists w3. destruct Hb as [Hg Ho]. split_and!; [done|done|done|by apply (outcome_procs w w2)].
    + destruct (kill_wait p w3) as (w' & Hw & He2 & Hg & Ho). exists w'. split_and!; [done| |done|].
      * by eapply evolves_trans.
      * apply (outcome_procs w w3); [by rewrite Hb|done].
Qed.

Lemma outcome_keep ps w w1 w2 p :
  outcome_of w w1 p → evolves ps w1 w2 → outcome_of w w2 p.
Proof.
  intros Ho He x Hx Hr. pose proof (ev_clock _ _ _ He). destruct (Ho x Hx Hr) as (x' & Hx' & Hb & Hre & Hcase). exists x'. split_and!; [|done|done|].
  - by apply (ev_gone _ _ _ He).
  - destruct Hcase as [?|(? & e & ? & ?)]; [by left|]. right. split; [done|]. exists e. split; [done|]. lia.
Qed.
(** Waiting ends, and every child of the list was waited for. *)
Lemma wait_each_spec start ps w :
  Forall (λ p, 0 < p) ps →
  ∃ w', wait_each start ps w = Some w' ∧ evolves ps w w' ∧ ∀ p, p ∈ ps → gone w' p ∧ outcome_of w w' p.
Proof.
  intros Hps. revert w. induction Hps as [|p ps Hp Hps IH]; intros w; simpl.
  - exists w. split_and!; [done|by apply evolves_refl|]. by intros p ?%elem_of_nil.
  - destruct (wait_one_spec start p w Hp) as (w1 & -> & He1 & Hg1 & Ho1). simpl.
    destruct (IH w1) as (w2 & -> & He2 & H2). exists w2. split_and!; [done| |].
    + eapply evolves_trans; [eapply (evolves_weaken [p]); [|exact He1]|eapply (evolves_weaken ps); [|exact He2]]; set_solver.
    + intros q Hq. destruct (decide (q = p)) as [->|Hne].
      * split; [by eapply evolves_gone|]. by eapply outcome_keep.
      * apply elem_of_cons in Hq as [?|Hq]; [done|]. destruct (H2 q Hq) as [Hg Ho]. split; [done|].
        eapply (outcome_after [p]); [exact He1| |exact Ho]. set_solver.
Qed.

Lemma wait_for_workers_spec ps w :
  Forall (λ p, 0 < p) ps →
  ∃ w', wait_for_workers ps w = Some w' ∧ evolves ps w w' ∧ ∀ p, p ∈ ps → gone w' p ∧ outcome_of w w' p.
Proof.
  intros Hps. unfold wait_for_workers. simpl.
  destruct (wait_each_spec (clock w + Z.of_N (lag (clock w))) ps (pass (Z.of_N (lag (clock w))) w) Hps) as (w' & Hw & He & H).
  exists w'. split_and!; [done|eapply evolves_pass; [|exact He]; lia|].
  intros p Hp. destruct (H p Hp) as [Hg Ho]. split; [done|]. by eapply outcome_procs.
Qed.

(** More fuel than [poll_fuel] changes nothing: 10 ms pass in every round. *)
Lemma poll_more_fuel f1 f2 cs rem p w :
  rem - (clock w - cs) <= millis 10 * (Z.of_nat f1 - 1) → rem - (clock w - cs) <= millis 10 * (Z.of_nat f2 - 1) →
  (0 < f1)%nat → (0 < f2)%nat → poll f1 cs rem p w = poll f2 cs rem p w.
Proof.
  revert f2 w. induction f1 as [|f1 IH]; intros f2 w H1 H2 Hp1 Hp2; [lia|]. destruct f2 as [|f2]; [lia|]. simpl.
  set (l := Z.of_N (lag (clock w))). assert (0 <= l) by lia. destruct (clock w + l - cs <? rem) eqn:Ht; [|done].
  apply Z.ltb_lt in Ht. unfold millis in *.
  destruct (waitpid_nohang p (pass l w)) as [w2 r] eqn:Hw. destruct (r =? p); [done|]. destruct (r =? -1); [done|].
  assert (clock w2 = clock w + l) as Hc by (revert Hw; unfold waitpid_nohang; repeat case_match; by intros [= <- <-]).
  apply IH; simpl; rewrite ?Hc; lia.
Qed.

Lemma poll_fuel_enough fuel cs rem p w :
  0 <= rem → cs <= clock w → (poll_fuel rem <= fuel)%nat → poll fuel cs rem p w = poll (poll_fuel rem) cs rem p w.
Proof.
  intros Hr Hc Hf. unfold poll_fuel, millis in *. pose proof (Z.div_mod rem 10000000 ltac:(lia)).
  pose proof (Z.mod_pos_bound rem 10000000 ltac:(lia)). pose proof (Z.div_pos rem 10000000 ltac:(lia) ltac:(lia)).
  change (10 * 1000000) with 10000000 in *. apply poll_more_fuel; unfold millis; lia.
Qed.

(** * Forks *)

(** Process ids are positive and were handed out; all children but these were waited for. *)
Record well_kept (ps : list Z) (w : OS) : Prop := {
  wk_next : 0 < next_pid w;
  wk_pids p : is_Some (procs w !! p) → 0 < p < next_pid w;
  wk_gone p : p ∉ ps → gone w p
}.

Lemma evolves_well_kept ps qs w w' : evolves qs w w' → qs ⊆ ps → well_kept ps w → well_kept ps w'.
Proof.
  intros He Hs [Hn Hp Hg]. split.
  - by rewrite (ev_next _ _ _ He).
  - intros p Hx. rewrite (ev_next _ _ _ He). apply Hp. by apply (ev_dom _ _ _ He).
  - intros p Hnp. apply (evolves_gone _ _ _ _ He). by apply Hg.
Qed.

Lemma all_gone ps w : well_kept ps w → (∀ p, p ∈ ps → gone w p) → well_kept [] w.
Proof. intros [Hn Hp Hg] Ha. split; [done|done|]. intros p _. destruct (decide (p ∈ ps)); auto. Qed.

Lemma spawn_workers_spec n w qs :
  well_kept qs w →
  let '(w', ps) := spawn_workers n w in
  well_kept (qs ++ ps) w' ∧ Forall (λ p, 0 < p) ps ∧ length ps = n ∧ clock w' = clock w ∧ next_pid w <= next_pid w' ∧
  (∀ p, p ∈ ps → next_pid w <= p ∧ procs w' !! p = Some (mkProc (clock w) [] false)) ∧
  (∀ p, p < next_pid w → procs w' !! p = procs w !! p).
Proof.
  revert w qs. induction n as [|n IH]; intros w qs Hw; simpl.
  - rewrite app_nil_r. split_and!; try done. by intros p ?%elem_of_nil.
  - set (w1 := mkOS _ _ _). destruct Hw as [Hn Hp Hg].
    assert (well_kept (qs ++ [next_pid w]) w1) as Hw1.
    { split; simpl; [lia| |].
      - intros p [x [[<- _]|[_ Hx]]%lookup_insert_Some]; [lia|]. specialize (Hp p (mk_is_Some _ _ Hx)). lia.
      - intros p Hnp x. simpl. rewrite lookup_insert_ne by set_solver. apply Hg. set_solver. }
    specialize (IH w1 _ Hw1). destruct (spawn_workers n w1) as [w2 ps].
    destruct IH as (Hk & Hpos & Hl & Hc & Hnx & Hnew & Hold). simpl in *. rewrite <- (assoc_L (++)) in Hk. split_and!.
    + done.
    + by constructor.
    + by rewrite Hl.
    + done.
    + lia.
    + intros p [->|Hin]%elem_of_cons; [|destruct (Hnew p Hin); split; [lia|done]].
      split; [lia|]. rewrite Hold by lia. by rewrite lookup_insert_eq.
    + intros p Hlt. rewrite Hold by lia. by rewrite lookup_insert_ne by lia.
Qed.

(** * The loop *)

(** How the new workers of a reload ended: with SIGKILL, or by themselves. *)
Definition cut_off (w : OS) (p : Z) : Prop :=
  ∃ x, procs w !! p = Some x ∧ reaped x = true ∧
    ((∃ t, received x = [(t, SIGKILL)]) ∨ ∃ e, ends p (birth x) [] = Some e ∧ e <= clock w).

Definition reload_ending (n : nat) (w : OS) (e : ending) : Prop :=
  match e with
  | Reloaded new => length new = n ∧ ∀ p, p ∈ new → cut_off w p
  | SocketError => True
  | Stopped => False
  end.

Lemma respawn_spec n w :
  well_kept [] w → ∃ w' e, respawn n w = Some (w', e) ∧ well_kept [] w' ∧ reload_ending n w' e.
Proof.
  intros Hw. unfold respawn. destruct (can_bind (clock w)); [|by exists w, SocketError].
  pose proof (spawn_workers_spec n w [] Hw) as Hsp. destruct (spawn_workers n w) as [w1 new].
  destruct Hsp as (Hk & Hpos & Hl & Hc & _ & Hnew & _). simpl in *.
  destruct (wait_for_workers_spec new w1 Hpos) as (w2 & -> & He & Hout). simpl.
  exists w2, (Reloaded new). split; [done|]. split; [|split; [done|]].
  - apply (all_gone new); [by eapply evolves_well_kept|]. intros p Hp. by apply Hout.
  - intros p Hp. destruct (Hnew p Hp) as [_ Hx]. destruct (Hout p Hp) as [_ Ho].
    destruct (Ho _ Hx eq_refl) as (x' & Hx' & Hb & Hr & Hcase). exists x'. split_and!; [done|done|]. simpl in *.
    destruct Hcase as [[t ->]|(-> & e & He' & Hle)]; [left; by exists t|right]. exists e. by rewrite Hb.
Qed.

Lemma reload_spec n ps w (prepare : OS → OS) :
  well_kept ps w → Forall (λ p, 0 < p) ps → evolves ps w (prepare w) →
  ∃ w' e, (w1 ← wait_for_workers ps (prepare w); respawn n w1) = Some (w', e) ∧ well_kept [] w' ∧ reload_ending n w' e.
Proof.
  intros Hw Hps Hev. destruct (wait_for_workers_spec ps (prepare w) Hps) as (w1 & -> & He & Hout). simpl.
  apply respawn_spec. apply (all_gone ps); [|by intros p Hp; apply Hout].
  eapply evolves_well_kept; [exact He|done|]. by eapply evolves_well_kept.
Qed.

Lemma evolves_pass_r ps d w w' : 0 <= d → evolves ps w w' → evolves ps w (pass d w').
Proof. intros Hd He. apply (evolves_trans _ _ w'); [done|]. apply evolves_refl; [done|simpl; lia|done]. Qed.

Lemma waitpid_any_evolves w ps : well_kept ps w → evolves ps w (waitpid_any w).1.
Proof.
  intros Hw. unfold waitpid_any. set (alive := filter _ _). destruct alive as [|kv alive'] eqn:Ha; [by apply evolves_refl|].
  destruct (pick _) as [p|] eqn:Hp; [|by apply evolves_refl]. rewrite <- Ha in Hp. apply pick_in in Hp.
  apply list_elem_of_fmap in Hp as ([q x] & -> & Hin). apply list_elem_of_filter in Hin as [_ Hin].
  apply list_elem_of_filter in Hin as [Hr Hin]. apply elem_of_map_to_list in Hin. simpl in *.
  apply (evolves_weaken [q]).
  - intros r ->%list_elem_of_singleton. destruct (decide (q ∈ ps)); [done|]. exfalso.
    pose proof (wk_gone _ _ Hw q ltac:(done) x Hin). congruence.
  - eapply evolves_alter; [done|simpl; lia|done|]. intros y Hy Hry. congruence.
Qed.

Definition flagged (fl : flags) : bool := GRACEFUL_RELOAD fl || HOT_RELOAD fl || SHUTDOWN fl.

Lemma loop_step_spec n d fl ps w :
  0 <= d → well_kept ps w → Forall (λ p, 0 < p) ps →
  ∃ w' fl' e, loop_step n d fl ps w = Some (w', fl', e) ∧
    match e with
    | None => well_kept ps w' ∧ flagged fl = false
    | Some Stopped => well_kept ps w'
    | Some e => well_kept [] w' ∧ reload_ending n w' e
    end.
Proof.
  intros Hd Hw Hps. unfold loop_step, flagged. destruct (GRACEFUL_RELOAD fl) eqn:Hg; [|destruct (HOT_RELOAD fl) eqn:Hh; [|destruct (SHUTDOWN fl) eqn:Hs]].
  - destruct (reload_spec n ps w (λ w, terminate_workers ps (sleep (secs d) (kill_all SIGUSR1 ps w))) Hw Hps) as (w' & e & Hr & Hw' & He).
    { apply (evolves_trans _ _ (kill_all SIGUSR1 ps w)); [apply evolves_kill_all|]. eapply evolves_pass; [|apply evolves_kill_all].
      unfold secs. lia. }
    unfold graceful_reload. cbv zeta. rewrite Hr. simpl. eexists _, _, _. split; [done|]. by destruct e.
  - destruct (reload_spec n ps w (kill_all SIGKILL ps) Hw Hps (evolves_kill_all _ _ _)) as (w' & e & Hr & Hw' & He).
    unfold hot_reload. rewrite Hr. simpl. eexists _, _, _. split; [done|]. by destruct e.
  - eexists _, _, _. split; [done|]. simpl. eapply evolves_well_kept; [|done|exact Hw].
    apply (evolves_trans _ _ (kill_all SIGUSR1 ps w)); [apply evolves_kill_all|]. eapply evolves_pass; [|apply evolves_kill_all].
    unfold secs. lia.
  - pose proof (waitpid_any_evolves w ps Hw) as He. destruct (waitpid_any w) as [w1 p]. simpl in He.
    pose proof (evolves_well_kept ps ps _ _ He ltac:(done) Hw) as Hw1. destruct (0 <? p).
    + eexists _, _, _. split; [done|]. simpl. eapply evolves_well_kept; [apply evolves_kill_all|done|done].
    + eexists _, _, _. split; [done|]. simpl. split; [|done]. eapply (evolves_well_kept ps ps); [|done|exact Hw1].
      apply evolves_pass_r; [unfold millis; lia|by apply evolves_refl].
Qed.

Lemma handle_signals_flagged l fl : l ≠ [] ∨ flagged fl = true → flagged (foldl handle_signal fl l) = true.
Proof.
  assert (∀ s fl, flagged (handle_signal fl s) = true) as H1.
  { intros s [[] [] []]; by destruct s. }
  assert (∀ l fl, flagged fl = true → flagged (foldl handle_signal fl l) = true) as H2.
  { clear l fl. intros l. induction l as [|s l IH]; intros fl Hf; [done|]. simpl. by apply IH. }
  intros [Hl|Hf]; [|by apply H2]. destruct l as [|s l]; [done|]. simpl. by apply H2.
Qed.

Lemma signal_loop_spec n d fuel i arrive fl ps w :
  0 <= d → well_kept ps w → Forall (λ p, 0 < p) ps →
  ∃ w' fl' e, signal_loop n d fuel i arrive fl ps w = Some (w', fl', e) ∧
    match e with
    | None => ∀ j, (i <= j < i + fuel)%nat → arrive j = []
    | Some Stopped => well_kept ps w'
    | Some e => well_kept [] w' ∧ reload_ending n w' e
    end.
Proof.
  intros Hd. revert i fl w. induction fuel as [|fuel IH]; intros i fl w Hw Hps; simpl.
  - eexists _, _, _. split; [done|]. intros j ?. lia.
  - destruct (loop_step_spec n d (foldl handle_signal fl (arrive i)) ps w Hd Hw Hps) as (w1 & fl1 & e & -> & He). simpl.
    destruct e as [e|]; [by eexists _, _, _|]. destruct He as [Hw1 Hf].
    destruct (IH (S i) fl1 w1 Hw1 Hps) as (w2 & fl2 & e2 & -> & He2). eexists _, _, _. split; [done|].
    destruct e2 as [e2|]; [done|]. intros j Hj. destruct (decide (j = i)) as [->|]; [|apply He2; lia].
    destruct (arrive i) eqn:Ha; [done|]. rewrite handle_signals_flagged in Hf; [done|]. by left.
Qed.

(** C7: Whatever the workers do and in whatever order signals come in, no call of [start] blocks for ever
    in [waitpid]; once a signal has come in it ends; and when it ends (after a shutdown, the end of a
    worker, a reload or a failed bind) every process it ever forked was waited for: no
    child and no zombie is left behind. *)
Theorem start_leaves_no_child n d fuel arrive fl w :
  0 <= d → well_kept [] w →
  ∃ w' fl' r, start n d fuel arrive fl w = Some (w', fl', r) ∧
    (r = None → ∀ i, (i < fuel)%nat → arrive i = []) ∧
    (r ≠ None → ∀ p x, procs w' !! p = Some x → reaped x = true).
Proof.
  intros Hd Hw. unfold start.
  assert (∀ w', well_kept [] w' → ∀ p x, procs w' !! p = Some x → reaped x = true) as Hall.
  { intros w' [_ _ Hg] p x. apply Hg. apply not_elem_of_nil. }
  destruct (can_bind (clock w)); [|eexists _, _, _; split_and!; [done|done|by intros _; apply Hall]].
  pose proof (spawn_workers_spec n w [] Hw) as Hsp. destruct (spawn_workers n w) as [w1 ps].
  destruct Hsp as (Hk & Hpos & _). simpl in *.
  destruct (signal_loop_spec n d fuel 0 arrive fl ps w1 Hd Hk Hpos) as (w2 & fl2 & e & -> & He). simpl.
  destruct e as [[|new|]|].
  - destruct (wait_for_workers_spec ps w2 Hpos) as (w3 & -> & Hev & Hout). simpl. eexists _, _, _. split_and!; [done|done|].
    intros _. apply Hall. apply (all_gone ps); [by eapply evolves_well_kept|]. intros p Hp. by apply Hout.
  - destruct He as [He _]. destruct (wait_for_workers_spec ps w2 Hpos) as (w3 & -> & Hev & Hout). simpl. eexists _, _, _. split_and!; [done|done|].
    intros _. apply Hall. split.
    + rewrite (ev_next _ _ _ Hev). apply He.
    + intros p Hp. rewrite (ev_next _ _ _ Hev). apply He. by apply (ev_dom _ _ _ Hev).
    + intros p _. apply (evolves_gone _ _ _ _ Hev). apply He. apply not_elem_of_nil.
  - eexists _, _, _. split_and!; [done|done|]. intros _. apply Hall. apply He.
  - eexists _, _, _. split_and!; [done| |done]. intros _ i Hi. apply He. lia.
Qed.

(** The part of a reload before the forks. *)
Lemma reload_round n ps w (prepare : OS → OS) r :
  well_kept ps w → Forall (λ p, 0 < p) ps → evolves ps w (prepare w) →
  (w1 ← wait_for_workers ps (prepare w); respawn n w1) = Some r →
  ∃ w1, evolves ps w w1 ∧ well_kept [] w1 ∧ respawn n w1 = Some r.
Proof.
  intros Hw Hps Hev. destruct (wait_for_workers_spec ps (prepare w) Hps) as (w1 & -> & He & Hout). simpl.
  intros Hr. exists w1. split_and!; [by eapply evolves_trans| |done].
  apply (all_gone ps); [|by intros p Hp; apply Hout]. eapply evolves_well_kept; [exact He|done|].
  by eapply evolves_well_kept.
Qed.

(** A reload, graceful or hot, first waits until every old worker is gone and only then forks
    the new ones, so nobody serves in between; then it waits for the new ones as it did for the
    old: each of them ends by itself within the time or is killed, and the server stops. *)
Theorem reload_kills_new_workers n d fl ps w w' fl' e :
  0 <= d → well_kept ps w → Forall (λ p, 0 < p) ps → GRACEFUL_RELOAD fl || HOT_RELOAD fl = true →
  loop_step n d fl ps w = Some (w', fl', Some e) →
  ∃ w1, evolves ps w w1 ∧ (∀ p x, procs w1 !! p = Some x → reaped x = true) ∧ respawn n w1 = Some (w', e) ∧
    match e with
    | Reloaded new => length new = n ∧ ∀ p, p ∈ new → cut_off w' p
    | SocketError => can_bind (clock w1) = false
    | Stopped => False
    end.
Proof.
  intros Hd Hw Hps Hfl Hs.
  assert (∃ w1, evolves ps w w1 ∧ well_kept [] w1 ∧ respawn n w1 = Some (w', e)) as (w1 & He & Hw1 & Hr).
  { revert Hs. unfold loop_step. destruct (GRACEFUL_RELOAD fl); [|destruct (HOT_RELOAD fl); [|done]].
    - destruct (graceful_reload n d ps w) as [[w0 e0]|] eqn:Hg; simpl; [|done]. intros [= <- _ <-].
      apply (reload_round n ps w (λ w, terminate_workers ps (sleep (secs d) (kill_all SIGUSR1 ps w)))); [done|done| |exact Hg].
      apply (evolves_trans _ _ (kill_all SIGUSR1 ps w)); [apply evolves_kill_all|]. eapply evolves_pass; [|apply evolves_kill_all].
      unfold secs. lia.
    - destruct (hot_reload n ps w) as [[w0 e0]|] eqn:Hg; simpl; [|done]. intros [= <- _ <-].
      apply (reload_round n ps w (kill_all SIGKILL ps)); [done|done|apply evolves_kill_all|exact Hg]. }
  exists w1. split; [done|]. split; [intros p x; apply (wk_gone _ _ Hw1); apply not_elem_of_nil|]. split; [done|].
  destruct (respawn_spec n w1 Hw1) as (w2 & e2 & Hr2 & _ & Hre). rewrite Hr in Hr2. injection Hr2 as <- <-.
  destruct e as [|new|]; [done|done|]. revert Hr. unfold respawn. destruct (can_bind (clock w1)); [|done].
  destruct (spawn_workers n w1) as [w3 new]. destruct (wait_for_workers new w3); done.
Qed.
End children.

(** * Examples *)

Lemma boot_kept : well_kept [] boot.
Proof.
  split; [done| |]; [intros p [x Hx]|intros p _ x Hx]; unfold boot in Hx; cbn [procs] in Hx; by apply lookup_empty_Some in Hx.
Qed.

Lemma start_leaves_no_child_witness :
  ∃ w' fl' r, @start (idle_Kernel 30) 2 30 10 (one_signal SIGTERM) no_flags boot = Some (w', fl', r) ∧
    (r = None → ∀ i, (i < 10)%nat → one_signal SIGTERM i = []) ∧
    (r ≠ None → ∀ p x, procs w' !! p = Some x → reaped x = true).
Proof. apply (@start_leaves_no_child (idle_Kernel 30)); [done|apply boot_kept]. Defined.

(** With the default drain time of 30 s a SIGTERM to the parent always ends in SIGKILL: the worker
    sleeps through the drain time of the SIGUSR1 that came first, and the parent kills after 7 s. *)
Example shutdown_kills_default :
  signals_of (@start (idle_Kernel 30) 1 30 10 (one_signal SIGTERM) no_flags boot) =
    [(100, [(150000000, SIGUSR1); (2150000000, SIGTERM); (7150000000, SIGKILL)], true)].
Proof. vm_compute. reflexivity. Qed.

Definition forked : OS := (@spawn_workers 2 boot).1.

Lemma reload_kills_new_workers_witness :
  ∃ w1 w', @loop_step (idle_Kernel 30) 2 30 (mkFlags true false false) [100; 101] forked =
      Some (w', no_flags, Some (Reloaded [102; 103])) ∧
    @respawn (idle_Kernel 30) 2 w1 = Some (w', Reloaded [102; 103]) ∧ @cut_off (idle_Kernel 30) w' 103.
Proof.
  destruct (@loop_step (idle_Kernel 30) 2 30 (mkFlags true false false) [100; 101] forked) as [[[w' fl'] e]|] eqn:Hs;
    [|by vm_compute in Hs].
  assert (fl' = no_flags ∧ e = Some (Reloaded [102; 103])) as [-> ->]
    by (vm_compute in Hs; injection Hs as <- <- <-; done).
  destruct (@reload_kills_new_workers (idle_Kernel 30) 2 30 (mkFlags true false false) [100; 101] forked w' no_flags (Reloaded [102; 103]))
    as (w1 & _ & _ & Hr & _ & Hc); [done| |by repeat constructor|done|exact Hs|].
  - pose proof (@spawn_workers_spec 2 boot [] boot_kept) as H. simpl in H. by destruct H as (H & _).
  - exists w1, w'. split_and!; [done|done|]. apply Hc. by right; left.
Defined.
