(* ===== verification/WorkerLife.v ===== *)
(** The life of one worker process ([run_worker] in src/src/core/worker.rs): the signal thread, the
    startup task, the requests that arrive, are refused or counted, and the end of the process (by its
    signal thread, by SIGKILL, by a signal before its handlers are installed, or by an abort), which
    takes the unfinished requests with it.  The protocol of Reload.v is driven by the threads
    that drive it in the program; every run of a worker is a run of that protocol. *)
From S2P Require Import Prelude Method Routing Request Chain Log Reload Supervisor.
From stdpp Require Import base gmap strings list relations.
Open Scope Z_scope.

Section life.
Context `{NT : Notify}.

(** The signal thread: it waits for a signal; it has acted on the signal [s] at the time [n] and
    sleeps; it has told the server to shut down at the time [m] and sleeps; it has told the event
    loop to stop. *)
Inductive thread_pc :=
| Watching
| Pausing (s : sig) (n : Z)
| Telling (s : sig) (n m : Z)
| Stopping (s : sig) (n m : Z).

(** What became of a request that arrived at [t0], and when. *)
Inductive fate :=
| Refused (t0 : Z)
| Accepted (t0 : Z)
| Answered (t0 t1 : Z)
| Left (t0 t1 : Z)
| Lost (t0 t1 : Z).

(** What ends a process that does not end by itself: SIGKILL; a signal that came before the signal
    thread installed its handlers, when the action that the process was forked with applies; or an
    abort, when a request panics. *)
Inductive death := Killed | Early (s : sig) | Aborted.

(** [armed]: the handlers are installed; [early]: a signal came before. *)
Record Life := mkLife {
  sys : Sys;
  clock : Z;
  born : Z;
  started : bool;
  last_signal : option sig;
  thread : thread_pc;
  fates : gmap nat fate;
  exited : option Z;
  armed : bool;
  early : option sig;
  cut : option death
}.

Definition life_new (c : ReloadConfig) (t : Z) : Life := mkLife (Reload.init t c) t t false None Watching ∅ None false None None.

Definition put_sys (s : Sys) (l : Life) : Life :=
  mkLife s (clock l) (born l) (started l) (last_signal l) (thread l) (fates l) (exited l) (armed l) (early l) (cut l).
Definition put_clock (t : Z) (l : Life) : Life :=
  mkLife (sys l) t (born l) (started l) (last_signal l) (thread l) (fates l) (exited l) (armed l) (early l) (cut l).
Definition put_started (l : Life) : Life :=
  mkLife (sys l) (clock l) (born l) true (last_signal l) (thread l) (fates l) (exited l) (armed l) (early l) (cut l).
Definition put_signal (s : sig) (l : Life) : Life :=
  mkLife (sys l) (clock l) (born l) (started l) (Some s) (thread l) (fates l) (exited l) (armed l) (early l) (cut l).
Definition put_thread (p : thread_pc) (l : Life) : Life :=
  mkLife (sys l) (clock l) (born l) (started l) (last_signal l) p (fates l) (exited l) (armed l) (early l) (cut l).
Definition put_armed (l : Life) : Life :=
  mkLife (sys l) (clock l) (born l) (started l) (last_signal l) (thread l) (fates l) (exited l) true (early l) (cut l).
Definition put_early (s : sig) (l : Life) : Life :=
  mkLife (sys l) (clock l) (born l) (started l) (last_signal l) (thread l) (fates l) (exited l) (armed l) (Some s) (cut l).
Definition put_fate (i : nat) (f : fate) (l : Life) : Life :=
  mkLife (sys l) (clock l) (born l) (started l) (last_signal l) (thread l) (<[i := f]> (fates l)) (exited l)
    (armed l) (early l) (cut l).

(** The process ends: what was not answered is lost. *)
Definition lose (t : Z) (f : fate) : fate := match f with Accepted t0 => Lost t0 t | f => f end.
Definition exit_process (l : Life) : Life :=
  mkLife (sys l) (clock l) (born l) (started l) (last_signal l) (thread l) (lose (clock l) <$> fates l)
    (Some (clock l)) (armed l) (early l) (cut l).
Definition cut_process (d : death) (l : Life) : Life :=
  mkLife (sys l) (clock l) (born l) (started l) (last_signal l) (thread l) (lose (clock l) <$> fates l)
    (Some (clock l)) (armed l) (early l) (Some d).

Definition manager (l : Life) : ReloadManager := rm (sys l).
Definition life_config (l : Life) : ReloadConfig := config (manager l).

(** The moves of a live process.  Sleeps take at least as long as they say; every signal stores its
    number, and the thread reads the last one.  A signal that comes before the thread has installed its
    handlers meets what the process was forked with: the default actions or Python's handler, which end
    it, then or when the event loop starts; or, in a worker that replaces another, the parent's handler,
    which nobody reads, so that the signal has no effect. *)
Inductive live_step : Life → Life → Prop :=
| W_tick l d : 0 <= d → live_step l (put_clock (clock l + d) l)
| W_arm l : armed l = false → live_step l (put_armed l)
| W_early l s : armed l = false → caught s = true → live_step l (put_early s l)
| W_early_end l s : early l = Some s → live_step l (cut_process (Early s) l)
| W_signal l s : armed l = true → caught s = true → live_step l (put_signal s l)
| W_kill l : live_step l (cut_process Killed l)
| W_abort l i : reqs (sys l) !! i = Some InFlight → live_step l (cut_process Aborted l)
| W_startup l : started l = false → born l + secs (startup_grace_secs (life_config l)) <= clock l →
    live_step l (put_started (put_sys (set_rm (set_health (mark_healthy (health (manager l))) (manager l)) (sys l)) l))
| W_refuse l i : is_draining (manager l) = true → fates l !! i = None →
    live_step l (put_fate i (Refused (clock l)) l)
| W_accept l i : is_draining (manager l) = false → fates l !! i = None →
    live_step l (put_fate i (Accepted (clock l)) (put_sys (set_reqs (manager l) (<[i := Admitted_pc]> (reqs (sys l))) (sys l)) l))
| W_start l i : reqs (sys l) !! i = Some Admitted_pc →
    live_step l (put_sys (set_reqs (set_health (increment_in_flight (health (manager l))).1 (manager l))
      (<[i := InFlight]> (reqs (sys l))) (sys l)) l)
| W_finish l i : reqs (sys l) !! i = Some InFlight →
    live_step l (put_sys (set_reqs (complete_decrement (manager l)).1
      (<[i := Finishing (complete_decrement (manager l)).2]> (reqs (sys l))) (sys l)) l)
| W_answer l i r t0 : reqs (sys l) !! i = Some (Finishing r) → fates l !! i = Some (Accepted t0) →
    live_step l (put_fate i (Answered t0 (clock l))
      (put_sys (set_reqs (complete_notify r (manager l)) (delete i (reqs (sys l))) (sys l)) l))
| W_disconnect l i t0 : reqs (sys l) !! i = Some InFlight → fates l !! i = Some (Accepted t0) →
    live_step l (put_fate i (Left t0 (clock l))
      (put_sys (mkSys (manager l) (delete i (reqs (sys l))) (waiter (sys l)) (cancelled (sys l) + 1)) l))
| W_notice l s : thread l = Watching → last_signal l = Some s →
    live_step l (put_thread (Pausing s (clock l)) (put_sys (set_rm (on_signal s (manager l)).1 (sys l)) l))
| W_tell l s n : thread l = Pausing s n → n + pause (drain_timeout_secs (life_config l)) s <= clock l →
    live_step l (put_thread (Telling s n (clock l)) l)
| W_stop l s n m : thread l = Telling s n m → m + millis 100 <= clock l →
    live_step l (put_thread (Stopping s n m) l)
| W_exit l s n m : thread l = Stopping s n m → live_step l (exit_process l).

Definition life_step (l l' : Life) : Prop := exited l = None ∧ live_step l l'.

(** The signal that the thread acted on, and when. *)
Definition noticed (l : Life) : option (sig * Z) :=
  match thread l with Watching => None | Pausing s n | Telling s n _ | Stopping s n _ => Some (s, n) end.

Definition arrival (f : fate) : Z :=
  match f with Refused t0 | Accepted t0 | Answered t0 _ | Left t0 _ | Lost t0 _ => t0 end.

(** ** A worker runs the reload protocol *)

Lemma on_signal_step s (y : Sys) : step y (set_rm (on_signal s (rm y)).1 y).
Proof. destruct s; simpl; first [apply S_drain|apply S_signal]. Qed.

Lemma step_config (y y' : Sys) : step y y' → config (rm y') = config (rm y).
Proof.
  intros Hs. destruct Hs; simpl; try done; unfold complete_notify, start_drain; by case_match.
Qed.

(** ** The invariant of a life *)

Definition hot (s : sig) : bool := bool_decide (s = SIGUSR2).

(** Times of the thread, and whether the drain has started. *)
Definition thread_ok (drain_secs now : Z) (draining : bool) (p : thread_pc) : Prop :=
  match p with
  | Watching => draining = false
  | Pausing s n => draining = negb (hot s) ∧ n <= now
  | Telling s n m => draining = negb (hot s) ∧ n + pause drain_secs s <= m <= now
  | Stopping s n m => draining = negb (hot s) ∧ n + pause drain_secs s + millis 100 <= now
  end.

(** Only a drain refuses; then it refuses everything that arrives later. *)
Definition fate_ok (nt : option (sig * Z)) (now : Z) (f : fate) : Prop :=
  arrival f <= now ∧
  match f, nt with
  | Refused t0, Some (s, n) => hot s = false ∧ n <= t0
  | Refused _, None => False
  | _, Some (s, n) => hot s = true ∨ arrival f <= n
  | _, None => True
  end.

Record life_ok (c : ReloadConfig) (t : Z) (l : Life) : Prop := {
  ok_reach : rtc step (Reload.init t c) (sys l);
  ok_config : life_config l = c;
  ok_reqs i : is_Some (reqs (sys l) !! i) → is_Some (fates l !! i);
  ok_thread : thread_ok (drain_timeout_secs c) (clock l) (draining (manager l)) (thread l);
  ok_fates : map_Forall (λ _ f, fate_ok (noticed l) (clock l) f) (fates l);
  ok_lost i t0 t1 : fates l !! i = Some (Lost t0 t1) → exited l = Some t1;
  ok_exit t1 : exited l = Some t1 → t1 = clock l ∧ (cut l = None → ∃ s n m, thread l = Stopping s n m);
  ok_cut d : cut l = Some d → is_Some (exited l) ∧ match d with Early s => early l = Some s | _ => True end
}.

Lemma fate_ok_mono nt now now' f : now <= now' → fate_ok nt now f → fate_ok nt now' f.
Proof. intros Hn [Ha Hf]. split; [lia|done]. Qed.

Lemma fate_ok_notice s now f : fate_ok None now f → fate_ok (Some (s, now)) now f.
Proof. intros [Ha Hf]. split; [done|]. destruct f; simpl in *; auto; done. Qed.

Lemma draining_on_signal s (rm : ReloadManager) :
  draining rm = false → draining (on_signal s rm).1 = negb (hot s).
Proof. intros Hd. destruct s; simpl; unfold start_drain; rewrite ?Hd; done. Qed.

Lemma fate_ok_arrives p d now dr :
  thread_ok d now dr p → dr = false →
  fate_ok (match p with Watching => None | Pausing s n | Telling s n _ | Stopping s n _ => Some (s, n) end) now (Accepted now).
Proof.
  intros Hp ->. split; [done|]. destruct p; simpl in *; [done|..]; left; destruct Hp as [Hp _]; by destruct (hot s).
Qed.

Lemma fate_ok_refused p d now dr :
  thread_ok d now dr p → dr = true → 0 <= d →
  fate_ok (match p with Watching => None | Pausing s n | Telling s n _ | Stopping s n _ => Some (s, n) end) now (Refused now).
Proof.
  intros Hp -> Hd. split; [done|].
  destruct p as [|s n|s n m|s n m]; simpl in *; [done|..]; destruct Hp as [Hs Hp]; destruct (hot s) eqn:E; try done;
    (split; [done|]); assert (0 <= pause d s) by (destruct s; unfold pause, secs; simpl; lia); unfold millis in *; lia.
Qed.
Lemma fate_ok_ends nt now t0 f :
  f = Answered t0 now ∨ f = Left t0 now → fate_ok nt now (Accepted t0) → fate_ok nt now f.
Proof. intros [-> | ->] [Ha Hf]; (split; [done|]); by destruct nt as [[]|]. Qed.

Section preserved.
Variables (c : ReloadConfig) (t : Z).

Lemma ok_put_sys y l :
  step (sys l) y → draining (rm y) = draining (manager l) →
  (∀ i, is_Some (reqs y !! i) → is_Some (fates l !! i)) → life_ok c t l → life_ok c t (put_sys y l).
Proof.
  intros Hs Hd Hr [H1 H2 H3 H4 H5 H6 H7 H8]. split; try done; simpl.
  - by eapply rtc_r.
  - rewrite <-H2. unfold life_config, manager. simpl. by apply step_config.
  - unfold manager. simpl. by rewrite Hd.
Qed.

Lemma ok_put_fate i f l :
  (∀ t0 t1, f ≠ Lost t0 t1) → fate_ok (noticed l) (clock l) f → life_ok c t l → life_ok c t (put_fate i f l).
Proof.
  intros Hl Hf [H1 H2 H3 H4 H5 H6 H7 H8]. split; try done; simpl.
  - intros j Hj. destruct (decide (i = j)) as [->|]; [rewrite lookup_insert_eq; eauto|].
    rewrite lookup_insert_ne by done. auto.
  - by apply map_Forall_insert_2.
  - intros j t0 t1 [[_ ?]|[_ ?]]%lookup_insert_Some; [by destruct (Hl t0 t1)|eauto].
Qed.

(** A step of a counted request keeps who is counted. *)
Lemma reqs_kept l i p p' :
  life_ok c t l → reqs (sys l) !! i = Some p → ∀ j, is_Some (<[i := p']> (reqs (sys l)) !! j) → is_Some (fates l !! j).
Proof.
  intros H Hi j [x Hj]. apply (ok_reqs _ _ _ H). apply lookup_insert_Some in Hj as [[<- _]|[_ Hj]]; eauto.
Qed.

Lemma reqs_left l i :
  life_ok c t l → ∀ j, is_Some (delete i (reqs (sys l)) !! j) → is_Some (fates l !! j).
Proof. intros H j [x [_ Hj]%lookup_delete_Some]. apply (ok_reqs _ _ _ H). eauto. Qed.

Lemma ok_request l l' :
  0 <= drain_timeout_secs c →
  (∃ i, l' = put_fate i (Refused (clock l)) l ∧ is_draining (manager l) = true) ∨
  (∃ i, l' = put_fate i (Accepted (clock l)) (put_sys (set_reqs (manager l) (<[i := Admitted_pc]> (reqs (sys l))) (sys l)) l) ∧
     is_draining (manager l) = false ∧ fates l !! i = None) →
  life_ok c t l → life_ok c t l'.
Proof.
  intros Hc [(i & -> & Hd)|(i & -> & Hd & Hi)] H.
  - apply ok_put_fate; [done| |done]. by eapply fate_ok_refused; [apply (ok_thread _ _ _ H)|..].
  - set (l1 := put_fate i (Accepted (clock l)) l).
    assert (life_ok c t l1) as H1.
    { apply ok_put_fate; [done| |done]. by eapply fate_ok_arrives; [apply (ok_thread _ _ _ H)|]. }
    change (life_ok c t (put_sys (set_reqs (manager l1) (<[i := Admitted_pc]> (reqs (sys l1))) (sys l1)) l1)).
    assert (reqs (sys l) !! i = None) as Hr.
    { apply eq_None_not_Some. intros Hs. apply (ok_reqs _ _ _ H) in Hs. rewrite Hi in Hs. by destruct Hs. }
    apply ok_put_sys; [by apply S_admit|done| |done].
    intros j [x Hj]. simpl in *. apply lookup_insert_Some in Hj as [[<- _]|[Hne Hj]].
    + rewrite lookup_insert_eq. eauto.
    + rewrite lookup_insert_ne by done. apply (ok_reqs _ _ _ H). eauto.
Qed.

Lemma ok_cut_process d l :
  match d with Early s => early l = Some s | _ => True end → exited l = None →
  life_ok c t l → life_ok c t (cut_process d l).
Proof.
  intros Hd He [H1 H2 H3 H4 H5 H6 H7 H8]. split; try done; simpl.
  - intros i Hi%H3. by rewrite lookup_fmap, fmap_is_Some.
  - intros i f. rewrite lookup_fmap. intros (f' & Hf' & ->)%fmap_Some. specialize (H5 _ _ Hf').
    change (noticed (cut_process d l)) with (noticed l). by destruct f'.
  - intros i t0 t1. rewrite lookup_fmap. intros (f' & Hf' & Hf)%fmap_Some.
    destruct f'; simplify_eq/=; [done|]. apply H6 in Hf'. congruence.
  - intros t1 [= <-]. by split.
  - intros d' [= <-]. split; [by eexists|done].
Qed.

Lemma life_ok_step l l' :
  0 <= drain_timeout_secs c → life_step l l' → life_ok c t l → life_ok c t l'.
Proof.
  intros Hnn [He Hs] H. destruct Hs as [l d Hd|l Harm|l s Harm Hcs|l s Hes|l s Harm Hcs|l|l i Hi|l Hst Hb|l i Hd Hi|l i Hd Hi|l i Hi|l i Hi|l i r t0 Hi Hf|
    l i t0 Hi Hf|l s Ht Hsig|l s n Ht Hp|l s n m Ht Hp|l s n m Ht].
  - destruct H as [H1 H2 H3 H4 H5 H6 H7 H8]. split; try done; simpl.
    + destruct (thread l); simpl in *; try done; intuition lia.
    + eapply map_Forall_impl; [exact H5|]. intros i f. apply fate_ok_mono. lia.
    + intros t1. congruence.
  - by destruct H as [H1 H2 H3 H4 H5 H6 H7 H8].
  - destruct H as [H1 H2 H3 H4 H5 H6 H7 H8]. split; try done; simpl. intros d Hd. apply H8 in Hd as [[? ?] _]. congruence.
  - by apply ok_cut_process.
  - by destruct H as [H1 H2 H3 H4 H5 H6 H7 H8].
  - by apply ok_cut_process.
  - by apply ok_cut_process.
  - assert (life_ok c t (put_sys (set_rm (set_health (mark_healthy (health (manager l))) (manager l)) (sys l)) l)) as H'.
    { apply ok_put_sys; [apply S_startup|done|exact (ok_reqs _ _ _ H)|done]. }
    by destruct H' as [H1 H2 H3 H4 H5 H6 H7 H8].
  - apply (ok_request l); [done|left; eauto|done].
  - apply (ok_request l); [done|right; eauto|done].
  - apply ok_put_sys; [by apply S_start|done|by eapply reqs_kept|done].
  - apply ok_put_sys; [by apply S_finish|done|by eapply reqs_kept|done].
  - set (l1 := put_fate i (Answered t0 (clock l)) l).
    assert (life_ok c t l1) as H1.
    { apply ok_put_fate; [done| |done]. eapply fate_ok_ends; [by left|exact (ok_fates _ _ _ H _ _ Hf)]. }
    change (life_ok c t (put_sys (set_reqs (complete_notify r (manager l1)) (delete i (reqs (sys l1))) (sys l1)) l1)).
    apply ok_put_sys; [by apply S_notify|apply complete_notify_draining|by apply reqs_left|done].
  - set (l1 := put_fate i (Left t0 (clock l)) l).
    assert (life_ok c t l1) as H1.
    { apply ok_put_fate; [done| |done]. eapply fate_ok_ends; [by right|exact (ok_fates _ _ _ H _ _ Hf)]. }
    change (life_ok c t (put_sys (mkSys (manager l1) (delete i (reqs (sys l1))) (waiter (sys l1)) (cancelled (sys l1) + 1)) l1)).
    apply ok_put_sys; [by apply S_cancel|done|by apply reqs_left|done].
  - destruct H as [H1 H2 H3 H4 H5 H6 H7 H8]. rewrite Ht in H4. split; try done; simpl.
    + eapply rtc_r; [exact H1|apply on_signal_step].
    + rewrite <-H2. unfold life_config, manager. simpl.
      by rewrite <-(step_config _ _ (on_signal_step s (sys l))).
    + unfold manager at 1. simpl. rewrite draining_on_signal by done. split; [done|lia].
    + eapply map_Forall_impl; [exact H5|]. intros i f. unfold noticed. rewrite Ht. apply fate_ok_notice.
    + intros t1. congruence.
  - destruct H as [H1 H2 H3 H4 H5 H6 H7 H8]. rewrite H2 in Hp. rewrite Ht in H4. unfold noticed in H5. rewrite Ht in H5.
    split; try done; simpl in *; [intuition lia|intros t1; congruence].
  - destruct H as [H1 H2 H3 H4 H5 H6 H7 H8]. rewrite Ht in H4. unfold noticed in H5. rewrite Ht in H5.
    split; try done; simpl in *; [intuition lia|intros t1; congruence].
  - destruct H as [H1 H2 H3 H4 H5 H6 H7 H8]. split; try done; simpl.
    + intros i Hi%H3. by rewrite lookup_fmap, fmap_is_Some.
    + intros i f. rewrite lookup_fmap. intros (f' & Hf' & ->)%fmap_Some. specialize (H5 _ _ Hf').
      change (noticed (exit_process l)) with (noticed l). by destruct f'.
    + intros i t0 t1. rewrite lookup_fmap. intros (f' & Hf' & Hf)%fmap_Some.
      destruct f'; simplify_eq/=; [done|]. apply H6 in Hf'. congruence.
    + intros t1 [= <-]. split; [done|]. intros _. by exists s, n, m.
    + intros d Hd. apply H8 in Hd as [_ Hd]. split; [by eexists|done].
Qed.

Lemma life_reachable l :
  0 <= drain_timeout_secs c → rtc life_step (life_new c t) l → life_ok c t l.
Proof.
  intros Hnn Hr. eapply (rtc_invariant life_step (life_ok c t)); [intros ????; by eapply life_ok_step|exact Hr|].
  split; try done. simpl. intros i [x Hi]. by rewrite lookup_empty in Hi.
Qed.
End preserved.

(** ** What a shutdown does to requests *)

(** C6: a worker gives every request its grace, as long as nobody cuts it short.  In every run of a
    worker, the reload protocol runs as Reload.v has it.  The process is cut short only by SIGKILL, by a
    signal that came before its handlers were installed, or by an abort.  Otherwise: until the signal
    thread has acted, no request is lost.  Once it has acted on a signal [s] at [n], the process ends no
    sooner than the pause of the signal and 100 ms later, and a request that the end cuts off had at
    least that long.  Cut short or not: before the thread has acted no request is refused, and after it,
    unless the signal is the hot reload, a request cut off was accepted before the drain, every request
    that arrives later is refused, and no other is.  (The parent does cut workers short:
    [Supervisor.shutdown_kills_default].) *)
Theorem shutdown_grace c t l :
  0 <= drain_timeout_secs c → rtc life_step (life_new c t) l →
  Reload.reachable (sys l) ∧
  (∀ d, cut l = Some d → match d with Early s => early l = Some s | _ => True end) ∧
  match noticed l with
  | None =>
      (cut l = None → exited l = None) ∧
      ∀ i f, fates l !! i = Some f → ∀ t0 t1, f ≠ Refused t0 ∧ (f = Lost t0 t1 → cut l ≠ None)
  | Some (s, n) =>
      let over := n + pause (drain_timeout_secs c) s + millis 100 in
      (∀ t1, exited l = Some t1 → cut l = None → over <= t1) ∧
      ∀ i f, fates l !! i = Some f →
        (∀ t0 t1, f = Lost t0 t1 → (cut l = None → over <= t1) ∧ (s ≠ SIGUSR2 → t0 <= n)) ∧
        (∀ t0, f = Refused t0 → s ≠ SIGUSR2 ∧ n <= t0) ∧
        (s ≠ SIGUSR2 → n < arrival f → f = Refused (arrival f))
  end.
Proof.
  intros Hc Hr. pose proof (life_reachable c t l Hc Hr) as [H1 H2 H3 H4 H5 H6 H7 H8].
  split; [by exists t, c|]. split; [intros d Hd; by apply H8|].
  assert (∀ s, s ≠ SIGUSR2 → hot s = false) as Hhot by (intros s Hs; by apply bool_decide_eq_false).
  destruct (noticed l) as [[s n]|] eqn:Hn.
  - intros over. assert (∀ t1, exited l = Some t1 → cut l = None → over <= t1) as Hover.
    { intros t1 Ht1 Hcut. destruct (H7 _ Ht1) as (-> & Hth). destruct (Hth Hcut) as (s' & n' & m' & Hth').
      unfold noticed in Hn. rewrite Hth' in Hn, H4. simplify_eq. simpl in H4. unfold over. lia. }
    split; [done|]. intros i f Hf. destruct (H5 _ _ Hf) as [Ha Hok]. split_and!.
    + intros t0 t1 ->. split; [eauto|]. intros Hs%Hhot. simpl in Hok. destruct Hok; [congruence|done].
    + intros t0 ->. destruct Hok as [Hh Hle]. split; [|done]. intros ->. done.
    + intros Hs%Hhot Hlt. destruct f; simpl in *; try done; destruct Hok; congruence || lia.
  - assert (∀ t1, exited l = Some t1 → cut l ≠ None) as Hex.
    { intros t1 Ht1 Hcut. destruct (H7 _ Ht1) as (_ & Hth). destruct (Hth Hcut) as (s' & n' & m' & Hth').
      unfold noticed in Hn. by rewrite Hth' in Hn. }
    split.
    + intros Hcut. destruct (exited l) eqn:He; [|done]. by destruct (Hex _ eq_refl).
    + intros i f Hf t0 t1. destruct (H5 _ _ Hf) as [_ Hok]. split; [by intros ->|]. intros ->.
      apply (Hex t1). by eapply H6.
Qed.

(** The thread never gets stuck: a worker that received a signal can end by the steps of its signal
    thread and the passing of time alone, whatever its requests do. *)
Lemma stop_from_telling l s n m :
  exited l = None → thread l = Telling s n m →
  ∃ l', rtc life_step l l' ∧ exited l' = Some (clock l') ∧ fates l' = lose (clock l') <$> fates l.
Proof.
  intros He Ht. set (l1 := put_clock (clock l + Z.max 0 (m + millis 100 - clock l)) l).
  set (l2 := put_thread (Stopping s n m) l1). exists (exit_process l2). split; [|done].
  eapply rtc_l; [split; [done|apply (W_tick l (Z.max 0 (m + millis 100 - clock l))); lia]|]. fold l1.
  eapply rtc_l; [split; [done|apply (W_stop l1 s n m); [done|simpl; lia]]|]. fold l2.
  apply rtc_once. split; [done|by apply (W_exit l2 s n m)].
Qed.

Lemma stop_from_pausing l s n :
  exited l = None → thread l = Pausing s n →
  ∃ l', rtc life_step l l' ∧ exited l' = Some (clock l') ∧ fates l' = lose (clock l') <$> fates l.
Proof.
  intros He Ht. set (p := n + pause (drain_timeout_secs (life_config l)) s).
  set (l1 := put_clock (clock l + Z.max 0 (p - clock l)) l).
  set (l2 := put_thread (Telling s n (clock l1)) l1).
  destruct (stop_from_telling l2 s n (clock l1)) as (l' & Hl' & H); [done|done|]. exists l'. split; [|exact H].
  eapply rtc_l; [split; [done|apply (W_tick l (Z.max 0 (p - clock l))); lia]|]. fold l1.
  eapply rtc_l; [split; [done|apply (W_tell l1 s n); [done|]]|exact Hl'].
  change (p <= clock l + Z.max 0 (p - clock l)). lia.
Qed.

Theorem worker_can_stop c t l s :
  rtc life_step (life_new c t) l → exited l = None → last_signal l = Some s →
  ∃ l', rtc life_step l l' ∧ exited l' = Some (clock l') ∧ fates l' = lose (clock l') <$> fates l.
Proof.
  intros Hr He Hs. destruct (thread l) as [|s' n|s' n m|s' n m] eqn:Ht.
  - set (l1 := put_thread (Pausing s (clock l)) (put_sys (set_rm (on_signal s (manager l)).1 (sys l)) l)).
    destruct (stop_from_pausing l1 s (clock l)) as (l' & Hl' & H); [done|done|]. exists l'. split; [|exact H].
    eapply rtc_l; [split; [done|by apply W_notice]|exact Hl'].
  - by apply (stop_from_pausing l s' n).
  - by apply (stop_from_telling l s' n m).
  - exists (exit_process l). split; [|done]. apply rtc_once. split; [done|by eapply W_exit].
Qed.
End life.

(** * Witnesses *)

Lemma life_advance `{NT : Notify} l0 l l1 l2 :
  rtc life_step l0 l → exited l = None → live_step l l1 → l1 = l2 → rtc life_step l0 l2.
Proof. intros Hr He Hs <-. by eapply rtc_r. Qed.

Tactic Notation "lives" hyp(Hr) uconstr(c) :=
  let H := fresh in
  eassert (rtc life_step _ _) as H;
  [eapply (life_advance _ _ _ _ Hr); [reflexivity|eapply c; [> (vm_compute; first [reflexivity|discriminate])..]|
   vm_compute; reflexivity]|];
  clear Hr; rename H into Hr.

(** A request is in progress when the worker is terminated, a second comes during the pause; the
    first is still in progress when the process ends. *)
Lemma shutdown_grace_witness :
  ∃ l, rtc life_step (life_new reload_config_default 0) l ∧
    fates l !! 1%nat = Some (Lost 5 (secs 3)) ∧ fates l !! 2%nat = Some (Refused (secs 1)) ∧
    noticed l = Some (SIGTERM, 60) ∧ cut l = None ∧ 60 + secs 2 + millis 100 <= secs 3.
Proof.
  assert (rtc life_step (life_new reload_config_default 0) (life_new reload_config_default 0)) as Hr by apply rtc_refl.
  lives Hr (W_arm _).
  lives Hr (W_tick _ 5).
  lives Hr (W_accept _ 1).
  lives Hr (W_start _ 1).
  lives Hr (W_tick _ 55).
  lives Hr (W_signal _ SIGTERM).
  lives Hr (W_notice _ SIGTERM).
  lives Hr (W_tick _ (secs 1 - 60)).
  lives Hr (W_refuse _ 2).
  lives Hr (W_tick _ (secs 1 + 60)).
  lives Hr (W_tell _ SIGTERM 60).
  lives Hr (W_tick _ (secs 1 - 60)).
  lives Hr (W_stop _ SIGTERM 60 (secs 2 + 60)).
  lives Hr (W_exit _ SIGTERM 60 (secs 2 + 60)).
  eexists. split; [exact Hr|]. split; [vm_compute; reflexivity|]. split; [vm_compute; reflexivity|].
  split; [vm_compute; reflexivity|]. split; [reflexivity|].
  refine (proj1 (proj1 (proj2 (proj2 (proj2 (shutdown_grace reload_config_default 0 _ _ Hr))) 1%nat _ _) _ _ eq_refl) _);
    vm_compute; (reflexivity || discriminate).
Defined.

(** Killed during its pause, a worker loses the request sooner; a signal before the handlers are
    installed ends it before it has drained at all. *)
Lemma killed_in_pause :
  ∃ l, rtc life_step (life_new reload_config_default 0) l ∧
    fates l !! 1%nat = Some (Lost 0 10) ∧ noticed l = Some (SIGUSR1, 0) ∧ cut l = Some Killed.
Proof.
  assert (rtc life_step (life_new reload_config_default 0) (life_new reload_config_default 0)) as Hr by apply rtc_refl.
  lives Hr (W_arm _).
  lives Hr (W_accept _ 1).
  lives Hr (W_signal _ SIGUSR1).
  lives Hr (W_notice _ SIGUSR1).
  lives Hr (W_tick _ 10).
  lives Hr (W_kill _).
  eexists. split; [exact Hr|]. by split_and!; vm_compute.
Qed.

Lemma ended_early :
  ∃ l, rtc life_step (life_new reload_config_default 0) l ∧
    fates l !! 1%nat = Some (Lost 0 0) ∧ noticed l = None ∧ cut l = Some (Early SIGTERM).
Proof.
  assert (rtc life_step (life_new reload_config_default 0) (life_new reload_config_default 0)) as Hr by apply rtc_refl.
  lives Hr (W_accept _ 1).
  lives Hr (W_early _ SIGTERM).
  lives Hr (W_early_end _ SIGTERM).
  eexists. split; [exact Hr|]. by split_and!; vm_compute.
Qed.
