(* ===== verification/Members.v ===== *)
(** The middleware of the Python module as members of the server's chain: the builder methods and
    constructors (src/src/middleware/builtin.rs, src/src/middleware/mod.rs), the chain builder
    (src/src/middleware/chain.rs), and what a chain registered from Python can do to a request. *)
From S2P Require Import Prelude F64 Log Reload Method Routing Request Chain Builtin RateLimit BasicAuth Circuit Supervisor.
From stdpp Require Import base gmap strings list.
Open Scope Z_scope.

(** * Configuration builders *)

Definition cors_config_new : CorsConfig := cors_default.
Definition set_allow_credentials (allow : bool) (c : CorsConfig) : CorsConfig :=
  mkCorsConfig (allowed_origins c) (allowed_methods c) (allowed_headers c) (expose_headers c) allow (max_age c).
Definition set_max_age (seconds : Z) (c : CorsConfig) : CorsConfig :=
  mkCorsConfig (allowed_origins c) (allowed_methods c) (allowed_headers c) (expose_headers c) (allow_credentials c) seconds.
Definition rate_limit_default : RateLimitConfig :=
  mkRateLimitConfig 100 (60 * 1000000000) SlidingWindow None ["/health"; "/metrics"].
Definition set_trust_incoming (trust : bool) (c : RequestIdMiddleware) : RequestIdMiddleware :=
  mkRequestIdMiddleware (header_name c) trust.
Definition with_csp (p : string) (c : SecurityHeadersConfig) : SecurityHeadersConfig :=
  mkSecurityHeadersConfig (content_type_options c) (frame_options c) (xss_protection c) (hsts c) (Some p)
    (referrer_policy c) (permissions_policy c).
Definition with_frame_options (o : string) (c : SecurityHeadersConfig) : SecurityHeadersConfig :=
  mkSecurityHeadersConfig (content_type_options c) (Some o) (xss_protection c) (hsts c) (csp c)
    (referrer_policy c) (permissions_policy c).
Definition with_hsts (v : string) (c : SecurityHeadersConfig) : SecurityHeadersConfig :=
  mkSecurityHeadersConfig (content_type_options c) (frame_options c) (xss_protection c) (Some v) (csp c)
    (referrer_policy c) (permissions_policy c).
Definition with_permissions_policy (p : string) (c : SecurityHeadersConfig) : SecurityHeadersConfig :=
  mkSecurityHeadersConfig (content_type_options c) (frame_options c) (xss_protection c) (hsts c) (csp c)
    (referrer_policy c) (Some p).
Definition timeout_seconds (s : Z) : Z := s * 1000000000.
Definition timeout_millis (m : Z) : Z := m * 1000000.
Definition with_content_type (t : string) (c : CompressionMiddleware) : CompressionMiddleware :=
  mkCompressionMiddleware (min_size c) (content_types c ++ [t]).

(** ** Python constructors *)
Definition py_cors_permissive : CorsConfig := cors_default.
Definition py_timeout_new (timeout_secs : Z) : Z := timeout_secs * 1000000000.
Definition py_compression_new (min : Z) : CompressionMiddleware := with_min_size min compression_new.
Definition py_request_id_new (h : string) : RequestIdMiddleware := with_id_header h request_id_new.
Definition py_log_default : Builtin.LogConfig := log_config_default.

(** The constructors with the default arguments of their signatures. *)
Definition py_cors_defaults : CorsConfig := py_cors_new None None None None false 86400.
Definition py_rate_limit_defaults `{RustStr} : result string RateLimitConfig :=
  py_rate_limit_new 100 60 "sliding" None None.
Definition py_security_defaults : SecurityHeadersConfig := py_security_new true 31536000 "DENY" true true None.
Definition py_timeout_defaults : Z := py_timeout_new 30.
Definition py_compression_defaults : CompressionMiddleware := py_compression_new 1024.
Definition py_request_id_defaults : RequestIdMiddleware := py_request_id_new "X-Request-ID".
Definition py_log_defaults `{RustStr} : Builtin.LogConfig := py_log_new "info" false None.
Definition py_basic_auth_defaults `{!HashIter string string} : BasicAuthMiddleware := py_basic_auth_new "Restricted" None.
Definition py_breaker_defaults : CircuitBreakerConfig := py_breaker_new 5 2 30 None.
Definition py_cache_defaults : CacheConfig := py_cache_new 60 true 10000 None.
Definition cache_config_default : CacheConfig := cache_config_new 60.

(** An object that is made without arguments is configured as the Rust default. *)
Lemma py_defaults `{RS : RustStr} `{HI : !HashIter string string} :
  py_cors_defaults = cors_default ∧ py_rate_limit_defaults = Ok rate_limit_default ∧
  py_security_defaults = security_default ∧ py_compression_defaults = compression_new ∧
  py_request_id_defaults = request_id_new ∧ py_log_defaults = log_config_default ∧
  py_basic_auth_defaults = auth_new "Restricted" ∧ py_breaker_defaults = breaker_config_default ∧
  py_cache_defaults = cache_config_default.
Proof.
  unfold py_rate_limit_defaults, py_log_defaults, py_rate_limit_new, py_log_new, py_log_level.
  rewrite !to_lowercase_ascii by done. by split_and!.
Qed.

(** The circuit breaker's methods in Python. *)
Definition py_record_success (c : CircuitBreakerConfig) (p : string) (cs : Circuits) : Circuits := record_success c p cs.
Definition py_record_failure (c : CircuitBreakerConfig) (p : string) (now : Z) (cs : Circuits) : Circuits :=
  record_failure c p now cs.
Definition py_get_state (cs : Circuits) (p : string) : string :=
  match Circuit.get_state cs p with Closed => "closed" | Open => "open" | HalfOpen => "half_open" end.
Definition py_get_failure_count (cs : Circuits) (p : string) : Z := get_failure_count cs p.

(** ** The chain builder *)

Section builder.
Context {W : Type}.

Definition use_before_boxed (m : RustMiddleware W) (c : MiddlewareChain W) : MiddlewareChain W :=
  mkMiddlewareChain (before c ++ [m]) (after c) (error_handlers c).
Definition use_after_boxed (m : RustMiddleware W) (c : MiddlewareChain W) : MiddlewareChain W :=
  mkMiddlewareChain (before c) (after c ++ [m]) (error_handlers c).

Definition builder_new : MiddlewareChain W := chain_new.
Definition builder_before (m : RustMiddleware W) (b : MiddlewareChain W) : MiddlewareChain W := use_before m b.
Definition builder_after (m : RustMiddleware W) (b : MiddlewareChain W) : MiddlewareChain W := use_after m b.
Definition builder_error (m : RustMiddleware W) (b : MiddlewareChain W) : MiddlewareChain W := use_error m b.
Definition build (b : MiddlewareChain W) : MiddlewareChain W := b.
End builder.

(** * Members *)

(** The middleware objects that the server accepts; a rate limiter has an identity, because an
    object registered twice is shared. *)
Inductive PyMiddleware :=
| PCors (c : CorsConfig)
| PRateLimit (id : nat) (c : RateLimitConfig)
| PSecurity (c : SecurityHeadersConfig)
| PTimeout (timeout : Z)
| PCompression (c : CompressionMiddleware)
| PRequestId (c : RequestIdMiddleware)
| PLog (c : Builtin.LogConfig)
| PBasicAuth (m : BasicAuthMiddleware).

(** An argument of [use_middleware]: one of them, or an object of another class. *)
Inductive PyObject := Accepted (m : PyMiddleware) | Foreign.

Definition class_of (m : PyMiddleware) : py_class :=
  match m with
  | PCors _ => Cors | PRateLimit _ _ => RateLimit | PSecurity _ => SecurityHeaders | PTimeout _ => Timeout
  | PCompression _ => Compression | PRequestId _ => RequestId | PLog _ => LogMw | PBasicAuth _ => BasicAuth
  end.

(** The state of the limiter objects, within a world that also holds the log queue. *)
Definition Limits : Type := gmap nat (gmap string RateLimitState).

(** What the logging middleware sends to the queue, with the time of the entry. *)
Definition emit (now : f64) (ev : LogEvent) : Logger → Logger :=
  match ev with
  | LogRequest m p id => log_request now m p (Some id)
  | LogHeader id k v => Log.log now Log.Debug ("[" +:+ id +:+ "] Header: " +:+ k +:+ "=" +:+ v)
  | LogCompleted id ms => Log.log now Log.Info ("[" +:+ id +:+ "] Request completed in " +:+ dec ms +:+ "ms")
  end.

Section members.
Context `{RS : RustStr} `{U8 : Utf8} `{HI : !HashIter string string}.
Context {World : Type} `{HLm : !Holds Limits World} `{HLg : !Holds Logger World}.

(** Two readings of the clock, and one for an entry of the log. *)
Variable clock : World → Z * Z.
Variable wall : World → f64.

Definition stateless (f : MiddlewareContext → MiddlewareContext * MiddlewareResult) (w : World) (ctx : MiddlewareContext)
    : World * MiddlewareContext * MiddlewareResult :=
  let '(ctx', res) := f ctx in (w, ctx', res).

Definition limited_execute (id : nat) (c : RateLimitConfig) (w : World) (ctx : MiddlewareContext)
    : World * MiddlewareContext * MiddlewareResult :=
  let '(cl, ctx', res) := RateLimit.execute c (clock w).1 (clock w).2 (default ∅ ((held w : Limits) !! id)) ctx in
  (hold (<[id := cl]> (held w : Limits)) w, ctx', res).

Definition logged_execute (c : Builtin.LogConfig) (w : World) (ctx : MiddlewareContext)
    : World * MiddlewareContext * MiddlewareResult :=
  let '(ctx', ev, res) := log_execute c (clock w).1 ctx in
  (foldl (λ w e, hold (emit (wall w) e (held w)) w) w ev, ctx', res).

Definition everywhere (n : string) (f : World → MiddlewareContext → World * MiddlewareContext * MiddlewareResult)
    : RustMiddleware World := mkRustMiddleware n (λ w ctx, Some (f w ctx)) (λ _, true) (λ _, true).

(** The timeout may panic. *)
Definition deadline_execute (t : Z) (w : World) (ctx : MiddlewareContext)
    : option (World * MiddlewareContext * MiddlewareResult) :=
  '(ctx', res) ← timeout_execute t (clock w).1 ctx; Some (w, ctx', res).

Definition member (m : PyMiddleware) : RustMiddleware World :=
  match m with
  | PCors c => everywhere "cors" (stateless (cors_execute c))
  | PRateLimit id c => everywhere "rate_limit" (limited_execute id c)
  | PSecurity c => everywhere "security_headers" (stateless (security_execute c))
  | PTimeout t => mkRustMiddleware "timeout" (deadline_execute t) (λ _, true) (λ _, true)
  | PCompression c => everywhere "compression" (stateless (compression_execute c))
  | PRequestId c => everywhere "request_id" (stateless (request_id_execute c))
  | PLog c => everywhere "logger" (logged_execute c)
  | PBasicAuth a => everywhere "basic_auth" (stateless (BasicAuth.execute a))
  end.

(** A Python program registers objects one after another; a refused one raises a TypeError. *)
Fixpoint register_all {R} (os : list PyObject) (s : Server (RouterT := R) (W := World))
    : option (Server (RouterT := R) (W := World) * result string unit) :=
  match os with
  | [] => Some (s, Ok tt)
  | Accepted m :: os' =>
      '(s', _) ← use_middleware (class_of m) (member m) s; register_all os' s'
  | Foreign :: _ =>
      Some (s, Err "Middleware must be a Rust middleware type (CORS, SecurityHeaders, RequestId, etc.)")
  end.

(** ** What a registered chain can do *)

(** The parts of a request that no member touches; response headers are only added. *)
Record framed (ctx ctx' : MiddlewareContext) : Prop := {
  fr_path : Chain.path ctx' = Chain.path ctx;
  fr_method : Chain.method ctx' = Chain.method ctx;
  fr_headers : Chain.headers ctx' = Chain.headers ctx;
  fr_query : Chain.query_string ctx' = Chain.query_string ctx;
  fr_params : Chain.path_params ctx' = Chain.path_params ctx;
  fr_body : Chain.body ctx' = Chain.body ctx;
  fr_id : Chain.request_id ctx' = Chain.request_id ctx;
  fr_start : start_time ctx' = start_time ctx;
  fr_added : response_headers ctx `prefix_of` response_headers ctx'
}.

Lemma framed_refl ctx : framed ctx ctx.
Proof. by split. Qed.

Lemma framed_trans c1 c2 c3 : framed c1 c2 → framed c2 c3 → framed c1 c3.
Proof. intros [] []. split; try congruence. by etrans. Qed.

Lemma framed_add n v ctx : framed ctx (add_response_header n v ctx).
Proof. split; try done. by exists [(n, v)]. Qed.

Lemma framed_state k v ctx : framed ctx (set_state k v ctx).
Proof. unfold set_state, ensure_state. destruct (Chain.state ctx) eqn:E; cbn; rewrite ?E; by split. Qed.

Lemma framed_auth u r ctx : framed ctx (set_authenticated u r ctx).
Proof. unfold set_authenticated, ensure_state. destruct (Chain.state ctx) eqn:E; cbn; rewrite ?E; by split. Qed.

Lemma framed_opt n v ctx : framed ctx (add_opt n v ctx).
Proof. destruct v; [apply framed_add|apply framed_refl]. Qed.
End members.

Create HintDb framed.
#[export] Hint Resolve framed_refl framed_add framed_state framed_auth framed_opt : framed.

(** A chain of additions is framed. *)
Ltac framing := repeat first [solve [eauto with framed] | eapply framed_trans; [|solve [eauto with framed]]].

Section outcomes.
Context `{RS : RustStr} `{U8 : Utf8} `{HI : !HashIter string string}.
Context {World : Type} `{HLm : !Holds Limits World} `{HLg : !Holds Logger World}.
Variable clock : World → Z * Z.
Variable wall : World → f64.

(** A member lets a request pass or answers it: a preflight (204), or a refusal. *)
Definition answers (res : MiddlewareResult) : Prop :=
  match res with
  | Continue => True
  | Response r => Chain.status r ∈ [204; 401; 403; 429]
  | Error _ => False
  end.

Definition tame (ctx : MiddlewareContext) (o : MiddlewareContext * MiddlewareResult) : Prop :=
  framed ctx o.1 ∧ answers o.2.

Lemma cors_tame c ctx : tame ctx (cors_execute c ctx).
Proof.
  unfold cors_execute, tame. destruct (str_is_empty _); [by split; framing|].
  destruct (negb _); [split; [framing|cbn; set_solver]|].
  case_bool_decide; cbn [fst snd]; (split; [|cbn; try done; set_solver]);
    destruct (expose_headers c), (allow_credentials c); framing.
Qed.

Lemma security_tame c ctx : tame ctx (security_execute c ctx).
Proof. split; [|done]. cbn. framing. Qed.

Lemma timeout_tame t now ctx o : timeout_execute t now ctx = Some o → tame ctx o.
Proof.
  unfold timeout_execute. destruct (instant_add _ _); cbn; intros; simplify_eq. split; [|done]. cbn. framing.
Qed.

Lemma compression_tame c ctx : tame ctx (compression_execute c ctx).
Proof. split; [|done]. unfold compression_execute. cbn [fst]. repeat case_match; framing. Qed.

Lemma request_id_tame c ctx : tame ctx (request_id_execute c ctx).
Proof. split; [|done]. cbn. framing. Qed.

Lemma basic_auth_tame m ctx : tame ctx (BasicAuth.execute m ctx).
Proof.
  unfold BasicAuth.execute. repeat case_match; (split; cbn [fst snd]; [framing|cbn; try done; set_solver]).
Qed.

Lemma rate_limit_tame c t0 t cl ctx :
  tame ctx ((RateLimit.execute c t0 t cl ctx).1.2, (RateLimit.execute c t0 t cl ctx).2).
Proof.
  unfold RateLimit.execute, tame. destruct (skipped _ _); [by split; framing|].
  destruct (check _ _ _) as [s' [allowed remaining]]. unfold conclude, limit_headers.
  destruct allowed; cbn [negb fst snd]; (split; [framing|cbn; try done; set_solver]).
Qed.

Lemma log_tame c now ctx : tame ctx ((log_execute c now ctx).1.1, (log_execute c now ctx).2).
Proof. unfold log_execute. destruct (skipped _ _); (split; [cbn; framing|done]). Qed.

Lemma member_tame m w ctx w' ctx' res :
  Chain.execute (member clock wall m) w ctx = Some (w', ctx', res) → tame ctx (ctx', res).
Proof.
  destruct m as [c|id c|c|t|c|c|c|a]; cbn [member everywhere Chain.execute]; unfold stateless.
  - pose proof (cors_tame c ctx) as H. destruct (cors_execute c ctx). by intros; simplify_eq.
  - unfold limited_execute. pose proof (rate_limit_tame c (clock w).1 (clock w).2 (default ∅ ((held w : Limits) !! id)) ctx) as H.
    destruct (RateLimit.execute _ _ _ _ _) as [[]]. by intros; simplify_eq.
  - pose proof (security_tame c ctx) as H. destruct (security_execute c ctx). by intros; simplify_eq.
  - unfold deadline_execute. pose proof (timeout_tame t (clock w).1 ctx) as H.
    destruct (timeout_execute _ _ _) as [[]|]; [|done]. intros; simplify_eq/=. by apply H.
  - pose proof (compression_tame c ctx) as H. destruct (compression_execute c ctx). by intros; simplify_eq.
  - pose proof (request_id_tame c ctx) as H. destruct (request_id_execute c ctx). by intros; simplify_eq.
  - unfold logged_execute. pose proof (log_tame c (clock w).1 ctx) as H. destruct (log_execute _ _ _) as [[]].
    by intros; simplify_eq.
  - pose proof (basic_auth_tame a ctx) as H. destruct (BasicAuth.execute a ctx). by intros; simplify_eq.
Qed.

(** Only a timeout panics, when the deadline is not an instant any more. *)
Definition beyond (ctx : MiddlewareContext) (d : Z) : Prop := 2 ^ 63 * 1000000000 <= start_time ctx + d.

Lemma member_panics m w ctx :
  Chain.execute (member clock wall m) w ctx = None ↔ ∃ d, m = PTimeout d ∧ beyond ctx d.
Proof.
  destruct m as [c|id c|c|t|c|c|c|a]; cbn [member everywhere Chain.execute]; try (split; [done|naive_solver]).
  unfold deadline_execute, timeout_execute, instant_add, beyond. destruct (Z.ltb_spec (start_time ctx + t) (2 ^ 63 * 1000000000)).
  - split; [done|]. intros (d & [= ->] & Hd). lia.
  - split; [|done]. eauto.
Qed.

Lemma chain_tame p m ms w ctx w' ctx' res :
  run_chain p m (member clock wall <$> ms) w ctx = Some (w', ctx', res) → tame ctx (ctx', res).
Proof.
  revert w ctx. induction ms as [|x ms IH]; intros w ctx Hr.
  { simplify_eq/=. by split; [apply framed_refl|]. }
  cbn [fmap list_fmap run_chain] in Hr. destruct (negb _ || negb _); [by eapply IH|].
  destruct (Chain.execute _ w ctx) as [[[w1 ctx1] r]|] eqn:He; [|done]. apply member_tame in He as [Hf Ha].
  cbn in Hr. destruct r; simplify_eq; [|by split..]. apply IH in Hr as [Hf' Ha']. split; [|done]. by eapply framed_trans.
Qed.

Lemma applicable_members p m ms : applicable p m (member clock wall <$> ms) = member clock wall <$> ms.
Proof. unfold applicable. induction ms as [|x ms IH]; [done|]. cbn. rewrite IH. by destruct x. Qed.

Lemma passes_framed ms w ctx w' ctx' : passes (member clock wall <$> ms) w ctx w' ctx' → framed ctx ctx'.
Proof.
  revert w ctx. induction ms as [|x ms IH]; intros w ctx Hp; [inversion Hp; apply framed_refl|].
  inversion Hp as [|? ? ? ? w1 ctx1 ? ? He Hp']; subst. apply member_tame in He as [Hf _].
  eapply framed_trans; [exact Hf|]. by eapply IH.
Qed.

(** The request is aborted: all the members before a timeout pass, whose deadline is beyond. *)
Definition aborted (ms : list PyMiddleware) (w : World) (ctx : MiddlewareContext) : Prop :=
  ∃ ms1 d ms2 w1 ctx1, ms = ms1 ++ PTimeout d :: ms2 ∧
    passes (member clock wall <$> ms1) w ctx w1 ctx1 ∧ beyond ctx d.

Lemma chain_aborted p m ms w ctx : run_chain p m (member clock wall <$> ms) w ctx = None ↔ aborted ms w ctx.
Proof.
  rewrite run_chain_panics, applicable_members. unfold aborted. split.
  - intros (l1 & mw & l2 & w1 & ctx1 & Hl & Hp & Hn).
    apply fmap_app_inv in Hl as (ms1 & ms2 & -> & Hl2 & ->). symmetry in Hl2.
    apply fmap_cons_inv in Hl2 as (x & ms3 & -> & -> & ->).
    apply member_panics in Hn as (d & -> & Hd). exists ms1, d, ms3, w1, ctx1. split_and!; [done|done|].
    unfold beyond in *. by rewrite (fr_start _ _ (passes_framed _ _ _ _ _ Hp)) in Hd.
  - intros (ms1 & d & ms2 & w1 & ctx1 & -> & Hp & Hd). rewrite fmap_app, fmap_cons.
    eexists _, _, _, w1, ctx1. split_and!; [done|done|]. apply member_panics. exists d. split; [done|].
    unfold beyond in *. by rewrite (fr_start _ _ (passes_framed _ _ _ _ _ Hp)).
Qed.

Definition accepted_members (os : list PyObject) : list PyMiddleware :=
  (fix go os := match os with Accepted m :: os' => m :: go os' | _ => [] end) os.

Lemma register_all_chain {R} os (s : Server (RouterT := R) (W := World)) :
  chain_shared s = false →
  ∃ s' r, register_all clock wall os s = Some (s', r) ∧ chain_shared s' = false ∧
    before (rust_middleware s') = before (rust_middleware s) ++ (member clock wall <$> accepted_members os) ∧
    after (rust_middleware s') = after (rust_middleware s) ∧
    error_handlers (rust_middleware s') = error_handlers (rust_middleware s) ∧
    (r = Ok tt ↔ Foreign ∉ os).
Proof.
  revert s. induction os as [|[m|] os IH]; intros s Hs.
  - exists s, (Ok tt). cbn. rewrite app_nil_r. split_and!; try done. split; [|done]. intros _. apply not_elem_of_nil.
  - cbn [register_all accepted_members]. assert (accepted (class_of m) = true) as Ha by (by destruct m).
    unfold use_middleware. rewrite Ha. unfold register_boxed_middleware, edit_chain. rewrite Hs. cbn.
    edestruct IH as (s' & r & Hr & Hs' & Hb & Haf & He & Hok); [|exists s', r; split; [exact Hr|]]; [done|].
    cbn in Hb. split_and!; try done.
    + by rewrite Hb, <-app_assoc.
    + rewrite Hok, not_elem_of_cons. naive_solver.
  - cbn. do 2 eexists. split_and!; [done|done|by rewrite app_nil_r|done|done|]. split; [done|]. set_solver.
Qed.

(** C15: what a program that registers middleware from Python can do to a request.  Registration
    never fails but for an object of another class (then the ones before it stay registered); only
    the before chain grows, so that no after middleware and no error handler ever runs; and whatever
    was registered, in whatever order and with whatever settings, the chain ends with a pass or a
    response (204, 401, 403 or 429) and never with an error, and leaves the request as it came: path,
    method, headers, query, parameters, body, id and start, with response headers only added.  The one
    exception is a panic, which aborts the process: exactly when the request reaches a timeout
    middleware whose deadline, the start of the request plus the timeout, is no instant any more (its
    seconds do not fit an [i64]). *)
Theorem registered_chain_tame {R} (r0 : R) log os w ctx :
  ∃ s r, register_all clock wall os (server_new r0 log) = Some (s, r) ∧ (r = Ok tt ↔ Foreign ∉ os) ∧
    stats (rust_middleware s) = (length (accepted_members os), 0%nat, 0%nat) ∧
    match execute_before (rust_middleware s) w ctx with
    | Some (w', ctx', res) =>
        framed ctx ctx' ∧ answers res ∧
        execute_after (rust_middleware s) w' ctx' = Some (w', ctx', Continue) ∧
        ¬ aborted (accepted_members os) w ctx
    | None => aborted (accepted_members os) w ctx
    end.
Proof.
  destruct (register_all_chain os (server_new r0 log) eq_refl) as (s & r & Hr & _ & Hb & Ha & He & Hok).
  exists s, r. cbn in Hb, Ha, He. split_and!; [done|done| |].
  - unfold stats. by rewrite Hb, Ha, He, length_fmap.
  - rewrite execute_before_runs, Hb.
    pose proof (chain_aborted (Chain.path ctx) (Chain.method ctx) (accepted_members os) w ctx) as Hab.
    destruct (run_chain _ _ _ w ctx) as [[[w' ctx'] res]|] eqn:Hrun; [|by apply Hab].
    apply chain_tame in Hrun as [Hf Hans]. unfold execute_after. rewrite Ha. split_and!; [done..|].
    intros H. by apply Hab in H.
Qed.
End outcomes.
