(* ===== verification/Application.v ===== *)
(** A whole application: the routes and the middleware that a Python program registers
    (src/src/routing/router.rs, src/src/core/server.rs), the handlers that a worker registers from
    them (src/src/core/worker.rs, src/src/core/interpreter.rs), and what the worker then does with
    each request, its health probes included, as a specification that [Worker.dispatch] refines. *)
From S2P Require Import Prelude F64 Log Method Routing Multipart Request Chain Builtin RateLimit BasicAuth Circuit Reload Response Supervisor Members Worker.
From stdpp Require Import base gmap strings list.
Open Scope Z_scope.

Section application.
Context `{RS : RustStr} `{XH : XXH3} `{FU : FormUrlencoded} `{PD : PercentDecode} `{U8 : Utf8}.
Context `{MI : MatchIt} `{HT : Http} `{NT : Notify} `{AX : AxumRoutes} `{HI : !HashIter string string}.
Context {World : Type} `{HLm : !Holds Limits World} `{HLg : !Holds Logger World}.

(** The clock, [iscoroutinefunction] of a handler, and what calling it does. *)
Variable clock : World → Z * Z.
Variable wall : World → f64.
Variable is_coroutine : Z → bool.
Variable call : Z → bool → Request.Request → World → ResponseSlot → World * ResponseSlot.

Notation ServerObject := (Supervisor.Server (RouterT := Routing.Router) (W := World)).

(** * Start-up *)

(** [start] collects the handlers of the router's list before it forks. *)
Definition collect_handlers (rt : Routing.Router) : list (Z * Z) :=
  (λ r, (Routing.handler_hash r, function r)) <$> routes rt.

(** [run_worker] registers them one after another. *)
Definition register_handlers (hs : list (Z * Z)) : gmap Z (Z * bool) :=
  foldl (λ g hf, register_handler is_coroutine hf.1 hf.2 g) ∅ hs.

Definition worker_handlers (s : ServerObject) : @Handlers World :=
  mkHandlers (register_handlers (collect_handlers (Supervisor.router s))) call.
Definition worker_state (s : ServerObject) (rm : ReloadManager) : AppState :=
  mkAppState (Supervisor.router s) (rust_middleware s) rm.

(** A program: the routes of its router, in order, and its middleware objects. *)
Definition program (base : string) (rs : list Route) (os : list PyObject) (c : Log.LogConfig)
    : option (ServerObject * result string unit) :=
  register_all clock wall os (set_router (extend_route (router_new base) rs) (server_new (router_new "") c)).

(** * Registration *)

(** Handlers are kept by the hash of their route alone: routes whose hashes collide must share
    their handler. *)
Definition unambiguous (rs : list Route) : Prop :=
  ∀ r r', r ∈ rs → r' ∈ rs → Routing.handler_hash r = Routing.handler_hash r' → function r = function r'.

Lemma registered (rt : Routing.Router) r :
  unambiguous (routes rt) → r ∈ routes rt →
  register_handlers (collect_handlers rt) !! Routing.handler_hash r = Some (function r, is_coroutine (function r)).
Proof.
  unfold register_handlers, collect_handlers. induction (routes rt) as [|x l IH] using rev_ind; intros Hu Hr; [set_solver|].
  rewrite fmap_app, foldl_app. cbn [fmap list_fmap foldl]. unfold register_handler at 1. cbn [fst snd].
  destruct (decide (Routing.handler_hash x = Routing.handler_hash r)) as [He|Hne].
  - rewrite He, lookup_insert_eq. do 2 f_equal; [|f_equal]; (apply Hu; [set_solver|done|done]).
  - rewrite lookup_insert_ne by done. apply elem_of_app in Hr as [Hr|Hr].
    + apply IH; [|done]. intros a b Ha Hb. apply Hu; set_solver.
    + apply list_elem_of_singleton in Hr. congruence.
Qed.

(** * The specification of a request *)

(** The worker's before middleware on a request that was just logged. *)
Definition checked (st : @AppState MI NT World) (t : Instant) (req : AxumRequest) (w : World)
    : option (World * MiddlewareContext * MiddlewareResult) :=
  execute_before (middleware st) (log_received t req w) (mw_context t (Request.from_axum req)).

Definition route_of (st : @AppState MI NT World) (req : AxumRequest) : option (Route * gmap string string) :=
  find_matching_route (router st) (Request.path (Request.from_axum req)) (py_method (Request.from_axum req)).

(** What a worker does with a request: the world it leaves and the response it sends. *)
Inductive serves (st : AppState) (t : Instant) (secs : string) (req : AxumRequest) (w : World)
    : World → HttpResponse → Prop :=
(** A health probe: the worker's own answer, from the status of its manager; nothing is logged. *)
| V_probe h :
    probe (reload_manager st) (uri_path req) = Some h →
    serves st t secs req w w (get_only (method_token req) (h secs (reload_manager st)))
(** The worker drains: the request is refused and not logged. *)
| V_draining :
    probe (reload_manager st) (uri_path req) = None → is_draining (reload_manager st) = true →
    serves st t secs req w w draining_response
(** A middleware answers, with one of four statuses. *)
| V_refused w1 ctx1 r :
    probe (reload_manager st) (uri_path req) = None → is_draining (reload_manager st) = false →
    checked st t req w = Some (w1, ctx1, Response r) → Chain.status r ∈ [204; 401; 403; 429] →
    serves st t secs req w (log_answered t req (h_status (middleware_response_to_hyper r)) w1) (middleware_response_to_hyper r)
(** All middleware passes and no route matches. *)
| V_not_found w1 ctx1 :
    probe (reload_manager st) (uri_path req) = None → is_draining (reload_manager st) = false →
    checked st t req w = Some (w1, ctx1, Continue) → route_of st req = None →
    serves st t secs req w (log_answered t req 404 w1) response_404
(** All middleware passes and the handler of the matching route runs, once, on the request that came
    and its path parameters; its response goes out with the headers of the middleware. *)
| V_handled w1 ctx1 route params w2 s :
    probe (reload_manager st) (uri_path req) = None → is_draining (reload_manager st) = false →
    checked st t req w = Some (w1, ctx1, Continue) → route_of st req = Some (route, params) →
    route ∈ routes (router st) →
    call (function route) (is_coroutine (function route)) (set_path_params params (Request.from_axum req)) w1 slot_new
      = (w2, s) →
    serves st t secs req w (log_answered t req (h_status (into_response s)) w2)
      (with_headers (response_headers ctx1) (into_response s)).

(** The headers of a middleware's response can be sent. *)
Definition sendable (r : MiddlewareResponse) : Prop :=
  Forall (λ kv : string * string, is_Some (header_name kv.1) ∧ header_value_ok kv.2 = true) (resp_headers r).

Lemma refusal_on_wire r :
  Chain.status r ∈ [204; 401; 403; 429] →
  let res := middleware_response_to_hyper r in
  (sendable r → h_status res = Chain.status r ∧ h_body res = Buffered (resp_body r)) ∧
  (¬ sendable r → res = mkHttpResponse 500 [] (Buffered "Internal Server Error")).
Proof.
  intros Hst. cbv zeta. assert (is_Some (status_code (Chain.status r))) as Hc.
  { rewrite !elem_of_cons, elem_of_nil in Hst. destruct Hst as [->|[->|[->|[->|[]]]]]; eexists; reflexivity. }
  destruct (middleware_response_cases r) as (_ & _ & [(_ & Hs & H1 & H2 & _)|[H1 H2]]); unfold sendable; split; try done.
  intros H. by destruct H2.
Qed.

(** Counting a request and completing it leave the manager as it was. *)
Lemma counted_completed (rm : ReloadManager) :
  is_draining rm = false → is_u64 (in_flight (health rm)) →
  on_request_complete (set_health (increment_in_flight (health rm)).1 rm) = rm.
Proof.
  intros Hd Hu. destruct rm as [c [sc n st cs] sg dr dc]. cbn in Hd, Hu. subst dr.
  assert (w64 (w64 (n + 1) - 1) = n) as Hn.
  { unfold is_u64, u64_max, w64 in *. rewrite Zminus_mod_idemp_l, Z.add_simpl_r. apply Z.mod_small. lia. }
  unfold on_request_complete, complete_decrement, complete_notify, set_health. cbn. by rewrite Hn.
Qed.

Lemma with_headers_status l r : h_status (with_headers l r) = h_status r.
Proof. by destruct l. Qed.

Lemma empty_before_runs (c : @MiddlewareChain World) w ctx :
  is_empty_before c = true → execute_before c w ctx = Some (w, ctx, Continue).
Proof. unfold is_empty_before, execute_before. by destruct (before c). Qed.

(** The request past the middleware, for a chain without after middleware. *)
Lemma inner_continue st hs t req w w1 ctx1 :
  after (middleware st) = [] →
  execute_before (middleware st) w (mw_context t (Request.from_axum req)) = Some (w1, ctx1, Continue) →
  handle_request_inner st hs t req w =
    match route_of st req with
    | Some (route, params) =>
        let '(w2, res) := http_execute hs t (Routing.handler_hash route) (set_path_params params (Request.from_axum req)) w1 in
        Some (w2, with_headers (response_headers ctx1) res)
    | None => Some (w1, response_404)
    end.
Proof.
  intros Ha He. unfold handle_request_inner, route_of. destruct (is_empty_before (middleware st)) eqn:Hb.
  - rewrite empty_before_runs in He by done. simplify_eq. cbn [negb].
    destruct (find_matching_route _ _ _) as [[route params]|]; [|done]. by destruct (http_execute _ _ _ _ _).
  - cbn [negb]. rewrite He. cbn [mbind option_bind]. unfold routed.
    destruct (find_matching_route _ _ _) as [[route params]|]; [|done].
    destruct (http_execute _ _ _ _ _) as [w2 res]. unfold is_empty_after. by rewrite Ha.
Qed.

Lemma register_all_router os (s s' : ServerObject) r :
  register_all clock wall os s = Some (s', r) → Supervisor.router s' = Supervisor.router s.
Proof.
  revert s. induction os as [|[m|] os IH]; intros s Hs; [by simplify_eq/=| |by simplify_eq/=].
  cbn [register_all] in Hs. unfold use_middleware in Hs. destruct (accepted (class_of m)); [|by apply IH in Hs].
  unfold register_boxed_middleware, edit_chain in Hs. destruct (chain_shared s); [done|]. cbn in Hs. by apply IH in Hs.
Qed.

(** What [program] leaves in the server. *)
Record configured (s : ServerObject) (base : string) (rs : list Route) (ms : list PyMiddleware) : Prop := {
  c_router : Supervisor.router s = extend_route (router_new base) rs;
  c_before : before (rust_middleware s) = member clock wall <$> ms;
  c_after : after (rust_middleware s) = []
}.

Lemma program_configured base rs os c :
  ∃ s r, program base rs os c = Some (s, r) ∧ (r = Ok tt ↔ Foreign ∉ os) ∧ configured s base rs (accepted_members os).
Proof.
  unfold program. set (s0 := set_router _ _).
  destruct (register_all_chain clock wall os s0 eq_refl) as (s & r & Hr & _ & Hb & Ha & _ & Hok).
  exists s, r. split_and!; [done|done|]. split; [|exact Hb|exact Ha]. by rewrite (register_all_router _ _ _ _ Hr).
Qed.

(** What the middleware of a program makes of a request. *)
Lemma configured_checked s base rs ms rm t req w :
  configured s base rs ms →
  match checked (worker_state s rm) t req w with
  | Some (_, _, res) => answers res
  | None => aborted clock wall ms (log_received t req w) (mw_context t (Request.from_axum req))
  end.
Proof.
  intros [_ Hb _]. unfold checked. rewrite execute_before_runs. cbn [middleware worker_state]. rewrite Hb.
  destruct (run_chain _ _ _ _ _) as [[[w1 ctx1] res]|] eqn:Hr; [|by eapply chain_aborted].
  by apply chain_tame in Hr as [_ H].
Qed.

Lemma aborted_checked s base rs ms rm t req w :
  configured s base rs ms → aborted clock wall ms (log_received t req w) (mw_context t (Request.from_axum req)) →
  checked (worker_state s rm) t req w = None.
Proof.
  intros [_ Hb _] Hab. unfold checked. rewrite execute_before_runs. cbn [middleware worker_state]. rewrite Hb.
  by apply chain_aborted.
Qed.

Lemma configured_listed s base rs ms : configured s base rs ms → listed (Supervisor.router s).
Proof. intros [-> _ _]. apply listed_extend, listed_new. Qed.

(** * The worker meets the specification *)

(** The request reaches the middleware and is aborted there. *)
Definition aborts (ms : list PyMiddleware) (rm : ReloadManager) (t : Instant) (req : AxumRequest) (w : World) : Prop :=
  probe rm (uri_path req) = None ∧ is_draining rm = false ∧
  aborted clock wall ms (log_received t req w) (mw_context t (Request.from_axum req)).

Lemma serves_total s base rs ms rm t secs req w :
  configured s base rs ms → (∃ w' res, serves (worker_state s rm) t secs req w w' res) ∨ aborts ms rm t req w.
Proof.
  intros Hc. destruct (probe rm (uri_path req)) as [h|] eqn:Hp; [left; by do 2 eexists; eapply V_probe|].
  destruct (is_draining rm) eqn:Hd; [left; by do 2 eexists; apply V_draining|].
  pose proof (configured_checked s base rs ms rm t req w Hc) as Ha.
  destruct (checked _ _ _ _) as [[[w1 ctx1] [|r|e]]|] eqn:He; [|left; by do 2 eexists; eapply V_refused|done|by right].
  left. destruct (route_of (worker_state s rm) req) as [[route params]|] eqn:Hf; [|by do 2 eexists; eapply V_not_found].
  destruct (call (function route) (is_coroutine (function route)) (set_path_params params (Request.from_axum req)) w1 slot_new)
    as [w2 sl] eqn:Hcall.
  do 2 eexists. eapply V_handled; try done. eapply dispatched_listed; [|done]. by eapply configured_listed.
Qed.

Lemma serves_run s base rs ms rm t secs req w w' res :
  configured s base rs ms → unambiguous (routes (Supervisor.router s)) → is_u64 (in_flight (health rm)) →
  serves (worker_state s rm) t secs req w w' res →
  dispatch (worker_state s rm) (worker_handlers s) t secs req w = Some (worker_state s rm, w', res).
Proof.
  intros Hc Hun Hu Hs. unfold dispatch, handle_request. cbn [reload_manager worker_state].
  inversion Hs as [h Hp|Hp Hd|w1 ctx1 r Hp Hd He Hst|w1 ctx1 Hp Hd He Hf|w1 ctx1 route params w2 sl Hp Hd He Hf Hr Hcall]; subst;
    cbn [reload_manager worker_state] in Hp; rewrite Hp; [done|..];
    cbn [reload_manager worker_state] in Hd; rewrite Hd; [done|..];
    (set (m := set_health (increment_in_flight (health rm)).1 rm));
    (assert (set_manager (on_request_complete m) (worker_state s rm) = worker_state s rm) as Hm
      by (unfold m; by rewrite counted_completed)); unfold checked in He.
  - assert (is_empty_before (rust_middleware s) = false) as Hne.
    { destruct (is_empty_before (rust_middleware s)) eqn:E; [|done]. by rewrite (empty_before_runs (rust_middleware s)) in He. }
    unfold handle_request_inner. cbn [set_manager middleware worker_state] in *. rewrite Hne. cbn [negb]. rewrite He.
    cbn [mbind option_bind]. by rewrite Hm.
  - erewrite inner_continue; [|apply (c_after _ _ _ _ Hc)|exact He]. change (route_of (set_manager _ _) req) with (route_of (worker_state s rm) req).
    rewrite Hf. cbn [mbind option_bind]. by rewrite Hm.
  - erewrite inner_continue; [|apply (c_after _ _ _ _ Hc)|exact He]. change (route_of (set_manager _ _) req) with (route_of (worker_state s rm) req).
    rewrite Hf. unfold http_execute, get_handler, worker_handlers. cbn [registry Worker.call].
    rewrite registered by done. rewrite Hcall. cbn [mbind option_bind]. by rewrite Hm, with_headers_status.
Qed.

Lemma aborts_run s base rs ms rm t secs req w :
  configured s base rs ms → aborts ms rm t req w →
  dispatch (worker_state s rm) (worker_handlers s) t secs req w = None.
Proof.
  intros Hc (Hp & Hd & Hab). unfold dispatch, handle_request. cbn [reload_manager worker_state]. rewrite Hp, Hd.
  apply (aborted_checked s base rs ms rm t req w Hc) in Hab. unfold checked in Hab.
  assert (is_empty_before (rust_middleware s) = false) as Hne.
  { destruct (is_empty_before (rust_middleware s)) eqn:E; [|done]. by rewrite (empty_before_runs (rust_middleware s)) in Hab. }
  unfold handle_request_inner. cbn [set_manager middleware worker_state] in *. rewrite Hne. cbn [negb]. by rewrite Hab.
Qed.

(** C1: what a program's application does with a request.  Whatever routes and middleware a
    Python program registers: as long as routes with one hash share one handler, a worker handles
    each request exactly as specified: a health probe gets the worker's own answer; any other request
    is refused with a 503 while it drains; answered by a middleware with a 204, 401, 403 or 429 (which
    goes out as it is if its headers can be sent, and as a bare 500 otherwise); a 404 without a route;
    or the handler of the matching route, one of the program's, called once with the request as it came
    and the path parameters.  No other answer is possible (no error of the chain, no missing handler),
    the access log is called once before and once after with the status that is sent, and the count of
    requests is back where it was.  There is no answer, and the process is aborted, exactly when the
    request reaches a timeout middleware whose deadline is beyond the last instant. *)
Theorem application_serves base rs os c :
  ∃ s r, program base rs os c = Some (s, r) ∧ (r = Ok tt ↔ Foreign ∉ os) ∧
    (∀ x, Chain.status x ∈ [204; 401; 403; 429] →
       let res := middleware_response_to_hyper x in
       (sendable x → h_status res = Chain.status x ∧ h_body res = Buffered (resp_body x)) ∧
       (¬ sendable x → res = mkHttpResponse 500 [] (Buffered "Internal Server Error"))) ∧
    ∀ rm t secs req w,
      unambiguous (routes (Supervisor.router s)) → is_u64 (in_flight (health rm)) →
      (∀ st' w' res,
         dispatch (worker_state s rm) (worker_handlers s) t secs req w = Some (st', w', res) ↔
         st' = worker_state s rm ∧ serves (worker_state s rm) t secs req w w' res) ∧
      (dispatch (worker_state s rm) (worker_handlers s) t secs req w = None ↔
       aborts (accepted_members os) rm t req w).
Proof.
  destruct (program_configured base rs os c) as (s & r & Hp & Hok & Hc). exists s, r.
  split_and!; [done|done|apply refusal_on_wire|]. intros rm t secs req w Hun Hu.
  pose proof (serves_total s base rs (accepted_members os) rm t secs req w Hc) as Ht.
  pose proof (aborts_run s base rs (accepted_members os) rm t secs req w Hc) as Hn. split.
  - intros st' w' res. split; [|intros [-> Hs]; by eapply serves_run]. intros Hh.
    destruct Ht as [(w2 & res2 & Hs)|Hab]; [|by rewrite Hn in Hh].
    rewrite (serves_run s base rs _ rm t secs req w w2 res2 Hc Hun Hu Hs) in Hh. by simplify_eq.
  - split; [|done]. intros Hh. destruct Ht as [(w2 & res2 & Hs)|Hab]; [|done].
    by rewrite (serves_run s base rs _ rm t secs req w w2 res2 Hc Hun Hu Hs) in Hh.
Qed.
End application.

(** * Witness *)

(** An application with one route, behind CORS and a rate limiter of two requests. *)
Record app_world := mkAppWorld { a_limits : Limits; a_log : Logger; a_calls : list string }.
#[export, refine] Instance app_limits : Holds Limits app_world := {
  held := a_limits;
  hold l w := mkAppWorld l (a_log w) (a_calls w)
}.
Proof. done. Defined.
#[export, refine] Instance app_log : Holds Logger app_world := {
  held := a_log;
  hold g w := mkAppWorld (a_limits w) g (a_calls w)
}.
Proof. done. Defined.

Definition app_clock (w : app_world) : Z * Z := (5, 6).
Definition app_wall (w : app_world) : f64 := f64_of_Z 0.
Definition app_call (f : Z) (is_async : bool) (r : Request.Request) (w : app_world) (s : ResponseSlot)
    : app_world * ResponseSlot :=
  (mkAppWorld (a_limits w) (a_log w) (a_calls w ++ [Request.path r]), text "hello" s).
Definition app_program :=
  program app_clock app_wall "/api" [mkRoute "/users/" 1 "get" None]
    [Accepted (PCors cors_default); Accepted (PRateLimit 0 RateLimit.demo_cfg)] Log.config_default.
Definition app_server : Supervisor.Server (RouterT := Routing.Router) (W := app_world) :=
  match app_program with Some (s, _) => s | None => server_new (router_new "") Log.config_default end.
Definition app_start : app_world := mkAppWorld ∅ (Log.init Log.config_default logger_new) [].
Definition app_manager : ReloadManager := manager_new 0 reload_config_default.
Definition app_serve (p : string) (w : app_world) : option (AppState * app_world * HttpResponse) :=
  dispatch (worker_state app_server app_manager) (worker_handlers (λ _, false) app_call app_server)
    demo_instant "0.00" (demo_axum [] p) w.
Fixpoint app_runs (n : nat) (w : app_world) : option app_world :=
  match n with
  | O => Some w
  | S n' => '(_, w', _) ← app_serve "/api/users/" w; app_runs n' w'
  end.
Definition app_second : app_world := default app_start (app_runs 2 app_start).

(** The same behind a timeout of the largest number of seconds. *)
Definition late_objects : list PyObject := [Accepted (PCors cors_default); Accepted (PTimeout (py_timeout_new u64_max))].
Definition late_program :=
  program app_clock app_wall "/api" [mkRoute "/users/" 1 "get" None] late_objects Log.config_default.
Definition late_server : Supervisor.Server (RouterT := Routing.Router) (W := app_world) :=
  match late_program with Some (s, _) => s | None => server_new (router_new "") Log.config_default end.

Lemma app_unambiguous s :
  routes (Supervisor.router (RouterT := Routing.Router) (W := app_world) s) = [mkRoute "/users/" 1 "get" None] →
  unambiguous (routes (Supervisor.router s)).
Proof.
  intros -> a b Ha Hb _. apply list_elem_of_singleton in Ha as ->. by apply list_elem_of_singleton in Hb as ->.
Qed.

(** The handler runs for two requests, with two entries each in the access log; the third is refused;
    a probe is answered; and the late deadline aborts the first request. *)
Lemma application_serves_witness :
  (∃ w res, serves (λ _, false) app_call (worker_state app_server app_manager) demo_instant "0.00"
     (demo_axum [] "/api/users/") app_second w res ∧
     h_status res = 429 ∧ a_calls w = ["/api/users/"; "/api/users/"] ∧
     (length ∘ queue <$> instances (a_log w)) = [6%nat]) ∧
  (∃ res, serves (λ _, false) app_call (worker_state app_server app_manager) demo_instant "0.00"
     (demo_axum [] "/_health/live") app_start app_start res ∧ h_status res = 200) ∧
  aborts app_clock app_wall (accepted_members late_objects) app_manager demo_instant (demo_axum [] "/api/users/") app_start.
Proof.
  destruct (application_serves app_clock app_wall (λ _, false) app_call "/api" [mkRoute "/users/" 1 "get" None]
    [Accepted (PCors cors_default); Accepted (PRateLimit 0 RateLimit.demo_cfg)] Log.config_default)
    as (s & r & Hp & _ & _ & H).
  assert (s = app_server) as -> by (unfold app_server, app_program; by rewrite Hp).
  assert (is_u64 (in_flight (health app_manager))) as Hu by (unfold is_u64, u64_max; cbn; lia).
  assert (unambiguous (routes (Supervisor.router app_server))) as Hun by (apply app_unambiguous; vm_compute; reflexivity).
  split_and!.
  - assert ((λ r, (h_status r.2, a_calls r.1.2, length ∘ queue <$> instances (a_log r.1.2))) <$>
      app_serve "/api/users/" app_second = Some (429, ["/api/users/"; "/api/users/"], [6%nat])) as Hv
      by (vm_compute; reflexivity).
    destruct (app_serve "/api/users/" app_second) as [[[st w] res]|] eqn:E; [|discriminate].
    destruct (proj1 (proj1 (H app_manager demo_instant "0.00" (demo_axum [] "/api/users/") app_second Hun Hu) st w res) E)
      as [_ Hs].
    exists w, res. split; [exact Hs|]. injection Hv as H1 H2 H3. by split_and!.
  - assert ((λ r, (h_status r.2, r.1.2)) <$> app_serve "/_health/live" app_start = Some (200, app_start)) as Hv
      by (vm_compute; reflexivity).
    destruct (app_serve "/_health/live" app_start) as [[[st w] res]|] eqn:E; [|discriminate]. injection Hv as H1 ->.
    destruct (proj1 (proj1 (H app_manager demo_instant "0.00" (demo_axum [] "/_health/live") app_start Hun Hu) st app_start res) E)
      as [_ Hs].
    exists res. split; [exact Hs|exact H1].
  - destruct (application_serves app_clock app_wall (λ _, false) app_call "/api" [mkRoute "/users/" 1 "get" None]
      late_objects Log.config_default) as (s & r' & Hl & _ & _ & Ha).
    assert (s = late_server) as -> by (unfold late_server, late_program; by rewrite Hl).
    refine (proj1 (proj2 (Ha app_manager demo_instant "0.00" (demo_axum [] "/api/users/") app_start _ Hu)) _);
      [apply app_unambiguous|]; vm_compute; reflexivity.
Defined.
