(* ===== verification/AccessLog.v ===== *)
(** The access log of an application: Application.v's worker over a run of requests together with the
    log queue of Log.v (src/src/core/worker.rs, src/src/logging/mod.rs). *)
From S2P Require Import Prelude F64 Log Method Routing Multipart Request Chain Builtin RateLimit BasicAuth Circuit Reload Response Supervisor Members Worker Application.
From stdpp Require Import base gmap strings list.
Open Scope Z_scope.

(** * The current instance of the logger *)

(** The logger's current instance [i] listens, has the configuration and the capacity, and took and
    holds these entries. *)
Record tracks (i : nat) (c : Log.LogConfig) (cap : nat) (acc q : list LogEntry) (g : Logger) : Prop := {
  tr_current : current g = Some i;
  tr_instance : ∃ s, instances g !! i = Some s ∧ Log.config s = c ∧ Log.capacity s = cap ∧ Log.pc s ≠ Ended ∧
    Log.accepted s = acc ∧ Log.queue s = q
}.

Lemma tracks_entry i c cap acc q g e :
  tracks i c cap acc q g → level_lt (Log.level e) (min_level c) = false → (length q < cap)%nat →
  tracks i c cap (acc ++ [e]) (q ++ [e]) (log_entry e g).
Proof.
  intros [Hc (s & Hs & <- & <- & Hpc & <- & <-)] Hl Hq. unfold log_entry, on_current. rewrite Hc.
  split; [done|]. cbn [instances]. exists (try_log e s). rewrite list_lookup_alter_eq, Hs. cbn [fmap option_fmap option_map]. unfold try_log.
  assert (has_ended (Log.pc s) = false) as -> by (by destruct (Log.pc s)).
  rewrite Hl, (proj2 (Nat.ltb_lt _ _) Hq). by split_and!.
Qed.

Lemma tracks_config i c cap acc q g : tracks i c cap acc q g → current_config g = Some c.
Proof. intros [Hc (s & Hs & <- & _)]. unfold current_config. rewrite Hc. simpl. by rewrite Hs. Qed.

(** The configuration logs requests and responses, and not less than information. *)
Definition logs_requests (c : Log.LogConfig) : Prop :=
  log_request_on c = true ∧ log_response_on c = true ∧ level_lt Log.Info (min_level c) = false.

Lemma tracks_request i c cap acc q g now m p :
  tracks i c cap acc q g → logs_requests c → should_skip_path p c = false → (length q < cap)%nat →
  tracks i c cap (acc ++ [entry_request now m p None]) (q ++ [entry_request now m p None]) (log_request now m p None g).
Proof.
  intros Ht (H1 & _ & Hl) Hp Hq. unfold log_request. rewrite (tracks_config _ _ _ _ _ _ Ht), H1, Hp. by apply tracks_entry.
Qed.

Lemma tracks_response i c cap acc q g now m p st d :
  tracks i c cap acc q g → logs_requests c → should_skip_path p c = false → (length q < cap)%nat →
  tracks i c cap (acc ++ [entry_response now m p st d None]) (q ++ [entry_response now m p st d None])
    (log_response now m p st d None g).
Proof.
  intros Ht (_ & H1 & Hl) Hp Hq. unfold log_response. rewrite (tracks_config _ _ _ _ _ _ Ht), H1, Hp. by apply tracks_entry.
Qed.

Lemma app_two {A} (l : list A) x y : l ++ [x; y] = (l ++ [x]) ++ [y].
Proof. by rewrite <-(assoc_L (++)). Qed.

Section accesslog.
Context `{RS : RustStr} `{XH : XXH3} `{FU : FormUrlencoded} `{PD : PercentDecode} `{U8 : Utf8}.
Context `{MI : MatchIt} `{HT : Http} `{NT : Notify} `{AX : AxumRoutes} `{HI : !HashIter string string}.
Context {World : Type} `{HLm : !Holds Limits World} `{HLg : !Holds Logger World}.
Variable clock : World → Z * Z.
Variable wall : World → f64.
Variable is_coroutine : Z → bool.
Variable call : Z → bool → Request.Request → World → ResponseSlot → World * ResponseSlot.

(** * Who logs *)

(** The log queue of a world; the limiters and the handlers do not write to it, nor does middleware
    other than the request logger. *)
Definition log_of (w : World) : Logger := held w.
Definition quiet_limits : Prop := ∀ (l : Limits) (w : World), log_of (hold l w) = log_of w.
Definition quiet_handlers : Prop := ∀ f a r w s, log_of (call f a r w s).1 = log_of w.
Definition quiet (m : PyMiddleware) : Prop := match m with PLog _ => False | _ => True end.

Lemma quiet_member m w ctx w' ctx' res :
  quiet_limits → quiet m → Chain.execute (member clock wall m) w ctx = Some (w', ctx', res) → log_of w' = log_of w.
Proof.
  intros Hl Hm. destruct m as [c|id c|c|t|c|c|c|a]; cbn [member everywhere Chain.execute]; unfold stateless; [..|done|].
  - destruct (cors_execute c ctx). by intros; simplify_eq.
  - unfold limited_execute. destruct (RateLimit.execute _ _ _ _ _) as [[cl c1] r1]. intros; simplify_eq. apply Hl.
  - destruct (security_execute c ctx). by intros; simplify_eq.
  - unfold deadline_execute. destruct (timeout_execute _ _ _) as [[]|]; [|done]. by intros; simplify_eq/=.
  - destruct (compression_execute c ctx). by intros; simplify_eq.
  - destruct (request_id_execute c ctx). by intros; simplify_eq.
  - destruct (BasicAuth.execute a ctx). by intros; simplify_eq.
Qed.

Lemma quiet_chain p m ms w ctx w' ctx' res :
  quiet_limits → Forall quiet ms → run_chain p m (member clock wall <$> ms) w ctx = Some (w', ctx', res) →
  log_of w' = log_of w.
Proof.
  intros Hl Hms. revert w ctx. induction Hms as [|x ms Hx Hms IH]; intros w ctx Hr; [by simplify_eq/=|].
  cbn [fmap list_fmap run_chain] in Hr. destruct (negb _ || negb _); [by eapply IH|].
  destruct (Chain.execute _ w ctx) as [[[w1 ctx1] r]|] eqn:He; [|done]. apply quiet_member in He; [|done..].
  cbn in Hr. destruct r; simplify_eq; [|done..]. by etrans; [eapply IH|].
Qed.

(** * A run *)

(** One request after another; the statuses sent.  There are none if the process is aborted. *)
Fixpoint serve_all (st : AppState) (hs : @Handlers World) (secs : string) (reqs : list (Instant * AxumRequest)) (w : World)
    : option (World * list Z) :=
  match reqs with
  | [] => Some (w, [])
  | (t, req) :: reqs' =>
      '(st', w', res) ← dispatch st hs t secs req w;
      '(w'', ss) ← serve_all st' hs secs reqs' w'; Some (w'', h_status res :: ss)
  end.

(** The entries of a run: for each request that is not for a probe its arrival and the status it got. *)
Fixpoint access_entries (rm : ReloadManager) (reqs : list (Instant * AxumRequest)) (ss : list Z) : list LogEntry :=
  match reqs, ss with
  | (t, req) :: reqs', st :: ss' =>
      match probe rm (uri_path req) with
      | Some _ => []
      | None =>
          [entry_request (received t) (method_token req) (uri_path req) None;
           entry_response (answered t) (method_token req) (uri_path req) st
             (f64_mul (as_secs_f64 (took t)) (f64_of_Z 1000)) None]
      end ++ access_entries rm reqs' ss'
  | _, _ => []
  end.

(** No deadline of a request is beyond the last instant. *)
Definition in_time (ms : list PyMiddleware) (t : Instant) : Prop :=
  ∀ d, PTimeout d ∈ ms → now t + d < 2 ^ 63 * 1000000000.

(** What a request that is specified so leaves in the log. *)
Lemma serves_log s base rs ms rm t secs req w w' res :
  configured clock wall s base rs ms → quiet_limits → quiet_handlers → Forall quiet ms → is_draining rm = false →
  probe rm (uri_path req) = None →
  serves is_coroutine call (worker_state s rm) t secs req w w' res →
  ∃ w1, log_of w1 = log_of (log_received t req w) ∧ w' = log_answered t req (h_status res) w1.
Proof.
  intros Hc Hl Hh Hms Hnd Hnp Hs.
  assert (∀ w1 ctx1 r, checked (worker_state s rm) t req w = Some (w1, ctx1, r) →
    log_of w1 = log_of (log_received t req w)) as Hb.
  { intros w1 ctx1 r. unfold checked. rewrite execute_before_runs. cbn [middleware worker_state].
    rewrite (c_before _ _ _ _ _ _ Hc). by apply quiet_chain. }
  inversion Hs as [h Hp|Hp Hd|w1 ctx1 r Hp Hd He Hst|w1 ctx1 Hp Hd He Hf|w1 ctx1 route params w2 sl Hp Hd He Hf Hr Hcall];
    subst; cbn [reload_manager worker_state] in *; [congruence|congruence|..].
  - exists w1. split; [by eapply Hb|done].
  - exists w1. split; [by eapply Hb|done].
  - exists w2. split; [|by rewrite with_headers_status]. rewrite <-(Hb _ _ _ He).
    pose proof (Hh (function route) (is_coroutine (function route)) (set_path_params params (Request.from_axum req)) w1 slot_new) as Hq.
    by rewrite Hcall in Hq.
Qed.

(** A request that is in time is answered. *)
Lemma served_in_time s base rs ms rm t secs req w :
  configured clock wall s base rs ms → in_time ms t →
  ∃ w' res, serves is_coroutine call (worker_state s rm) t secs req w w' res.
Proof.
  intros Hc Ht. destruct (serves_total clock wall is_coroutine call s base rs ms rm t secs req w Hc)
    as [?|(_ & _ & ms1 & d & ms2 & w1 & ctx1 & -> & _ & Hd)]; [done|].
  exfalso. specialize (Ht d ltac:(set_solver)). unfold beyond in Hd. cbn in Hd. lia.
Qed.

Lemma log_of_logging f w : log_of (logging f w) = f (log_of w).
Proof. apply held_hold. Qed.

Lemma request_tracked s base rs ms rm i c cap acc q t secs req w :
  configured clock wall s base rs ms → quiet_limits → quiet_handlers → Forall quiet ms → is_draining rm = false →
  unambiguous (routes (Supervisor.router s)) → is_u64 (in_flight (health rm)) → in_time ms t →
  logs_requests c → (probe rm (uri_path req) = None → should_skip_path (uri_path req) c = false) →
  (length q + 2 <= cap)%nat → tracks i c cap acc q (log_of w) →
  ∃ w' res, dispatch (worker_state s rm) (worker_handlers is_coroutine call s) t secs req w = Some (worker_state s rm, w', res) ∧
    tracks i c cap (acc ++ access_entries rm [(t, req)] [h_status res]) (q ++ access_entries rm [(t, req)] [h_status res]) (log_of w').
Proof.
  intros Hc Hl Hh Hms Hd Hun Hu Hin Hlr Hp Hq Ht.
  destruct (served_in_time s base rs ms rm t secs req w Hc Hin) as (w' & res & Hs).
  exists w', res. split; [by eapply serves_run|]. cbn [access_entries].
  destruct (probe rm (uri_path req)) as [h|] eqn:Hpr.
  { rewrite !app_nil_r. inversion Hs; cbn [reload_manager worker_state] in *; subst; congruence. }
  destruct (serves_log s base rs ms rm t secs req w w' res Hc Hl Hh Hms Hd Hpr Hs) as (w1 & Hw1 & ->).
  unfold log_answered, log_received in *. rewrite log_of_logging in *. rewrite Hw1.
  rewrite app_nil_r, !app_two. specialize (Hp eq_refl).
  apply tracks_response; [by apply tracks_request; try lia|done|done|rewrite length_app; simpl; lia].
Qed.

Lemma access_entries_length rm reqs ss : (length (access_entries rm reqs ss) <= 2 * length reqs)%nat.
Proof.
  revert ss. induction reqs as [|[t req] reqs IH]; intros [|st ss]; cbn [access_entries length]; try lia.
  rewrite length_app. specialize (IH ss). destruct (probe _ _); cbn [length]; lia.
Qed.

(** C12: the access log of an application is complete.  Let a program have no logging middleware and
    handlers that do not log, the worker not drain, and every deadline of its timeouts be an instant.
    If logging is configured with requests and responses, at a level that shows information, skips the
    path of no request (of a probe it may), and the queue has room for two entries of each, then every
    request of a run is answered, and the queue takes exactly two entries for each request, in order:
    its arrival, and the status of the response that was sent for it, whoever sent it (a middleware, a
    handler, or the server for an unknown path); and none for the worker's own health probes. *)
Theorem access_log base rs os c0 i c cap acc q rm secs reqs w :
  quiet_limits → quiet_handlers → Forall quiet (accepted_members os) → is_draining rm = false → is_u64 (in_flight (health rm)) →
  logs_requests c →
  Forall (λ r, in_time (accepted_members os) r.1 ∧
               (probe rm (uri_path r.2) = None → should_skip_path (uri_path r.2) c = false)) reqs →
  (length q + 2 * length reqs <= cap)%nat → tracks i c cap acc q (log_of w) →
  ∃ s r, program clock wall base rs os c0 = Some (s, r) ∧
    (unambiguous (routes (Supervisor.router s)) →
     ∃ w' ss, serve_all (worker_state s rm) (worker_handlers is_coroutine call s) secs reqs w = Some (w', ss) ∧
       length ss = length reqs ∧
       tracks i c cap (acc ++ access_entries rm reqs ss) (q ++ access_entries rm reqs ss) (log_of w')).
Proof.
  intros Hl Hh Hms Hd Hu Hlr Hskip Hq Ht. destruct (program_configured clock wall base rs os c0) as (s & r & Hp & _ & Hc).
  exists s, r. split; [exact Hp|]. intros Hun. clear Hp. revert acc q w Hq Ht.
  induction Hskip as [|[t req] reqs [Hin Hs] _ IH]; intros acc q w Hq Ht; cbn [serve_all length] in *.
  { exists w, []. by rewrite !app_nil_r. }
  destruct (request_tracked s base rs _ rm i c cap acc q t secs req w Hc Hl Hh Hms Hd Hun Hu Hin Hlr Hs ltac:(lia) Ht)
    as (w1 & res & Hr & Ht1). rewrite Hr. cbn [mbind option_bind].
  assert (length (q ++ access_entries rm [(t, req)] [h_status res]) + 2 * length reqs <= cap)%nat as Hq1.
  { rewrite length_app. pose proof (access_entries_length rm [(t, req)] [h_status res]). cbn [length] in *. lia. }
  destruct (IH _ _ w1 Hq1 Ht1) as (w2 & ss & -> & Hlen & Htr). exists w2, (h_status res :: ss).
  split_and!; [done|cbn; by f_equal|]. cbn [access_entries] in *.
  by rewrite app_nil_r, <-!(assoc_L (++)) in Htr.
Qed.
End accesslog.

(** * Witness *)

(** Application.v's server over four requests: one for a probe, two that are answered by the handler, and
    one that is refused. *)
Definition log_requests : list (Instant * AxumRequest) :=
  (demo_instant, demo_axum [] "/_health") :: replicate 3 (demo_instant, demo_axum [] "/api/users/").
Definition log_config : Log.LogConfig := Log.mkLogConfig Log.Info true true 10 ["/_health"].
Definition log_start : app_world := mkAppWorld ∅ (Log.init log_config logger_new) [].

Definition log_run : option (app_world * list Z) :=
  serve_all (worker_state app_server app_manager) (worker_handlers (λ _, false) app_call app_server) "0.00" log_requests log_start.

Lemma access_log_witness :
  ∃ w ss, log_run = Some (w, ss) ∧ ss = [200; 200; 200; 429] ∧ length (access_entries app_manager log_requests ss) = 6%nat ∧
  tracks 0 log_config 10 (access_entries app_manager log_requests ss) (access_entries app_manager log_requests ss) (log_of w).
Proof.
  destruct (access_log app_clock app_wall (λ _, false) app_call "/api" [mkRoute "/users/" 1 "get" None]
    [Accepted (PCors cors_default); Accepted (PRateLimit 0 RateLimit.demo_cfg)] Log.config_default
    0 log_config 10 [] [] app_manager "0.00" log_requests log_start) as (s & r & Hp & H).
  - done.
  - done.
  - by repeat constructor.
  - done.
  - unfold is_u64, u64_max. cbn. lia.
  - done.
  - assert (∀ t, in_time (accepted_members [Accepted (PCors cors_default); Accepted (PRateLimit 0 RateLimit.demo_cfg)]) t) as Hin
      by (intros t d; cbn; rewrite !elem_of_cons, elem_of_nil; naive_solver).
    by repeat first [apply Forall_nil_2 | apply Forall_cons_2; [split; [apply Hin|]|]].
  - cbn. lia.
  - split; [done|]. eexists. split; [reflexivity|]. by split_and!.
  - assert (s = app_server) as -> by (unfold app_server, app_program; by rewrite Hp).
    assert (unambiguous (routes (Supervisor.router app_server))) as Hun by (apply app_unambiguous; vm_compute; reflexivity).
    destruct (H Hun) as (w' & ss & Hr & _ & Ht). exists w', ss. split; [exact Hr|].
    assert (snd <$> log_run = Some [200; 200; 200; 429]) as Hss by (vm_compute; reflexivity).
    unfold log_run in Hss. rewrite Hr in Hss. injection Hss as ->. split_and!; [done|vm_compute; reflexivity|exact Ht].
Defined.
