(* ===== verification/Pools.v ===== *)
(** Object pools and the allocation counters (src/src/memory/pool.rs and src/src/memory/arena.rs), and
    their global instances (src/src/core/global.rs). *)
From S2P Require Import Prelude.
From stdpp Require Import base strings list.
Open Scope Z_scope.

(** * Object pools *)

Section pool.
Context {T : Type}.

(** The vector is a stack with its top at the end. *)
Record ObjectPool := mkPool { pool : list T; max_size : Z; create_fn : T }.

Definition pool_new (n : Z) (create : T) : ObjectPool := mkPool [] n create.

Definition get (p : ObjectPool) : ObjectPool * T :=
  match last (pool p) with
  | Some x => (mkPool (take (length (pool p) - 1) (pool p)) (max_size p) (create_fn p), x)
  | None => (p, create_fn p)
  end.

Definition size (p : ObjectPool) : Z := Z.of_nat (length (pool p)).

Definition put (x : T) (p : ObjectPool) : ObjectPool :=
  if size p <? max_size p then mkPool (pool p ++ [x]) (max_size p) (create_fn p) else p.

(** The subtraction wraps. *)
Definition warm (count : Z) (p : ObjectPool) : ObjectPool :=
  mkPool (pool p ++ replicate (Z.to_nat (Z.min count (w64 (max_size p - size p)))) (create_fn p)) (max_size p) (create_fn p).
End pool.
Arguments ObjectPool : clear implicits.

(** A buffer: its contents and its capacity, which [clear] keeps. *)
Record buffer := mkBuffer { contents : string; capacity : Z }.
Definition clear (b : buffer) : buffer := mkBuffer "" (capacity b).

Definition RequestPool : Type := ObjectPool buffer.
Definition request_pool_new (n buffer_capacity : Z) : RequestPool := pool_new n (mkBuffer "" buffer_capacity).
Definition request_pool_default : RequestPool := request_pool_new 1024 8192.
Definition get_buffer (p : RequestPool) : RequestPool * buffer := let '(p', b) := get p in (p', clear b).
Definition return_buffer (b : buffer) (p : RequestPool) : RequestPool := put b p.

(** Header buffers: the pairs and the capacity. *)
Record header_buffer := mkHeaderBuffer { pairs : list (string * string); h_capacity : Z }.
Definition clear_headers (b : header_buffer) : header_buffer := mkHeaderBuffer [] (h_capacity b).

Record ResponsePool := mkResponsePool { buffers : ObjectPool buffer; header_buffers : ObjectPool header_buffer }.
Definition response_pool_new (n buffer_capacity : Z) : ResponsePool :=
  mkResponsePool (pool_new n (mkBuffer "" buffer_capacity)) (pool_new n (mkHeaderBuffer [] 16)).
Definition response_pool_default : ResponsePool := response_pool_new 1024 4096.
Definition get_body_buffer (p : ResponsePool) : ResponsePool * buffer :=
  let '(bs, b) := get (buffers p) in (mkResponsePool bs (header_buffers p), clear b).
Definition return_body_buffer (b : buffer) (p : ResponsePool) : ResponsePool :=
  mkResponsePool (put b (buffers p)) (header_buffers p).
Definition get_header_buffer (p : ResponsePool) : ResponsePool * header_buffer :=
  let '(hs, b) := get (header_buffers p) in (mkResponsePool (buffers p) hs, clear_headers b).
Definition return_header_buffer (b : header_buffer) (p : ResponsePool) : ResponsePool :=
  mkResponsePool (buffers p) (put b (header_buffers p)).

(** * The globals: set once, by the first to ask *)

Record Globals := mkGlobals { REQUEST_POOL : option RequestPool; RESPONSE_POOL : option ResponsePool }.

Definition get_request_pool (g : Globals) : Globals * RequestPool :=
  match REQUEST_POOL g with
  | Some p => (g, p)
  | None => let p := warm 256 (request_pool_new 2048 16384) in (mkGlobals (Some p) (RESPONSE_POOL g), p)
  end.
Definition warm_response (n : Z) (p : ResponsePool) : ResponsePool :=
  mkResponsePool (warm n (buffers p)) (warm n (header_buffers p)).
Definition get_response_pool (g : Globals) : Globals * ResponsePool :=
  match RESPONSE_POOL g with
  | Some p => (g, p)
  | None => let p := warm_response 256 (response_pool_new 2048 8192) in (mkGlobals (REQUEST_POOL g) (Some p), p)
  end.
Definition init_memory_pools (req_size req_cap res_size res_cap : Z) (g : Globals) : Globals :=
  mkGlobals
    (Some (match REQUEST_POOL g with Some p => p | None => warm (req_size / 4) (request_pool_new req_size req_cap) end))
    (Some (match RESPONSE_POOL g with Some p => p | None => warm_response (res_size / 4) (response_pool_new res_size res_cap) end)).

(** * The arena's counters *)

Record ThreadArena := mkArena { allocation_count : Z; bytes_allocated : Z }.
Definition arena_new : ThreadArena := mkArena 0 0.
Definition alloc_bytes (n : Z) (a : ThreadArena) : ThreadArena :=
  mkArena (w64 (allocation_count a + 1)) (w64 (bytes_allocated a + n)).
Definition alloc_str (s : string) (a : ThreadArena) : ThreadArena := alloc_bytes (str_len s) a.
Definition arena_reset (a : ThreadArena) : ThreadArena := arena_new.

(** * Bounds and fresh buffers *)

Section bounds.
Context {T : Type}.
Implicit Types p : ObjectPool T.

Inductive pool_call := Get | Put (x : T) | Warm (count : Z).
Definition run_pool (c : pool_call) (p : ObjectPool T) : ObjectPool T :=
  match c with Get => (get p).1 | Put x => put x p | Warm n => warm n p end.

Lemma warm_size n p : 0 <= n → size p <= max_size p <= u64_max → size (warm n p) = size p + Z.min n (max_size p - size p).
Proof.
  intros Hn [Hs Hm]. unfold warm, size in *. simpl. rewrite length_app, length_replicate.
  rewrite w64_id by (unfold is_u64; lia). lia.
Qed.

Lemma run_pool_size c p :
  (∀ n, c = Warm n → 0 <= n) → size p <= max_size p <= u64_max →
  size (run_pool c p) <= max_size (run_pool c p) <= u64_max ∧ max_size (run_pool c p) = max_size p.
Proof.
  intros Hw [Hs Hm]. destruct c as [|x|n]; simpl.
  - unfold get. destruct (last (pool p)); [|done]. unfold size in *. simpl. rewrite length_take. split; [lia|done].
  - unfold put. destruct (size p <? max_size p) eqn:Hlt; [|done]. apply Z.ltb_lt in Hlt. unfold size in *. simpl.
    rewrite length_app. simpl. split; [lia|done].
  - specialize (Hw n eq_refl). split; [|done]. rewrite warm_size by done. simpl. lia.
Qed.

(** A pool never holds more than its maximum, whatever is put into it, fetched or warmed up. *)
Theorem pool_bounded n create (cs : list pool_call) :
  0 <= n <= u64_max → (∀ k, Warm k ∈ cs → 0 <= k) →
  size (foldl (λ p c, run_pool c p) (pool_new n create) cs) <= n.
Proof.
  intros Hn Hw. assert (∀ p, size p <= max_size p <= u64_max → max_size p = n →
    size (foldl (λ p c, run_pool c p) p cs) <= n) as H; [|apply H; [split; simpl; [unfold size; simpl|]; lia|done]].
  induction cs as [|c cs IH]; intros p Hp Hmax; simpl; [lia|].
  destruct (run_pool_size c p) as [Hb Hm]; [intros k ->; apply Hw; by left|done|].
  apply IH; [intros k Hk; apply Hw; by right|done|congruence].
Qed.
End bounds.

(** Buffers come out empty, whatever was in them when they were returned. *)
Lemma buffers_fresh p : contents (get_buffer p).2 = "" ∧ ∀ q, contents (get_body_buffer q).2 = "" ∧ pairs (get_header_buffer q).2 = [].
Proof.
  unfold get_buffer, get_body_buffer, get_header_buffer. split; [by destruct (get p)|]. intros q.
  destruct (get (buffers q)), (get (header_buffers q)). done.
Qed.

Lemma pool_bounded_witness : size (foldl (λ p c, run_pool c p) (pool_new 1 tt) [Put tt; Put tt; Warm 5]) <= 1.
Proof.
  apply (pool_bounded 1 tt [Put tt; Put tt; Warm 5]); [unfold u64_max; lia|]. intros k Hk.
  rewrite !elem_of_cons in Hk. destruct Hk as [?|[?|[[= ->]|?%elem_of_nil]]]; done.
Defined.

(** Sizes asked for after the first use of a pool are ignored. *)
Lemma init_too_late n c m d g : REQUEST_POOL (init_memory_pools n c m d (get_request_pool g).1) = Some (get_request_pool g).2.
Proof. unfold get_request_pool, init_memory_pools. by destruct (REQUEST_POOL g) as [p|] eqn:H; simpl; [rewrite H|]. Qed.
