(* ===== verification/WebSocket.v ===== *)
(** The websocket handle (src/src/http/websocket.rs): two channels to the server task, a closed flag,
    and the interleaving of the handle's calls with the server's. *)
From S2P Require Import Prelude PyValue.
From stdpp Require Import base strings list.
Open Scope Z_scope.

(** * Unbounded channels *)

Inductive received (A : Type) := Msg (a : A) | Empty | Disconnected.
Arguments Msg {A} _.
Arguments Empty {A}.
Arguments Disconnected {A}.

(** tokio's unbounded channel with one sender and one receiver: what is queued, and which ends
    are alive.  A send fails when the receiver is gone; a receiver drains the queue before it
    reports that the sender is gone. *)
Class Unbounded := {
  chan : Type → Type;
  fresh_chan {A} : chan A;
  queued {A} : chan A → list A;
  tx_alive {A} : chan A → bool;
  rx_alive {A} : chan A → bool;
  usend {A} : A → chan A → chan A * bool;
  try_recv {A} : chan A → chan A * received A;
  drop_tx {A} : chan A → chan A;
  drop_rx {A} : chan A → chan A;
  fresh_spec A : queued (A := A) fresh_chan = [] ∧ tx_alive (A := A) fresh_chan = true ∧ rx_alive (A := A) fresh_chan = true;
  usend_ok A (a : A) c : rx_alive c = true →
    (usend a c).2 = true ∧ queued (usend a c).1 = queued c ++ [a] ∧
    tx_alive (usend a c).1 = tx_alive c ∧ rx_alive (usend a c).1 = true;
  usend_err A (a : A) c : rx_alive c = false → usend a c = (c, false);
  try_recv_msg A (a : A) q c : queued c = a :: q →
    (try_recv c).2 = Msg a ∧ queued (try_recv c).1 = q ∧
    tx_alive (try_recv c).1 = tx_alive c ∧ rx_alive (try_recv c).1 = rx_alive c;
  try_recv_none A (c : chan A) : queued c = [] →
    try_recv c = (c, if tx_alive c then Empty else Disconnected);
  drop_tx_spec A (c : chan A) : queued (drop_tx c) = queued c ∧ tx_alive (drop_tx c) = false ∧ rx_alive (drop_tx c) = rx_alive c;
  drop_rx_spec A (c : chan A) : queued (drop_rx c) = [] ∧ rx_alive (drop_rx c) = false ∧ tx_alive (drop_rx c) = tx_alive c
}.

Record list_chan (A : Type) := mkListChan { lc_queue : list A; lc_tx : bool; lc_rx : bool }.
Arguments mkListChan {A} _ _ _.
Arguments lc_queue {A} _.
Arguments lc_tx {A} _.
Arguments lc_rx {A} _.

#[refine] Instance list_Unbounded : Unbounded := {
  chan := list_chan;
  fresh_chan A := mkListChan [] true true;
  queued A := lc_queue;
  tx_alive A := lc_tx;
  rx_alive A := lc_rx;
  usend A a c := if lc_rx c then (mkListChan (lc_queue c ++ [a]) (lc_tx c) true, true) else (c, false);
  try_recv A c := match lc_queue c with
                  | a :: q => (mkListChan q (lc_tx c) (lc_rx c), Msg a)
                  | [] => (c, if lc_tx c then Empty else Disconnected)
                  end;
  drop_tx A c := mkListChan (lc_queue c) false (lc_rx c);
  drop_rx A c := mkListChan [] (lc_tx c) false
}.
Proof.
  - done.
  - by intros A a c ->.
  - by intros A a c ->.
  - by intros A a q c ->.
  - by intros A c ->.
  - done.
  - done.
Defined.

(** * Messages *)

Inductive WsMessageType := Text | Binary | Ping | Pong | Close.
Record WsMessage := mkWsMessage { msg_type : WsMessageType; data : string }.

Inductive WsOutgoing := OutText (s : string) | OutBinary (b : string) | OutPing (b : string) | OutClose.

Section message.
Context `{U8 : Utf8}.

(** The documentation says [None] for messages that are not text; the type is not looked at. *)
Definition text (m : WsMessage) : option string := if valid_utf8 (data m) then Some (data m) else None.

Definition json (loads : string → result string py) (m : WsMessage) : result string py :=
  match text m with Some t => loads t | None => Err "Message is not valid UTF-8" end.

(** Slicing a [str] panics unless the index is at a character. *)
Definition is_char_boundary (i : nat) (s : string) : bool :=
  match String.get i s with
  | Some c => negb ((128 <=? byte_of_ascii c) && (byte_of_ascii c <? 192))
  | None => (i =? String.length s)%nat
  end.

Definition repr (debug_type : WsMessageType → string) (debug_str : string → string) (m : WsMessage) : option string :=
  let preview := from_utf8_lossy (data m) in
  shown ← (if 50 <? str_len preview then
             if is_char_boundary 50 preview then Some (str_take 50 preview +:+ "...") else None
           else Some preview);
  Some ("WsMessage(" +:+ debug_type (msg_type m) +:+ ", " +:+ debug_str shown +:+ ")").

(** [repr] of a long text with a multi-byte character across byte 50 panics. *)
Lemma repr_panics dt ds m :
  valid_utf8 (data m) = true → 50 < str_len (data m) → is_char_boundary 50 (data m) = false → repr dt ds m = None.
Proof. intros Hv Hl Hb. unfold repr. rewrite from_utf8_lossy_valid, Hb by done. by rewrite (proj2 (Z.ltb_lt _ _)). Qed.
End message.

(** * The handle *)

Section handle.
Context `{UC : Unbounded}.

(** [tx] and [rx] tell whether the handle still owns its ends; the channels are shared with
    the server. *)
Record WsInner := mkWs { tx : bool; rx : bool; closed : bool; outgoing : chan WsOutgoing; incoming : chan WsMessage }.

Definition ws_new : WsInner := mkWs true true false fresh_chan fresh_chan.

Definition with_outgoing (c : chan WsOutgoing) (i : WsInner) : WsInner := mkWs (tx i) (rx i) (closed i) c (incoming i).

Definition send (m : WsOutgoing) (i : WsInner) : WsInner * result string unit :=
  if closed i then (i, Err "WebSocket is closed")
  else if tx i then
    let '(c, ok) := usend m (outgoing i) in
    (with_outgoing c i, if ok then Ok tt else Err "WebSocket send channel closed")
  else (i, Ok tt).
Definition send_text (t : string) : WsInner → WsInner * result string unit := send (OutText t).
Definition send_bytes (b : string) : WsInner → WsInner * result string unit := send (OutBinary b).
Definition send_json (dumps : py → result string string) (v : py) (i : WsInner) : WsInner * result string unit :=
  match dumps v with Ok t => send_text t i | Err e => (i, Err e) end.
Definition send_ping (d : option string) : WsInner → WsInner * result string unit := send (OutPing (default "" d)).

Definition receive (i : WsInner) : WsInner * option WsMessage :=
  if closed i then (i, None)
  else if rx i then
    let '(c, r) := try_recv (incoming i) in
    let i' := mkWs (tx i) (rx i) (closed i) (outgoing i) c in
    match r with
    | Msg m => (i', Some m)
    | Empty => (i', None)
    | Disconnected => (mkWs (tx i) (rx i) true (outgoing i) c, None)
    end
  else (i, None).

Definition receive_text `{U8 : Utf8} (i : WsInner) : WsInner * option string :=
  let '(i', m) := receive i in (i', m ≫= text).
Definition receive_json `{U8 : Utf8} (loads : string → result string py) (i : WsInner) : WsInner * result string (option py) :=
  let '(i', m) := receive i in
  (i', match m with Some m => v ← json loads m; Ok (Some v) | None => Ok None end).

(** Dropping the ends: the queue of messages not yet received is lost. *)
Definition close (i : WsInner) : WsInner :=
  if closed i then i
  else
    let out := if tx i then (usend OutClose (outgoing i)).1 else outgoing i in
    mkWs false false true (drop_tx out) (drop_rx (incoming i)).
Definition is_closed : WsInner → bool := closed.

(** * Runs *)

(** Calls of the handle and of the server task at the other ends. *)
Inductive event :=
| Send (m : WsOutgoing)
| Receive
| CloseCall
| ServerTakes
| ServerPuts (m : WsMessage)
| ServerDropsReceiver
| ServerDropsSender.

(** With what happened: what was accepted from the program, what the server took, what the server
    put in, and what the program was given. *)
Record Sys := mkSys { ws : WsInner; accepted : list WsOutgoing; taken : list WsOutgoing;
  put_in : list WsMessage; given : list WsMessage }.

Definition sys_new : Sys := mkSys ws_new [] [] [] [].

Definition run_event (s : Sys) (e : event) : Sys :=
  let i := ws s in
  match e with
  | Send m =>
      let sent := negb (closed i) && tx i && (usend m (outgoing i)).2 in
      mkSys (send m i).1 (if sent then accepted s ++ [m] else accepted s) (taken s) (put_in s) (given s)
  | Receive =>
      let '(i', r) := receive i in
      mkSys i' (accepted s) (taken s) (put_in s) (match r with Some m => given s ++ [m] | None => given s end)
  | CloseCall =>
      let sent := negb (closed i) && tx i && (usend OutClose (outgoing i)).2 in
      mkSys (close i) (if sent then accepted s ++ [OutClose] else accepted s) (taken s) (put_in s) (given s)
  | ServerTakes =>
      match try_recv (outgoing i) with
      | (c, Msg m) => mkSys (with_outgoing c i) (accepted s) (taken s ++ [m]) (put_in s) (given s)
      | _ => s
      end
  | ServerPuts m =>
      match usend m (incoming i) with
      | (c, true) => mkSys (mkWs (tx i) (rx i) (closed i) (outgoing i) c) (accepted s) (taken s) (put_in s ++ [m]) (given s)
      | _ => s
      end
  | ServerDropsReceiver => mkSys (with_outgoing (drop_rx (outgoing i)) i) (accepted s) (taken s) (put_in s) (given s)
  | ServerDropsSender =>
      mkSys (mkWs (tx i) (rx i) (closed i) (outgoing i) (drop_tx (incoming i))) (accepted s) (taken s) (put_in s) (given s)
  end.

(** Programs do not send the close frame themselves. *)
Definition plain (e : event) : bool := match e with Send OutClose => false | _ => true end.

(** [a] are the elements of [b] and what is queued, in order; the rest was lost with the receiver. *)
Definition flows {A} (a b : list A) (c : chan A) : Prop :=
  ∃ lost, a = b ++ queued c ++ lost ∧ (rx_alive c = true → lost = []).

Lemma flows_send {A} (a b : list A) m c :
  flows a b c → flows (if (usend m c).2 then a ++ [m] else a) b (usend m c).1.
Proof.
  intros (lost & -> & Hl). destruct (rx_alive c) eqn:Hr.
  - destruct (usend_ok A m c Hr) as (-> & Hq & _). exists []. rewrite (Hl eq_refl), Hq. split; [|done].
    by rewrite !app_nil_r, (assoc_L (++)).
  - rewrite (usend_err A m c Hr). exists lost. split; [done|]. simpl. congruence.
Qed.

Lemma flows_recv {A} (a b : list A) c :
  flows a b c → flows a (match (try_recv c).2 with Msg m => b ++ [m] | _ => b end) (try_recv c).1.
Proof.
  intros (lost & -> & Hl). destruct (queued c) as [|m q] eqn:Hq.
  - rewrite (try_recv_none A c Hq). simpl. exists lost. rewrite Hq. split; [|done]. by destruct (tx_alive c).
  - destruct (try_recv_msg A m q c Hq) as (-> & Hq' & _ & Hr). exists lost. rewrite Hq', Hr. split; [|done].
    by rewrite <- (assoc_L (++) b).
Qed.

Lemma flows_drop_tx {A} (a b : list A) c : flows a b c → flows a b (drop_tx c).
Proof. intros (lost & H & Hl). destruct (drop_tx_spec A c) as (Hq & _ & Hr). exists lost. by rewrite Hq, Hr. Qed.

Lemma flows_drop_rx {A} (a b : list A) c : flows a b c → flows a b (drop_rx c).
Proof.
  intros (lost & H & Hl). destruct (drop_rx_spec A c) as (Hq & Hr & _). exists (queued c ++ lost). rewrite Hq, Hr.
  split; [done|]. done.
Qed.

(** The close frame only as the last thing accepted, and then the handle is closed. *)
Definition close_last (s : Sys) : Prop :=
  ∃ l, OutClose ∉ l ∧ (accepted s = l ∨ closed (ws s) = true ∧ accepted s = l ++ [OutClose]).

Record ordered (s : Sys) : Prop := {
  o_out : flows (accepted s) (taken s) (outgoing (ws s));
  o_in : flows (put_in s) (given s) (incoming (ws s));
  o_close : close_last s
}.

Lemma open_no_close s : close_last s → closed (ws s) = false → OutClose ∉ accepted s.
Proof. intros (l & Hl & [->|[? _]]) Hc; [done|congruence]. Qed.

Lemma ordered_send s m :
  m ≠ OutClose → ordered s → ordered (run_event s (Send m)).
Proof.
  intros Hm [Ho Hi Hc]. simpl. unfold send. destruct (closed (ws s)) eqn:Hcl; [by split|].
  destruct (tx (ws s)) eqn:Htx; simpl; [|by split]. pose proof (flows_send _ _ m _ Ho) as Hf.
  destruct (usend m (outgoing (ws s))) as [c ok]. simpl in *. split; simpl; [done|done|].
  pose proof (open_no_close s Hc Hcl). exists (if ok then accepted s ++ [m] else accepted s). simpl. split; [|by left].
  destruct ok; [|done]. rewrite elem_of_app, list_elem_of_singleton. naive_solver.
Qed.

Lemma ordered_close s : ordered s → ordered (run_event s CloseCall).
Proof.
  intros [Ho Hi Hc]. simpl. unfold close. destruct (closed (ws s)) eqn:Hcl; [by split|].
  pose proof (open_no_close s Hc Hcl) as Hn. destruct (tx (ws s)); simpl.
  - pose proof (flows_send _ _ OutClose _ Ho) as Hf. destruct (usend OutClose (outgoing (ws s))) as [c ok]. simpl in *.
    split; simpl; [by apply flows_drop_tx|by apply flows_drop_rx|]. exists (accepted s). split; [done|].
    simpl. destruct ok; [by right|by left].
  - split; simpl; [by apply flows_drop_tx|by apply flows_drop_rx|]. exists (accepted s). split; [done|by left].
Qed.

Lemma close_last_keep s s' :
  accepted s' = accepted s → (closed (ws s) = true → closed (ws s') = true) → close_last s → close_last s'.
Proof. intros Ha Hc (l & Hl & H). exists l. split; [done|]. rewrite Ha. naive_solver. Qed.

Lemma ordered_step s e : plain e = true → ordered s → ordered (run_event s e).
Proof.
  intros Hp Hs. destruct e as [m| | | |m| |]; [apply ordered_send; [by destruct m|done]| |by apply ordered_close| | | |];
    destruct Hs as [Ho Hi Hc].
  - simpl. unfold receive. destruct (closed (ws s)) eqn:Hcl; [by split|]. destruct (rx (ws s)); [|by split].
    pose proof (flows_recv _ _ _ Hi) as Hf. destruct (try_recv (incoming (ws s))) as [c r]. simpl in Hf.
    destruct r; split; simpl; try done; eapply (close_last_keep s); eauto; simpl; congruence.
  - simpl. pose proof (flows_recv _ _ _ Ho) as Hf. destruct (try_recv (outgoing (ws s))) as [c [m| |]]; by split.
  - simpl. pose proof (flows_send _ _ m _ Hi) as Hf. destruct (usend m (incoming (ws s))) as [c []]; by split.
  - split; simpl; [by apply flows_drop_rx|done|done].
  - split; simpl; [done|by apply flows_drop_tx|done].
Qed.

(** Under every interleaving of the handle's calls with the server's: what the server takes are the
    accepted messages in order (all of them unless it drops its end), what the program is given are the
    server's messages in order, the close frame is accepted at most once and after it nothing; and
    on a closed handle every send fails and every receive gives [None]. *)
Theorem websocket_ordered (es : list event) :
  forallb plain es = true →
  let s := foldl run_event sys_new es in
  taken s `prefix_of` accepted s ∧ given s `prefix_of` put_in s ∧
  (rx_alive (outgoing (ws s)) = true → accepted s = taken s ++ queued (outgoing (ws s))) ∧
  close_last s ∧
  (closed (ws s) = true → (∀ m, send m (ws s) = (ws s, Err "WebSocket is closed")) ∧ receive (ws s) = (ws s, None)).
Proof.
  intros Hp. simpl. assert (∀ s, ordered s → ordered (foldl run_event s es)) as H.
  { induction es as [|e es IH]; intros s Hs; [done|]. simpl in *. apply andb_true_iff in Hp as [He Hp].
    apply IH; [done|]. by apply ordered_step. }
  assert (ordered sys_new) as H0.
  { split; simpl; [| |by exists []; split; [apply not_elem_of_nil|left]]; exists [].
    - destruct (fresh_spec WsOutgoing) as (-> & _). done.
    - destruct (fresh_spec WsMessage) as (-> & _). done. }
  apply H in H0 as [Ho Hi Hc]. set (s := foldl _ _ _) in *. split_and!.
  - destruct Ho as (lost & -> & _). by eexists.
  - destruct Hi as (lost & -> & _). by eexists.
  - intros Hr. destruct Ho as (lost & -> & Hl). by rewrite (Hl Hr), app_nil_r.
  - done.
  - intros Hcl. unfold send, receive. by rewrite Hcl.
Qed.

(** [receive] gives [None] on an open connection without a message. *)
Lemma receive_does_not_wait : closed ws_new = false ∧ (receive ws_new).2 = None.
Proof.
  split; [done|]. unfold receive. simpl. destruct (fresh_spec WsMessage) as (Hq & Ht & _).
  rewrite (try_recv_none _ _ Hq). by rewrite Ht.
Qed.
End handle.

Lemma websocket_ordered_witness :
  let s := foldl run_event sys_new [Send (OutText "a"); Send (OutText "b"); ServerTakes; CloseCall; ServerPuts (mkWsMessage Text "x"); Receive] in
  accepted s = taken s ++ queued (outgoing (ws s)) ∧ accepted s = [OutText "a"; OutText "b"; OutClose].
Proof.
  split; [|reflexivity].
  apply (websocket_ordered [Send (OutText "a"); Send (OutText "b"); ServerTakes; CloseCall; ServerPuts (mkWsMessage Text "x"); Receive] eq_refl).
  reflexivity.
Defined.
