(* ===== verification/Client.v ===== *)
(** The HTTP client (src/src/client/mod.rs): URLs, the requests it builds and the response it keeps.
    Sending is reqwest's: the answer is a parameter. *)
From S2P Require Import Prelude Method.
From stdpp Require Import base gmap strings list.
Open Scope Z_scope.

(** * Requests and responses *)

(** A request as given to reqwest: the headers in the order of the calls. *)
Record ClientRequest := mkClientRequest {
  req_method : HttpMethod;
  req_url : string;
  req_headers : list (string * string);
  query : list (string * string);
  req_body : option string
}.

(** A raw answer: header values that are visible ASCII have a text. *)
Record RawResponse := mkRaw { raw_status : Z; raw_headers : list (string * option string); raw_body : result string string }.

Record ClientResponse := mkClientResponse { status : Z; headers : gmap string string; body : string }.

(** The values of one name overwrite each other. *)
Definition collect_headers (l : list (string * option string)) : gmap string string :=
  foldl (λ m kv, match kv.2 with Some v => <[kv.1 := v]> m | None => m end) ∅ l.

Definition text `{U8 : Utf8} (r : ClientResponse) : result string string :=
  if valid_utf8 (body r) then Ok (body r) else Err "invalid utf-8 sequence".
Definition json `{U8 : Utf8} {J} (loads : string → result string J) (r : ClientResponse) : result string J :=
  t ← text r; loads t.

(** * The client *)

Record HttpClient := mkHttpClient { base_url : option string; timeout : Z; max_idle : Z }.
Definition client_new (base : option string) (timeout max_connections : option Z) : HttpClient :=
  mkHttpClient base (default 30 timeout) (default 20 max_connections).

Definition build_url (c : HttpClient) (url : string) : string :=
  match base_url c with
  | Some base =>
      let base := trim_end_char "/" base in
      if starts_with "/" url then base +:+ url else base +:+ "/" +:+ url
  | None => url
  end.

Section client.
Context `{HI : !HashIter string string}.
(** reqwest's [send]. *)
Context (send : ClientRequest → result string RawResponse).

Definition send_request (r : ClientRequest) : result string ClientResponse :=
  resp ← send r;
  b ← raw_body resp;
  Ok (mkClientResponse (raw_status resp) (collect_headers (raw_headers resp)) b).

Definition header_calls (h : option (gmap string string)) : list (string * string) :=
  match h with Some m => hiter m | None => [] end.

Definition get (c : HttpClient) (url : string) (h params : option (gmap string string)) : result string ClientResponse :=
  send_request (mkClientRequest GET (build_url c url) (header_calls h) (header_calls params) None).
Definition delete_ (c : HttpClient) (url : string) (h : option (gmap string string)) : result string ClientResponse :=
  send_request (mkClientRequest DELETE (build_url c url) (header_calls h) [] None).

(** [post], [put] and [patch]: a JSON text wins over a body and adds its type. *)
Definition with_payload (m : HttpMethod) (c : HttpClient) (url : string) (h : option (gmap string string)) (json body : option string) : ClientRequest :=
  match json with
  | Some j => mkClientRequest m (build_url c url) (header_calls h ++ [("content-type", "application/json")]) [] (Some j)
  | None => mkClientRequest m (build_url c url) (header_calls h) [] body
  end.
Definition post c url h json body : result string ClientResponse := send_request (with_payload POST c url h json body).
Definition put c url h json body : result string ClientResponse := send_request (with_payload PUT c url h json body).
Definition patch c url h json body : result string ClientResponse := send_request (with_payload PATCH c url h json body).
End client.

(** * URLs and headers *)

Lemma trim_end_char_prefix c s : ∃ n, s = trim_end_char c s +:+ str_join "" (replicate n (String c "")).
Proof.
  induction s as [|a s [n IH]]; simpl; [by exists O|]. destruct (trim_end_char c s) as [|b t] eqn:Ht.
  - destruct (Ascii.eqb_spec a c) as [->|].
    + exists (S n). rewrite IH. simpl. by destruct n.
    + exists n. rewrite IH at 1. simpl. done.
  - exists n. rewrite IH at 1. done.
Qed.

(** With a base URL every URL, absolute ones included, is put after the base, with exactly one
    slash where the two meet if the base has any number at its end and the URL at most one; without
    a base it is used as it is. *)
Lemma build_url_spec c url :
  build_url c url =
    match base_url c with
    | None => url
    | Some base => trim_end_char "/" base +:+ "/" +:+ match url with String "/" u => u | _ => url end
    end.
Proof.
  unfold build_url. destruct (base_url c) as [base|]; [|done]. destruct url as [|a u]; [done|].
  simpl. destruct (ascii_dec "/" a) as [<-|Hne]; [by destruct u|].
  assert ((if ascii_dec "/" a then true else false) = false) as H by by destruct (ascii_dec "/" a).
  destruct a as [[] [] [] [] [] [] [] []]; done.
Qed.

(** Of a repeated header only the last readable value is kept. *)
Lemma collect_headers_last l name :
  collect_headers l !! name = last (omap snd (filter (λ kv : string * option string, kv.1 = name) l)).
Proof.
  unfold collect_headers. induction l as [|[k v] l IH] using rev_ind; [done|].
  rewrite foldl_app, filter_app, omap_app, last_app. simpl. rewrite filter_cons. simpl.
  destruct (decide (k = name)) as [->|Hne]; simpl.
  - destruct v as [v|]; simpl; [by rewrite lookup_insert_eq|done].
  - destruct v as [v|]; simpl; [by rewrite lookup_insert_ne|done].
Qed.

Example set_cookie_lost :
  collect_headers [("set-cookie", Some "a=1"); ("set-cookie", Some "b=2")] !! "set-cookie" = Some "b=2".
Proof. reflexivity. Qed.

Example absolute_url : build_url (client_new (Some "http://a/") None None) "http://b/x" = "http://a/http://b/x".
Proof. reflexivity. Qed.

(** A JSON request whose headers name a content type sends two. *)
Example two_content_types `{!HashIter string string} m c url :
  filter (λ kv : string * string, kv.1 = "content-type")
    (req_headers (with_payload m c url (Some {["content-type" := "a"]}) (Some "{}") None)) =
  filter (λ kv : string * string, kv.1 = "content-type") (hiter {["content-type" := "a"]}) ++ [("content-type", "application/json")].
Proof. simpl. rewrite filter_app. done. Qed.
