(* ===== verification/Startup.v ===== *)
(** What a process sets up before it serves: the listening socket (src/src/core/socket.rs) as a
    sequence of calls to the system, each of which may fail, and the process-wide cells of
    src/src/core/global.rs, which are filled once. *)
From S2P Require Import Prelude.
From stdpp Require Import base gmap strings list.
Open Scope Z_scope.

(** * The listening socket *)

Inductive domain := IPV4 | IPV6.

Inductive sockcall :=
| Create (d : domain)
| ReusePort (b : bool) | Nodelay (b : bool) | ReuseAddress (b : bool)
| Keepalive (b : bool) | TcpKeepalive (secs : Z) | Linger (secs : option Z)
| RecvBuffer (n : Z) | SendBuffer (n : Z)
| FastOpen (queue : Z) | QuickAck (n : Z)
| Nonblocking (b : bool) | Bind (port : Z) | Listen (backlog : Z)
| Dup | Close.

(** The kernel answers each call, from what was called before it; parsing an address is [std]'s. *)
Class Net := {
  ip_addr : Type;
  parse_ip : string → option ip_addr;
  is_ipv4 : ip_addr → bool;
  answer : list sockcall → sockcall → bool
}.

Section socket.
Context `{NE : Net}.

(** [windows] and [linux] are the targets the source tests for. *)
Variables windows linux : bool.

(** Calls in order; [Err] stops at the [?]. *)
Definition Sys (A : Type) : Type := list sockcall → list sockcall * result string A.
Definition sys_ret {A} (x : A) : Sys A := λ h, (h, Ok x).
Definition sys_bind {A B} (m : Sys A) (f : A → Sys B) : Sys B := λ h,
  match m h with (h', Ok x) => f x h' | (h', Err e) => (h', Err e) end.
Definition checked (c : sockcall) : Sys unit := λ h, (h ++ [c], if answer h c then Ok tt else Err "OSError").
Definition unchecked (c : sockcall) : Sys unit := λ h, (h ++ [c], Ok tt).
Definition only (b : bool) (m : Sys unit) : Sys unit := if b then m else sys_ret tt.

Notation "m ;; k" := (sys_bind m (λ _, k)) (at level 100, right associativity).

(** The socket is closed when it is dropped on an error. *)
Definition or_close (m : Sys unit) : Sys unit := λ h,
  match m h with (h', Err e) => (h' ++ [Close], Err e) | r => r end.

Definition configure (port : Z) : Sys unit :=
  only (negb windows) (checked (ReusePort true)) ;;
  checked (Nodelay true) ;;
  checked (ReuseAddress true) ;;
  checked (Keepalive true) ;;
  checked (TcpKeepalive 60) ;;
  checked (Linger (Some 1)) ;;
  checked (RecvBuffer (256 * 1024)) ;;
  checked (SendBuffer (256 * 1024)) ;;
  only linux (unchecked (FastOpen 5) ;; unchecked (QuickAck 1)) ;;
  checked (Nonblocking true) ;;
  checked (Bind port) ;;
  checked (Listen 8192).

(** [SocketHeld::new]. *)
Definition socket_new (ip : string) (port : Z) : Sys unit := λ h,
  match parse_ip ip with
  | None => (h, Err "AddrParseError")
  | Some a => (checked (Create (if is_ipv4 a then IPV4 else IPV6)) ;; or_close (configure port)) h
  end.

Definition try_clone : Sys unit := checked Dup.

(** [get_socket] unwraps: [None] is the panic. *)
Definition get_socket (h : list sockcall) : option (list sockcall) :=
  match checked Dup h with (h', Ok _) => Some h' | (_, Err _) => None end.

(** ** What is set up *)

(** The configuration as a list: whether a call is checked, and the call. *)
Definition setup (port : Z) : list (bool * sockcall) :=
  (if windows then [] else [(true, ReusePort true)]) ++
  [(true, Nodelay true); (true, ReuseAddress true); (true, Keepalive true); (true, TcpKeepalive 60);
   (true, Linger (Some 1)); (true, RecvBuffer (256 * 1024)); (true, SendBuffer (256 * 1024))] ++
  (if linux then [(false, FastOpen 5); (false, QuickAck 1)] else []) ++
  [(true, Nonblocking true); (true, Bind port); (true, Listen 8192)].

Fixpoint run_setup (l : list (bool * sockcall)) (h : list sockcall) : list sockcall * result string unit :=
  match l with
  | [] => (h, Ok tt)
  | (b, c) :: l' => if negb b || answer h c then run_setup l' (h ++ [c]) else (h ++ [c], Err "OSError")
  end.

Lemma configure_setup port h : configure port h = run_setup (setup port) h.
Proof.
  unfold configure, setup, sys_bind, only, checked, unchecked, sys_ret.
  destruct windows, linux; cbn; repeat (case_match; simplify_eq; try done).
Qed.

Lemma run_setup_outcome l h :
  (run_setup l h = (h ++ l.*2, Ok tt) ∧
   ∀ l1 b c l2, l = l1 ++ (b, c) :: l2 → b = true → answer (h ++ l1.*2) c = true) ∨
  (∃ l1 c l2, l = l1 ++ (true, c) :: l2 ∧ answer (h ++ l1.*2) c = false ∧
     run_setup l h = (h ++ l1.*2 ++ [c], Err "OSError")).
Proof.
  revert h. induction l as [|[b c] l IH]; intros h; cbn [run_setup].
  - left. rewrite app_nil_r. split; [done|]. intros [] * ?; done.
  - destruct (negb b || answer h c) eqn:E.
    + destruct (IH (h ++ [c])) as [[Hr Ha]|(l1 & c1 & l2 & -> & Ha & Hr)].
      * left. rewrite Hr, <-app_assoc. split; [done|]. intros [|x l1] b' c' l2 Heq Hb; simplify_eq/=.
        -- by rewrite app_nil_r.
        -- specialize (Ha l1 _ _ l2 eq_refl eq_refl). by rewrite <-app_assoc in Ha.
      * right. exists ((b, c) :: l1), c1, l2. rewrite <-app_assoc in Ha. rewrite Hr, <-app_assoc. done.
    + right. apply orb_false_iff in E as [Hb Ha]. apply negb_false_iff in Hb as ->.
      exists [], c, l. cbn. rewrite app_nil_r. done.
Qed.

(** The socket of the server.  Creating it succeeds exactly when the address parses and every checked
    call does, and then the calls were those of the source in their order: every option before the
    bind, the bind before the listen, and the socket open.  When it fails, nothing was created (the
    address does not parse, or creating failed), or the calls stop at the one that failed and the
    socket is closed. *)
Theorem socket_new_outcome ip port :
  let '(h, r) := socket_new ip port [] in
  match r with
  | Ok _ => ∃ a, parse_ip ip = Some a ∧ h = Create (if is_ipv4 a then IPV4 else IPV6) :: (setup port).*2 ∧
      ∀ l1 b c l2, setup port = l1 ++ (b, c) :: l2 → b = true →
        answer (Create (if is_ipv4 a then IPV4 else IPV6) :: l1.*2) c = true
  | Err _ =>
      (parse_ip ip = None ∧ h = []) ∨
      ∃ a, parse_ip ip = Some a ∧
        let c0 := Create (if is_ipv4 a then IPV4 else IPV6) in
        (h = [c0] ∧ answer [] c0 = false) ∨
        ∃ l1 c l2, setup port = l1 ++ (true, c) :: l2 ∧ answer (c0 :: l1.*2) c = false ∧
          h = c0 :: l1.*2 ++ [c; Close]
  end.
Proof.
  unfold socket_new. destruct (parse_ip ip) as [a|]; [|left; done].
  unfold sys_bind, checked, or_close. cbn. set (c0 := Create _).
  destruct (answer [] c0) eqn:E; [|right; eexists; split; [done|]; left; done].
  rewrite configure_setup. destruct (run_setup_outcome (setup port) [c0]) as [[Hr Ha]|(l1 & c & l2 & Hl & Ha & Hr)].
  - rewrite Hr. by exists a.
  - rewrite Hr. right. exists a. split; [done|]. right. exists l1, c, l2. split_and!; [done|done|].
    by rewrite <-!app_assoc.
Qed.
End socket.

(** * Cells that are filled once *)

(** [OnceLock::get_or_init] and [OnceLock::set]. *)
Definition get_or_init {A} (mk : A) (cell : option A) : option A * A :=
  match cell with Some x => (cell, x) | None => (Some mk, mk) end.
Definition once_set {A} (x : A) (cell : option A) : option A * result A unit :=
  match cell with Some _ => (cell, Err x) | None => (Some x, Ok tt) end.

(** Python's [asyncio] module: its state, the three calls on it, and what they do to the current loop. *)
Class Asyncio := {
  interp : Type;
  loop : Type;
  asyncio_get : interp → result string loop;
  asyncio_new : interp → interp * result string loop;
  asyncio_set : loop → interp → interp * result string unit;
  asyncio_set_get l i : (asyncio_set l i).2 = Ok tt → asyncio_get (asyncio_set l i).1 = Ok l
}.

Section globals.
Context `{AS : Asyncio} {Runtime Wrapper : Type}.

Record Cells := mkCells {
  EV_LOOP : option loop;
  SHARED_RUNTIME : option Runtime;
  CONN_SEMAPHORE : option Z;
  RUNTIME : option Wrapper
}.

Definition cells_new : Cells := mkCells None None None None.

(** [None] is a panic: [expect] on a failing call. *)
Definition get_event_loop (i : interp) (g : Cells) : option (interp * Cells * loop) :=
  match EV_LOOP g with
  | Some l => Some (i, g, l)
  | None =>
      '(i', l) ←
        match asyncio_get i with
        | Ok l => Some (i, l)
        | Err _ =>
            match asyncio_new i with
            | (i1, Ok l) => match asyncio_set l i1 with (i2, Ok _) => Some (i2, l) | (_, Err _) => None end
            | (_, Err _) => None
            end
        end;
      Some (i', mkCells (Some l) (SHARED_RUNTIME g) (CONN_SEMAPHORE g) (RUNTIME g), l)
  end.

Definition get_runtime (build : Runtime) (g : Cells) : Cells * Runtime :=
  let '(c, r) := get_or_init build (SHARED_RUNTIME g) in
  (mkCells (EV_LOOP g) c (CONN_SEMAPHORE g) (RUNTIME g), r).
Definition get_connection_semaphore (max_connections : Z) (g : Cells) : Cells * Z :=
  let '(c, n) := get_or_init max_connections (CONN_SEMAPHORE g) in
  (mkCells (EV_LOOP g) (SHARED_RUNTIME g) c (RUNTIME g), n).

(** [None]: "Global runtime already set", "Global runtime not initialized". *)
Definition set_global_runtime (w : Wrapper) (g : Cells) : option Cells :=
  match once_set w (RUNTIME g) with
  | (c, Ok _) => Some (mkCells (EV_LOOP g) (SHARED_RUNTIME g) (CONN_SEMAPHORE g) c)
  | (_, Err _) => None
  end.
Definition get_global_runtime (g : Cells) : option Wrapper := RUNTIME g.

(** A worker gets one event loop: the first call takes asyncio's current loop, or makes one and makes
    it current; every later call gives the same loop and leaves asyncio alone. *)
Theorem event_loop_once i g i' g' l :
  get_event_loop i g = Some (i', g', l) →
  (∀ j, get_event_loop j g' = Some (j, g', l)) ∧
  (EV_LOOP g = None → asyncio_get i' = Ok l ∧ (∀ l0, asyncio_get i = Ok l0 → l = l0 ∧ i' = i)).
Proof.
  unfold get_event_loop. destruct (EV_LOOP g) as [l0|] eqn:E.
  - intros [= <- <- <-]. split; [|done]. intros j. by rewrite E.
  - destruct (asyncio_get i) as [l0|e] eqn:Eg.
    + cbn. intros [= <- <- <-]. split; [done|]. intros _. split; [done|]. intros ? [= ->]. done.
    + destruct (asyncio_new i) as [i1 [l0|]]; [|done].
      pose proof (asyncio_set_get l0 i1) as Hs. destruct (asyncio_set l0 i1) as [i2 [u|]]; [|done].
      cbn in *. intros [= <- <- <-]. split; [done|]. intros _. split; [|done]. apply Hs. by destruct u.
Qed.

(** The global runtime can be set once, and the handlers of a request need it: before it is set they
    panic, and after it the same runtime is given for ever. *)
Lemma global_runtime_once w g :
  RUNTIME g = None →
  get_global_runtime g = None ∧
  ∃ g', set_global_runtime w g = Some g' ∧ get_global_runtime g' = Some w ∧ ∀ w', set_global_runtime w' g' = None.
Proof. intros H. unfold set_global_runtime, get_global_runtime, once_set. rewrite H. eauto. Qed.

(** The first caller fixes the number of connections. *)
Lemma semaphore_once n m g :
  CONN_SEMAPHORE g = None → (get_connection_semaphore m (get_connection_semaphore n g).1).2 = n.
Proof. unfold get_connection_semaphore. by intros ->. Qed.
End globals.
