(* ===== verification/Runtime.v ===== *)
(** Running Python handlers: the pool of blocking threads (src/src/core/blocking.rs) as a step
    relation, and the stepping of coroutines (src/src/core/runtime.rs).  Which of the tasks end is a
    parameter. *)
From S2P Require Import Prelude.
From stdpp Require Import base list relations.
Open Scope Z_scope.

(** * One handler *)

(** Python callables and coroutines over a world [W]: a call gives an object or an exception; [send]
    of a coroutine yields, stops or raises. *)
Inductive sent := Yielded | StopIteration | Raised.

Section handler.
Context {W coroutine : Type}.
Context (call : W → W * option coroutine) (has_send : coroutine → bool) (send_none : coroutine → W → W * sent).
(** [PyErr_Print]. *)
Context (print_error : W → W) (on_complete : W → W).

(** The loop sends [None] whatever was yielded.  [None]: it is still running. *)
Fixpoint step_coroutine (fuel : nat) (c : coroutine) (w : W) : option W :=
  match fuel with
  | O => None
  | S fuel' =>
      match send_none c w with
      | (w', Yielded) => step_coroutine fuel' c w'
      | (w', StopIteration) => Some w'
      | (w', Raised) => Some (print_error w')
      end
  end.

Definition run_async (fuel : nat) (w : W) : option W :=
  match call w with
  | (w', None) => Some (on_complete (print_error w'))
  | (w', Some c) =>
      if has_send c then w2 ← step_coroutine fuel c w'; Some (on_complete w2)
      else Some (on_complete (print_error w'))
  end.

(** [step] of a sync handler: the result is dropped. *)
Definition run_sync (w : W) : W :=
  match call w with
  | (w', None) => on_complete (print_error w')
  | (w', Some _) => on_complete w'
  end.

Definition future_into_py (is_async : bool) (fuel : nat) (w : W) : option W :=
  if is_async then run_async fuel w else Some (run_sync w).

(** How a coroutine goes: [k] yields, then its end. *)
Inductive yields (c : coroutine) : nat → W → W → sent → Prop :=
| ends_now w w' r : send_none c w = (w', r) → r ≠ Yielded → yields c 0 w w' r
| yields_more k w w1 w' r : send_none c w = (w1, Yielded) → yields c k w1 w' r → yields c (S k) w w' r.

Lemma step_coroutine_yields c k w w' r fuel :
  yields c k w w' r → (k < fuel)%nat →
  step_coroutine fuel c w = Some (match r with Raised => print_error w' | _ => w' end).
Proof.
  intros Hy. revert fuel. induction Hy as [w w' r Hs Hr|k w w1 w' r Hs Hy IH]; intros [|fuel] Hf; simpl; try lia.
  - rewrite Hs. by destruct r.
  - rewrite Hs. apply IH. lia.
Qed.

(** Completion is signalled once, after everything else, exactly when the handler ends: when the call
    fails, when it gives no coroutine, and when the coroutine stops or raises after any number of
    yields; a coroutine that never ends is stepped for ever and never completes. *)
Theorem completes_iff_ends w c w1 :
  call w = (w1, Some c) → has_send c = true →
  (∀ k w2 r fuel, yields c k w1 w2 r → (k < fuel)%nat →
     run_async fuel w = Some (on_complete (match r with Raised => print_error w2 | _ => w2 end))) ∧
  ((∀ k w2 r, ¬ yields c k w1 w2 r) → ∀ fuel, run_async fuel w = None).
Proof.
  intros Hc Hs. unfold run_async. rewrite Hc, Hs. split.
  - intros k w2 r fuel Hy Hf. by rewrite (step_coroutine_yields _ _ _ _ _ _ Hy Hf).
  - intros Hn fuel. assert (∀ w, (∀ k w2 r, ¬ yields c k w w2 r) → step_coroutine fuel c w = None) as H; [|by rewrite H].
    clear. induction fuel as [|fuel IH]; intros w Hn; [done|]. simpl. destruct (send_none c w) as [w' [| |]] eqn:Hs.
    + apply IH. intros k w2 r Hy. by apply (Hn (S k) w2 r), (yields_more _ _ _ w').
    + exfalso. apply (Hn O w' StopIteration). by apply ends_now.
    + exfalso. apply (Hn O w' Raised). by apply ends_now.
Qed.
End handler.

(** A coroutine with two yields. *)
Lemma completes_iff_ends_witness :
  run_async (λ w, (w, Some tt)) (λ _, true) (λ _ w, (S w, if (w <? 2)%nat then Yielded else StopIteration))
    (λ w, w) (λ w, (w + 100)%nat) 5 0%nat = Some 103%nat.
Proof.
  apply (proj1 (completes_iff_ends (λ w, (w, Some tt)) (λ _, true)
    (λ _ w, (S w, if (w <? 2)%nat then Yielded else StopIteration)) (λ w, w) (λ w, (w + 100)%nat) 0%nat tt 0%nat eq_refl eq_refl)
    2%nat 3%nat StopIteration 5%nat); [|lia].
  apply (yields_more _ _ _ _ 1%nat); [done|]. apply (yields_more _ _ _ _ 2%nat); [done|]. by apply ends_now.
Defined.

(** * The pool of blocking threads *)

Section runner.
Context {task : Type}.

(** Whether a task ends: it is a Python callable, and a coroutine that never stops is stepped for ever
    ([completes_iff_ends]). *)
Variable ends : task → bool.

(** A thread waits in [recv], runs a task, or has left its loop; idle threads time out. *)
Inductive thread := Waiting (idle : bool) | Running (idle : bool) (t : task) | Exited.

(** [threads] is the counter; a spawned idle thread increments it only when it starts. *)
Record BlockingRunner := mkRunner {
  queue : list task;
  threads : Z;
  tmax : Z;
  pool : list thread;
  starting : nat;
  finished : list task;
  submitted : list task
}.

Definition runner_new (max_threads : nat) : BlockingRunner :=
  mkRunner [] (Z.of_nat max_threads) (Z.of_nat max_threads) (replicate max_threads (Waiting false)) 0 [] [].

(** The length of the queue and the counter are looked at after the send. *)
Definition wants_thread (r : BlockingRunner) : bool := (2 <? Z.of_nat (length (queue r))) && (threads r <? tmax r).

Inductive step : BlockingRunner → BlockingRunner → Prop :=
(** [run]: the send. *)
| S_send t r :
    step r (mkRunner (queue r ++ [t]) (threads r) (tmax r) (pool r) (starting r) (finished r) (submitted r ++ [t]))
(** [run]: the look at the queue, and [spawn_thread] when it is not throttled. *)
| S_spawn r : wants_thread r = true →
    step r (mkRunner (queue r) (threads r) (tmax r) (pool r) (S (starting r)) (finished r) (submitted r))
(** A spawned thread starts. *)
| S_start r n : starting r = S n →
    step r (mkRunner (queue r) (threads r + 1) (tmax r) (pool r ++ [Waiting true]) n (finished r) (submitted r))
(** A waiting thread takes the oldest task. *)
| S_recv r l i l' t q : pool r = l ++ Waiting i :: l' → queue r = t :: q →
    step r (mkRunner q (threads r) (tmax r) (l ++ Running i t :: l') (starting r) (finished r) (submitted r))
| S_finish r l i l' t : pool r = l ++ Running i t :: l' → ends t = true →
    step r (mkRunner (queue r) (threads r) (tmax r) (l ++ Waiting i :: l') (starting r) (finished r ++ [t]) (submitted r))
(** An idle thread times out on an empty queue. *)
| S_timeout r l l' : pool r = l ++ Waiting true :: l' → queue r = [] →
    step r (mkRunner (queue r) (threads r - 1) (tmax r) (l ++ Exited :: l') (starting r) (finished r) (submitted r)).

Definition running (r : BlockingRunner) : list task :=
  omap (λ th, match th with Running _ t => Some t | _ => None end) (pool r).

Definition permanent (th : thread) : bool := match th with Waiting i | Running i _ => negb i | Exited => false end.

(** Every task submitted is queued, running or finished, once; all threads are the first ones, at
    most [tmax], and none is ever started later. *)
Record good (max_threads : nat) (r : BlockingRunner) : Prop := {
  g_tasks : submitted r ≡ₚ finished r ++ running r ++ queue r;
  g_threads : threads r = tmax r ∧ tmax r = Z.of_nat max_threads ∧ length (pool r) = max_threads;
  g_pool : Forall (λ th, permanent th = true) (pool r);
  g_starting : starting r = O
}.

Lemma good_step n r r' : step r r' → good n r → good n r'.
Proof.
  intros Hs [Ht (Hc & Hm & Hl) Hp Hst]. destruct Hs as [t r|r Hw|r m Hm'|r l i l' t q Hpo Hq|r l i l' t Hpo He|r l l' Hpo Hq].
  - split; simpl; [|done|done|done]. change (running (mkRunner _ _ _ _ _ _ _)) with (running r).
    rewrite !(assoc_L (++)). f_equiv. by rewrite <- (assoc_L (++)).
  - exfalso. unfold wants_thread in Hw. apply andb_true_iff in Hw as [_ Hw]. apply Z.ltb_lt in Hw. lia.
  - congruence.
  - split; simpl; [| | |done].
    + unfold running in *. simpl. rewrite Ht, Hpo, Hq, !omap_app. simpl. solve_Permutation.
    + split_and!; [done|done|]. rewrite <- Hl, Hpo, !length_app. done.
    + rewrite Hpo in Hp. apply Forall_app in Hp as [? Hp]. apply Forall_cons in Hp as [? ?].
      apply Forall_app. split; [done|]. by apply Forall_cons.
  - split; simpl; [| | |done].
    + unfold running in *. simpl. rewrite Ht, Hpo, !omap_app. simpl. solve_Permutation.
    + split_and!; [done|done|]. rewrite <- Hl, Hpo, !length_app. done.
    + rewrite Hpo in Hp. apply Forall_app in Hp as [? Hp]. apply Forall_cons in Hp as [? ?].
      apply Forall_app. split; [done|]. by apply Forall_cons.
  - exfalso. rewrite Hpo in Hp. apply Forall_app in Hp as [_ Hp]. by apply Forall_cons in Hp as [? _].
Qed.

Lemma good_new n : good n (runner_new n).
Proof.
  split; simpl; [|by rewrite length_replicate|by apply Forall_replicate|done].
  assert (running (runner_new n) = []) as ->; [|done]. unfold running. simpl. by induction n.
Qed.

(** In every run: tasks are neither lost nor run twice; the threads are those of the constructor,
    none ends and none is ever added (so the idle timeout has no effect); and whenever a task is
    queued and a thread waits, a thread can take one. *)
Theorem runner_invariant n r :
  rtc step (runner_new n) r →
  good n r ∧ wants_thread r = false ∧
  ∀ t q i, queue r = t :: q → Waiting i ∈ pool r → ∃ r', step r r' ∧ queue r' = q ∧ t ∈ running r'.
Proof.
  intros Hr. assert (good n r) as Hg by (eapply (rtc_invariant step (good n)); eauto using good_step, good_new).
  split; [done|]. split.
  - destruct Hg as [_ (Hc & Hm & _) _ _]. unfold wants_thread. rewrite Hc, Z.ltb_irrefl. apply andb_false_r.
  - intros t q i Hq Hin. apply list_elem_of_split in Hin as (l & l' & Hpo). eexists. split; [by eapply S_recv|].
    simpl. split; [done|]. unfold running. simpl. rewrite omap_app. simpl. apply elem_of_app. right. by left.
Qed.

(** Work that remains, in steps of the threads. *)
Definition work (r : BlockingRunner) : nat := 2 * length (queue r) + length (running r).

(** A step of a thread: taking or finishing a task. *)
Inductive thread_step : BlockingRunner → BlockingRunner → Prop :=
| T_recv r l i l' t q : pool r = l ++ Waiting i :: l' → queue r = t :: q →
    thread_step r (mkRunner q (threads r) (tmax r) (l ++ Running i t :: l') (starting r) (finished r) (submitted r))
| T_finish r l i l' t : pool r = l ++ Running i t :: l' → ends t = true →
    thread_step r (mkRunner (queue r) (threads r) (tmax r) (l ++ Waiting i :: l') (starting r) (finished r ++ [t]) (submitted r)).

Lemma thread_step_step r r' : thread_step r r' → step r r'.
Proof. intros [????????|??????]; [by eapply S_recv|by eapply S_finish]. Qed.

Lemma thread_step_work r r' : thread_step r r' → work r = S (work r').
Proof.
  intros [r0 l i l' t q Hpo Hq|r0 l i l' t Hpo He]; unfold work, running; simpl; rewrite ?Hq, Hpo, !omap_app, !length_app; simpl; lia.
Qed.

Lemma thread_step_submitted r r' : thread_step r r' → submitted r' = submitted r.
Proof. by intros []. Qed.

Lemma thread_steps_work k r r' : nsteps thread_step k r r' → work r = (k + work r')%nat.
Proof.
  intros Hk. induction Hk as [r|k r r1 r' Hs Hk IH]; [done|]. rewrite (thread_step_work _ _ Hs), IH. done.
Qed.

(** Where the threads stop: each waits or runs a task that does not end, and none waits while a task
    is queued. *)
Lemma stopped_pool n r :
  good n r → (∀ r', ¬ thread_step r r') →
  Forall (λ t, ends t = false) (running r) ∧ (queue r = [] ∨ length (running r) = n).
Proof.
  intros [_ (_ & _ & Hl) Hp _] Hstop.
  assert (∀ th, th ∈ pool r → (∃ i, th = Waiting i) ∨ ∃ i t, th = Running i t ∧ ends t = false) as Hth.
  { intros th Hin. rewrite Forall_forall in Hp. pose proof (Hp th Hin) as Hperm.
    destruct th as [i|i t|]; [by left; exists i| |done]. right. exists i, t. split; [done|].
    apply not_true_iff_false. intros He. apply list_elem_of_split in Hin as (l & l' & Hpo). by eapply Hstop, T_finish. }
  split.
  - apply Forall_forall. unfold running. intros t (th & Hin & Ht)%list_elem_of_omap.
    destruct (Hth th Hin) as [[i ->]|(i & t' & -> & He)]; [done|]. by simplify_eq/=.
  - destruct (queue r) as [|t q] eqn:Hq; [by left|]. right. rewrite <-Hl.
    assert (∀ th, th ∈ pool r → ∃ i t, th = Running i t) as Hall.
    { intros th Hin. destruct (Hth th Hin) as [[i ->]|(i & t' & -> & _)]; [|eauto].
      apply list_elem_of_split in Hin as (l & l' & Hpo). exfalso. by eapply Hstop, T_recv. }
    unfold running. clear -Hall. induction (pool r) as [|th p IH]; [done|]. simpl.
    destruct (Hall th) as (i & t & ->); [by left|]. simpl. f_equal. apply IH. intros th' Hin. apply Hall. by right.
Qed.

(** C13: what the pool does with its tasks.  Without further submissions every step of the threads, in
    any order, takes one off the work that is left, so that they stop after at most that many; and then
    every task submitted has run once, runs and does not end, or is queued, the last only if all threads
    are taken by tasks that do not end.  So if all tasks end (which a Python handler need not), the
    threads stop after exactly the work there was, with every task run once.  At least one thread is
    needed for that. *)
Theorem runner_drains n r :
  (0 < n)%nat → rtc step (runner_new n) r →
  ∀ k r', nsteps thread_step k r r' →
    work r = (k + work r')%nat ∧
    ((∀ r'', ¬ thread_step r' r'') →
       submitted r ≡ₚ finished r' ++ running r' ++ queue r' ∧
       Forall (λ t, ends t = false) (running r') ∧ (queue r' = [] ∨ length (running r') = n) ∧
       (Forall (λ t, ends t = true) (submitted r) → k = work r ∧ finished r' ≡ₚ submitted r)).
Proof.
  intros Hn Hr k r' Hk. pose proof (thread_steps_work k r r' Hk) as Hw. split; [done|]. intros Hstop.
  assert (rtc thread_step r r') as Hrtc by (apply rtc_nsteps; eauto). clear Hk. rename Hrtc into Hk. assert (rtc step (runner_new n) r') as Hreach.
  { transitivity r; [done|]. clear -Hk. induction Hk; [done|]. eapply rtc_l; [by apply thread_step_step|done]. }
  assert (submitted r' = submitted r) as Hsub.
  { clear -Hk. induction Hk as [|r r1 r' Hs Hr' IH]; [done|]. by rewrite IH, (thread_step_submitted _ _ Hs). }
  destruct (runner_invariant n r' Hreach) as (Hg & _ & _). pose proof (g_tasks _ _ Hg) as Ht. rewrite Hsub in Ht.
  destruct (stopped_pool n r' Hg Hstop) as [Hrun Hq]. split_and!; [done..|].
  intros Hends. rewrite Ht, !Forall_app in Hends. destruct Hends as (_ & Hends & _).
  assert (running r' = []) as Hr0.
  { destruct (running r') as [|t l]; [done|]. apply Forall_cons in Hrun as [? _]. apply Forall_cons in Hends as [? _]. congruence. }
  assert (queue r' = []) as Hq0 by (destruct Hq as [|Hq]; [done|]; rewrite Hr0 in Hq; simpl in Hq; lia).
  rewrite Hr0, Hq0, !app_nil_r in Ht. split; [|done]. unfold work in *. rewrite Hr0, Hq0 in Hw. simpl in Hw. lia.
Qed.
End runner.

(** Two tasks, one thread. *)
Definition demo_runner : BlockingRunner (task := nat) :=
  mkRunner [1; 2]%nat 1 1 [Waiting false] 0 [] [1; 2]%nat.

Lemma demo_reached ends : rtc (step ends) (runner_new 1) demo_runner.
Proof. eapply rtc_l; [apply (S_send ends 1%nat)|]. eapply rtc_l; [apply (S_send ends 2%nat)|]. apply rtc_refl. Qed.

(** Both end; and the first does not, so that the second is never taken. *)
Definition demo_done : BlockingRunner (task := nat) := mkRunner [] 1 1 [Waiting false] 0 [1; 2]%nat [1; 2]%nat.
Definition demo_stuck : BlockingRunner (task := nat) := mkRunner [2]%nat 1 1 [Running false 1%nat] 0 [] [1; 2]%nat.

Lemma single_running (l l' : list (thread (task := nat))) th x : [th] = l ++ x :: l' → x = th.
Proof. destruct l as [|y [|]]; simpl; congruence. Qed.

Lemma demo_done_run : nsteps (thread_step (λ _, true)) 4 demo_runner demo_done.
Proof.
  eapply nsteps_l; [apply (T_recv _ demo_runner [] false [] 1%nat [2%nat]); reflexivity|].
  eapply nsteps_l; [eapply (T_finish _ _ [] false [] 1%nat); reflexivity|].
  eapply nsteps_l; [eapply (T_recv _ _ [] false [] 2%nat []); reflexivity|].
  eapply nsteps_l; [eapply (T_finish _ _ [] false [] 2%nat); reflexivity|]. apply nsteps_O.
Qed.

Lemma runner_drains_witness :
  finished demo_done ≡ₚ submitted demo_runner ∧ work demo_runner = 4%nat ∧
  Forall (λ t, negb (t =? 1)%nat = false) (running demo_stuck) ∧ (queue demo_stuck = [] ∨ length (running demo_stuck) = 1%nat).
Proof.
  assert (rtc (step (λ t, negb (t =? 1)%nat)) (runner_new 1) demo_runner) as Hr1 by apply demo_reached.
  assert (nsteps (thread_step (λ t, negb (t =? 1)%nat)) 1 demo_runner demo_stuck) as Hs1.
  { eapply nsteps_l; [apply (T_recv _ demo_runner [] false [] 1%nat [2%nat]); reflexivity|]. apply nsteps_O. }
  destruct (runner_drains (λ _, true) 1 demo_runner ltac:(lia) (demo_reached _) 4 demo_done demo_done_run) as [_ H].
  destruct (runner_drains (λ t, negb (t =? 1)%nat) 1 demo_runner ltac:(lia) Hr1 1 demo_stuck Hs1) as [_ H1].
  destruct H as (_ & _ & _ & H).
  { intros r'' Hs. inversion Hs as [? ? ? ? ? ? Hp Hq|? ? ? ? ? Hp He]; subst; [discriminate Hq|].
    apply single_running in Hp. discriminate. }
  destruct (H ltac:(by repeat constructor)) as [Hk Hf].
  destruct H1 as (_ & H2 & H3 & _).
  { intros r'' Hs. inversion Hs as [? ? ? ? ? ? Hp|? ? ? ? ? Hp He]; subst; apply single_running in Hp; [discriminate|].
    injection Hp as -> ->. discriminate He. }
  split_and!; [exact Hf|reflexivity|exact H2|exact H3].
Defined.

Lemma runner_invariant_witness : good 1 demo_runner ∧ wants_thread demo_runner = false.
Proof. destruct (runner_invariant (λ _, true) 1 demo_runner (demo_reached _)) as (H1 & H2 & _). by split. Defined.

(** Without threads nothing runs and none is started. *)
Lemma no_threads_no_work ends (r : BlockingRunner (task := nat)) :
  rtc (step ends) (runner_new 0) r → finished r = [] ∧ running r = [].
Proof.
  intros Hr. assert (good 0 r) as Hg by (eapply (rtc_invariant (step ends) (good 0)); eauto using good_step, good_new).
  assert (finished r = [] ∧ good 0 r) as [Hf _].
  { eapply (rtc_invariant (step ends) (λ r, finished r = [] ∧ good 0 r)); [|exact Hr|split; [done|apply good_new]].
    intros s s' Hs [Hf Hg']. split; [|by eapply good_step]. destruct Hs; simpl in *; try done.
    destruct Hg' as [_ (_ & _ & Hl) _ _]. rewrite H, length_app in Hl. simpl in Hl. lia. }
  split; [done|]. destruct Hg as [_ (_ & _ & Hl) _ _]. unfold running. by destruct (pool r).
Qed.
