(* ===== verification/Streams.v ===== *)
(** Streaming responses and generators of events (src/src/http/streaming.rs), and the methods of
    [Response] that need them or the file system (src/src/http/response.rs). *)
From S2P Require Import Prelude F64 Sse Response StaticFiles PyValue.
From stdpp Require Import base gmap strings list.
Open Scope Z_scope.

(** * The raw stream *)

(** The queue of a bounded channel whose receiver is alive, of [tokio::sync::mpsc]: sending
    succeeds while there is room, receiving takes from the front. *)
Class FifoMpsc `{MP : Mpsc} := {
  queue : mchan → list string;
  room : mchan → Z;
  alive : mchan → Prop;
  fifo_new n c : mpsc_channel n = Some c → 0 < n ∧ alive c ∧ queue c = [] ∧ room c = n;
  fifo_send c b : alive c →
    alive (try_send c b).1 ∧
    (try_send c b).2 = (0 <? room c) ∧
    (0 < room c → queue (try_send c b).1 = queue c ++ [b] ∧ room (try_send c b).1 = room c - 1) ∧
    (room c ≤ 0 → queue (try_send c b).1 = queue c ∧ room (try_send c b).1 = room c);
  fifo_recv c : alive c →
    alive (poll_recv c).1 ∧
    match queue c with
    | [] => (poll_recv c).2 = Pending ∧ queue (poll_recv c).1 = [] ∧ room (poll_recv c).1 = room c
    | b :: q => (poll_recv c).2 = Ready (Some b) ∧ queue (poll_recv c).1 = q ∧
                room (poll_recv c).1 = room c + 1
    end
}.

Section raw.
Context `{MP : Mpsc}.

(** The handle, with the channel and the flag that the body shares. *)
Record StreamingResponse := mkStreamingResponse {
  sr_sender : mchan;
  sr_closed : bool;
  sr_type : string
}.

(** [py_new]: the receiver is a local variable of the constructor. *)
Definition streaming_py_new (content_type : string) (buffer_size : Z) : option StreamingResponse :=
  c ← mpsc_channel buffer_size; Some (mkStreamingResponse (drop_receiver c) false content_type).

(** [StreamingBody::new]: the body keeps the receiver. *)
Definition streaming_body_new (buffer_size : Z) (content_type : string) : option StreamingResponse :=
  c ← mpsc_channel buffer_size; Some (mkStreamingResponse c false content_type).

Definition write (b : string) (s : StreamingResponse) : StreamingResponse * bool :=
  if sr_closed s then (s, false)
  else
    let '(c, ok) := try_send (sr_sender s) b in (mkStreamingResponse c (sr_closed s) (sr_type s), ok).

Definition write_str (d : string) : StreamingResponse → StreamingResponse * bool := write d.
Definition write_line (d : string) : StreamingResponse → StreamingResponse * bool := write (d +:+ lfs).
Definition flush (s : StreamingResponse) : StreamingResponse := s.
Definition close_stream (s : StreamingResponse) : StreamingResponse :=
  mkStreamingResponse (sr_sender s) true (sr_type s).

(** [StreamingBody::poll_next]: the flag is looked at before the queue. *)
Definition poll_body (s : StreamingResponse) : StreamingResponse * Poll :=
  if sr_closed s then (s, Ready None)
  else
    let '(c, p) := poll_recv (sr_sender s) in
    (mkStreamingResponse c (sr_closed s) (sr_type s), p).

(** Calls of the handler and polls of the server, in the order they happen. *)
Inductive raw_op := Write (b : string) | WriteLine (d : string) | Flush | CloseStream | PollBody.

(** A run collects the chunks that were accepted and those that reached the server. *)
Record Run := mkRun { r_stream : StreamingResponse; accepted : list string; received : list string }.

Definition raw_step (o : raw_op) (r : Run) : Run :=
  let put b :=
    let '(s, ok) := write b (r_stream r) in
    mkRun s (if ok then accepted r ++ [b] else accepted r) (received r) in
  match o with
  | Write b => put b
  | WriteLine d => put (d +:+ lfs)
  | Flush => mkRun (flush (r_stream r)) (accepted r) (received r)
  | CloseStream => mkRun (close_stream (r_stream r)) (accepted r) (received r)
  | PollBody =>
      let '(s, p) := poll_body (r_stream r) in
      mkRun s (accepted r) (match p with Ready (Some b) => received r ++ [b] | _ => received r end)
  end.

Definition raw_run (ops : list raw_op) (s : StreamingResponse) : Run :=
  foldl (λ r o, raw_step o r) (mkRun s [] []) ops.
End raw.

(** * Generators of events *)

(** What a generator yields: an [SSEEvent] of the module, or another Python value. *)
Inductive sse_item := ItemEvent (e : SSEEvent) | ItemPy (v : py).

(** [dict.get_item] with a string key. *)
Definition dict_get (k : string) (d : list (py * py)) : option py :=
  snd <$> List.find (λ kv : py * py, match kv.1 with PStr k' => String.eqb k k' | _ => false end) d.

(** [.map(extract).transpose()?]: an absent key is fine, a value of another type raises. *)
Definition transpose {A} (extract : py → option A) (v : option py) : result string (option A) :=
  match v with
  | None => Ok None
  | Some x => match extract x with Some a => Ok (Some a) | None => Err "TypeError" end
  end.

(** [extract::<Option<A>>()] whose failure is discarded. *)
Definition extract_opt {A} (extract : py → option A) (v : option py) : option A :=
  match v with Some PNone | None => None | Some x => extract x end.

Section generator.
(** [str(value)] and [getattr(value, name)]: code of the value's class. *)
Context (py_str : py → result string string) (getattr : py → string → option py).
(** What [check_signals] answers after each item. *)
Context (signal : nat → option string).

Definition event_of_dict (d : list (py * py)) : result string SSEEvent :=
  da ← transpose extract_string (dict_get "data" d);
  ev ← transpose extract_string (dict_get "event" d);
  i ← transpose extract_string (dict_get "id" d);
  r ← transpose extract_u64 (dict_get "retry" d);
  Ok (mkSSEEvent i ev (default "" da) r).

Definition event_of_object (v da : py) : result string SSEEvent :=
  match extract_string da with
  | None => Err "TypeError"
  | Some d =>
      Ok (mkSSEEvent (extract_opt extract_string (getattr v "id"))
            (extract_opt extract_string (getattr v "event")) d
            (extract_opt extract_u64 (getattr v "retry")))
  end.

Definition event_of_item (it : sse_item) : result string SSEEvent :=
  match it with
  | ItemEvent e => Ok e
  | ItemPy (PDict d) => event_of_dict d
  | ItemPy (PStr s) => Ok (data_event s)
  | ItemPy v =>
      match getattr v "data" with
      | Some da => event_of_object v da
      | None => s ← py_str v; Ok (data_event s)
      end
  end.

(** The generator as what its [__next__] gives: items, and possibly an exception. *)
Fixpoint collect_from (i : nat) (gen : list (result string sse_item)) : result string (list SSEEvent) :=
  match gen with
  | [] => Ok []
  | it :: gen' =>
      v ← it;
      e ← event_of_item v;
      match signal i with
      | Some x => Err x
      | None => es ← collect_from (S i) gen'; Ok (e :: es)
      end
  end.

Definition collect_sse_from_generator (gen : list (result string sse_item)) : result string (list string) :=
  es ← collect_from 0%nat gen; Ok (List.map format es).

Definition sse_collect (gen : list (result string sse_item)) (s : ResponseSlot) : result string ResponseSlot :=
  events ← collect_sse_from_generator gen;
  Ok (mark_ready (set_body (str_join "" events) (with_sse_headers s))).

(** [Response::sse_stream] converts without the attribute lookup and looks at strings first. *)
Definition stream_event_of_item (it : sse_item) : result string SSEEvent :=
  match it with
  | ItemEvent e => Ok e
  | ItemPy (PStr s) => Ok (data_event s)
  | ItemPy (PDict d) => event_of_dict d
  | ItemPy v => s ← py_str v; Ok (data_event s)
  end.

Fixpoint stream_collect (gen : list (result string sse_item)) : result string (list SSEEvent) :=
  match gen with
  | [] => Ok []
  | it :: gen' =>
      v ← it; e ← stream_event_of_item v; es ← stream_collect gen'; Ok (e :: es)
  end.

Definition sse_stream_gen (gen : list (result string sse_item)) (s : ResponseSlot) : result string ResponseSlot :=
  es ← stream_collect gen; Ok (sse_stream es s).
End generator.

(** * Further methods of [Response] *)

Definition status : Z → ResponseSlot → ResponseSlot := set_status.
Definition header : string → string → ResponseSlot → ResponseSlot := add_header.
Definition set : string → string → ResponseSlot → ResponseSlot := add_header.
Definition location (url : string) : ResponseSlot → ResponseSlot := add_header "Location" url.
Definition last_modified (date : string) : ResponseSlot → ResponseSlot := add_header "Last-Modified" date.
Definition expires (date : string) : ResponseSlot → ResponseSlot := add_header "Expires" date.
Definition type_ (t : string) : ResponseSlot → ResponseSlot := add_header "Content-Type" t.
Definition body : string → ResponseSlot → ResponseSlot := set_body.
Definition body_str : string → ResponseSlot → ResponseSlot := set_body.
Definition write_body : string → ResponseSlot → ResponseSlot := set_body.
Definition finish : ResponseSlot → ResponseSlot := mark_ready.

(** [headers]: the entries before a value that is not a string are already added when it raises. *)
Fixpoint headers (d : list (py * py)) (s : ResponseSlot) : ResponseSlot * result string unit :=
  match d with
  | [] => (s, Ok ())
  | (k, v) :: d' =>
      match extract_string k, extract_string v with
      | Some k, Some v => headers d' (add_header k v s)
      | _, _ => (s, Err "TypeError")
      end
  end.

(** The entries of [links_data] that a dict gives. *)
Fixpoint link_entries (d : list (py * py)) : option (list (string * string)) :=
  match d with
  | [] => Some []
  | (rel, url) :: d' =>
      r ← extract_string rel; u ← extract_string url; l ← link_entries d'; Some ((r, u) :: l)
  end.
Definition links_dict (d : list (py * py)) (s : ResponseSlot) : result string ResponseSlot :=
  match link_entries d with Some l => Ok (links l s) | None => Err "TypeError" end.

(** The [match] on the extension, which looks at lower-case letters only. *)
Definition mime_table : list (string * string) :=
  [("html", "text/html"); ("htm", "text/html"); ("css", "text/css"); ("js", "application/javascript");
   ("json", "application/json"); ("xml", "application/xml"); ("txt", "text/plain");
   ("png", "image/png"); ("jpg", "image/jpeg"); ("jpeg", "image/jpeg"); ("gif", "image/gif");
   ("svg", "image/svg+xml"); ("pdf", "application/pdf"); ("zip", "application/zip");
   ("mp3", "audio/mpeg"); ("mp4", "video/mp4"); ("webp", "image/webp"); ("woff", "font/woff");
   ("woff2", "font/woff2")].
Definition guess_mime (path : string) : string :=
  match List.find (λ em : string * string, String.eqb (extension path) em.1) mime_table with
  | Some em => em.2
  | None => "application/octet-stream"
  end.

(** [Path::file_name], which is [None] at a path that ends in [..]. *)
Definition download_name (path : string) (filename : option string) : string :=
  match filename with
  | Some f => f
  | None => let n := file_name path in if String.eqb n "" || String.eqb n ".." then "download" else n
  end.

Definition send_file (fs : Fs) (path : string) (filename mime : option string) (s : ResponseSlot)
    : result string ResponseSlot :=
  match fs path with
  | None => Err ("FileNotFoundError: File not found: " +:+ path)
  | Some Directory | Some (Regular _ _ false) => Err "OSError"
  | Some (Regular contents _ true) =>
      let s := add_header "Content-Type" (default (guess_mime path) mime) s in
      let s := add_header "Content-Disposition"
                 ("attachment; filename=" +:+ quoted (download_name path filename)) s in
      Ok (mark_ready (set_body contents s))
  end.

Definition download (fs : Fs) (path : string) (filename : option string) : ResponseSlot → result string ResponseSlot :=
  send_file fs path filename None.

(** * Proofs *)

Section fifo.
Context `{FM : FifoMpsc}.

(** While the stream is open, what was accepted is what was received and what is queued. *)
Definition run_inv (n : Z) (r : Run) : Prop :=
  alive (sr_sender (r_stream r)) ∧
  0 ≤ room (sr_sender (r_stream r)) ∧
  room (sr_sender (r_stream r)) + Z.of_nat (length (queue (sr_sender (r_stream r)))) = n ∧
  accepted r = received r ++ queue (sr_sender (r_stream r)).

Lemma write_inv n b r : run_inv n r → run_inv n (raw_step (Write b) r).
Proof.
  intros (Ha & Hr & Hn & Hq). cbn [raw_step]. unfold write.
  destruct (sr_closed (r_stream r)) eqn:Hc; [by split_and!|].
  destruct (fifo_send (sr_sender (r_stream r)) b Ha) as (Ha' & Hok & Hroom & Hfull).
  destruct (try_send (sr_sender (r_stream r)) b) as [c ok]. cbn [fst snd] in *. subst ok.
  unfold run_inv. cbn [r_stream sr_sender accepted received].
  destruct (Z.ltb_spec 0 (room (sr_sender (r_stream r)))) as [Hlt|Hge].
  - destruct (Hroom Hlt) as [-> ->]. rewrite length_app. cbn [length].
    split_and!; [done|lia|lia|]. by rewrite Hq, (assoc_L (++)).
  - destruct (Hfull Hge) as [-> ->]. by split_and!.
Qed.

Lemma poll_inv n r : run_inv n r → run_inv n (raw_step PollBody r).
Proof.
  intros (Ha & Hr & Hn & Hq). cbn [raw_step]. unfold poll_body.
  destruct (sr_closed (r_stream r)) eqn:Hc; [done|].
  destruct (fifo_recv (sr_sender (r_stream r)) Ha) as (Ha' & Hp).
  destruct (poll_recv (sr_sender (r_stream r))) as [c p]. cbn [fst snd] in *.
  unfold run_inv. cbn [r_stream sr_sender accepted received].
  destruct (queue (sr_sender (r_stream r))) as [|b q].
  - destruct Hp as (-> & -> & ->). by split_and!.
  - destruct Hp as (-> & -> & ->). cbn [length] in Hn. split_and!; [done|lia|lia|].
    by rewrite Hq, <- (assoc_L (++)).
Qed.

Lemma raw_step_inv n o r : run_inv n r → run_inv n (raw_step o r).
Proof.
  destruct o as [b|d| | |]; [apply write_inv|apply (write_inv _ (d +:+ lfs))|done|done|apply poll_inv].
Qed.

Lemma raw_run_inv n ops r : run_inv n r → run_inv n (foldl (λ r o, raw_step o r) r ops).
Proof. revert r. induction ops as [|o ops IH]; intros r Hr; [done|]. by apply IH, raw_step_inv. Qed.

Lemma raw_closed_step o r : sr_closed (r_stream r) = true → raw_step o r = r.
Proof.
  destruct r as [[c cl t] a re]. cbn [r_stream sr_closed]. intros ->. by destruct o.
Qed.

Lemma closed_run ops r :
  sr_closed (r_stream r) = true → foldl (λ r o, raw_step o r) r ops = r.
Proof. intros Hc. induction ops as [|o ops IH]; [done|]. cbn [foldl]. by rewrite raw_closed_step. Qed.

(** A streaming body is a bounded queue: whatever the interleaving of writes and polls, the
    chunks that were accepted are those the server received, in order and once each, followed by
    at most [buffer_size] queued ones; a write answers true exactly when there is room on an open
    stream; after [close] every write is refused and every poll ends the body, so what is still
    queued is never sent. *)
Theorem stream_fifo n t s ops :
  streaming_body_new n t = Some s →
  let r := raw_run ops s in
  let c := sr_sender (r_stream r) in
  accepted r = received r ++ queue c ∧ Z.of_nat (length (queue c)) ≤ n ∧
  (∀ b, (write b (r_stream r)).2 =
        negb (sr_closed (r_stream r)) && (Z.of_nat (length (queue c)) <? n)) ∧
  (∀ ops', let r' := foldl (λ r o, raw_step o r) (raw_step CloseStream r) ops' in
     accepted r' = accepted r ∧ received r' = received r ∧ poll_body (r_stream r') = (r_stream r', Ready None)).
Proof.
  intros Hs r c. unfold streaming_body_new in Hs.
  destruct (mpsc_channel n) as [c0|] eqn:E; [|done]. injection Hs as <-.
  destruct (fifo_new n c0 E) as (Hpos & Ha & Hq & Hr).
  destruct (raw_run_inv n ops (mkRun (mkStreamingResponse c0 false t) [] [])) as (Ha' & H0 & Hn & Hacc).
  { unfold run_inv. cbn [r_stream sr_sender accepted received]. rewrite Hq. cbn [length].
    split_and!; [done|lia|lia|done]. }
  fold (raw_run ops (mkStreamingResponse c0 false t)) in *. fold r in Ha', H0, Hn, Hacc. fold c in Ha', H0, Hn, Hacc.
  split_and!; [done|lia| |].
  - intros b. unfold write. destruct (sr_closed (r_stream r)); [done|]. fold c.
    destruct (fifo_send c b Ha') as (_ & Hok & _). destruct (try_send c b). cbn [snd] in *. rewrite Hok.
    cbn [negb andb]. repeat case_match; destruct (Z.ltb_spec 0 (room c)), (Z.ltb_spec (Z.of_nat (length (queue c))) n);
      try done; lia.
  - intros ops'. cbv zeta. rewrite closed_run by done. done.
Qed.
End fifo.

(** * Generators *)

Section events.
Context (py_str : py → result string string) (getattr : py → string → option py) (signal : nat → option string).

Notation event_of := (event_of_item py_str getattr).

(** The outcome of each item, the signal after it included. *)
Definition outcome (i : nat) (it : result string sse_item) : result string SSEEvent :=
  v ← it; e ← event_of v; match signal i with Some x => Err x | None => Ok e end.

Lemma collect_from_spec i gen :
  collect_from py_str getattr signal i gen =
    match gen with
    | [] => Ok []
    | it :: gen' => e ← outcome i it; es ← collect_from py_str getattr signal (S i) gen'; Ok (e :: es)
    end.
Proof.
  destruct gen as [|[v|e] gen]; [done| |done]. unfold outcome. cbn [collect_from mbind result_bind].
  destruct (event_of v); [|done]. cbn. by destruct (signal i).
Qed.

Lemma collect_ok i gen es :
  (∀ k it, gen !! k = Some it → ∃ e, es !! k = Some e ∧ outcome (i + k) it = Ok e) →
  length es = length gen →
  collect_from py_str getattr signal i gen = Ok es.
Proof.
  revert i es. induction gen as [|it gen IH]; intros i es H Hl; [by destruct es|].
  destruct es as [|e es]; [done|]. rewrite collect_from_spec.
  destruct (H 0%nat it eq_refl) as (e' & He & Ho). injection He as ->. rewrite Nat.add_0_r in Ho. rewrite Ho.
  cbn [mbind result_bind]. rewrite (IH (S i) es); [done| |by injection Hl].
  intros k it' Hk. destruct (H (S k) it' Hk) as (e'' & He' & Ho'). exists e''.
  by rewrite Nat.add_succ_r in Ho'.
Qed.

Lemma collect_err i pre it gen (es : list SSEEvent) x :
  (∀ k it', pre !! k = Some it' → ∃ e, es !! k = Some e ∧ outcome (i + k) it' = Ok e) →
  outcome (i + length pre) it = Err x →
  collect_from py_str getattr signal i (pre ++ it :: gen) = Err x.
Proof.
  revert i es. induction pre as [|p pre IH]; intros i es H Hx.
  - cbn [app length] in *. rewrite collect_from_spec. rewrite Nat.add_0_r in Hx. by rewrite Hx.
  - rewrite <- app_comm_cons, collect_from_spec. destruct (H 0%nat p eq_refl) as (e' & _ & Ho).
    rewrite Nat.add_0_r in Ho. rewrite Ho. cbn [mbind result_bind]. cbn [length] in Hx.
    rewrite Nat.add_succ_r in Hx. rewrite (IH (S i) (tail es)); [done| |done].
    intros k it' Hk. destruct (H (S k) it' Hk) as (e & He & Ho'). exists e.
    rewrite Nat.add_succ_r in Ho'. by destruct es.
Qed.

(** [sse_collect] is all or nothing.  When every item of the generator converts, the body of the
    response makes a client of the HTML standard deliver exactly the events, in order, and the
    response is ready; at the first item that raises (or that does not convert, or after which a
    signal is pending) the call raises that error and no event is sent, whatever came before. *)
Theorem sse_collect_outcome pre es s :
  (∀ k it, pre !! k = Some it → ∃ e, es !! k = Some e ∧ outcome k it = Ok e) →
  length es = length pre →
  Forall event_ok es →
  (∃ s' b, sse_collect py_str getattr signal pre s = Ok s' ∧ s_body s' = Buffered b ∧ ready s' = true ∧
     receive b client_new = foldl deliver client_new es) ∧
  (∀ it gen x, outcome (length pre) it = Err x →
     sse_collect py_str getattr signal (pre ++ it :: gen) s = Err x).
Proof.
  intros H Hl Hok. split.
  - unfold sse_collect, collect_sse_from_generator. rewrite (collect_ok 0 pre es) by done.
    eexists _, _. split_and!; [done|done|done|]. by apply receive_events.
  - intros it gen x Hx. unfold sse_collect, collect_sse_from_generator.
    by rewrite (collect_err 0 pre it gen es x).
Qed.
End events.

(** A key that is present with [None] is not the same as an absent key. *)
Lemma none_event_raises d :
  dict_get "event" d = Some PNone → is_ok (event_of_dict d) = false.
Proof.
  intros H. unfold event_of_dict. rewrite H. by destruct (transpose extract_string (dict_get "data" d)).
Qed.

(** A quote in the file name ends the quoted string of the header. *)
Lemma quote_ends_filename s :
  List.In ("Content-Disposition",
           "attachment; filename=" +:+ quoted ("a" +:+ String dquote "; filename=" +:+ String dquote "b.sh"))
    (match send_file (λ _, Some (Regular "" None true)) "r.txt"
             (Some ("a" +:+ String dquote "; filename=" +:+ String dquote "b.sh")) None s
     with Ok s' => s_headers s' | Err _ => [] end).
Proof. cbn. rewrite in_app_iff. right. by left. Qed.

(** [send_file] writes to the slot only when the file was read; then it is the whole body. *)
Lemma send_file_spec fs path filename mime s :
  match send_file fs path filename mime s with
  | Ok s' => ∃ b m, fs path = Some (Regular b m true) ∧ s_body s' = Buffered b ∧ ready s' = true ∧
               s_headers s' = s_headers s ++
                 [("Content-Type", default (guess_mime path) mime);
                  ("Content-Disposition", "attachment; filename=" +:+ quoted (download_name path filename))]
  | Err _ => ∀ b m, fs path ≠ Some (Regular b m true)
  end.
Proof.
  unfold send_file. destruct (fs path) as [[|b m []]|]; [done| |done|done].
  eexists _, _. split_and!; [done|done|done|]. cbn. by rewrite <- (assoc_L (++)).
Qed.

(** * Witnesses *)

#[refine] Instance queue_FifoMpsc : FifoMpsc := {
  queue c := c.1.2;
  room c := Z.of_nat c.1.1 - Z.of_nat (length c.1.2);
  alive c := c.2 = true
}.
Proof.
  - intros n c. cbn. destruct (Z.ltb_spec 0 n); [|done]. intros [= <-]. cbn. split_and!; [done..|lia].
  - intros [[k q] al] b. cbn [snd fst try_send queue_Mpsc]. intros ->. rewrite andb_true_l.
    destruct (Nat.ltb_spec (length q) k) as [Hlt|Hge]; cbn [fst snd].
    + split_and!; [done|symmetry; apply Z.ltb_lt; lia| |lia]. intros _. rewrite length_app. cbn [length]. split; [done|lia].
    + split_and!; [done|symmetry; apply Z.ltb_ge; lia|lia|done].
  - intros [[k [|b q]] al]; cbn; intros ->; split_and!; try done. lia.
Defined.

Lemma stream_fifo_witness :
  let r := raw_run [Write "a"; PollBody; WriteLine "b"; Write "c"; Write "d"] (mkStreamingResponse (2%nat, [], true) false "") in
  accepted r = received r ++ queue (sr_sender (r_stream r)) ∧ accepted r = ["a"; "b" +:+ lfs; "c"].
Proof.
  split; [|vm_compute; reflexivity].
  refine (proj1 (stream_fifo 2 "" (mkStreamingResponse (2%nat, [], true) false "")
            [Write "a"; PollBody; WriteLine "b"; Write "c"; Write "d"] _)). reflexivity.
Defined.

Definition no_attr (v : py) (n : string) : option py := None.

Lemma sse_collect_outcome_witness :
  let items := [Ok (ItemEvent demo_event); Ok (ItemPy (PDict [(PStr "data", PStr "x")]))] in
  let collect := sse_collect (λ _, Ok "?") no_attr (λ _, None) in
  collect (items ++ [Ok (ItemPy (PDict [(PStr "event", PNone)]))]) slot_new = Err "TypeError" ∧
  ∃ s' b, collect items slot_new = Ok s' ∧ s_body s' = Buffered b ∧
    receive b client_new = foldl deliver client_new [demo_event; data_event "x"].
Proof.
  intros items collect.
  destruct (sse_collect_outcome (λ _, Ok "?") no_attr (λ _, None) items [demo_event; data_event "x"] slot_new)
    as [(s' & b & H1 & H2 & _ & H3) He].
  - intros [|[|k]] it Hk; [| |done]; injection Hk as <-; eexists; (split; [reflexivity|vm_compute; reflexivity]).
  - reflexivity.
  - apply Forall_cons; split; [|apply Forall_cons; split; [|apply Forall_nil; exact I]];
      (split_and!; [intros ? [= <-]; split|intros ? [= <-]|intros ? [= <-]; unfold is_u64, u64_max; lia|];
       vm_compute; reflexivity).
  - split; [apply He; vm_compute; reflexivity|]. exists s', b. auto.
Defined.
