(* ===== verification/Uploads.v ===== *)
(** Saving uploaded files: [UploadedFile::save] and [save_to] of src/src/http/multipart.rs, over
    a tree of directories and regular files, without symbolic links.  What the operating system refuses
    (permissions, a read-only file system, a name that is too long) is a parameter. *)
From S2P Require Import Prelude Multipart StaticFiles.
From stdpp Require Import base gmap strings list.
Open Scope Z_scope.

(** * The file system *)

(** A location is the list of its names, the last one first; [[]] is the root. *)
Notation loc := (list string).
Inductive entry := Dir | File (content : string).
Notation Tree := (gmap loc entry).
#[export] Instance entry_eq_dec : EqDecision entry.
Proof. solve_decision. Defined.

(** The components of a path: empty ones and [.] are dropped. *)
Definition components (path : string) : list string :=
  filter (λ c, c ≠ "" ∧ c ≠ ".") (str_split "/" path).

(** [PathBuf::push]: an absolute path replaces what it is joined to. *)
Definition path_join (dir path : string) : string :=
  if starts_with "/" path then path else join_path dir path.

(** A path that ends in a slash, [.] or [..] can only name a directory. *)
Definition names_file (path : string) : bool :=
  match last (str_split "/" path) with
  | Some c => negb (String.eqb c "" || String.eqb c "." || String.eqb c "..")
  | None => false
  end.

Definition down (cur : loc) (c : string) : loc := if String.eqb c ".." then tail cur else c :: cur.

(** Looking a name up in a directory, making a directory, opening a file for writing. *)
Inductive access := Search | Make | Open.

Section saving.
(** The working directory, what the operating system refuses, and where a full disk or an I/O error
    stops a write ([None] when nothing does). *)
Context (cwd : loc) (deny : access → loc → bool) (limit : option nat).

(** Name resolution: every component but the last is looked up in a directory. *)
Fixpoint walk (t : Tree) (cur : loc) (cs : list string) : option loc :=
  match cs with
  | [] => Some cur
  | c :: cs' =>
      match t !! cur with
      | Some Dir => if deny Search cur then None else walk t (down cur c) cs'
      | _ => None
      end
  end.

Definition start (path : string) : loc := if starts_with "/" path then [] else cwd.

Definition lookup_path (t : Tree) (path : string) : option entry :=
  match walk t (start path) (components path) with
  | Some l => t !! l
  | None => None
  end.

(** [Path::exists] *)
Definition path_exists (t : Tree) (path : string) : bool :=
  negb (str_is_empty path) &&
  match lookup_path t path with
  | None => false
  | Some Dir => true
  | Some (File _) => names_file path
  end.

(** [fs::create_dir_all] of the components [cs] below the directory [cur]: what it created before an
    error stays. *)
Fixpoint create_dir_all (t : Tree) (cur : loc) (cs : list string) : Tree * bool :=
  match cs with
  | [] => (t, true)
  | c :: cs' =>
      let next := down cur c in
      if deny Search cur then (t, false)
      else
        match t !! next with
        | Some Dir => create_dir_all t next cs'
        | Some (File _) => (t, false)
        | None => if deny Make next then (t, false) else create_dir_all (<[next := Dir]> t) next cs'
        end
  end.

(** [File::create] truncates the file, [write_all] writes what fits. *)
Definition create_and_write (t : Tree) (path content : string) : Tree * result string string :=
  match walk t (start path) (components path) with
  | None => (t, Err "OSError")
  | Some l =>
      if names_file path && bool_decide (t !! l ≠ Some Dir) && negb (deny Open l) then
        match limit with
        | None => (<[l := File content]> t, Ok path)
        | Some n => (<[l := File (String.substring 0 n content)]> t, Err "OSError")
        end
      else (t, Err "OSError")
  end.

Definition save (f : UploadedFile) (path : string) (overwrite : bool) (t : Tree)
    : Tree * result string string :=
  if path_exists t path && negb overwrite then
    (t, Err ("FileExistsError: File already exists: " +:+ path))
  else
    match create_dir_all t (start path) (removelast (components path)) with
    | (t1, false) => (t1, Err "OSError")
    | (t1, true) => create_and_write t1 path (content f)
    end.

(** [save_to]: the name is the one that the client sent. *)
Definition save_to (f : UploadedFile) (directory : string) (t : Tree) : Tree * result string string :=
  save f (path_join directory (filename f)) false t.
End saving.

(** * Proofs *)

Lemma down_name cur c : c ≠ ".." → down cur c = c :: cur.
Proof. intros Hc. unfold down. by rewrite (proj2 (String.eqb_neq _ _)). Qed.

Lemma removelast_notin (x : string) l : x ∉ l → x ∉ removelast l.
Proof.
  induction l as [|y l IH]; [done|]. intros [H1 H2]%not_elem_of_cons.
  destruct l as [|z l]; [by apply not_elem_of_nil|]. change (x ∉ y :: removelast (z :: l)).
  apply not_elem_of_cons. auto.
Qed.

Lemma suffix_removelast (cs : list string) cur l :
  l `suffix_of` reverse (removelast cs) ++ cur → l `suffix_of` reverse cs ++ cur.
Proof.
  destruct cs as [|c cs _] using rev_ind; [done|]. rewrite removelast_last, reverse_snoc.
  intros [k Hk]. exists (c :: k). rewrite <- app_comm_cons. by rewrite Hk.
Qed.

Lemma suffix_longer (x : string) l k : k `suffix_of` x :: l → k = x :: l ∨ k `suffix_of` l.
Proof. intros [[|y p] Hp]; [by left|]. right. injection Hp as -> ->. by exists p. Qed.

Lemma suffix_shorter (rs s l : list string) : l `suffix_of` rs ++ s → (length l <= length s)%nat → l `suffix_of` s.
Proof.
  induction rs as [|x rs IH]; [done|]. intros [->|Hl]%suffix_longer Hlen; [|by apply IH].
  simpl in Hlen. rewrite length_app in Hlen. lia.
Qed.

Lemma names_file_components path : names_file path = true → components path ≠ [].
Proof.
  unfold names_file, components. destruct (last (str_split "/" path)) as [c|] eqn:E; [|done].
  apply last_Some in E as [l ->]. rewrite filter_app. intros Hc Hf. apply app_eq_nil in Hf as [_ Hf].
  rewrite filter_cons_True in Hf; [done|].
  apply negb_true_iff, orb_false_iff in Hc as [[H1 H2]%orb_false_iff _].
  split; by apply String.eqb_neq.
Qed.

(** Every entry but the root lies in a directory. *)
Definition wf_tree (t : Tree) : Prop := ∀ c l, is_Some (t !! (c :: l)) → t !! l = Some Dir.

Lemma wf_above t k l : wf_tree t → is_Some (t !! (k ++ l)) → is_Some (t !! l).
Proof. intros Hwf. induction k as [|c k IH]; [done|]. intros H. apply IH. rewrite (Hwf c (k ++ l) H). eauto. Qed.

Lemma wf_dirs t k l : wf_tree t → t !! (k ++ l) = Some Dir → t !! l = Some Dir.
Proof. intros Hwf. induction k as [|c k IH]; [done|]. intros H. apply IH, (Hwf c). simpl in H. eauto. Qed.

Section refusals.
Context (deny : access → loc → bool).
Notation walk := (walk deny).
Notation create_dir_all := (create_dir_all deny).

Lemma walk_app t cur cs1 cs2 :
  walk t cur (cs1 ++ cs2) = l ← walk t cur cs1; walk t l cs2.
Proof.
  revert cur. induction cs1 as [|c cs1 IH]; intros cur; [done|]. cbn [app Uploads.walk].
  destruct (t !! cur) as [[|]|]; [|done..]. destruct (deny Search cur); [done|apply IH].
Qed.

Lemma walk_names t cur cs l : ".." ∉ cs → walk t cur cs = Some l → l = reverse cs ++ cur.
Proof.
  revert cur. induction cs as [|c cs IH]; intros cur Hn; [by intros [= ->]|].
  apply not_elem_of_cons in Hn as [Hc Hn]. cbn [Uploads.walk]. destruct (t !! cur) as [[|]|]; [|done..].
  destruct (deny Search cur); [done|].
  rewrite down_name by done. intros ->%IH; [|done]. by rewrite reverse_cons, <- (assoc_L (++)).
Qed.

(** What [create_dir_all] adds are directories on the path, where nothing was. *)
Lemma create_dir_all_adds t cur cs t' b :
  ".." ∉ cs → create_dir_all t cur cs = (t', b) →
  ∀ l, t' !! l = t !! l ∨
       (t !! l = None ∧ t' !! l = Some Dir ∧ l `suffix_of` reverse cs ++ cur ∧ (length cur < length l)%nat).
Proof.
  revert t cur. induction cs as [|c cs IH]; intros t cur Hn; [intros [= <- <-]; auto|].
  apply not_elem_of_cons in Hn as [Hc Hn]. cbn [Uploads.create_dir_all]. rewrite down_name by done.
  rewrite reverse_cons, <- (assoc_L (++)). cbn [app].
  destruct (deny Search cur); [intros [= <- <-]; auto|].
  destruct (t !! (c :: cur)) as [[|ct]|] eqn:E; [| |destruct (deny Make (c :: cur))]; intros H l.
  - destruct (IH _ _ Hn H l) as [|(?&?&?&Hl)]; [by left|right]. cbn [length] in Hl. split_and!; [done..|lia].
  - injection H as <- <-. by left.
  - injection H as <- <-. by left.
  - destruct (IH _ _ Hn H l) as [Hl|(Hl&?&?&Hlen)].
    + destruct (decide (l = c :: cur)) as [->|Hne].
      * rewrite lookup_insert_eq in Hl. right. split_and!; [done..|by exists (reverse cs)|cbn [length]; lia].
      * rewrite lookup_insert_ne in Hl by done. by left.
    + right. destruct (decide (l = c :: cur)) as [->|Hne]; [by rewrite lookup_insert_eq in Hl|].
      rewrite lookup_insert_ne in Hl by done. cbn [length] in Hlen. split_and!; [done..|lia].
Qed.

(** Where the last name exists already, nothing is made. *)
Lemma create_dir_all_exists t cur cs :
  wf_tree t → ".." ∉ cs → is_Some (t !! (reverse cs ++ cur)) → (create_dir_all t cur cs).1 = t.
Proof.
  intros Hwf. revert cur. induction cs as [|c cs IH]; intros cur Hn Hs; [done|].
  apply not_elem_of_cons in Hn as [Hc Hn]. rewrite reverse_cons, <- (assoc_L (++)) in Hs. cbn [app] in Hs.
  cbn [Uploads.create_dir_all]. rewrite down_name by done. destruct (deny Search cur); [done|].
  destruct (wf_above t (reverse cs) (c :: cur) Hwf Hs) as [[|ct] Hx]; rewrite Hx; [by apply IH|done].
Qed.

(** With nothing refused on the path, only a file in its way stops [create_dir_all]. *)
Lemma create_dir_all_iff t cur cs :
  ".." ∉ cs → (∀ a l, l `suffix_of` reverse cs ++ cur → deny a l = false) →
  (create_dir_all t cur cs).2 = true ↔
  ∀ l ct, l `suffix_of` reverse cs ++ cur → (length cur < length l)%nat → t !! l ≠ Some (File ct).
Proof.
  revert t cur. induction cs as [|c cs IH]; intros t cur Hn Hd.
  { split; [|done]. intros _ l ct Hl%suffix_length Hlen. simpl in Hl. lia. }
  apply not_elem_of_cons in Hn as [Hc Hn]. cbn [Uploads.create_dir_all]. rewrite down_name by done.
  rewrite reverse_cons, <- (assoc_L (++)) in *. cbn [app] in *.
  rewrite (Hd Search cur) by (by exists (reverse cs ++ [c]); rewrite <- (assoc_L (++))).
  rewrite (Hd Make (c :: cur)) by (by exists (reverse cs)).
  assert (∀ t0, t0 !! (c :: cur) = Some Dir → (∀ l, l ≠ c :: cur → t0 !! l = t !! l) →
    (∀ ct, t !! (c :: cur) ≠ Some (File ct)) →
    (create_dir_all t0 (c :: cur) cs).2 = true ↔
    ∀ l ct, l `suffix_of` reverse cs ++ c :: cur → (length cur < length l)%nat → t !! l ≠ Some (File ct)) as Hstep.
  { intros t0 H0 Heq Hno. rewrite (IH t0 (c :: cur) Hn Hd). split; intros H l ct Hl Hlen.
    - destruct (decide (l = c :: cur)) as [->|Hne]; [apply Hno|]. rewrite <- Heq by done. apply (H l ct Hl).
      destruct (decide (length l = S (length cur))) as [He|]; [|cbn [length]; lia]. exfalso. apply Hne.
      destruct Hl as [k1 Hk]. apply app_inj_2 in Hk as [_ Hk]; [done|]. simpl. lia.
    - cbn [length] in Hlen. rewrite Heq by (intros ->; simpl in Hlen; lia). apply (H l ct Hl). lia. }
  destruct (t !! (c :: cur)) as [[|ct]|] eqn:E.
  - by apply Hstep.
  - split; [done|]. intros H. by destruct (H (c :: cur) ct); [by exists (reverse cs)|simpl; lia|].
  - apply Hstep; [by rewrite lookup_insert_eq|intros l Hl; by rewrite lookup_insert_ne|done].
Qed.

Lemma create_dir_all_ok t cur cs t' :
  ".." ∉ cs → t !! cur = Some Dir → create_dir_all t cur cs = (t', true) →
  walk t' cur cs = Some (reverse cs ++ cur) ∧ t' !! (reverse cs ++ cur) = Some Dir ∧ t' !! cur = Some Dir.
Proof.
  revert t cur. induction cs as [|c cs IH]; intros t cur Hn Ht; [by intros [= <-]|]. intros H.
  assert (t' !! cur = Some Dir) as Hcur.
  { destruct (create_dir_all_adds _ _ _ _ _ Hn H cur) as [->|(?&?&?&?)]; [done|lia]. }
  apply not_elem_of_cons in Hn as [Hc Hn]. cbn [Uploads.create_dir_all Uploads.walk] in *. rewrite down_name in * by done.
  rewrite reverse_cons, <- (assoc_L (++)). cbn [app]. rewrite Hcur. destruct (deny Search cur); [done|].
  destruct (t !! (c :: cur)) as [[|ct]|] eqn:E; [|done|destruct (deny Make (c :: cur)); [done|]].
  - by destruct (IH t (c :: cur) Hn E H) as (? & ? & ?).
  - destruct (IH (<[c :: cur := Dir]> t) (c :: cur) Hn) as (? & ? & ?); [by rewrite lookup_insert_eq|done..].
Qed.

(** Any outcome of a save whose path has no [..]: the tree changes only at the place of the file. *)
Lemma create_and_write_spec cwd limit t path content :
  ".." ∉ components path →
  let l0 := reverse (components path) ++ start cwd path in
  let '(t', r) := create_and_write cwd deny limit t path content in
  (∀ l, l ≠ l0 → t' !! l = t !! l) ∧ (walk t (start cwd path) (components path) = None → t' = t ∧ is_ok r = false) ∧
  (∀ p, r = Ok p → p = path ∧ t' !! l0 = Some (File content)).
Proof.
  intros Hn l0. unfold create_and_write.
  destruct (walk t (start cwd path) (components path)) as [l|] eqn:Hw; [|by split_and!].
  apply walk_names in Hw as ->; [|done]. fold l0.
  destruct (names_file path && _ && _); [|by split_and!]. destruct limit as [n|].
  - split_and!; [|done|done]. intros l Hl. by rewrite lookup_insert_ne.
  - split_and!; [intros l Hl; by rewrite lookup_insert_ne|done|]. intros p [= <-]. by rewrite lookup_insert_eq.
Qed.

(** A path that does not exist, as [Path::exists] sees it, is free or cannot be reached. *)
Lemma not_exists_free cwd t path :
  ".." ∉ components path → path_exists cwd deny t path = false → names_file path = true →
  t !! (reverse (components path) ++ start cwd path) = None ∨ walk t (start cwd path) (components path) = None.
Proof.
  intros Hn He Hf. destruct (walk t (start cwd path) (components path)) as [l|] eqn:Hw; [|by right]. left.
  pose proof (walk_names _ _ _ _ Hn Hw) as <-. destruct (t !! l) as [x|] eqn:Hx; [|done]. exfalso.
  unfold path_exists, lookup_path in He. rewrite Hw, Hx in He. destruct path; [done|]. by destruct x; [|rewrite Hf in He].
Qed.

Lemma wf_walk t cur cs :
  wf_tree t → ".." ∉ cs → (∀ a l, l `suffix_of` reverse cs ++ cur → deny a l = false) →
  is_Some (t !! (reverse cs ++ cur)) → walk t cur cs = Some (reverse cs ++ cur).
Proof.
  intros Hwf. revert cur. induction cs as [|c cs IH]; intros cur Hn Hd Hs; [done|].
  apply not_elem_of_cons in Hn as [Hc Hn]. rewrite reverse_cons, <- (assoc_L (++)) in *. cbn [app] in *.
  cbn [Uploads.walk]. rewrite (Hwf c cur) by (by eapply wf_above).
  rewrite (Hd Search cur) by (by exists (reverse cs ++ [c]); rewrite <- (assoc_L (++))).
  rewrite down_name by done. by apply IH.
Qed.

(** An existing file that [Path::exists] does not see cannot be reached by the rest of the call either. *)
Lemma free_or_unreached cwd t path :
  ".." ∉ components path → wf_tree t → t !! start cwd path = Some Dir →
  path_exists cwd deny t path = false → names_file path = true →
  t !! (reverse (components path) ++ start cwd path) = None ∨
  (create_dir_all t (start cwd path) (removelast (components path))).1 = t ∧
  walk t (start cwd path) (components path) = None.
Proof.
  intros Hn Hwf Hs He Hf. destruct (not_exists_free cwd t path Hn He Hf) as [H|H]; [by left|].
  destruct (t !! (reverse _ ++ _)) as [x|] eqn:Hx; [|by left]. right. split; [|done].
  apply create_dir_all_exists; [done|by apply removelast_notin|].
  destruct (components path) as [|c cs _] using rev_ind; [cbn; rewrite Hs; eauto|].
  rewrite removelast_last. rewrite reverse_snoc in Hx. apply (wf_above t [c]); [done|]. cbn [app]. eauto.
Qed.

(** Once the directories are there, the place is free and nothing on the path is refused, only a disk
    that is full stops the write. *)
Lemma create_free cwd t t1 path content :
  ".." ∉ components path → names_file path = true → t !! start cwd path = Some Dir →
  create_dir_all t (start cwd path) (removelast (components path)) = (t1, true) →
  (∀ a l, l `suffix_of` reverse (components path) ++ start cwd path → deny a l = false) →
  t !! (reverse (components path) ++ start cwd path) = None →
  create_and_write cwd deny None t1 path content =
    (<[reverse (components path) ++ start cwd path := File content]> t1, Ok path).
Proof.
  intros Hn Hf Hs Hc Hdeny Hfree. pose proof (removelast_notin _ _ Hn) as Hn'.
  destruct (create_dir_all_ok _ _ _ _ Hn' Hs Hc) as (Hw & Hd & _).
  pose proof (create_dir_all_adds _ _ _ _ _ Hn' Hc (reverse (components path) ++ start cwd path)) as Hadd.
  unfold create_and_write. pose proof (names_file_components _ Hf) as Hne.
  revert Hn Hfree Hw Hd Hadd Hdeny. destruct (components path) as [|c cs _] using rev_ind; [done|].
  rewrite removelast_last, reverse_snoc. intros [_ Hc']%not_elem_of_app Hfree Hw Hd Hadd Hdeny.
  rewrite walk_app, Hw. cbn [mbind option_bind Uploads.walk]. rewrite Hd, down_name by set_solver.
  rewrite (Hdeny Search) by (by apply suffix_cons_r). cbn [app] in *. rewrite Hf, Hdeny by done.
  rewrite bool_decide_true; [done|]. intros Hx.
  destruct Hadd as [Hadd|(_ & _ & Hsuf & _)]; [congruence|].
  apply suffix_length in Hsuf. cbn [length] in Hsuf. lia.
Qed.

(** A file in the way is one above the place of the file. *)
Lemma free_iff cwd t path :
  ".." ∉ components path → names_file path = true → wf_tree t → t !! start cwd path = Some Dir →
  t !! (reverse (components path) ++ start cwd path) = None →
  (∀ a l, l `suffix_of` reverse (components path) ++ start cwd path → deny a l = false) →
  (create_dir_all t (start cwd path) (removelast (components path))).2 = true ↔
  ∀ l ct, l `suffix_of` reverse (components path) ++ start cwd path → t !! l ≠ Some (File ct).
Proof.
  intros Hn Hf Hwf Hs Hfree Hdeny.
  rewrite create_dir_all_iff; [|by apply removelast_notin|intros a l Hl; by apply Hdeny, suffix_removelast].
  pose proof (names_file_components _ Hf) as Hne.
  split; intros H l ct Hl; [|intros _; by apply H, suffix_removelast].
  destruct (components path) as [|c cs _] using rev_ind; [done|].
  rewrite removelast_last in H. rewrite reverse_snoc in *. cbn [app] in *.
  apply suffix_longer in Hl as [->|Hl]; [by rewrite Hfree|].
  destruct (decide (length (start cwd path) < length l)%nat); [by apply H|].
  apply suffix_shorter in Hl as [k Hk]; [|lia]. rewrite (wf_dirs t k l); [done..|]. by rewrite <- Hk.
Qed.
End refusals.

Lemma create_not_file cwd deny limit t path content :
  names_file path = false → create_and_write cwd deny limit t path content = (t, Err "OSError").
Proof. intros Hf. unfold create_and_write. rewrite Hf. by destruct (walk _ _ _ _). Qed.

(** C32: Saving an uploaded file, on a file system without symbolic links.  For a path without [..] and
    without [overwrite], whatever the operating system refuses: an existing file is refused and nothing
    that exists changes, whatever the outcome; new directories and the file lie on the path; and a
    successful call leaves the whole content at the place the path names, which was free.  When no
    access on the path is refused and the write is not cut short, a path that names a new file is saved
    exactly when no file stands where a directory is needed. *)
Theorem save_outcome cwd deny limit f path t :
  ".." ∉ components path → t !! start cwd path = Some Dir → wf_tree t →
  let l0 := reverse (components path) ++ start cwd path in
  let '(t', r) := save cwd deny limit f path false t in
  (∀ l x, t !! l = Some x → t' !! l = Some x) ∧
  (∀ l, t' !! l ≠ t !! l → l `suffix_of` l0) ∧
  (path_exists cwd deny t path = true → t' = t ∧ is_ok r = false) ∧
  (∀ p, r = Ok p → p = path ∧ t !! l0 = None ∧ t' !! l0 = Some (File (content f))) ∧
  (limit = None → (∀ a l, l `suffix_of` l0 → deny a l = false) →
   names_file path = true → path_exists cwd deny t path = false →
   (is_ok r = true ↔ ∀ l ct, l `suffix_of` l0 → t !! l ≠ Some (File ct))).
Proof.
  intros Hn Hs Hwf l0. unfold save. destruct (path_exists cwd deny t path) eqn:He; cbn [negb andb].
  { by split_and!. }
  destruct (create_dir_all deny t (start cwd path) (removelast (components path))) as [t1 b] eqn:Hc.
  pose proof (create_dir_all_adds _ _ _ _ _ _ (removelast_notin _ _ Hn) Hc) as Hadd.
  assert (∀ l x, t !! l = Some x → t1 !! l = Some x) as Hkeep.
  { intros l x Hl. destruct (Hadd l) as [->|(?&?&?&?)]; [done|congruence]. }
  assert (∀ l, t1 !! l ≠ t !! l → l `suffix_of` l0) as Hway.
  { intros l Hl. destruct (Hadd l) as [|(?&?&?&?)]; [done|]. by apply suffix_removelast. }
  destruct (names_file path) eqn:Hf; [|by destruct b; [rewrite create_not_file by done|]; split_and!].
  pose proof (free_or_unreached deny cwd t path Hn Hwf Hs He Hf) as Hfree. rewrite Hc in Hfree. fold l0 in Hfree. cbn [fst] in Hfree.
  assert ((∀ a l, l `suffix_of` l0 → deny a l = false) → t !! l0 = None ∧
    (b = true ↔ ∀ l ct, l `suffix_of` l0 → t !! l ≠ Some (File ct))) as Hiff.
  { intros Hd. assert (t !! l0 = None) as Hnone.
    { destruct Hfree as [|[_ Hw]]; [done|]. destruct (t !! l0) eqn:Hx; [|done]. rewrite (wf_walk deny t _ _ Hwf Hn Hd) in Hw; [done|]. fold l0. rewrite Hx. eauto. }
    split; [done|]. pose proof (free_iff deny cwd t path Hn Hf Hwf Hs Hnone Hd) as Hi. by rewrite Hc in Hi. }
  destruct b; [|split_and!; [done..|]; intros _ Hd _ _; by apply Hiff].
  pose proof (create_and_write_spec deny cwd limit t1 path (content f) Hn) as Hspec. cbv zeta in Hspec. fold l0 in Hspec.
  destruct (create_and_write cwd deny limit t1 path (content f)) as [t' r] eqn:Hcw. destruct Hspec as (Hother & Hun & Hok).
  split_and!; [| |done| |].
  - intros l x Hl. destruct Hfree as [Hnone|[-> Hw]]; [rewrite Hother by congruence; auto|].
    by destruct (Hun Hw) as [-> _].
  - intros l Hl. destruct (decide (l = l0)) as [->|Hne]; [done|]. rewrite Hother in Hl by done. auto.
  - intros p ->. destruct (Hok p eq_refl) as [? ?]. destruct Hfree as [Hnone|[-> Hw]]; [done|].
    by destruct (Hun Hw).
  - intros -> Hd _ _. destruct (Hiff Hd) as [Hnone Hb]. rewrite <- Hb.
    rewrite (create_free deny cwd t t1) in Hcw by done. by injection Hcw as <- <-.
Qed.

(** A name without a slash that is not [..] is saved inside the directory. *)
Lemma components_name n : n ≠ "" → n ≠ "." → str_contains_char "/" n = false → components n = [n].
Proof.
  intros H1 H2 H3. unfold components.
  assert (str_split "/" n = [n]) as ->; [|by rewrite filter_cons_True].
  clear H1 H2. induction n as [|c n IH]; [done|]. cbn [str_contains_char] in H3.
  apply orb_false_iff in H3 as [Hc Hn]. cbn [str_split]. by rewrite Hc, IH.
Qed.

(** [save_to] trusts the client's file name: an absolute one ignores the directory, [..] leaves it,
    and a component that does not exist yet hides the existing file from the check. *)
Definition demo_tree : Tree :=
  <[["etc"] := Dir]> (<[["uploads"; "srv"] := Dir]> (<[["config.py"; "uploads"; "srv"] := File "safe"]>
    (<[["srv"] := Dir]> (<[[] := Dir]> ∅)))).
Definition demo_upload (n : string) : UploadedFile := uploaded_file_new "f" n "text/plain" "evil".

Definition allowed : access → loc → bool := λ _ _, false.

Example absolute_name_escapes :
  (save_to ["srv"] allowed None (demo_upload "/etc/cron") "uploads" demo_tree).1 !! ["cron"; "etc"] = Some (File "evil").
Proof. vm_compute. reflexivity. Qed.

Example dotdot_name_escapes :
  (save_to ["srv"] allowed None (demo_upload "../app.py") "uploads" demo_tree).1 !! ["app.py"; "srv"] = Some (File "evil").
Proof. vm_compute. reflexivity. Qed.

Example dotdot_name_overwrites :
  (save_to ["srv"] allowed None (demo_upload "x/../config.py") "uploads" demo_tree).1 !! ["config.py"; "uploads"; "srv"]
  = Some (File "evil").
Proof. vm_compute. reflexivity. Qed.

(** * Witness *)

(** A saved file, with nothing refused; and one whose directory cannot be written. *)
Definition read_only : access → loc → bool := λ a _, match a with Search => false | _ => true end.

Lemma demo_tree_wf : wf_tree demo_tree.
Proof.
  intros c l [x Hx]. unfold demo_tree in Hx.
  repeat (apply lookup_insert_Some in Hx as [[Hx _]|[_ Hx]];
          [first [discriminate Hx | injection Hx as <- <-; reflexivity]|]).
  by rewrite lookup_empty in Hx.
Qed.

Lemma save_outcome_witness :
  (let '(t', r) := save ["srv"] allowed None (demo_upload "a.txt") "uploads/new/a.txt" false demo_tree in
   (∀ l x, demo_tree !! l = Some x → t' !! l = Some x) ∧ r = Ok "uploads/new/a.txt" ∧
   (is_ok r = true ↔ ∀ l ct, l `suffix_of` ["a.txt"; "new"; "uploads"; "srv"] → demo_tree !! l ≠ Some (File ct))) ∧
  save ["srv"] read_only None (demo_upload "a.txt") "uploads/new/a.txt" false demo_tree = (demo_tree, Err "OSError").
Proof.
  split; [|vm_compute; reflexivity].
  assert (".." ∉ components "uploads/new/a.txt") as Hn by (apply (bool_decide_unpack _); vm_compute; exact I).
  pose proof (save_outcome ["srv"] allowed None (demo_upload "a.txt") "uploads/new/a.txt" demo_tree Hn eq_refl demo_tree_wf) as H.
  destruct (save ["srv"] allowed None (demo_upload "a.txt") "uploads/new/a.txt" false demo_tree) as [t' r] eqn:E.
  destruct H as (H1 & _ & _ & _ & H5).
  split; [exact H1|]. split; [by injection E as _ <-|]. apply H5; reflexivity.
Defined.
