(* ===== verification/Services.v ===== *)
(** The clients of external services: the Redis pool (src/src/redis/mod.rs) and the gRPC
    configuration (src/src/grpc/mod.rs).  The pool, the server and the conversion of its replies
    are parameters. *)
From S2P Require Import Prelude.
From stdpp Require Import base strings list pretty.
Open Scope Z_scope.

(** * Redis *)

(** The commands as the client sends them; an expiry is a signed number of seconds. *)
Inductive command :=
| GET (key : string)
| SET (key value : string)
| SETEX (key : string) (seconds : Z) (value : string)
| DEL (key : string)
| EXPIRE (key : string) (seconds : Z)
| INCRBY (key : string) (delta : Z)
| PUBLISH (channel message : string)
| PING.

Section redis.
(** A server state, its answer to a command, taking a connection from the pool, and the
    conversions of a reply to the Rust types that are asked for. *)
Context {W reply : Type}.
Context (get_connection : W → W * result string unit) (query : command → W → W * result string reply).
Context (as_string_opt : reply → result string (option string)) (as_unit : reply → result string unit).
Context (as_u64 as_i64 : reply → result string Z) (as_bool : reply → result string bool).
Context (as_string : reply → result string string).

(** [block_on]: a connection, one command, the reply converted; each error is a RuntimeError. *)
Definition call {A} (c : command) (convert : reply → result string A) (w : W) : W * result string A :=
  match get_connection w with
  | (w, Err e) => (w, Err e)
  | (w, Ok _) => match query c w with (w, Err e) => (w, Err e) | (w, Ok r) => (w, convert r) end
  end.

Definition redis_get (key : string) : W → W * result string (option string) := call (GET key) as_string_opt.
Definition redis_set (key value : string) (ex : option Z) : W → W * result string unit :=
  match ex with
  | Some seconds => call (SETEX key seconds value) as_unit
  | None => call (SET key value) as_unit
  end.
Definition redis_delete (key : string) : W → W * result string Z := call (DEL key) as_u64.
(** [seconds as i64] *)
Definition redis_expire (key : string) (seconds : Z) : W → W * result string bool :=
  call (EXPIRE key (i64 seconds)) as_bool.
Definition redis_incr (key : string) : W → W * result string Z := call (INCRBY key 1) as_i64.
Definition redis_publish (channel message : string) : W → W * result string Z :=
  call (PUBLISH channel message) as_u64.
Definition redis_ping (w : W) : W * result string bool :=
  match call PING as_string w with (w, Ok _) => (w, Ok true) | (w, Err e) => (w, Err e) end.

(** A time to live beyond 63 bits is sent as a negative one, which deletes the key. *)
Lemma expire_wraps key n :
  0 ≤ n < 2 ^ 63 → redis_expire key (2 ^ 63 + n) = call (EXPIRE key (n - 2 ^ 63)) as_bool.
Proof.
  intros Hn. unfold redis_expire. replace (i64 (2 ^ 63 + n)) with (n - 2 ^ 63); [done|]. unfold i64.
  replace (2 ^ 63 + n + 2 ^ 63) with (n + 1 * 2 ^ 64) by lia. rewrite Z.mod_add, Z.mod_small; lia.
Qed.

(** A command is sent once, and only over a connection. *)
Lemma call_spec {A} c (convert : reply → result string A) w :
  match get_connection w with
  | (w', Err e) => call c convert w = (w', Err e)
  | (w', Ok _) => (call c convert w).1 = (query c w').1
  end.
Proof.
  unfold call. destruct (get_connection w) as [w' [[]|e]]; [|done]. by destruct (query c w') as [w'' [r|e]].
Qed.
End redis.

(** * gRPC *)

Record GrpcConfig := mkGrpcConfig { host : string; port : Z }.
Record GrpcServer := mkGrpcServer { grpc_config : GrpcConfig; grpc_running : bool }.

Definition grpc_new (config : option GrpcConfig) : GrpcServer :=
  mkGrpcServer (default (mkGrpcConfig "0.0.0.0" 50051) config) false.
Definition address (s : GrpcServer) : string := host (grpc_config s) +:+ ":" +:+ dec (port (grpc_config s)).
Definition is_running (s : GrpcServer) : bool := grpc_running s.
