(* ===== verification/PyRequest.v ===== *)
(** What the Python request object gives of its headers and body (src/src/http/request.rs). *)
From S2P Require Import Prelude Method Request PyValue Json.
From stdpp Require Import base gmap strings list.
Open Scope Z_scope.

Section getters.
Context `{HI : !HashIter string string}.
Context (from_slice : string → result string json).

Definition py_headers (r : Request) : py :=
  PDict ((λ kv : string * string, (PStr kv.1, PStr kv.2)) <$> hiter (headers r : gmap string string)).

Definition body_bytes (r : Request) : py := PBytes (default "" (body r)).

Definition request_json (r : Request) : result string py :=
  match body r with
  | Some bytes => parse_json_to_py from_slice bytes
  | None => Ok PNone
  end.
End getters.
